(* ===== verification/_CoqProject ===== *)
-Q . S2P
Prelude.v
Memory.v
Ownership.v
GoTypes.v
DeepCopy.v
CopyTemplate.v
Copies.v
GoStrings.v
Regex.v
Json.v
JsonText.v
K8s.v
ApiTypes.v
Interaction.v
Status.v
External.v
Names.v
ShorthandKeys.v
Metadata.v
ShorthandValues.v
NetCIDR.v
NetpolCommon.v
Definitions.v
NetpolDefaults.v
NetpolShorthand.v
NetpolFlows.v
Netpols.v
Istio.v
Confined.v
Sharing.v
RouteDecode.v
IngressConfig.v
Routes.v
Authz.v
AuthzFlows.v
Generator.v
ObjectNames.v
Posture.v
Prune.v
Reconcile.v
Protocol.v
Cluster.v
Convergence.v
Enforced.v
Access.v
Manager.v
