(* ===== verification/Prelude.v ===== *)
(** * Verification of bigbang-operator

    bigbang-operator is a Kubernetes controller.  For every [Package] object it
    generates network policies, Istio objects, routes and authorization policies
    from a short notation, applies them with server-side apply, deletes what an
    earlier generation left behind and reports in the status of the [Package].
    This library models the operator and proves what it promises.

    ** Parts of the program and of the library

    - [src/pkg/generator] turns a [Package] and a shared configuration into a
      list of objects.  It is pure: [Generator.v] has [Generate], its passes in
      the order of the code, on top of one file per part:
      [Names.v] (names.go, util.go), [ShorthandKeys.v] (the regular expressions
      and parsers of shorthand.go), [ShorthandValues.v] (its JSON decoders and
      the metadata merge), [Metadata.v] (metadata.go), [NetpolCommon.v]
      (networkpolicies.go), [Definitions.v] (definitions.go), [NetpolDefaults.v]
      (networkpolicies_defaults.go), [NetpolShorthand.v]
      (networkpolicies_shorthand.go), [Netpols.v] (the network policy pass and
      hbone.go), [Istio.v] (istio.go), [RouteDecode.v] and [Routes.v]
      (routes.go), [IngressConfig.v] (globalconfig.go, ingressconfig.go) and
      [Authz.v] (authorizationpolicies.go).
    - [src/internal/controller] is the reconciler: [Status.v] (status.go),
      [Prune.v] (prune.go) and [Reconcile.v] (package_controller.go and the use
      of metrics.go), written as programs over [Interaction.v].
    - [src/cmd/main.go] starts it: [Manager.v].
    - [src/api/v1alpha1] are the types: [ApiTypes.v].  [K8s.v] has the third
      party's objects that the generator emits.
    - [zz_generated.deepcopy.go] are the copies of the types: [DeepCopy.v] has its
      148 methods statement by statement, over a memory with references
      ([Memory.v]) and the shapes of the types ([GoTypes.v]).  [CopyTemplate.v] is
      the rule they are generated by and its correctness, [Copies.v] that every
      method follows it, [Ownership.v] what a value holds and which memory it
      uses, [Confined.v] what a statement cannot reach.  [Sharing.v] has the
      part of the generator where references matter: the objects that take over
      label maps of the package (custom AuthorizationPolicies and ServiceEntries,
      additional NetworkPolicies), and the HBONE label and the stamping, which
      write into these maps.
    - Below these: [GoStrings.v] (package strings and strconv), [Regex.v]
      (regular expressions by derivatives), [Json.v] (encoding/json as far as it
      is used), [JsonText.v] (which texts occur in a printed document),
      [NetCIDR.v] (net.ParseCIDR and Contains), [External.v] (what
      other libraries do, as parameters), and this file.
    - Theorems about parts together: [ObjectNames.v] (the names of all that is
      generated), [NetpolFlows.v] and [AuthzFlows.v] (what
      the policies of one pass allow), [Posture.v] (what the whole of the
      generated objects lets through), [Protocol.v] (the order of the calls),
      [Cluster.v] and [Convergence.v] (what a reconcile does to the cluster),
      [Enforced.v] (what the cluster then lets through), [Access.v] (the calls
      against the operator's role).

    Definitions have the names of the Go functions and types; a loop body or a
    passage that several functions share has a name of its own.

    ** How Go is modelled

    - A function that returns a value and an error is an [outcome]: [Ok], [Err],
      or one of the two results its type does not show, [Panics] (index out of
      range, nil dereference) and [Diverges] (a loop that does not stop).
      Errors keep their texts and what they wrap; an error of encoding/json is
      opaque.
    - [int], [int32] and [uint32] are [Z] with the wrap-around of the conversions
      written out.  Strings are bytes; [ToUpper] and [ToLower] map ASCII only.
    - A map is a [gmap]; where nil and empty are told apart it is a [gomap].
      [range] over a map that the code sorts first is [for_sorted]; the one
      unsorted loop (selectorFromTyped) affects only which of several errors is
      reported.  Objects are values: no two objects of a
      run share a map that is written to, and no pass reads the spec of the
      package after the first write.  (The labels of the objects that take over
      maps of the package are written into these maps, which [Sharing.v] models;
      the package is a copy, and the API server takes nothing but the status from
      the updates it is sent in.)
    - The memory of [Memory.v] maps locations to blocks: a variable, the array
      under a slice, or a map.  A reference is a place, that is a block, an index
      and a path of fields; a type says what the values of a place look like.  A
      statement runs in a memory and leaves one, or panics.  [range] over a map
      goes in any order ([MapOrder]), and [make] gets a location that is not in
      use.  [ApiTypes.v] and [GoTypes.v] describe the same declarations, as pure
      values and as shapes.
    - JSON is a tree [json] with a printer; decoders work on documents.  Field
      names are matched without regard to case and the last duplicate wins, as in
      encoding/json.
    - [for p := a; p <= b; p++] over ports has fuel: one step more than there are
      numbers from [a] to [b].  That this is enough whenever the loop ends, and
      that it never ends when [b] is the largest [int], is proved
      ([Authz.port_loop_termination]); running out of fuel is [Diverges].  Other
      recursions are structural, but for printing a number, whose fuel is its
      number of bits.
    - The reconciler is a tree of calls ([prog]): every call to the API server,
      the clock, the recorder and the metrics is answered by the environment.
      [run] executes it against a handler and records the trace; [wp] proves
      what holds for every environment ([wp_adequate]); [returns_under] that it
      returns; [issues] which calls it can make at all.  Time is a [Z] whose 0 is
      the zero time.  sort.Slice is a stable sort, which is the only result when
      kinds and names differ.
    - Code outside the repository is a parameter: class [Ext] (intstr, the name
      validators, the strict YAML decoder, the decoders of typed specs),
      [ControllerExt] (error texts, IsNotFound, the texts of kinds), [ManagerExt]
      (controller-runtime's manager, schemes, library flags), [ExternalTypes] and
      [ExternalMethods] (the types of other packages and their copy methods).
      What is relied on is stated in classes of laws ([IntStrLaws],
      [IntStrJsonLaws], [ExtReturns], [DNSLaws], [YamlReturns], [ManagerLaws],
      [ExternalCopies], and for the API server [ApiServer] and [ObligingServer],
      to which [Enforced.v] adds [ServerSideApply]: what an apply stores of a spec
      of which nobody else owns a field, with the defaults of the server filled
      in; fields of other managers stay); each
      has an instance, and every theorem with hypotheses a witness that applies
      it to a concrete input.  Istio specs that users write are kept as documents
      ([_decoded]).

    ** What is proved

    - Posture.  Against a semantics of NetworkPolicies and one of Istio's
      AuthorizationPolicies, the objects of a whole run let through exactly what
      the defaults, the enabled shorthand entries, the routes and the additional
      policies of the spec ask for: nothing more but HBONE, and no entry is lost
      ([Posture.Generate_posture], [Posture.Generate_mesh]).  Per pass:
      [NetpolFlows.expandShorthandEgress_refines],
      [NetpolFlows.expandShorthandIngress_refines]; the two policies of one entry
      decide alike ([AuthzFlows.companions_agree]).
    - The generated set.  Every object is well formed, labelled, owned and of the
      package's namespace ([Generator.Generate_well_formed]), under a name the API
      server takes if what the spec names has one ([ObjectNames.Generate_named]);
      the baseline is there unless it is switched off
      ([Generator.Generate_baseline]); routes open one gateway to one port
      ([Routes.generateRoutes_least_privilege]); every policy of the
      shorthand and the routes admits exactly the callers that one entry or route
      names ([AuthzFlows.authz_names_callers]); generation ends
      ([Generator.Generate_total]).
    - The notation.  The parsers decide their grammars and give back what was
      written ([ShorthandKeys]); the string labels, blocks and ports of definitions survive decoding, and
      definitions are looked up in layers ([Definitions]); the exclusions of an
      IPv4 block are those inside it ([NetpolCommon.applyExcludeCIDRs_contained]);
      HBONE ports, metadata and the shared configuration do what they document.
    - The controller.  The order of its calls and what is true at each, for every
      answer ([Protocol.Reconcile_protocol]); every failure is reported
      ([Protocol.Reconcile_reports]); it returns ([Reconcile.Reconcile_total]);
      success means that the cluster has converged
      ([Cluster.Reconcile_converges]); on a server that obliges it succeeds from
      any state ([Convergence.Reconcile_succeeds]), and a second reconcile changes
      nothing ([Convergence.Reconcile_fixpoint]); the policies that are then stored
      in the namespace decide as the spec says ([Enforced]); conditions follow kstatus
      ([Status]); its role covers its calls ([Access.rbac_sufficient]).
    - The copies.  Every generated copy method returns, for every well-typed value
      in every memory, the same contents in fresh memory, and changes nothing else
      ([Copies.DeepCopy_copies]); so neither of original and copy is affected by
      what is done to the other ([Copies.DeepCopy_isolates]); the generator, which
      writes into the package it is given, does not reach the cached package the
      copy was made from ([Sharing.generation_spares_cache]).
    - The process.  The command line round-trips, the process ends with the code
      of its first failure, the servers are closed by default, and the cache
      holds what the reconciler reads ([Manager]).
    - Where the code departs from what it means to do or from what its documents
      say, a theorem shows it:
      [Authz.port_loop_termination], [NetpolShorthand.buildNetpolPorts_truncates],
      [NetpolShorthand.egress_names_collide], [Authz.authz_names_collide],
      [NetpolCommon.applyExcludeCIDRs_same_network],
      [NetpolCommon.applyExcludeCIDRs_mapped], [Definitions.expressions_dropped],
      [Authz.ambient_not_forced], [Reconcile.kubeAPI_label_looked_up],
      [AuthzFlows.identity_of_any_namespace_admits_nobody],
      [ObjectNames.accepted_keys_without_names] and
      [Sharing.stamping_writes_into_the_package].

    ** Not modelled

    - References in the generator but for the objects of [Sharing.v], and the
      copies of metav1's and apiextensions' types, which are parameters.
    - Logging, the registration of the metrics, TLS certificates and everything
      controller-runtime does with the options it is given: the informers and
      caches, the work queue, leader election, the HTTP servers.
    - The length of names, and the forms of labels and annotations.
    - What is stored when several managers own fields of one object: the theorems
      of [Enforced.v] leave such objects out.
    - Named ports in the semantics of NetworkPolicies: they match nothing there,
      for the ports of a pod are not part of the model.  In the semantics of
      AuthorizationPolicies, policies of other actions than ALLOW and the
      documents of custom policies. *)

From stdpp Require Export base tactics option list gmap strings sorting.
From Stdlib Require Export Ascii ZArith Lia.

(** ** Outcomes of Go code

    A Go function that returns [(T, error)] yields [Ok] or [Err].  Two more
    outcomes are behaviours the type does not show: a runtime panic (index out
    of range) and a loop that never returns. *)

Inductive error :=
  | Errorf (msg : string)                       (* fmt.Errorf without %w *)
  | Wrapf (prefix : string) (cause : error)     (* fmt.Errorf("<prefix>: %w", cause) *)
  | WrapIn (prefix : string) (cause : error) (suffix : string)   (* fmt.Errorf("<prefix>%w<suffix>", cause) *)
  | JsonError                                   (* an error of encoding/json *)
  | LibError (text : string).                   (* an error a library returned *)

Inductive outcome (A : Type) :=
  | Ok (a : A)
  | Err (e : error)
  | Panics
  | Diverges.
Arguments Ok {A} a.
Arguments Err {A} e.
Arguments Panics {A}.
Arguments Diverges {A}.

#[export] Instance outcome_ret : MRet outcome := @Ok.
#[export] Instance outcome_bind : MBind outcome := λ A B f m,
  match m with
  | Ok a => f a
  | Err e => Err e
  | Panics => Panics
  | Diverges => Diverges
  end.
#[export] Instance outcome_fmap : FMap outcome := λ A B f m,
  match m with
  | Ok a => Ok (f a)
  | Err e => Err e
  | Panics => Panics
  | Diverges => Diverges
  end.

#[export] Instance error_eq_dec : EqDecision error.
Proof. solve_decision. Defined.
#[export] Instance outcome_eq_dec `{EqDecision A} : EqDecision (outcome A).
Proof. solve_decision. Defined.

(** [wrap p m]: [if err != nil { return nil, fmt.Errorf("p: %w", err) }]. *)
Definition wrap {A} (prefix : string) (m : outcome A) : outcome A :=
  match m with
  | Err e => Err (Wrapf prefix e)
  | _ => m
  end.

Definition is_Ok {A} (m : outcome A) : Prop := ∃ a, m = Ok a.
Definition is_Err {A} (m : outcome A) : Prop := ∃ e, m = Err e.

(** The code returned: with a value or with an error. *)
Definition returns {A} (m : outcome A) : Prop :=
  match m with Ok _ | Err _ => True | _ => False end.

(** A Go index expression that is out of range panics. *)
Definition index {A} (l : list A) (i : nat) : outcome A :=
  match l !! i with
  | Some x => Ok x
  | None => Panics
  end.

(** A loop [for _, x := range l { ...; out = append(out, ys...) }] whose body
    may return early with an error. *)
Fixpoint collect {A B} (f : A → outcome (list B)) (l : list A) : outcome (list B) :=
  match l with
  | [] => Ok []
  | x :: l => ys ← f x; zs ← collect f l; Ok (ys ++ zs)
  end.

(** The same with one element per iteration. *)
Fixpoint traverse {A B} (f : A → outcome B) (l : list A) : outcome (list B) :=
  match l with
  | [] => Ok []
  | x :: l => y ← f x; ys ← traverse f l; Ok (y :: ys)
  end.

(** ** Tactics *)

(** Case analysis on the outcome a bind inspects, anywhere in the context. *)
Ltac outcome_step :=
  match goal with
  | H : context [@mbind outcome _ _ _ _ ?m] |- _ =>
      lazymatch m with
      | Ok _ => fail
      | _ => destruct m eqn:?; simpl in H; simplify_eq
      end
  end.
Ltac outcome_inv := simpl in *; simplify_eq; repeat (outcome_step; simpl in *; simplify_eq).

(** Split every boolean conjunction and disjunction in the context. *)
Ltac bool_inv :=
  repeat match goal with
  | H : andb _ _ = true |- _ => apply andb_true_iff in H as [? ?]
  | H : orb _ _ = false |- _ => apply orb_false_iff in H as [? ?]
  | H : negb _ = true |- _ => apply negb_true_iff in H
  | H : negb _ = false |- _ => apply negb_false_iff in H
  end.

Create HintDb go.

(** ** Lemmas on outcomes *)

#[export] Instance Ok_inj {A} : Inj (=) (=) (@Ok A).
Proof. by intros ?? [= ->]. Qed.

Lemma bind_Ok {A B} (f : A → outcome B) (m : outcome A) b :
  m ≫= f = Ok b ↔ ∃ a, m = Ok a ∧ f a = Ok b.
Proof. destruct m; simpl; naive_solver. Qed.

Lemma bind_returns {A B} (f : A → outcome B) (m : outcome A) :
  returns m → (∀ a, m = Ok a → returns (f a)) → returns (m ≫= f).
Proof. destruct m; simpl; naive_solver. Qed.

(** The value of a run that succeeds, for runs on concrete inputs: whether it
    succeeds is decided by computation, and its value is not written out. *)
Definition ok_b {A} (m : outcome A) : bool := match m with Ok _ => true | _ => false end.
Definition ok_value {A} (d : A) (m : outcome A) : A := match m with Ok a => a | _ => d end.
Lemma ok_by_compute {A} (d : A) (m : outcome A) : ok_b m = true → m = Ok (ok_value d m).
Proof. by destruct m. Qed.

Lemma wrap_Ok {A} p (m : outcome A) a : wrap p m = Ok a ↔ m = Ok a.
Proof. destruct m; simpl; naive_solver. Qed.

Lemma wrap_returns {A} p (m : outcome A) : returns (wrap p m) ↔ returns m.
Proof. by destruct m. Qed.

Lemma returns_Ok {A} (a : A) : returns (Ok a).
Proof. done. Qed.
Lemma returns_Err {A} e : returns (@Err A e).
Proof. done. Qed.

#[export] Hint Resolve returns_Ok returns_Err bind_returns : go.

(** Take a successful run apart: every bind, every wrapped error, every branch
    that would have failed. *)
Ltac bind_step :=
  match goal with
  | H : _ ≫= _ = Ok _ |- _ => apply bind_Ok in H as (? & ? & H)
  | H : wrap _ _ = Ok _ |- _ => apply wrap_Ok in H
  | H : Ok ?x = Ok ?y |- _ => apply (inj Ok) in H; first [subst x|subst y|idtac]
  | H : Err _ = Ok _ |- _ => discriminate H
  | H : Panics = Ok _ |- _ => discriminate H
  | H : Diverges = Ok _ |- _ => discriminate H
  | H : context [let '(_, _) := ?p in _] |- _ => is_var p; destruct p
  | H : (if ?b then _ else _) = Ok _ |- _ => destruct b eqn:?
  | H : match ?o with Some _ => _ | None => _ end = Ok _ |- _ => destruct o eqn:?
  end.
Ltac bind_inv := repeat bind_step.

Lemma collect_nil {A B} (f : A → outcome (list B)) : collect f [] = Ok [].
Proof. done. Qed.

Lemma collect_app {A B} (f : A → outcome (list B)) l1 l2 :
  collect f (l1 ++ l2) = xs ← collect f l1; ys ← collect f l2; Ok (xs ++ ys).
Proof.
  induction l1 as [|x l1 IH]; simpl; [by destruct (collect f l2)|].
  destruct (f x); simpl; [|done..]. rewrite IH.
  destruct (collect f l1); simpl; [|done..].
  destruct (collect f l2); simpl; [|done..]. by rewrite app_assoc.
Qed.

(** A successful loop ran its body successfully on every element, and emitted
    exactly what the bodies emitted. *)
Lemma collect_Ok {A B} (f : A → outcome (list B)) l out :
  collect f l = Ok out ↔ ∃ yss, Forall2 (λ x ys, f x = Ok ys) l yss ∧ out = concat yss.
Proof.
  revert out. induction l as [|x l IH]; intros out; simpl.
  - split; [intros [= <-]; by exists []|intros (yss & H & ->); by inversion H].
  - rewrite bind_Ok. setoid_rewrite bind_Ok. setoid_rewrite IH. split.
    + intros (ys & Hx & zs & (yss & Hl & ->) & [= <-]). exists (ys :: yss). by split; [constructor|].
    + intros (yss & H & ->). inversion H as [|? ys ? yss' Hx Hl]; subst.
      exists ys. split; [done|]. exists (concat yss'). naive_solver.
Qed.

Lemma collect_elem_of {A B} (f : A → outcome (list B)) l out y :
  collect f l = Ok out → y ∈ out ↔ ∃ x ys, x ∈ l ∧ f x = Ok ys ∧ y ∈ ys.
Proof.
  revert out. induction l as [|x l IH]; intros out; simpl.
  - intros [= <-]. split; [by intros ?%elem_of_nil|by intros (?&?&?%elem_of_nil&_)].
  - intros (ys & Hx & (zs & Hl & [= <-])%bind_Ok)%bind_Ok.
    rewrite elem_of_app, (IH _ Hl). split.
    + intros [Hy|(x' & ys' & Hx' & Hf & Hy)].
      * exists x, ys. split_and!; [left|done|done].
      * exists x', ys'. split_and!; [by right|done|done].
    + intros (x' & ys' & [->|Hx']%elem_of_cons & Hf & Hy); [left; congruence|].
      right. by exists x', ys'.
Qed.

Lemma collect_Forall {A B} (P : B → Prop) (f : A → outcome (list B)) l out :
  collect f l = Ok out → (∀ x ys, x ∈ l → f x = Ok ys → Forall P ys) → Forall P out.
Proof.
  intros Hout Hf. apply Forall_forall. intros y Hy.
  apply (collect_elem_of _ _ _ _ Hout) in Hy as (x & ys & Hx & Hys & Hy).
  specialize (Hf x ys Hx Hys). rewrite Forall_forall in Hf. auto.
Qed.

Lemma collect_returns {A B} (f : A → outcome (list B)) l :
  (∀ x, x ∈ l → returns (f x)) → returns (collect f l).
Proof.
  induction l as [|x l IH]; intros Hf; simpl; [done|].
  apply bind_returns; [set_solver|]. intros ys _.
  apply bind_returns; [apply IH; set_solver|done].
Qed.

(** The first failing iteration ends the loop with its error. *)
Lemma collect_Err_first {A B} (f : A → outcome (list B)) l1 x l2 out e :
  collect f l1 = Ok out → f x = Err e → collect f (l1 ++ x :: l2) = Err e.
Proof. intros H1 Hx. rewrite collect_app, H1. simpl. by rewrite Hx. Qed.

Lemma traverse_Ok {A B} (f : A → outcome B) l out :
  traverse f l = Ok out ↔ Forall2 (λ x y, f x = Ok y) l out.
Proof.
  revert out. induction l as [|x l IH]; intros out; simpl.
  - split; [intros [= <-]; constructor|by inversion 1].
  - rewrite bind_Ok. setoid_rewrite bind_Ok. setoid_rewrite IH. split.
    + intros (y & Hx & ys & Hl & [= <-]). by constructor.
    + inversion 1; subst. naive_solver.
Qed.

Lemma traverse_returns {A B} (f : A → outcome B) l :
  (∀ x, x ∈ l → returns (f x)) → returns (traverse f l).
Proof.
  induction l as [|x l IH]; intros Hf; simpl; [done|].
  apply bind_returns; [set_solver|]. intros y _.
  apply bind_returns; [apply IH; set_solver|done].
Qed.

Lemma index_Ok {A} (l : list A) i x : index l i = Ok x ↔ l !! i = Some x.
Proof. unfold index. destruct (l !! i); naive_solver. Qed.

Lemma index_returns {A} (l : list A) i : returns (index l i) ↔ i < length l.
Proof.
  unfold index. rewrite <-lookup_lt_is_Some. unfold is_Some.
  destruct (l !! i); simpl; naive_solver.
Qed.

(** ** Go maps

    A Go map is [nil] or allocated; the code tells the two apart in a few
    places, so the model keeps the difference. *)
Abbreviation gomap A := (option (gmap string A)).

Definition contents {A} (m : gomap A) : gmap string A := default ∅ m.

Lemma contents_nil {A} : contents (None : gomap A) = ∅.
Proof. done. Qed.
Lemma contents_Some {A} (m : gmap string A) : contents (Some m) = m.
Proof. done. Qed.

(** [len(m)], of a map. *)
Definition maplen {A} (m : gomap A) : nat := size (contents m).

Lemma maplen_zero {A} (m : gomap A) : maplen m = 0 ↔ contents m = ∅.
Proof. unfold maplen. apply map_size_empty_iff. Qed.

(** ** Machine integers of the source *)
Definition MaxInt64 : Z := 9223372036854775807.
Definition MinInt64 : Z := -9223372036854775808.

Definition int64_wrap (z : Z) : Z :=
  ((z + 9223372036854775808) mod 18446744073709551616 - 9223372036854775808)%Z.
Definition int32_wrap (z : Z) : Z :=
  ((z + 2147483648) mod 4294967296 - 2147483648)%Z.
Definition uint32_wrap (z : Z) : Z := (z mod 4294967296)%Z.

Lemma int64_wrap_id z : (MinInt64 ≤ z ≤ MaxInt64)%Z → int64_wrap z = z.
Proof. unfold int64_wrap, MinInt64, MaxInt64. intros. rewrite Z.mod_small; lia. Qed.
Lemma int32_wrap_id z : (-2147483648 ≤ z < 2147483648)%Z → int32_wrap z = z.
Proof. unfold int32_wrap. intros. rewrite Z.mod_small; lia. Qed.
Lemma uint32_wrap_id z : (0 ≤ z < 4294967296)%Z → uint32_wrap z = z.
Proof. unfold uint32_wrap. intros. rewrite Z.mod_small; lia. Qed.
