(* ===== verification/Memory.v ===== *)
(** * The memory of a Go program

    Values with references, blocks of memory, the shapes of Go types, and the
    statements that read, write and allocate.  The generated deep copies are
    written with them ([DeepCopy.v]); everything else in the library has no need
    to tell a value from the place that holds it. *)

From S2P Require Import Prelude.
Local Open Scope string_scope.
Local Open Scope list_scope.

(** ** Values and blocks *)

Abbreviation loc := positive.

(** A value without references: a boolean, an integer, a string, or a struct of
    another package that holds none. *)
Inductive prim :=
  | PBool (b : bool)
  | PInt (n : Z)
  | PString (s : string)
  | POpaque (s : string).

(** A place: a cell of a block and a path of field names into it. *)
Record ref := Ref { r_block : loc; r_index : nat; r_path : list string }.

(** [VNil] is the nil pointer, slice or map.  A slice is a window of a block, a
    map a reference to a table. *)
Inductive val :=
  | VPrim (p : prim)
  | VNil
  | VPtr (r : ref)
  | VSlice (b : loc) (off len : nat)
  | VMap (b : loc)
  | VStruct (fs : list (string * val)).

(** A variable is a block of one cell, the array under a slice one of many. *)
Inductive block :=
  | Cells (vs : list val)
  | Table (m : gmap string val).
Abbreviation memory := (gmap loc block).

Definition is_nil (v : val) : bool := match v with VNil => true | _ => false end.
Definition var_ref (l : loc) : ref := Ref l 0 [].
Definition field_ref (f : string) (r : ref) : ref := Ref (r_block r) (r_index r) (r_path r ++ [f]).

Fixpoint field_of (f : string) (fs : list (string * val)) : option val :=
  match fs with
  | [] => None
  | (g, v) :: fs => if String.eqb f g then Some v else field_of f fs
  end.
Fixpoint set_field (f : string) (x : val) (fs : list (string * val)) : list (string * val) :=
  match fs with
  | [] => []
  | (g, v) :: fs => if String.eqb f g then (g, x) :: fs else (g, v) :: set_field f x fs
  end.

Fixpoint get_path (p : list string) (v : val) : option val :=
  match p with
  | [] => Some v
  | f :: p => match v with VStruct fs => field_of f fs ≫= get_path p | _ => None end
  end.
Fixpoint set_path (p : list string) (x v : val) : option val :=
  match p with
  | [] => Some x
  | f :: p =>
      match v with
      | VStruct fs => old ← field_of f fs; new ← set_path p x old; Some (VStruct (set_field f new fs))
      | _ => None
      end
  end.

Definition read (h : memory) (r : ref) : option val :=
  match h !! r_block r with
  | Some (Cells vs) => vs !! r_index r ≫= get_path (r_path r)
  | _ => None
  end.
Definition write (h : memory) (r : ref) (x : val) : option memory :=
  match h !! r_block r with
  | Some (Cells vs) =>
      old ← vs !! r_index r; new ← set_path (r_path r) x old;
      Some (<[r_block r := Cells (<[r_index r := new]> vs)]> h)
  | _ => None
  end.
(** The elements a slice shows. *)
Definition window (h : memory) (b : loc) (off len : nat) : list val :=
  match h !! b with Some (Cells vs) => take len (drop off vs) | _ => [] end.

(** ** Types *)

(** [TBasic] is a type without references, with its zero value; [TPlain] a struct
    of another package that holds no references, of which an embedded one is
    assigned.  [TNamed] is a type of another package whose copies are made by its
    own methods: the name tells them, the shape what its values look like. *)
Inductive gotype :=
  | TBasic (z : prim)
  | TPlain (z : prim)
  | TStruct (fs : list (string * gotype))
  | TPtr (t : gotype)
  | TSlice (t : gotype)
  | TMap (t : gotype)
  | TNamed (name : string) (shape : gotype).

Fixpoint zero (t : gotype) : val :=
  match t with
  | TBasic z | TPlain z => VPrim z
  | TStruct fs => VStruct ((λ '(f, t), (f, zero t)) <$> fs)
  | TPtr _ | TSlice _ | TMap _ => VNil
  | TNamed _ shape => zero shape
  end.

(** ** Statements *)

(** A statement runs in a memory and leaves one, or panics. *)
Definition M (A : Type) : Type := memory → outcome (A * memory).
#[export] Instance M_ret : MRet M := λ A a h, Ok (a, h).
#[export] Instance M_bind : MBind M := λ A B f m h, match m h with
  | Ok (a, h') => f a h'
  | Err e => Err e
  | Panics => Panics
  | Diverges => Diverges
  end.

Definition panic {A} : M A := λ h, Panics.
Definition load (r : ref) : M val := λ h, match read h r with Some v => Ok (v, h) | None => Panics end.
Definition store (r : ref) (x : val) : M unit := λ h, match write h r x with Some h' => Ok (tt, h') | None => Panics end.
Definition alloc (b : block) : M loc := λ h, let l := fresh (dom h) in Ok (l, <[l := b]> h).

(** [new(T)], a variable that holds its zero value, or a local variable. *)
Definition new_var (v : val) : M ref := l ← alloc (Cells [v]); mret (var_ref l).
(** [{ s1; s2; ... }] *)
Fixpoint body (ss : list (M unit)) : M unit :=
  match ss with [] => mret () | s :: ss => s ;; body ss end.
(** [*out = *in] *)
Definition assign (out in_ : ref) : M unit := v ← load in_; store out v.
(** [*r] as a place, for a pointer [r] points to. *)
Definition deref (r : ref) : M ref := v ← load r; match v with VPtr r' => mret r' | _ => panic end.
(** [if *in != nil { ... }] *)
Definition if_not_nil (in_ : ref) (s : M unit) : M unit := v ← load in_; if is_nil v then mret () else s.
(** [if in.F != nil { in, out := &in.F, &out.F; ... }] *)
Definition if_field (f : string) (in_ out : ref) (ss : ref → ref → list (M unit)) : M unit :=
  if_not_nil (field_ref f in_) (body (ss (field_ref f in_) (field_ref f out))).
(** [*out = new(T)] *)
Definition set_new (out : ref) (t : gotype) : M unit := r ← new_var (zero t); store out (VPtr r).
(** [f( *in, *out)] for pointers they point to: [( *in).DeepCopyInto( *out)]. *)
Definition through (in_ out : ref) (f : ref → ref → M unit) : M unit := a ← deref in_; b ← deref out; f a b.

(** [len( *in)] of a slice *)
Definition len (in_ : ref) : M nat :=
  v ← load in_; match v with VSlice _ _ n => mret n | VNil => mret 0 | _ => panic end.
(** [*out = make([]T, n)] *)
Definition set_make_slice (out : ref) (t : gotype) (n : nat) : M unit :=
  l ← alloc (Cells (replicate n (zero t))); store out (VSlice l 0 n).
(** [*out = make([]T, len( *in))] *)
Definition make_slice (out : ref) (t : gotype) (in_ : ref) : M unit := n ← len in_; set_make_slice out t n.
(** [&( *in)[i]] *)
Definition elem (in_ : ref) (i : nat) : M ref :=
  v ← load in_;
  match v with VSlice b off n => if (i <? n)%nat then mret (Ref b (off + i) []) else panic | _ => panic end.
(** [for i := from; i < from + n; i++] *)
Fixpoint for_range (from n : nat) (s : nat → M unit) : M unit :=
  match n with 0 => mret () | S n => s from ;; for_range (S from) n s end.
(** [for i := range *in] *)
Definition range_slice (in_ : ref) (s : nat → M unit) : M unit := n ← len in_; for_range 0 n s.
(** [copy( *out, *in)]: as many elements as fit. *)
Definition copy_slice (out in_ : ref) : M unit :=
  n ← len in_; m ← len out;
  for_range 0 (n `min` m) (λ i, a ← elem in_ i; b ← elem out i; assign b a).

(** [*out = make(map[string]T, len( *in))]: the length is only a hint. *)
Definition make_map (out : ref) : M unit := l ← alloc (Table ∅); store out (VMap l).
(** [( *out)[key] = x] *)
Definition set_key (out : ref) (key : string) (x : val) : M unit :=
  v ← load out;
  match v with
  | VMap l => λ h, match h !! l with Some (Table m) => Ok (tt, <[l := Table (<[key := x]> m)]> h) | _ => Panics end
  | _ => panic
  end.

(** The runtime goes through the entries of a map in an order of its own. *)
Class MapOrder := {
  map_order : gmap string val → list (string * val);
  map_order_perm m : map_order m ≡ₚ map_to_list m
}.
Fixpoint for_entries (es : list (string * val)) (s : string → val → M unit) : M unit :=
  match es with [] => mret () | (key, x) :: es => s key x ;; for_entries es s end.
(** [for key, val := range *in] *)
Definition range_map `{MapOrder} (in_ : ref) (s : string → val → M unit) : M unit :=
  v ← load in_;
  match v with
  | VMap l => λ h, match h !! l with Some (Table m) => for_entries (map_order m) s h | _ => Panics end
  | VNil => mret ()
  | _ => panic
  end.

(** [if in == nil { return nil }; out := new(T); in.DeepCopyInto(out); return out]:
    the method DeepCopy of a struct. *)
Definition deep_copy (t : gotype) (into : ref → ref → M unit) (in_ : val) : M val :=
  match in_ with
  | VNil => mret VNil
  | VPtr r => out ← new_var (zero t); into r out ;; mret (VPtr out)
  | _ => panic
  end.
(** The same for a map type, whose receiver is the map and which returns [*out]. *)
Definition deep_copy_map (into : val → ref → M unit) (in_ : val) : M val :=
  if is_nil in_ then mret VNil else out ← new_var VNil; into in_ out ;; load out.
(** [if c := in.DeepCopy(); c != nil { return c }; return nil]: a nil pointer
    becomes a nil interface. *)
Definition deep_copy_object (copy : val → M val) (in_ : val) : M (option val) :=
  c ← copy in_; if is_nil c then mret None else mret (Some c).
(** [*val.DeepCopy()] of a variable [val] *)
Definition copied_value (copy : val → M val) (x : val) : M val :=
  r ← new_var x; p ← copy (VPtr r); match p with VPtr r' => load r' | _ => panic end.

(** ** The laws of reading and writing *)

Lemma get_path_app p q v : get_path (p ++ q) v = get_path p v ≫= get_path q.
Proof.
  revert v. induction p as [|f p IH]; intros v; [done|]. simpl. destruct v; try done.
  destruct (field_of f fs); [apply IH|done].
Qed.

Lemma field_of_set f x fs y : field_of f fs = Some y → field_of f (set_field f x fs) = Some x.
Proof.
  induction fs as [|[g v] fs IH]; [done|]. simpl. destruct (String.eqb_spec f g) as [->|Hne]; simpl.
  - by rewrite String.eqb_refl.
  - apply String.eqb_neq in Hne. by rewrite Hne.
Qed.

Lemma set_field_set f x y fs : set_field f y (set_field f x fs) = set_field f y fs.
Proof.
  induction fs as [|[g v] fs IH]; [done|]. simpl. destruct (String.eqb_spec f g) as [->|Hne]; simpl.
  - by rewrite String.eqb_refl.
  - apply String.eqb_neq in Hne. by rewrite Hne, IH.
Qed.

Lemma set_path_Some p x v : is_Some (get_path p v) → is_Some (set_path p x v).
Proof.
  revert v. induction p as [|f p IH]; intros v Hg; [by eexists|]. simpl in *. destruct v; try by destruct Hg.
  destruct (field_of f fs) as [y|]; [|by destruct Hg]. simpl in *. destruct (IH y Hg) as [y' ->]. by eexists.
Qed.

Lemma set_path_get p x v v' : set_path p x v = Some v' → get_path p v' = Some x.
Proof.
  revert v v'. induction p as [|f p IH]; intros v v' Hs; simpl in *; [by injection Hs as ->|].
  destruct v as [| | | | |fs]; try done. destruct (field_of f fs) as [y|] eqn:Hf; [|done]. simpl in *.
  destruct (set_path p x y) as [y'|] eqn:Hy; [|done]. injection Hs as <-. simpl.
  rewrite (field_of_set f y' fs y Hf). by apply (IH y).
Qed.

Lemma set_path_again p x y v v' : set_path p x v = Some v' → set_path p y v' = set_path p y v.
Proof.
  revert v v'. induction p as [|f p IH]; intros v v' Hs; [done|]. simpl in *. destruct v; try done.
  destruct (field_of f fs) as [z|] eqn:Hf; [|done]. simpl in *. destruct (set_path p x z) as [z'|] eqn:Hz; [|done].
  simpl in Hs. injection Hs as <-. rewrite (field_of_set _ _ _ _ Hf). simpl. rewrite (IH z z' Hz).
  destruct (set_path p y z) as [z''|]; [|done]. simpl. by rewrite set_field_set.
Qed.

Lemma set_path_app p f x v fs :
  get_path p v = Some (VStruct fs) → is_Some (field_of f fs) →
  set_path (p ++ [f]) x v = set_path p (VStruct (set_field f x fs)) v.
Proof.
  revert v. induction p as [|g p IH]; intros v Hg Hf; simpl in *.
  - injection Hg as ->. destruct Hf as [y ->]. done.
  - destruct v as [| | | | |gs]; try done. destruct (field_of g gs) as [y|]; [|done]. simpl in *. by rewrite IH.
Qed.

(** What a successful write leaves: the block with one cell changed. *)
Lemma write_inv h r x h' :
  write h r x = Some h' →
  ∃ vs old new, h !! r_block r = Some (Cells vs) ∧ vs !! r_index r = Some old ∧ set_path (r_path r) x old = Some new ∧
    h' = <[r_block r := Cells (<[r_index r := new]> vs)]> h.
Proof.
  unfold write. destruct (h !! r_block r) as [[vs|]|]; try done. destruct (vs !! r_index r) as [old|] eqn:Hi; [|done].
  simpl. destruct (set_path (r_path r) x old) as [new|] eqn:Hs; [|done]. intros [= <-]. by exists vs, old, new.
Qed.

Lemma write_Some h r x : is_Some (read h r) → is_Some (write h r x).
Proof.
  unfold read, write. destruct (h !! r_block r) as [[vs|]|]; try by intros [? ?].
  destruct (vs !! r_index r) as [old|]; [|by intros [? ?]]. simpl. intros Hg.
  destruct (set_path_Some (r_path r) x old Hg) as [new ->]. by eexists.
Qed.

Lemma read_write_same h r x h' : write h r x = Some h' → read h' r = Some x.
Proof.
  intros (vs & old & new & Hb & Hi & Hs & ->)%write_inv. unfold read. rewrite lookup_insert_eq.
  rewrite list_lookup_insert_eq by by eapply lookup_lt_Some. simpl. by eapply set_path_get.
Qed.

Lemma write_other h r x h' l : write h r x = Some h' → l ≠ r_block r → h' !! l = h !! l.
Proof. intros (vs & old & new & _ & _ & _ & ->)%write_inv Hl. by apply lookup_insert_ne. Qed.

Lemma read_other h h' r : h' !! r_block r = h !! r_block r → read h' r = read h r.
Proof. unfold read. by intros ->. Qed.

Lemma write_again h r x y h' : write h r x = Some h' → write h' r y = write h r y.
Proof.
  intros (vs & old & new & Hb & Hi & Hs & ->)%write_inv. unfold write. rewrite Hb, lookup_insert_eq, Hi.
  rewrite list_lookup_insert_eq by by eapply lookup_lt_Some. simpl. rewrite (set_path_again _ _ _ _ _ Hs).
  destruct (set_path (r_path r) y old) as [z|]; [|done]. simpl.
  by rewrite insert_insert_eq, list_insert_insert_eq.
Qed.

Lemma read_field h r f fs : read h r = Some (VStruct fs) → read h (field_ref f r) = field_of f fs.
Proof.
  unfold read. simpl. destruct (h !! r_block r) as [[vs|]|]; try done. destruct (vs !! r_index r) as [v|]; [|done].
  simpl. intros Hg. rewrite get_path_app, Hg. simpl. by destruct (field_of f fs).
Qed.

Lemma write_field h r f x fs :
  read h r = Some (VStruct fs) → is_Some (field_of f fs) →
  write h (field_ref f r) x = write h r (VStruct (set_field f x fs)).
Proof.
  unfold read, write. simpl. destruct (h !! r_block r) as [[vs|]|]; try done. destruct (vs !! r_index r) as [v|]; [|done].
  simpl. intros Hg Hf. by rewrite (set_path_app _ _ _ _ _ Hg Hf).
Qed.

Lemma set_field_id f x fs : field_of f fs = Some x → set_field f x fs = fs.
Proof.
  induction fs as [|[g v] fs IH]; [done|]. simpl. destruct (String.eqb f g); [by intros [= ->]|]. intros Hf. by rewrite IH.
Qed.

Lemma set_path_id p v x : get_path p v = Some x → set_path p x v = Some v.
Proof.
  revert v. induction p as [|f p IH]; intros v Hg; simpl in *; [by injection Hg as ->|].
  destruct v as [| | | | |fs]; try done. destruct (field_of f fs) as [y|] eqn:Hf; [|done]. simpl in *.
  rewrite (IH y Hg). simpl. by rewrite (set_field_id _ _ _ Hf).
Qed.

(** Writing what is there changes nothing. *)
Lemma write_id h r x : read h r = Some x → write h r x = Some h.
Proof.
  unfold read, write. destruct (h !! r_block r) as [[vs|]|] eqn:Hb; try done. destruct (vs !! r_index r) as [v|] eqn:Hv; [|done].
  simpl. intros Hg. rewrite (set_path_id _ _ _ Hg). simpl. by rewrite list_insert_id, insert_id.
Qed.

(** More memory does not change a write. *)
Lemma write_mono h h1 r x h2 : h ⊆ h1 → write h r x = Some h2 → ∃ h3, write h1 r x = Some h3 ∧ h2 ⊆ h3.
Proof.
  intros Hsub (vs & old & new & Hb & Hi & Hs & ->)%write_inv. exists (<[r_block r := Cells (<[r_index r := new]> vs)]> h1).
  split; [|by apply insert_mono]. unfold write. rewrite (lookup_weaken _ _ _ _ Hb Hsub), Hi. simpl. by rewrite Hs.
Qed.

Lemma write_dom h r x h' : write h r x = Some h' → dom h' = dom h.
Proof. intros (vs & old & new & Hb & _ & _ & ->)%write_inv. apply dom_insert_lookup_L. by eexists. Qed.

Lemma read_mono h h' r x : h ⊆ h' → read h r = Some x → read h' r = Some x.
Proof.
  intros Hsub. unfold read. destruct (h !! r_block r) as [b|] eqn:Hb; [|done]. by rewrite (lookup_weaken _ _ _ _ Hb Hsub).
Qed.

Lemma read_dom h r x : read h r = Some x → r_block r ∈ dom h.
Proof. unfold read. intros Hr. apply elem_of_dom. by destruct (h !! r_block r). Qed.

(** ** Running statements *)

Lemma run_then {A B} (m : M A) (f : A → M B) h a h1 r : m h = Ok (a, h1) → f a h1 = r → (m ≫= f) h = r.
Proof. unfold mbind, M_bind. by intros -> ->. Qed.

Lemma run_seq {B} (s1 : M unit) (s2 : M B) h h1 r : s1 h = Ok ((), h1) → s2 h1 = r → (s1 ;; s2) h = r.
Proof. unfold mbind, M_bind. by intros -> ->. Qed.

Lemma run_body_app ss1 ss2 h h1 r : body ss1 h = Ok ((), h1) → body ss2 h1 = r → body (ss1 ++ ss2) h = r.
Proof.
  revert h. induction ss1 as [|s ss1 IH]; intros h H1 H2; [by injection H1 as ->|]. simpl in *. unfold mbind, M_bind in *.
  destruct (s h) as [[[] h2]| | |]; try done. by apply IH.
Qed.

Lemma run_body_one s h h1 : s h = Ok ((), h1) → body [s] h = Ok ((), h1).
Proof. intros Hs. simpl. by eapply run_seq. Qed.

Lemma run_load h r v : read h r = Some v → load r h = Ok (v, h).
Proof. unfold load. by intros ->. Qed.

Lemma run_store h r x h' : write h r x = Some h' → store r x h = Ok ((), h').
Proof. unfold store. by intros ->. Qed.

Lemma run_assign h out in_ v h' : read h in_ = Some v → write h out v = Some h' → assign out in_ h = Ok ((), h').
Proof. intros Hr Hw. unfold assign. eapply run_then; [by apply run_load|]. by apply run_store. Qed.

Lemma run_deref h r r' : read h r = Some (VPtr r') → deref r h = Ok (r', h).
Proof. intros Hr. unfold deref. by eapply run_then; [by apply run_load|]. Qed.

Lemma run_alloc b h : ∃ l, alloc b h = Ok (l, <[l := b]> h) ∧ l ∉ dom h ∧ h ⊆ <[l := b]> h.
Proof.
  exists (fresh (dom h)). split; [done|]. assert (fresh (dom h) ∉ dom h) as Hf by apply is_fresh. split; [done|].
  apply insert_subseteq. by apply not_elem_of_dom.
Qed.

Lemma run_new_var v h :
  ∃ l h1, new_var v h = Ok (var_ref l, h1) ∧ h1 = <[l := Cells [v]]> h ∧ l ∉ dom h ∧ h ⊆ h1 ∧ read h1 (var_ref l) = Some v.
Proof.
  destruct (run_alloc (Cells [v]) h) as (l & Hl & Hf & Hs). exists l. eexists. split; [unfold new_var; by eapply run_then|].
  split; [done|]. split; [done|]. split; [done|]. unfold read. simpl. by rewrite lookup_insert_eq.
Qed.

Lemma run_if_nil h r s : read h r = Some VNil → if_not_nil r s h = Ok ((), h).
Proof. intros Hr. unfold if_not_nil. by eapply run_then; [by apply run_load|]. Qed.

Lemma run_if_not_nil h r v s r' : read h r = Some v → v ≠ VNil → s h = r' → if_not_nil r s h = r'.
Proof. intros Hr Hv Hs. unfold if_not_nil. eapply run_then; [by apply run_load|]. by destruct v. Qed.

Lemma run_elem h r b off n i : read h r = Some (VSlice b off n) → (i < n)%nat → elem r i h = Ok (Ref b (off + i) [], h).
Proof.
  intros Hr Hi. unfold elem. eapply run_then; [by apply run_load|]. simpl. apply Nat.ltb_lt in Hi. by rewrite Hi.
Qed.

Lemma run_len h r b off n : read h r = Some (VSlice b off n) → len r h = Ok (n, h).
Proof. intros Hr. unfold len. by eapply run_then; [by apply run_load|]. Qed.
