(* ===== verification/Ownership.v ===== *)
(** * What a value holds and which memory it uses

    [contents] reads a value with everything it refers to, as reflect.DeepEqual
    would compare it; [footprint] is the memory it is read from.  A value is
    unaffected by what happens outside its footprint ([frame]), so a copy with a
    fresh footprint shares nothing with what was there before. *)

From S2P Require Import Prelude Memory.
Local Open Scope string_scope.
Local Open Scope list_scope.

(** ** Reading a value with all it refers to *)

Inductive tree :=
  | Leaf (p : prim)
  | Nil
  | Pointee (t : tree)
  | Elems (ts : list tree)
  | Dict (m : gmap string tree)
  | Fields (fs : list (string * tree))
  | Ill.

Fixpoint contents (t : gotype) (h : memory) (v : val) : tree :=
  match t with
  | TBasic _ | TPlain _ => match v with VPrim p => Leaf p | _ => Ill end
  | TStruct ts =>
      match v with
      | VStruct fs => Fields (zip_with (λ '(_, t) '(f, x), (f, contents t h x)) ts fs)
      | _ => Ill
      end
  | TPtr t =>
      match v with
      | VNil => Nil
      | VPtr r => match read h r with Some x => Pointee (contents t h x) | None => Ill end
      | _ => Ill
      end
  | TSlice t =>
      match v with
      | VNil => Nil
      | VSlice b off n => Elems (contents t h <$> window h b off n)
      | _ => Ill
      end
  | TMap t =>
      match v with
      | VNil => Nil
      | VMap b => match h !! b with Some (Table m) => Dict (contents t h <$> m) | _ => Ill end
      | _ => Ill
      end
  | TNamed _ t => contents t h v
  end.

(** The blocks it is read from. *)
Fixpoint footprint (t : gotype) (h : memory) (v : val) : gset loc :=
  match t with
  | TBasic _ | TPlain _ => ∅
  | TStruct ts =>
      match v with
      | VStruct fs => ⋃ (zip_with (λ '(_, t) '(_, x), footprint t h x) ts fs)
      | _ => ∅
      end
  | TPtr t =>
      match v with
      | VPtr r => {[r_block r]} ∪ match read h r with Some x => footprint t h x | None => ∅ end
      | _ => ∅
      end
  | TSlice t =>
      match v with VSlice b off n => {[b]} ∪ ⋃ (footprint t h <$> window h b off n) | _ => ∅ end
  | TMap t =>
      match v with
      | VMap b => {[b]} ∪ match h !! b with Some (Table m) => ⋃ (footprint t h <$> (map_to_list m).*2) | _ => ∅ end
      | _ => ∅
      end
  | TNamed _ t => footprint t h v
  end.

(** ** Well-typed values *)

Definition prim_kind (p : prim) : nat :=
  match p with PBool _ => 0 | PInt _ => 1 | PString _ => 2 | POpaque _ => 3 end.
Definition all2 {A B} (P : A → B → Prop) : list A → list B → Prop :=
  fix go l k := match l, k with [], [] => True | a :: l, b :: k => P a b ∧ go l k | _, _ => False end.
Definition all {A} (P : A → Prop) : list A → Prop :=
  fix go l := match l with [] => True | a :: l => P a ∧ go l end.

Fixpoint well_typed (t : gotype) (h : memory) (v : val) : Prop :=
  match t with
  | TBasic z | TPlain z => ∃ p, v = VPrim p ∧ prim_kind p = prim_kind z
  | TStruct ts => ∃ fs, v = VStruct fs ∧ all2 (λ '(f, t) '(g, x), f = g ∧ well_typed t h x) ts fs
  | TPtr t => v = VNil ∨ ∃ r x, v = VPtr r ∧ read h r = Some x ∧ well_typed t h x
  | TSlice t =>
      v = VNil ∨ ∃ b off n vs, v = VSlice b off n ∧ h !! b = Some (Cells vs) ∧ (off + n ≤ length vs)%nat ∧
        all (well_typed t h) (window h b off n)
  | TMap t => v = VNil ∨ ∃ b m, v = VMap b ∧ h !! b = Some (Table m) ∧ all (well_typed t h) (map_to_list m).*2
  | TNamed _ t => well_typed t h v
  end.

(** The same as a test, for values given in full. *)
Definition all2b {A B} (P : A → B → bool) : list A → list B → bool :=
  fix go l k := match l, k with [], [] => true | a :: l, b :: k => P a b && go l k | _, _ => false end.
Fixpoint well_typedb (t : gotype) (h : memory) (v : val) : bool :=
  match t, v with
  | TBasic z, VPrim p | TPlain z, VPrim p => (prim_kind p =? prim_kind z)%nat
  | TStruct ts, VStruct fs => all2b (λ '(f, t) '(g, x), (f =? g)%string && well_typedb t h x) ts fs
  | TPtr _, VNil | TSlice _, VNil | TMap _, VNil => true
  | TPtr t, VPtr r => match read h r with Some x => well_typedb t h x | None => false end
  | TSlice t, VSlice b off n =>
      match h !! b with
      | Some (Cells vs) => (off + n <=? length vs)%nat && forallb (well_typedb t h) (window h b off n)
      | _ => false
      end
  | TMap t, VMap b =>
      match h !! b with Some (Table m) => forallb (well_typedb t h) (map_to_list m).*2 | _ => false end
  | TNamed _ t, v => well_typedb t h v
  | _, _ => false
  end.

(** Types whose values hold no reference, and those with a nil value. *)
Fixpoint flat (t : gotype) : bool :=
  match t with
  | TBasic _ | TPlain _ => true
  | TStruct ts => forallb (λ '(_, t), flat t) ts
  | _ => false
  end.
Definition nilable (t : gotype) : bool :=
  match t with TPtr _ | TSlice _ | TMap _ => true | _ => false end.

Lemma gotype_induction (P : gotype → Prop) :
  (∀ z, P (TBasic z)) → (∀ z, P (TPlain z)) → (∀ ts, Forall (λ ft, P ft.2) ts → P (TStruct ts)) →
  (∀ t, P t → P (TPtr t)) → (∀ t, P t → P (TSlice t)) → (∀ t, P t → P (TMap t)) →
  (∀ n t, P t → P (TNamed n t)) → ∀ t, P t.
Proof.
  intros HB HL HS HP HSl HM HN. fix IH 1. intros [z|z|ts|t|t|t|n t]; [apply HB|apply HL| |apply HP, IH|apply HSl, IH|apply HM, IH|apply HN, IH].
  apply HS. induction ts as [|[f t] ts IHts]; constructor; [apply IH|exact IHts].
Qed.

Lemma all_Forall {A} (P : A → Prop) l : all P l ↔ Forall P l.
Proof. induction l as [|a l IH]; simpl; [by split|]. by rewrite Forall_cons, IH. Qed.
Lemma all2_Forall2 {A B} (P : A → B → Prop) l k : all2 P l k ↔ Forall2 P l k.
Proof.
  revert k. induction l as [|a l IH]; intros [|b k]; simpl; [by split|split; [done|by intros ?%Forall2_length]..|].
  by rewrite Forall2_cons, IH.
Qed.

Lemma all2b_all2 {A B} (p : A → B → bool) (P : A → B → Prop) l k :
  (∀ a b, a ∈ l → p a b = true → P a b) → all2b p l k = true → all2 P l k.
Proof.
  revert k. induction l as [|a l IH]; intros [|b k] HP; simpl; try done.
  intros [Ha Hk]%andb_prop. split; [apply HP; [by left|done]|]. apply IH; [|done]. intros; apply HP; [by right|done].
Qed.
Lemma forallb_all {A} (p : A → bool) (P : A → Prop) l :
  (∀ a, p a = true → P a) → forallb p l = true → all P l.
Proof. intros HP. induction l as [|a l IH]; simpl; [done|]. intros [Ha Hl]%andb_prop. auto. Qed.

Lemma well_typedb_sound t h v : well_typedb t h v = true → well_typed t h v.
Proof.
  revert v. induction t as [z|z|ts IH|t IH|t IH|t IH|n t IH] using gotype_induction; intros v Hv; [| | | | | |by apply IH];
    destruct v as [p| |r|b off k|b|fs]; try done; simpl in *; try by left.
  - apply Nat.eqb_eq in Hv. by exists p.
  - apply Nat.eqb_eq in Hv. by exists p.
  - exists fs. split; [done|]. revert Hv. apply all2b_all2. intros [f t] [g x] Hin [->%String.eqb_eq Hx]%andb_prop.
    split; [done|]. rewrite Forall_forall in IH. by apply (IH _ Hin).
  - destruct (read h r) as [x|] eqn:Hr; [|done]. right. exists r, x. split_and!; auto.
  - destruct (h !! b) as [[vs|m]|] eqn:Hb; try done. apply andb_prop in Hv as [Hlen%Nat.leb_le Hall].
    right. exists b, off, k, vs. split_and!; try done. by apply (forallb_all _ _ _ IH).
  - destruct (h !! b) as [[vs|m]|] eqn:Hb; try done. right. exists b, m. split_and!; try done.
    by apply (forallb_all _ _ _ IH).
Qed.

(** ** Framing *)

Lemma zip_with_same {A B C} (f g : A → B → C) l k :
  (∀ i a b, l !! i = Some a → k !! i = Some b → f a b = g a b) → zip_with f l k = zip_with g l k.
Proof.
  revert k. induction l as [|a l IH]; intros [|b k] Hfg; simpl; try done. f_equal; [by apply (Hfg 0)|].
  apply IH. intros i. apply (Hfg (S i)).
Qed.

Lemma elem_of_zip_union {A B} (F : A → B → gset loc) l k i a b x :
  l !! i = Some a → k !! i = Some b → x ∈ F a b → x ∈ ⋃ (zip_with F l k).
Proof.
  intros Hl Hk Hx. apply elem_of_union_list. exists (F a b). split; [|done].
  apply (list_elem_of_lookup_2 _ i). by rewrite lookup_zip_with, Hl, Hk.
Qed.

Lemma elem_of_fmap_union {A} (F : A → gset loc) l a x : a ∈ l → x ∈ F a → x ∈ ⋃ (F <$> l).
Proof. intros Ha Hx. apply elem_of_union_list. exists (F a). split; [by apply list_elem_of_fmap_2|done]. Qed.

(** What two memories must have in common for a value to be the same in both. *)
Definition agree (t : gotype) (h h' : memory) (v : val) : Prop := ∀ l, l ∈ footprint t h v → h' !! l = h !! l.
(** A value is the same in both. *)
Definition kept (t : gotype) (h h' : memory) (v : val) : Prop :=
  contents t h' v = contents t h v ∧ footprint t h' v = footprint t h v ∧ (well_typed t h v → well_typed t h' v).
Definition framed (t : gotype) : Prop := ∀ h h' v, agree t h h' v → kept t h h' v.

Lemma kept_trivially t h h' v :
  contents t h' v = contents t h v → footprint t h' v = footprint t h v → ¬ well_typed t h v → kept t h h' v.
Proof. intros Hc Hf Hw. by split_and!. Qed.

Lemma framed_struct ts : Forall (λ ft, framed ft.2) ts → framed (TStruct ts).
Proof.
  intros IH h h' v Hv. destruct v as [| | | | |fs]; try by (apply kept_trivially; [..|intros (? & ? & _)]).
  rewrite Forall_lookup in IH.
  assert (∀ i ft fx, ts !! i = Some ft → fs !! i = Some fx → kept ft.2 h h' fx.2) as Hel.
  { intros i [f t] [g x] Ht Hx. apply (IH i _ Ht). intros l Hl. apply Hv. simpl.
    by eapply (elem_of_zip_union (λ '(_, t) '(_, x), footprint t h x)). }
  split; [|split]; simpl.
  - f_equal. apply zip_with_same. intros i [f t] [g x] Ht Hx. f_equal. by apply (Hel i _ _ Ht Hx).
  - f_equal. apply zip_with_same. intros i [f t] [g x] Ht Hx. by apply (Hel i _ _ Ht Hx).
  - intros (fs' & [= <-] & Hall). exists fs. split; [done|]. rewrite all2_Forall2 in *. rewrite Forall2_lookup in *.
    intros i. specialize (Hall i). specialize (Hel i). destruct Hall as [[f t] [g x] [-> Hw]|]; constructor.
    split; [done|]. by apply (Hel (g, t) (g, x) eq_refl eq_refl).
Qed.

Lemma framed_ptr t : framed t → framed (TPtr t).
Proof.
  intros IH h h' v Hv. unfold agree in Hv. destruct v as [| |r| | |]; simpl in *; try by (split; [|split; [|naive_solver]]).
  assert (h' !! r_block r = h !! r_block r) as Hr by (apply Hv; set_solver).
  unfold kept. simpl. rewrite (read_other _ _ _ Hr). destruct (read h r) as [x|] eqn:Hx; [|split; [done|split; [done|naive_solver]]].
  destruct (IH h h' x) as (-> & -> & Hw); [intros l Hl; apply Hv; set_solver|]. split; [done|]. split; [done|].
  intros [?|(r' & x' & [= <-] & Hx' & Hx2)]; [done|]. right. exists r, x. rewrite (read_other _ _ _ Hr). split; [done|].
  split; [done|]. apply Hw. congruence.
Qed.

(** The elements of a slice or a map. *)
Lemma framed_elements t h h' (l : list val) :
  framed t → (∀ k, k ∈ ⋃ (footprint t h <$> l) → h' !! k = h !! k) →
  contents t h' <$> l = contents t h <$> l ∧ footprint t h' <$> l = footprint t h <$> l ∧
  (all (well_typed t h) l → all (well_typed t h') l).
Proof.
  intros IH Hag. assert (∀ x, x ∈ l → kept t h h' x) as Hel.
  { intros x Hx. apply IH. intros k Hk. apply Hag. by eapply elem_of_fmap_union. }
  split; [|split].
  - apply list_fmap_ext. intros i x Hx%list_elem_of_lookup_2. by apply Hel.
  - apply list_fmap_ext. intros i x Hx%list_elem_of_lookup_2. by apply Hel.
  - rewrite !all_Forall, !Forall_forall. intros Hall x Hx. apply Hel; auto.
Qed.

Lemma framed_slice t : framed t → framed (TSlice t).
Proof.
  intros IH h h' v Hv. unfold agree in Hv. destruct v as [| | |b off n| |]; simpl in *; try by (split; [|split; [|naive_solver]]).
  assert (h' !! b = h !! b) as Hb by (apply Hv; set_solver).
  assert (window h' b off n = window h b off n) as Hwin by (unfold window; by rewrite Hb).
  destruct (framed_elements t h h' (window h b off n) IH) as (Hc & Hf & Hw); [intros k Hk; apply Hv; set_solver|].
  unfold kept. simpl. rewrite Hwin, Hc, Hf. split; [done|]. split; [done|].
  intros [?|(b' & off' & n' & vs & [= <- <- <-] & Hvs & Hlen & Hall)]; [done|]. right. exists b, off, n, vs.
  rewrite Hwin. split; [done|]. split; [congruence|]. split; [done|]. by apply Hw.
Qed.

Lemma framed_map t : framed t → framed (TMap t).
Proof.
  intros IH h h' v Hv. unfold agree in Hv. destruct v as [| | | |b|]; simpl in *; try by (split; [|split; [|naive_solver]]).
  assert (h' !! b = h !! b) as Hb by (apply Hv; set_solver). unfold kept. simpl. rewrite Hb.
  destruct (h !! b) as [[vs|m]|] eqn:Hm; [split; [done|split; [done|naive_solver]]| |split; [done|split; [done|naive_solver]]].
  destruct (framed_elements t h h' (map_to_list m).*2 IH) as (Hc & Hf & Hw); [intros k Hk; apply Hv; set_solver|].
  rewrite Hf. split; [|split; [done|]].
  - f_equal. apply map_eq. intros k. rewrite !lookup_fmap. destruct (m !! k) as [x|] eqn:Hx; [|done]. simpl. f_equal.
    assert (x ∈ (map_to_list m).*2) as Hin by (apply list_elem_of_fmap; exists (k, x); split; [done|by apply elem_of_map_to_list]).
    apply IH. intros j Hj. apply Hv, elem_of_union_r. by eapply elem_of_fmap_union.
  - intros [?|(b' & m' & [= <-] & Hm' & Hall)]; [done|]. rewrite Hm in Hm'. injection Hm' as <-. right. exists b, m. split; [done|]. split; [done|]. by apply Hw.
Qed.

(** A value depends on its footprint only. *)
Lemma frame t : framed t.
Proof.
  induction t as [z|z|ts IH|t IH|t IH|t IH|n t IH] using gotype_induction;
    [by intros h h' v _; split_and!..|by apply framed_struct|by apply framed_ptr|by apply framed_slice|by apply framed_map|exact IH].
Qed.

(** ** The footprint is allocated *)

Definition allocated (t : gotype) : Prop := ∀ h v, well_typed t h v → footprint t h v ⊆ dom h.

Lemma union_subset {A} (F : A → gset loc) l (X : gset loc) : (∀ a, a ∈ l → F a ⊆ X) → ⋃ (F <$> l) ⊆ X.
Proof. intros Hl x (Y & (a & -> & Ha)%list_elem_of_fmap & Hx)%elem_of_union_list. by apply (Hl a). Qed.

Lemma allocated_elements t h l : allocated t → all (well_typed t h) l → ⋃ (footprint t h <$> l) ⊆ dom h.
Proof. rewrite all_Forall, Forall_forall. intros IH Hl. apply union_subset. intros x Hx. by apply IH, Hl. Qed.

Lemma footprint_allocated t : allocated t.
Proof.
  induction t as [z|z|ts IH|t IH|t IH|t IH|n t IH] using gotype_induction; intros h v Hv; simpl in *; [set_solver..| | | | |by apply IH].
  - destruct Hv as (fs & -> & Hall). rewrite all2_Forall2 in Hall. intros x (Y & [i Hi]%list_elem_of_lookup & Hx)%elem_of_union_list.
    apply lookup_zip_with_Some in Hi as ([f t] & [g y] & -> & Ht & Hy). rewrite Forall_lookup in IH.
    destruct (Forall2_lookup_lr _ _ _ _ _ _ Hall Ht Hy) as [_ Hw]. by apply (IH i _ Ht h y Hw).
  - destruct Hv as [->|(r & x & -> & Hx & Hw)]; [set_solver|]. rewrite Hx. specialize (IH h x Hw).
    assert (r_block r ∈ dom h); [|set_solver]. apply elem_of_dom. unfold read in Hx. by destruct (h !! r_block r).
  - destruct Hv as [->|(b & off & n & vs & -> & Hb & _ & Hw)]; [set_solver|]. pose proof (allocated_elements t h _ IH Hw).
    assert (b ∈ dom h) by by eapply elem_of_dom_2. set_solver.
  - destruct Hv as [->|(b & m & -> & Hb & Hw)]; [set_solver|]. rewrite Hb. pose proof (allocated_elements t h _ IH Hw).
    assert (b ∈ dom h) by by eapply elem_of_dom_2. set_solver.
Qed.

Lemma flat_footprint t h v : flat t = true → footprint t h v = ∅.
Proof.
  revert v. induction t as [z|z|ts IH|t IH|t IH|t IH|n t IH] using gotype_induction; intros v Hf; simpl in *; try done.
  destruct v as [| | | | |fs]; try done. rewrite forallb_forall in Hf. apply elem_of_equiv_empty_L.
  intros x (Y & [i Hi]%list_elem_of_lookup & Hx)%elem_of_union_list.
  apply lookup_zip_with_Some in Hi as ([f t] & [g y] & -> & Ht & Hy). rewrite Forall_lookup in IH.
  specialize (IH i _ Ht y). simpl in IH. rewrite IH in Hx; [set_solver|]. by apply (Hf (f, t)), list_elem_of_In, (list_elem_of_lookup_2 _ i).
Qed.

(** ** Copies *)

(** What a copy is: the same contents, in memory that was not there before. *)
Record copied (t : gotype) (h : memory) (v : val) (h' : memory) (v' : val) : Prop := {
  copied_contents : contents t h' v' = contents t h v;
  copied_typed : well_typed t h' v';
  copied_fresh : footprint t h' v' ## dom h
}.

(** What a step that may change one block leaves alone, and that it only adds. *)
Definition evolves (b : loc) (h h' : memory) : Prop := ∀ l, l ∈ dom h → l ≠ b → h' !! l = h !! l.

Lemma evolves_trans b h h1 h2 : dom h ⊆ dom h1 → evolves b h h1 → evolves b h1 h2 → evolves b h h2.
Proof. intros Hd H1 H2 l Hl Hne. rewrite (H2 l); [by apply H1|set_solver|done]. Qed.

Lemma kept_evolves t b h h' v : well_typed t h v → b ∉ footprint t h v → evolves b h h' → kept t h h' v.
Proof.
  intros Hw Hb He. apply frame. intros l Hl. apply He; [by apply (footprint_allocated t h v Hw)|set_solver].
Qed.

Lemma copied_evolves t b h v h1 v' h2 :
  copied t h v h1 v' → b ∈ dom h → evolves b h1 h2 → copied t h v h2 v'.
Proof.
  intros [Hc Hw Hf] Hb He. destruct (kept_evolves t b h1 h2 v' Hw) as (Hc' & Hf' & Hw'); [set_solver|done|].
  split; [congruence|by apply Hw'|by rewrite Hf'].
Qed.

Lemma copied_flat t h v h' : flat t = true → well_typed t h v → copied t h v h' v.
Proof.
  intros Hf Hw. destruct (frame t h h' v) as (Hc & Hp & Hw'); [intros l; rewrite flat_footprint by done; set_solver|].
  split; [done|by apply Hw'|rewrite flat_footprint by done; set_solver].
Qed.

(** A copy of what was itself kept. *)
Lemma copied_from t h h1 v h2 v' : kept t h h1 v → dom h ⊆ dom h1 → copied t h1 v h2 v' → copied t h v h2 v'.
Proof. intros (Hc & _) Hd [Hc' Hw' Hf']. split; [congruence|done|set_solver]. Qed.
