(* ===== verification/GoTypes.v ===== *)
(** * The shapes of the Go types of the Package API

    The declarations of zz_generated.types.go, routes_shorthand.go and
    package_types.go as descriptions of what their values look like in memory,
    field by field in the order of the code.  [ApiTypes.v] has the same types as
    records of pure values. *)

From S2P Require Import Prelude Memory.
Local Open Scope string_scope.
Local Open Scope list_scope.

Abbreviation TBool := (TBasic (PBool false)).
Abbreviation TInt := (TBasic (PInt 0)).
Abbreviation TString := (TBasic (PString "")).

(** What the API uses of other packages: apiextensionsv1.JSON, metav1's
    ObjectMeta, ListMeta and Condition, whose values hold references, and metav1.TypeMeta
    and intstr.IntOrString, whose values hold none. *)
Class ExternalTypes := {
  external_shape : string → gotype;
  TypeMeta_zero : string;
  IntOrString_zero : string
}.

Section Types.
Context `{ExternalTypes}.

Definition JSON_type : gotype := TNamed "JSON" (external_shape "JSON").
Definition ObjectMeta_type : gotype := TNamed "ObjectMeta" (external_shape "ObjectMeta").
Definition ListMeta_type : gotype := TNamed "ListMeta" (external_shape "ListMeta").
Definition Condition_type : gotype := TNamed "Condition" (external_shape "Condition").
Definition TypeMeta_type : gotype := TPlain (POpaque TypeMeta_zero).
Definition IntOrString_type : gotype := TPlain (POpaque IntOrString_zero).

Definition AdditionalPolicyAnnotations_type : gotype := TMap TString.
Definition AdditionalPolicyLabels_type : gotype := TMap TString.
Definition AdditionalPolicySpec_type : gotype := TMap JSON_type.
Definition AdditionalPolicy_type : gotype :=
  TStruct [
    ("Annotations", AdditionalPolicyAnnotations_type); ("Labels", AdditionalPolicyLabels_type); ("Name", TString);
    ("Spec", AdditionalPolicySpec_type)].
Definition IstioAmbient_type : gotype := TStruct [("Enabled", TBool)].
Definition IstioAuthorizationPoliciesAdditionalPoliciesValueAnnotations_type : gotype := TMap TString.
Definition IstioAuthorizationPoliciesAdditionalPoliciesValueLabels_type : gotype := TMap TString.
Definition IstioAuthorizationPoliciesAdditionalPoliciesValueSpecAction_type : gotype := TString.
Definition IstioAuthorizationPoliciesAdditionalPoliciesValueSpecRulesElem_type : gotype := TMap JSON_type.
Definition IstioAuthorizationPoliciesAdditionalPoliciesValueSpecSelector_type : gotype := TMap JSON_type.
Definition IstioAuthorizationPoliciesAdditionalPoliciesValueSpec_type : gotype :=
  TStruct [
    ("Action", TPtr IstioAuthorizationPoliciesAdditionalPoliciesValueSpecAction_type);
    ("Rules", TSlice IstioAuthorizationPoliciesAdditionalPoliciesValueSpecRulesElem_type);
    ("Selector", IstioAuthorizationPoliciesAdditionalPoliciesValueSpecSelector_type)].
Definition IstioAuthorizationPoliciesAdditionalPoliciesValue_type : gotype :=
  TStruct [
    ("Annotations", IstioAuthorizationPoliciesAdditionalPoliciesValueAnnotations_type); ("Enabled", TBool);
    ("Labels", IstioAuthorizationPoliciesAdditionalPoliciesValueLabels_type); ("Name", TPtr TString);
    ("Namespace", TPtr TString); ("Spec", IstioAuthorizationPoliciesAdditionalPoliciesValueSpec_type)].
Definition IstioAuthorizationPoliciesAdditionalPolicies_type : gotype := TMap IstioAuthorizationPoliciesAdditionalPoliciesValue_type.
Definition IstioAuthorizationPoliciesCustomElemAnnotations_type : gotype := TMap TString.
Definition IstioAuthorizationPoliciesCustomElemLabels_type : gotype := TMap TString.
Definition IstioAuthorizationPoliciesCustomElemSpec_type : gotype := TMap JSON_type.
Definition IstioAuthorizationPoliciesCustomElem_type : gotype :=
  TStruct [
    ("Annotations", IstioAuthorizationPoliciesCustomElemAnnotations_type);
    ("Labels", IstioAuthorizationPoliciesCustomElemLabels_type); ("Name", TString);
    ("Spec", IstioAuthorizationPoliciesCustomElemSpec_type)].
Definition IstioAuthorizationPoliciesDefaultsAllowInNamespace_type : gotype := TStruct [("Enabled", TPtr TBool)].
Definition IstioAuthorizationPoliciesDefaultsDenyAll_type : gotype := TStruct [("Enabled", TPtr TBool)].
Definition IstioAuthorizationPoliciesDefaults_type : gotype :=
  TStruct [
    ("AllowInNamespace", TPtr IstioAuthorizationPoliciesDefaultsAllowInNamespace_type);
    ("DenyAll", TPtr IstioAuthorizationPoliciesDefaultsDenyAll_type); ("Enabled", TPtr TBool)].
Definition IstioAuthorizationPolicies_type : gotype :=
  TStruct [
    ("AdditionalPolicies", IstioAuthorizationPoliciesAdditionalPolicies_type);
    ("Custom", TSlice IstioAuthorizationPoliciesCustomElem_type);
    ("Defaults", TPtr IstioAuthorizationPoliciesDefaults_type); ("Enabled", TBool);
    ("GenerateFromNetpol", TPtr TBool)].
Definition IstioMtlsMode_type : gotype := TString.
Definition IstioMtls_type : gotype := TStruct [("Mode", IstioMtlsMode_type)].
Definition IstioServiceEntriesCustomElemAnnotations_type : gotype := TMap TString.
Definition IstioServiceEntriesCustomElemLabels_type : gotype := TMap TString.
Definition IstioServiceEntriesCustomElemSpec_type : gotype := TMap JSON_type.
Definition IstioServiceEntriesCustomElem_type : gotype :=
  TStruct [
    ("Annotations", IstioServiceEntriesCustomElemAnnotations_type);
    ("Labels", IstioServiceEntriesCustomElemLabels_type); ("Name", TString);
    ("Spec", IstioServiceEntriesCustomElemSpec_type)].
Definition IstioServiceEntries_type : gotype := TStruct [("Custom", TSlice IstioServiceEntriesCustomElem_type)].
Definition IstioSidecarOutboundTrafficPolicyMode_type : gotype := TString.
Definition IstioSidecar_type : gotype :=
  TStruct [
    ("Enabled", TBool); ("OutboundTrafficPolicyMode", IstioSidecarOutboundTrafficPolicyMode_type)].
Definition Istio_type : gotype :=
  TStruct [
    ("Ambient", TPtr IstioAmbient_type); ("AuthorizationPolicies", TPtr IstioAuthorizationPolicies_type);
    ("Enabled", TBool); ("Mtls", TPtr IstioMtls_type); ("PrependReleaseName", TBool);
    ("ServiceEntries", TPtr IstioServiceEntries_type); ("Sidecar", TPtr IstioSidecar_type)].
Definition NetworkPoliciesDefaultsAsHooksDeletePoliciesElem_type : gotype := TString.
Definition NetworkPoliciesDefaultsAsHooksHooksElem_type : gotype := TString.
Definition NetworkPoliciesDefaultsAsHooks_type : gotype :=
  TStruct [
    ("DeletePolicies", TSlice NetworkPoliciesDefaultsAsHooksDeletePoliciesElem_type); ("Enabled", TPtr TBool);
    ("Hooks", TSlice NetworkPoliciesDefaultsAsHooksHooksElem_type); ("Weight", TInt)].
Definition NetworkPoliciesEgressDefaultsAllowInNamespace_type : gotype := TStruct [("Enabled", TPtr TBool)].
Definition NetworkPoliciesEgressDefaultsAllowIstiod_type : gotype := TStruct [("Enabled", TPtr TBool)].
Definition NetworkPoliciesEgressDefaultsAllowKubeDNS_type : gotype := TStruct [("Enabled", TPtr TBool)].
Definition NetworkPoliciesEgressDefaultsDenyAll_type : gotype := TStruct [("Enabled", TPtr TBool)].
Definition NetworkPoliciesEgressDefaults_type : gotype :=
  TStruct [
    ("AllowInNamespace", TPtr NetworkPoliciesEgressDefaultsAllowInNamespace_type);
    ("AllowIstiod", TPtr NetworkPoliciesEgressDefaultsAllowIstiod_type);
    ("AllowKubeDNS", TPtr NetworkPoliciesEgressDefaultsAllowKubeDNS_type);
    ("DenyAll", TPtr NetworkPoliciesEgressDefaultsDenyAll_type); ("Enabled", TPtr TBool)].
Definition NetworkPoliciesEgressDefinitionsValuePortsElemProtocol_type : gotype := TString.
Definition NetworkPoliciesEgressDefinitionsValuePortsElem_type : gotype :=
  TStruct [
    ("EndPort", TPtr TInt); ("Port", TPtr IntOrString_type);
    ("Protocol", TPtr NetworkPoliciesEgressDefinitionsValuePortsElemProtocol_type)].
Definition NetworkPoliciesEgressDefinitionsValueToElemIPBlock_type : gotype :=
  TStruct [
    ("CIDR", TPtr TString); ("Except", TSlice TString)].
Definition NetworkPoliciesEgressDefinitionsValueToElemNamespaceSelector_type : gotype := TMap JSON_type.
Definition NetworkPoliciesEgressDefinitionsValueToElemPodSelector_type : gotype := TMap JSON_type.
Definition NetworkPoliciesEgressDefinitionsValueToElem_type : gotype :=
  TStruct [
    ("IPBlock", TPtr NetworkPoliciesEgressDefinitionsValueToElemIPBlock_type);
    ("NamespaceSelector", NetworkPoliciesEgressDefinitionsValueToElemNamespaceSelector_type);
    ("PodSelector", NetworkPoliciesEgressDefinitionsValueToElemPodSelector_type)].
Definition NetworkPoliciesEgressDefinitionsValue_type : gotype :=
  TStruct [
    ("Ports", TSlice NetworkPoliciesEgressDefinitionsValuePortsElem_type);
    ("To", TSlice NetworkPoliciesEgressDefinitionsValueToElem_type)].
Definition NetworkPoliciesEgressDefinitions_type : gotype := TMap NetworkPoliciesEgressDefinitionsValue_type.
Definition NetworkPoliciesEgressFrom_type : gotype := TMap JSON_type.
Definition NetworkPoliciesEgress_type : gotype :=
  TStruct [
    ("Defaults", TPtr NetworkPoliciesEgressDefaults_type); ("Definitions", NetworkPoliciesEgressDefinitions_type);
    ("ExcludeCIDRs", TSlice TString); ("From", NetworkPoliciesEgressFrom_type)].
Definition NetworkPoliciesHbonePortInjection_type : gotype := TStruct [("Enabled", TBool)].
Definition NetworkPoliciesIngressDefaultsAllowInNamespace_type : gotype := TStruct [("Enabled", TPtr TBool)].
Definition NetworkPoliciesIngressDefaultsAllowPrometheusToIstioSidecar_type : gotype :=
  TStruct [
    ("Enabled", TPtr TBool)].
Definition NetworkPoliciesIngressDefaultsDenyAll_type : gotype := TStruct [("Enabled", TPtr TBool)].
Definition NetworkPoliciesIngressDefaults_type : gotype :=
  TStruct [
    ("AllowInNamespace", TPtr NetworkPoliciesIngressDefaultsAllowInNamespace_type);
    ("AllowPrometheusToIstioSidecar", TPtr NetworkPoliciesIngressDefaultsAllowPrometheusToIstioSidecar_type);
    ("DenyAll", TPtr NetworkPoliciesIngressDefaultsDenyAll_type); ("Enabled", TPtr TBool)].
Definition NetworkPoliciesIngressDefinitionsValueFromElemIPBlock_type : gotype :=
  TStruct [
    ("CIDR", TPtr TString); ("Except", TSlice TString)].
Definition NetworkPoliciesIngressDefinitionsValueFromElemNamespaceSelector_type : gotype := TMap JSON_type.
Definition NetworkPoliciesIngressDefinitionsValueFromElemPodSelector_type : gotype := TMap JSON_type.
Definition NetworkPoliciesIngressDefinitionsValueFromElem_type : gotype :=
  TStruct [
    ("IPBlock", TPtr NetworkPoliciesIngressDefinitionsValueFromElemIPBlock_type);
    ("NamespaceSelector", NetworkPoliciesIngressDefinitionsValueFromElemNamespaceSelector_type);
    ("PodSelector", NetworkPoliciesIngressDefinitionsValueFromElemPodSelector_type)].
Definition NetworkPoliciesIngressDefinitionsValuePortsElemProtocol_type : gotype := TString.
Definition NetworkPoliciesIngressDefinitionsValuePortsElem_type : gotype :=
  TStruct [
    ("EndPort", TPtr TInt); ("Port", TPtr IntOrString_type);
    ("Protocol", TPtr NetworkPoliciesIngressDefinitionsValuePortsElemProtocol_type)].
Definition NetworkPoliciesIngressDefinitionsValue_type : gotype :=
  TStruct [
    ("From", TSlice NetworkPoliciesIngressDefinitionsValueFromElem_type);
    ("Ports", TSlice NetworkPoliciesIngressDefinitionsValuePortsElem_type)].
Definition NetworkPoliciesIngressDefinitions_type : gotype := TMap NetworkPoliciesIngressDefinitionsValue_type.
Definition NetworkPoliciesIngressTo_type : gotype := TMap JSON_type.
Definition NetworkPoliciesIngress_type : gotype :=
  TStruct [
    ("Defaults", TPtr NetworkPoliciesIngressDefaults_type); ("Definitions", NetworkPoliciesIngressDefinitions_type);
    ("To", NetworkPoliciesIngressTo_type)].
Definition NetworkPolicies_type : gotype :=
  TStruct [
    ("Additional", TSlice AdditionalPolicy_type); ("AdditionalPolicies", TSlice AdditionalPolicy_type);
    ("DefaultsAsHooks", TPtr NetworkPoliciesDefaultsAsHooks_type); ("Egress", TPtr NetworkPoliciesEgress_type);
    ("Enabled", TBool); ("HbonePortInjection", TPtr NetworkPoliciesHbonePortInjection_type);
    ("Ingress", TPtr NetworkPoliciesIngress_type); ("PrependReleaseName", TBool)].
Definition RoutesInbound_type : gotype := TMap JSON_type.
Definition RoutesOutbound_type : gotype := TMap JSON_type.
Definition InboundRouteDefaults_type : gotype := TStruct [("Gateways", TSlice TString)].
Definition RouteDefaults_type : gotype := TStruct [("Inbound", TPtr InboundRouteDefaults_type)].
Definition Routes_type : gotype :=
  TStruct [
    ("Defaults", TPtr RouteDefaults_type); ("Inbound", RoutesInbound_type); ("Outbound", RoutesOutbound_type);
    ("PrependReleaseName", TBool)].
Definition RoutePassthrough_type : gotype := TStruct [("Enabled", TBool); ("GatewayPort", TPtr TInt)].
Definition InboundRoute_type : gotype :=
  TStruct [
    ("Enabled", TBool); ("Gateways", TSlice TString); ("Hosts", TSlice TString); ("Service", TString);
    ("Port", TPtr IntOrString_type); ("ContainerPort", TPtr IntOrString_type); ("Selector", TMap TString);
    ("Http", TSlice JSON_type); ("Passthrough", TPtr RoutePassthrough_type); ("Resolution", TString);
    ("Labels", TMap TString); ("Annotations", TMap TString)].
Definition OutboundRoutePort_type : gotype := TStruct [("Number", TInt); ("Name", TString); ("Protocol", TString)].
Definition RouteMetadata_type : gotype := TStruct [("Labels", TMap TString); ("Annotations", TMap TString)].
Definition OutboundRoute_type : gotype :=
  TStruct [
    ("Enabled", TBool); ("Hosts", TSlice TString); ("Location", TString); ("Resolution", TString);
    ("Ports", TSlice OutboundRoutePort_type); ("Metadata", TPtr RouteMetadata_type)].
Definition PackageSpec_type : gotype :=
  TStruct [
    ("Istio", TPtr Istio_type); ("NetworkPolicies", TPtr NetworkPolicies_type); ("Routes", TPtr Routes_type)].
Definition AppliedResource_type : gotype := TStruct [("APIVersion", TString); ("Kind", TString); ("Name", TString)].
Definition PackageStatus_type : gotype :=
  TStruct [
    ("ObservedGeneration", TInt); ("Conditions", TSlice Condition_type);
    ("AppliedResources", TSlice AppliedResource_type)].
Definition Package_type : gotype :=
  TStruct [
    ("TypeMeta", TypeMeta_type); ("ObjectMeta", ObjectMeta_type); ("Spec", PackageSpec_type);
    ("Status", PackageStatus_type)].
Definition PackageList_type : gotype :=
  TStruct [
    ("TypeMeta", TypeMeta_type); ("ListMeta", ListMeta_type); ("Items", TSlice Package_type)].

End Types.
