(* ===== verification/DeepCopy.v ===== *)
(** * The generated deep copies: zz_generated.deepcopy.go

    Every method of the file, statement by statement, over the memory of
    [Memory.v].  The methods of other packages' types are parameters.  The order
    is that of the dependencies. *)

From S2P Require Import Prelude Memory GoTypes.
Local Open Scope string_scope.
Local Open Scope list_scope.

(** The methods of other packages' types, by the name of the type. *)
Class ExternalMethods := {
  external_DeepCopyInto : string → ref → ref → M unit;
  external_DeepCopy : string → val → M val
}.

Section DeepCopy.
Context `{ExternalTypes} `{ExternalMethods} `{MapOrder}.

Notation JSON_DeepCopyInto := (external_DeepCopyInto "JSON").
Notation JSON_DeepCopy := (external_DeepCopy "JSON").
Notation ObjectMeta_DeepCopyInto := (external_DeepCopyInto "ObjectMeta").
Notation ListMeta_DeepCopyInto := (external_DeepCopyInto "ListMeta").
Notation Condition_DeepCopyInto := (external_DeepCopyInto "Condition").

Definition AdditionalPolicyAnnotations_DeepCopyInto (in_ : val) (out : ref) : M unit :=
  in_ ← new_var in_; body [make_map out; range_map in_ (λ key x, set_key out key x)].
Definition AdditionalPolicyAnnotations_DeepCopy : val → M val :=
  deep_copy_map AdditionalPolicyAnnotations_DeepCopyInto.

Definition AdditionalPolicyLabels_DeepCopyInto (in_ : val) (out : ref) : M unit :=
  in_ ← new_var in_; body [make_map out; range_map in_ (λ key x, set_key out key x)].
Definition AdditionalPolicyLabels_DeepCopy : val → M val := deep_copy_map AdditionalPolicyLabels_DeepCopyInto.

Definition AdditionalPolicySpec_DeepCopyInto (in_ : val) (out : ref) : M unit :=
  in_ ← new_var in_; body [
    make_map out;
    range_map in_ (λ key x, v ← copied_value JSON_DeepCopy x; set_key out key v)].
Definition AdditionalPolicySpec_DeepCopy : val → M val := deep_copy_map AdditionalPolicySpec_DeepCopyInto.

Definition AdditionalPolicy_DeepCopyInto (in_ out : ref) : M unit :=
  body [
    assign out in_;
    if_field "Annotations" in_ out (λ in_ out, [make_map out; range_map in_ (λ key x, set_key out key x)]);
    if_field "Labels" in_ out (λ in_ out, [make_map out; range_map in_ (λ key x, set_key out key x)]);
    if_field "Spec" in_ out (λ in_ out, [
      make_map out;
      range_map in_ (λ key x, v ← copied_value JSON_DeepCopy x; set_key out key v)])].
Definition AdditionalPolicy_DeepCopy : val → M val := deep_copy AdditionalPolicy_type AdditionalPolicy_DeepCopyInto.

Definition IstioAmbient_DeepCopyInto (in_ out : ref) : M unit :=
  body [assign out in_].
Definition IstioAmbient_DeepCopy : val → M val := deep_copy IstioAmbient_type IstioAmbient_DeepCopyInto.

Definition IstioAuthorizationPoliciesAdditionalPoliciesValueAnnotations_DeepCopyInto (in_ : val) (out : ref) : M unit :=
  in_ ← new_var in_; body [make_map out; range_map in_ (λ key x, set_key out key x)].
Definition IstioAuthorizationPoliciesAdditionalPoliciesValueAnnotations_DeepCopy : val → M val :=
  deep_copy_map IstioAuthorizationPoliciesAdditionalPoliciesValueAnnotations_DeepCopyInto.

Definition IstioAuthorizationPoliciesAdditionalPoliciesValueLabels_DeepCopyInto (in_ : val) (out : ref) : M unit :=
  in_ ← new_var in_; body [make_map out; range_map in_ (λ key x, set_key out key x)].
Definition IstioAuthorizationPoliciesAdditionalPoliciesValueLabels_DeepCopy : val → M val :=
  deep_copy_map IstioAuthorizationPoliciesAdditionalPoliciesValueLabels_DeepCopyInto.

Definition IstioAuthorizationPoliciesAdditionalPoliciesValueSpecRulesElem_DeepCopyInto (in_ : val) (out : ref) : M unit :=
  in_ ← new_var in_; body [
    make_map out;
    range_map in_ (λ key x, v ← copied_value JSON_DeepCopy x; set_key out key v)].
Definition IstioAuthorizationPoliciesAdditionalPoliciesValueSpecRulesElem_DeepCopy : val → M val :=
  deep_copy_map IstioAuthorizationPoliciesAdditionalPoliciesValueSpecRulesElem_DeepCopyInto.

Definition IstioAuthorizationPoliciesAdditionalPoliciesValueSpecSelector_DeepCopyInto (in_ : val) (out : ref) : M unit :=
  in_ ← new_var in_; body [
    make_map out;
    range_map in_ (λ key x, v ← copied_value JSON_DeepCopy x; set_key out key v)].
Definition IstioAuthorizationPoliciesAdditionalPoliciesValueSpecSelector_DeepCopy : val → M val :=
  deep_copy_map IstioAuthorizationPoliciesAdditionalPoliciesValueSpecSelector_DeepCopyInto.

Definition IstioAuthorizationPoliciesAdditionalPoliciesValueSpec_DeepCopyInto (in_ out : ref) : M unit :=
  body [
    assign out in_;
    if_field "Action" in_ out (λ in_ out, [
      set_new out IstioAuthorizationPoliciesAdditionalPoliciesValueSpecAction_type;
      through in_ out (λ a b, assign b a)]);
    if_field "Rules" in_ out (λ in_ out, [
      make_slice out IstioAuthorizationPoliciesAdditionalPoliciesValueSpecRulesElem_type in_;
      range_slice in_ (λ i, a ← elem in_ i; if_not_nil a (
        b ← elem out i; (λ in_ out, body [
          make_map out;
          range_map in_ (λ key x, v ← copied_value JSON_DeepCopy x; set_key out key v)]) a b))]);
    if_field "Selector" in_ out (λ in_ out, [
      make_map out;
      range_map in_ (λ key x, v ← copied_value JSON_DeepCopy x; set_key out key v)])].
Definition IstioAuthorizationPoliciesAdditionalPoliciesValueSpec_DeepCopy : val → M val :=
  deep_copy IstioAuthorizationPoliciesAdditionalPoliciesValueSpec_type IstioAuthorizationPoliciesAdditionalPoliciesValueSpec_DeepCopyInto.

Definition IstioAuthorizationPoliciesAdditionalPoliciesValue_DeepCopyInto (in_ out : ref) : M unit :=
  body [
    assign out in_;
    if_field "Annotations" in_ out (λ in_ out, [make_map out; range_map in_ (λ key x, set_key out key x)]);
    if_field "Labels" in_ out (λ in_ out, [make_map out; range_map in_ (λ key x, set_key out key x)]);
    if_field "Name" in_ out (λ in_ out, [set_new out TString; through in_ out (λ a b, assign b a)]);
    if_field "Namespace" in_ out (λ in_ out, [set_new out TString; through in_ out (λ a b, assign b a)]);
    IstioAuthorizationPoliciesAdditionalPoliciesValueSpec_DeepCopyInto (field_ref "Spec" in_) (field_ref "Spec" out)].
Definition IstioAuthorizationPoliciesAdditionalPoliciesValue_DeepCopy : val → M val :=
  deep_copy IstioAuthorizationPoliciesAdditionalPoliciesValue_type IstioAuthorizationPoliciesAdditionalPoliciesValue_DeepCopyInto.

Definition IstioAuthorizationPoliciesAdditionalPolicies_DeepCopyInto (in_ : val) (out : ref) : M unit :=
  in_ ← new_var in_; body [
    make_map out;
    range_map in_ (λ key x, v ← copied_value IstioAuthorizationPoliciesAdditionalPoliciesValue_DeepCopy x; set_key out key v)].
Definition IstioAuthorizationPoliciesAdditionalPolicies_DeepCopy : val → M val :=
  deep_copy_map IstioAuthorizationPoliciesAdditionalPolicies_DeepCopyInto.

Definition IstioAuthorizationPoliciesCustomElemAnnotations_DeepCopyInto (in_ : val) (out : ref) : M unit :=
  in_ ← new_var in_; body [make_map out; range_map in_ (λ key x, set_key out key x)].
Definition IstioAuthorizationPoliciesCustomElemAnnotations_DeepCopy : val → M val :=
  deep_copy_map IstioAuthorizationPoliciesCustomElemAnnotations_DeepCopyInto.

Definition IstioAuthorizationPoliciesCustomElemLabels_DeepCopyInto (in_ : val) (out : ref) : M unit :=
  in_ ← new_var in_; body [make_map out; range_map in_ (λ key x, set_key out key x)].
Definition IstioAuthorizationPoliciesCustomElemLabels_DeepCopy : val → M val :=
  deep_copy_map IstioAuthorizationPoliciesCustomElemLabels_DeepCopyInto.

Definition IstioAuthorizationPoliciesCustomElemSpec_DeepCopyInto (in_ : val) (out : ref) : M unit :=
  in_ ← new_var in_; body [
    make_map out;
    range_map in_ (λ key x, v ← copied_value JSON_DeepCopy x; set_key out key v)].
Definition IstioAuthorizationPoliciesCustomElemSpec_DeepCopy : val → M val :=
  deep_copy_map IstioAuthorizationPoliciesCustomElemSpec_DeepCopyInto.

Definition IstioAuthorizationPoliciesCustomElem_DeepCopyInto (in_ out : ref) : M unit :=
  body [
    assign out in_;
    if_field "Annotations" in_ out (λ in_ out, [make_map out; range_map in_ (λ key x, set_key out key x)]);
    if_field "Labels" in_ out (λ in_ out, [make_map out; range_map in_ (λ key x, set_key out key x)]);
    if_field "Spec" in_ out (λ in_ out, [
      make_map out;
      range_map in_ (λ key x, v ← copied_value JSON_DeepCopy x; set_key out key v)])].
Definition IstioAuthorizationPoliciesCustomElem_DeepCopy : val → M val :=
  deep_copy IstioAuthorizationPoliciesCustomElem_type IstioAuthorizationPoliciesCustomElem_DeepCopyInto.

Definition IstioAuthorizationPoliciesDefaultsAllowInNamespace_DeepCopyInto (in_ out : ref) : M unit :=
  body [
    assign out in_;
    if_field "Enabled" in_ out (λ in_ out, [set_new out TBool; through in_ out (λ a b, assign b a)])].
Definition IstioAuthorizationPoliciesDefaultsAllowInNamespace_DeepCopy : val → M val :=
  deep_copy IstioAuthorizationPoliciesDefaultsAllowInNamespace_type IstioAuthorizationPoliciesDefaultsAllowInNamespace_DeepCopyInto.

Definition IstioAuthorizationPoliciesDefaultsDenyAll_DeepCopyInto (in_ out : ref) : M unit :=
  body [
    assign out in_;
    if_field "Enabled" in_ out (λ in_ out, [set_new out TBool; through in_ out (λ a b, assign b a)])].
Definition IstioAuthorizationPoliciesDefaultsDenyAll_DeepCopy : val → M val :=
  deep_copy IstioAuthorizationPoliciesDefaultsDenyAll_type IstioAuthorizationPoliciesDefaultsDenyAll_DeepCopyInto.

Definition IstioAuthorizationPoliciesDefaults_DeepCopyInto (in_ out : ref) : M unit :=
  body [
    assign out in_;
    if_field "AllowInNamespace" in_ out (λ in_ out, [
      set_new out IstioAuthorizationPoliciesDefaultsAllowInNamespace_type;
      through in_ out IstioAuthorizationPoliciesDefaultsAllowInNamespace_DeepCopyInto]);
    if_field "DenyAll" in_ out (λ in_ out, [
      set_new out IstioAuthorizationPoliciesDefaultsDenyAll_type;
      through in_ out IstioAuthorizationPoliciesDefaultsDenyAll_DeepCopyInto]);
    if_field "Enabled" in_ out (λ in_ out, [set_new out TBool; through in_ out (λ a b, assign b a)])].
Definition IstioAuthorizationPoliciesDefaults_DeepCopy : val → M val :=
  deep_copy IstioAuthorizationPoliciesDefaults_type IstioAuthorizationPoliciesDefaults_DeepCopyInto.

Definition IstioAuthorizationPolicies_DeepCopyInto (in_ out : ref) : M unit :=
  body [
    assign out in_;
    if_field "AdditionalPolicies" in_ out (λ in_ out, [
      make_map out;
      range_map in_ (λ key x, v ← copied_value IstioAuthorizationPoliciesAdditionalPoliciesValue_DeepCopy x; set_key out key v)]);
    if_field "Custom" in_ out (λ in_ out, [
      make_slice out IstioAuthorizationPoliciesCustomElem_type in_;
      range_slice in_ (λ i, a ← elem in_ i; b ← elem out i; IstioAuthorizationPoliciesCustomElem_DeepCopyInto a b)]);
    if_field "Defaults" in_ out (λ in_ out, [
      set_new out IstioAuthorizationPoliciesDefaults_type;
      through in_ out IstioAuthorizationPoliciesDefaults_DeepCopyInto]);
    if_field "GenerateFromNetpol" in_ out (λ in_ out, [set_new out TBool; through in_ out (λ a b, assign b a)])].
Definition IstioAuthorizationPolicies_DeepCopy : val → M val :=
  deep_copy IstioAuthorizationPolicies_type IstioAuthorizationPolicies_DeepCopyInto.

Definition IstioMtls_DeepCopyInto (in_ out : ref) : M unit :=
  body [assign out in_].
Definition IstioMtls_DeepCopy : val → M val := deep_copy IstioMtls_type IstioMtls_DeepCopyInto.

Definition IstioServiceEntriesCustomElemAnnotations_DeepCopyInto (in_ : val) (out : ref) : M unit :=
  in_ ← new_var in_; body [make_map out; range_map in_ (λ key x, set_key out key x)].
Definition IstioServiceEntriesCustomElemAnnotations_DeepCopy : val → M val :=
  deep_copy_map IstioServiceEntriesCustomElemAnnotations_DeepCopyInto.

Definition IstioServiceEntriesCustomElemLabels_DeepCopyInto (in_ : val) (out : ref) : M unit :=
  in_ ← new_var in_; body [make_map out; range_map in_ (λ key x, set_key out key x)].
Definition IstioServiceEntriesCustomElemLabels_DeepCopy : val → M val :=
  deep_copy_map IstioServiceEntriesCustomElemLabels_DeepCopyInto.

Definition IstioServiceEntriesCustomElemSpec_DeepCopyInto (in_ : val) (out : ref) : M unit :=
  in_ ← new_var in_; body [
    make_map out;
    range_map in_ (λ key x, v ← copied_value JSON_DeepCopy x; set_key out key v)].
Definition IstioServiceEntriesCustomElemSpec_DeepCopy : val → M val :=
  deep_copy_map IstioServiceEntriesCustomElemSpec_DeepCopyInto.

Definition IstioServiceEntriesCustomElem_DeepCopyInto (in_ out : ref) : M unit :=
  body [
    assign out in_;
    if_field "Annotations" in_ out (λ in_ out, [make_map out; range_map in_ (λ key x, set_key out key x)]);
    if_field "Labels" in_ out (λ in_ out, [make_map out; range_map in_ (λ key x, set_key out key x)]);
    if_field "Spec" in_ out (λ in_ out, [
      make_map out;
      range_map in_ (λ key x, v ← copied_value JSON_DeepCopy x; set_key out key v)])].
Definition IstioServiceEntriesCustomElem_DeepCopy : val → M val :=
  deep_copy IstioServiceEntriesCustomElem_type IstioServiceEntriesCustomElem_DeepCopyInto.

Definition IstioServiceEntries_DeepCopyInto (in_ out : ref) : M unit :=
  body [
    assign out in_;
    if_field "Custom" in_ out (λ in_ out, [
      make_slice out IstioServiceEntriesCustomElem_type in_;
      range_slice in_ (λ i, a ← elem in_ i; b ← elem out i; IstioServiceEntriesCustomElem_DeepCopyInto a b)])].
Definition IstioServiceEntries_DeepCopy : val → M val :=
  deep_copy IstioServiceEntries_type IstioServiceEntries_DeepCopyInto.

Definition IstioSidecar_DeepCopyInto (in_ out : ref) : M unit :=
  body [assign out in_].
Definition IstioSidecar_DeepCopy : val → M val := deep_copy IstioSidecar_type IstioSidecar_DeepCopyInto.

Definition Istio_DeepCopyInto (in_ out : ref) : M unit :=
  body [
    assign out in_;
    if_field "Ambient" in_ out (λ in_ out, [set_new out IstioAmbient_type; through in_ out (λ a b, assign b a)]);
    if_field "AuthorizationPolicies" in_ out (λ in_ out, [
      set_new out IstioAuthorizationPolicies_type;
      through in_ out IstioAuthorizationPolicies_DeepCopyInto]);
    if_field "Mtls" in_ out (λ in_ out, [set_new out IstioMtls_type; through in_ out (λ a b, assign b a)]);
    if_field "ServiceEntries" in_ out (λ in_ out, [
      set_new out IstioServiceEntries_type;
      through in_ out IstioServiceEntries_DeepCopyInto]);
    if_field "Sidecar" in_ out (λ in_ out, [set_new out IstioSidecar_type; through in_ out (λ a b, assign b a)])].
Definition Istio_DeepCopy : val → M val := deep_copy Istio_type Istio_DeepCopyInto.

Definition NetworkPoliciesDefaultsAsHooks_DeepCopyInto (in_ out : ref) : M unit :=
  body [
    assign out in_;
    if_field "DeletePolicies" in_ out (λ in_ out, [
      make_slice out NetworkPoliciesDefaultsAsHooksDeletePoliciesElem_type in_;
      copy_slice out in_]);
    if_field "Enabled" in_ out (λ in_ out, [set_new out TBool; through in_ out (λ a b, assign b a)]);
    if_field "Hooks" in_ out (λ in_ out, [
      make_slice out NetworkPoliciesDefaultsAsHooksHooksElem_type in_;
      copy_slice out in_])].
Definition NetworkPoliciesDefaultsAsHooks_DeepCopy : val → M val :=
  deep_copy NetworkPoliciesDefaultsAsHooks_type NetworkPoliciesDefaultsAsHooks_DeepCopyInto.

Definition NetworkPoliciesEgressDefaultsAllowInNamespace_DeepCopyInto (in_ out : ref) : M unit :=
  body [
    assign out in_;
    if_field "Enabled" in_ out (λ in_ out, [set_new out TBool; through in_ out (λ a b, assign b a)])].
Definition NetworkPoliciesEgressDefaultsAllowInNamespace_DeepCopy : val → M val :=
  deep_copy NetworkPoliciesEgressDefaultsAllowInNamespace_type NetworkPoliciesEgressDefaultsAllowInNamespace_DeepCopyInto.

Definition NetworkPoliciesEgressDefaultsAllowIstiod_DeepCopyInto (in_ out : ref) : M unit :=
  body [
    assign out in_;
    if_field "Enabled" in_ out (λ in_ out, [set_new out TBool; through in_ out (λ a b, assign b a)])].
Definition NetworkPoliciesEgressDefaultsAllowIstiod_DeepCopy : val → M val :=
  deep_copy NetworkPoliciesEgressDefaultsAllowIstiod_type NetworkPoliciesEgressDefaultsAllowIstiod_DeepCopyInto.

Definition NetworkPoliciesEgressDefaultsAllowKubeDNS_DeepCopyInto (in_ out : ref) : M unit :=
  body [
    assign out in_;
    if_field "Enabled" in_ out (λ in_ out, [set_new out TBool; through in_ out (λ a b, assign b a)])].
Definition NetworkPoliciesEgressDefaultsAllowKubeDNS_DeepCopy : val → M val :=
  deep_copy NetworkPoliciesEgressDefaultsAllowKubeDNS_type NetworkPoliciesEgressDefaultsAllowKubeDNS_DeepCopyInto.

Definition NetworkPoliciesEgressDefaultsDenyAll_DeepCopyInto (in_ out : ref) : M unit :=
  body [
    assign out in_;
    if_field "Enabled" in_ out (λ in_ out, [set_new out TBool; through in_ out (λ a b, assign b a)])].
Definition NetworkPoliciesEgressDefaultsDenyAll_DeepCopy : val → M val :=
  deep_copy NetworkPoliciesEgressDefaultsDenyAll_type NetworkPoliciesEgressDefaultsDenyAll_DeepCopyInto.

Definition NetworkPoliciesEgressDefaults_DeepCopyInto (in_ out : ref) : M unit :=
  body [
    assign out in_;
    if_field "AllowInNamespace" in_ out (λ in_ out, [
      set_new out NetworkPoliciesEgressDefaultsAllowInNamespace_type;
      through in_ out NetworkPoliciesEgressDefaultsAllowInNamespace_DeepCopyInto]);
    if_field "AllowIstiod" in_ out (λ in_ out, [
      set_new out NetworkPoliciesEgressDefaultsAllowIstiod_type;
      through in_ out NetworkPoliciesEgressDefaultsAllowIstiod_DeepCopyInto]);
    if_field "AllowKubeDNS" in_ out (λ in_ out, [
      set_new out NetworkPoliciesEgressDefaultsAllowKubeDNS_type;
      through in_ out NetworkPoliciesEgressDefaultsAllowKubeDNS_DeepCopyInto]);
    if_field "DenyAll" in_ out (λ in_ out, [
      set_new out NetworkPoliciesEgressDefaultsDenyAll_type;
      through in_ out NetworkPoliciesEgressDefaultsDenyAll_DeepCopyInto]);
    if_field "Enabled" in_ out (λ in_ out, [set_new out TBool; through in_ out (λ a b, assign b a)])].
Definition NetworkPoliciesEgressDefaults_DeepCopy : val → M val :=
  deep_copy NetworkPoliciesEgressDefaults_type NetworkPoliciesEgressDefaults_DeepCopyInto.

Definition NetworkPoliciesEgressDefinitionsValuePortsElem_DeepCopyInto (in_ out : ref) : M unit :=
  body [
    assign out in_;
    if_field "EndPort" in_ out (λ in_ out, [set_new out TInt; through in_ out (λ a b, assign b a)]);
    if_field "Port" in_ out (λ in_ out, [set_new out IntOrString_type; through in_ out (λ a b, assign b a)]);
    if_field "Protocol" in_ out (λ in_ out, [
      set_new out NetworkPoliciesEgressDefinitionsValuePortsElemProtocol_type;
      through in_ out (λ a b, assign b a)])].
Definition NetworkPoliciesEgressDefinitionsValuePortsElem_DeepCopy : val → M val :=
  deep_copy NetworkPoliciesEgressDefinitionsValuePortsElem_type NetworkPoliciesEgressDefinitionsValuePortsElem_DeepCopyInto.

Definition NetworkPoliciesEgressDefinitionsValueToElemIPBlock_DeepCopyInto (in_ out : ref) : M unit :=
  body [
    assign out in_;
    if_field "CIDR" in_ out (λ in_ out, [set_new out TString; through in_ out (λ a b, assign b a)]);
    if_field "Except" in_ out (λ in_ out, [make_slice out TString in_; copy_slice out in_])].
Definition NetworkPoliciesEgressDefinitionsValueToElemIPBlock_DeepCopy : val → M val :=
  deep_copy NetworkPoliciesEgressDefinitionsValueToElemIPBlock_type NetworkPoliciesEgressDefinitionsValueToElemIPBlock_DeepCopyInto.

Definition NetworkPoliciesEgressDefinitionsValueToElemNamespaceSelector_DeepCopyInto (in_ : val) (out : ref) : M unit :=
  in_ ← new_var in_; body [
    make_map out;
    range_map in_ (λ key x, v ← copied_value JSON_DeepCopy x; set_key out key v)].
Definition NetworkPoliciesEgressDefinitionsValueToElemNamespaceSelector_DeepCopy : val → M val :=
  deep_copy_map NetworkPoliciesEgressDefinitionsValueToElemNamespaceSelector_DeepCopyInto.

Definition NetworkPoliciesEgressDefinitionsValueToElemPodSelector_DeepCopyInto (in_ : val) (out : ref) : M unit :=
  in_ ← new_var in_; body [
    make_map out;
    range_map in_ (λ key x, v ← copied_value JSON_DeepCopy x; set_key out key v)].
Definition NetworkPoliciesEgressDefinitionsValueToElemPodSelector_DeepCopy : val → M val :=
  deep_copy_map NetworkPoliciesEgressDefinitionsValueToElemPodSelector_DeepCopyInto.

Definition NetworkPoliciesEgressDefinitionsValueToElem_DeepCopyInto (in_ out : ref) : M unit :=
  body [
    assign out in_;
    if_field "IPBlock" in_ out (λ in_ out, [
      set_new out NetworkPoliciesEgressDefinitionsValueToElemIPBlock_type;
      through in_ out NetworkPoliciesEgressDefinitionsValueToElemIPBlock_DeepCopyInto]);
    if_field "NamespaceSelector" in_ out (λ in_ out, [
      make_map out;
      range_map in_ (λ key x, v ← copied_value JSON_DeepCopy x; set_key out key v)]);
    if_field "PodSelector" in_ out (λ in_ out, [
      make_map out;
      range_map in_ (λ key x, v ← copied_value JSON_DeepCopy x; set_key out key v)])].
Definition NetworkPoliciesEgressDefinitionsValueToElem_DeepCopy : val → M val :=
  deep_copy NetworkPoliciesEgressDefinitionsValueToElem_type NetworkPoliciesEgressDefinitionsValueToElem_DeepCopyInto.

Definition NetworkPoliciesEgressDefinitionsValue_DeepCopyInto (in_ out : ref) : M unit :=
  body [
    assign out in_;
    if_field "Ports" in_ out (λ in_ out, [
      make_slice out NetworkPoliciesEgressDefinitionsValuePortsElem_type in_;
      range_slice in_ (λ i, a ← elem in_ i; b ← elem out i; NetworkPoliciesEgressDefinitionsValuePortsElem_DeepCopyInto a b)]);
    if_field "To" in_ out (λ in_ out, [
      make_slice out NetworkPoliciesEgressDefinitionsValueToElem_type in_;
      range_slice in_ (λ i, a ← elem in_ i; b ← elem out i; NetworkPoliciesEgressDefinitionsValueToElem_DeepCopyInto a b)])].
Definition NetworkPoliciesEgressDefinitionsValue_DeepCopy : val → M val :=
  deep_copy NetworkPoliciesEgressDefinitionsValue_type NetworkPoliciesEgressDefinitionsValue_DeepCopyInto.

Definition NetworkPoliciesEgressDefinitions_DeepCopyInto (in_ : val) (out : ref) : M unit :=
  in_ ← new_var in_; body [
    make_map out;
    range_map in_ (λ key x, v ← copied_value NetworkPoliciesEgressDefinitionsValue_DeepCopy x; set_key out key v)].
Definition NetworkPoliciesEgressDefinitions_DeepCopy : val → M val :=
  deep_copy_map NetworkPoliciesEgressDefinitions_DeepCopyInto.

Definition NetworkPoliciesEgressFrom_DeepCopyInto (in_ : val) (out : ref) : M unit :=
  in_ ← new_var in_; body [
    make_map out;
    range_map in_ (λ key x, v ← copied_value JSON_DeepCopy x; set_key out key v)].
Definition NetworkPoliciesEgressFrom_DeepCopy : val → M val := deep_copy_map NetworkPoliciesEgressFrom_DeepCopyInto.

Definition NetworkPoliciesEgress_DeepCopyInto (in_ out : ref) : M unit :=
  body [
    assign out in_;
    if_field "Defaults" in_ out (λ in_ out, [
      set_new out NetworkPoliciesEgressDefaults_type;
      through in_ out NetworkPoliciesEgressDefaults_DeepCopyInto]);
    if_field "Definitions" in_ out (λ in_ out, [
      make_map out;
      range_map in_ (λ key x, v ← copied_value NetworkPoliciesEgressDefinitionsValue_DeepCopy x; set_key out key v)]);
    if_field "ExcludeCIDRs" in_ out (λ in_ out, [make_slice out TString in_; copy_slice out in_]);
    if_field "From" in_ out (λ in_ out, [
      make_map out;
      range_map in_ (λ key x, v ← copied_value JSON_DeepCopy x; set_key out key v)])].
Definition NetworkPoliciesEgress_DeepCopy : val → M val :=
  deep_copy NetworkPoliciesEgress_type NetworkPoliciesEgress_DeepCopyInto.

Definition NetworkPoliciesHbonePortInjection_DeepCopyInto (in_ out : ref) : M unit :=
  body [assign out in_].
Definition NetworkPoliciesHbonePortInjection_DeepCopy : val → M val :=
  deep_copy NetworkPoliciesHbonePortInjection_type NetworkPoliciesHbonePortInjection_DeepCopyInto.

Definition NetworkPoliciesIngressDefaultsAllowInNamespace_DeepCopyInto (in_ out : ref) : M unit :=
  body [
    assign out in_;
    if_field "Enabled" in_ out (λ in_ out, [set_new out TBool; through in_ out (λ a b, assign b a)])].
Definition NetworkPoliciesIngressDefaultsAllowInNamespace_DeepCopy : val → M val :=
  deep_copy NetworkPoliciesIngressDefaultsAllowInNamespace_type NetworkPoliciesIngressDefaultsAllowInNamespace_DeepCopyInto.

Definition NetworkPoliciesIngressDefaultsAllowPrometheusToIstioSidecar_DeepCopyInto (in_ out : ref) : M unit :=
  body [
    assign out in_;
    if_field "Enabled" in_ out (λ in_ out, [set_new out TBool; through in_ out (λ a b, assign b a)])].
Definition NetworkPoliciesIngressDefaultsAllowPrometheusToIstioSidecar_DeepCopy : val → M val :=
  deep_copy NetworkPoliciesIngressDefaultsAllowPrometheusToIstioSidecar_type NetworkPoliciesIngressDefaultsAllowPrometheusToIstioSidecar_DeepCopyInto.

Definition NetworkPoliciesIngressDefaultsDenyAll_DeepCopyInto (in_ out : ref) : M unit :=
  body [
    assign out in_;
    if_field "Enabled" in_ out (λ in_ out, [set_new out TBool; through in_ out (λ a b, assign b a)])].
Definition NetworkPoliciesIngressDefaultsDenyAll_DeepCopy : val → M val :=
  deep_copy NetworkPoliciesIngressDefaultsDenyAll_type NetworkPoliciesIngressDefaultsDenyAll_DeepCopyInto.

Definition NetworkPoliciesIngressDefaults_DeepCopyInto (in_ out : ref) : M unit :=
  body [
    assign out in_;
    if_field "AllowInNamespace" in_ out (λ in_ out, [
      set_new out NetworkPoliciesIngressDefaultsAllowInNamespace_type;
      through in_ out NetworkPoliciesIngressDefaultsAllowInNamespace_DeepCopyInto]);
    if_field "AllowPrometheusToIstioSidecar" in_ out (λ in_ out, [
      set_new out NetworkPoliciesIngressDefaultsAllowPrometheusToIstioSidecar_type;
      through in_ out NetworkPoliciesIngressDefaultsAllowPrometheusToIstioSidecar_DeepCopyInto]);
    if_field "DenyAll" in_ out (λ in_ out, [
      set_new out NetworkPoliciesIngressDefaultsDenyAll_type;
      through in_ out NetworkPoliciesIngressDefaultsDenyAll_DeepCopyInto]);
    if_field "Enabled" in_ out (λ in_ out, [set_new out TBool; through in_ out (λ a b, assign b a)])].
Definition NetworkPoliciesIngressDefaults_DeepCopy : val → M val :=
  deep_copy NetworkPoliciesIngressDefaults_type NetworkPoliciesIngressDefaults_DeepCopyInto.

Definition NetworkPoliciesIngressDefinitionsValueFromElemIPBlock_DeepCopyInto (in_ out : ref) : M unit :=
  body [
    assign out in_;
    if_field "CIDR" in_ out (λ in_ out, [set_new out TString; through in_ out (λ a b, assign b a)]);
    if_field "Except" in_ out (λ in_ out, [make_slice out TString in_; copy_slice out in_])].
Definition NetworkPoliciesIngressDefinitionsValueFromElemIPBlock_DeepCopy : val → M val :=
  deep_copy NetworkPoliciesIngressDefinitionsValueFromElemIPBlock_type NetworkPoliciesIngressDefinitionsValueFromElemIPBlock_DeepCopyInto.

Definition NetworkPoliciesIngressDefinitionsValueFromElemNamespaceSelector_DeepCopyInto (in_ : val) (out : ref) : M unit :=
  in_ ← new_var in_; body [
    make_map out;
    range_map in_ (λ key x, v ← copied_value JSON_DeepCopy x; set_key out key v)].
Definition NetworkPoliciesIngressDefinitionsValueFromElemNamespaceSelector_DeepCopy : val → M val :=
  deep_copy_map NetworkPoliciesIngressDefinitionsValueFromElemNamespaceSelector_DeepCopyInto.

Definition NetworkPoliciesIngressDefinitionsValueFromElemPodSelector_DeepCopyInto (in_ : val) (out : ref) : M unit :=
  in_ ← new_var in_; body [
    make_map out;
    range_map in_ (λ key x, v ← copied_value JSON_DeepCopy x; set_key out key v)].
Definition NetworkPoliciesIngressDefinitionsValueFromElemPodSelector_DeepCopy : val → M val :=
  deep_copy_map NetworkPoliciesIngressDefinitionsValueFromElemPodSelector_DeepCopyInto.

Definition NetworkPoliciesIngressDefinitionsValueFromElem_DeepCopyInto (in_ out : ref) : M unit :=
  body [
    assign out in_;
    if_field "IPBlock" in_ out (λ in_ out, [
      set_new out NetworkPoliciesIngressDefinitionsValueFromElemIPBlock_type;
      through in_ out NetworkPoliciesIngressDefinitionsValueFromElemIPBlock_DeepCopyInto]);
    if_field "NamespaceSelector" in_ out (λ in_ out, [
      make_map out;
      range_map in_ (λ key x, v ← copied_value JSON_DeepCopy x; set_key out key v)]);
    if_field "PodSelector" in_ out (λ in_ out, [
      make_map out;
      range_map in_ (λ key x, v ← copied_value JSON_DeepCopy x; set_key out key v)])].
Definition NetworkPoliciesIngressDefinitionsValueFromElem_DeepCopy : val → M val :=
  deep_copy NetworkPoliciesIngressDefinitionsValueFromElem_type NetworkPoliciesIngressDefinitionsValueFromElem_DeepCopyInto.

Definition NetworkPoliciesIngressDefinitionsValuePortsElem_DeepCopyInto (in_ out : ref) : M unit :=
  body [
    assign out in_;
    if_field "EndPort" in_ out (λ in_ out, [set_new out TInt; through in_ out (λ a b, assign b a)]);
    if_field "Port" in_ out (λ in_ out, [set_new out IntOrString_type; through in_ out (λ a b, assign b a)]);
    if_field "Protocol" in_ out (λ in_ out, [
      set_new out NetworkPoliciesIngressDefinitionsValuePortsElemProtocol_type;
      through in_ out (λ a b, assign b a)])].
Definition NetworkPoliciesIngressDefinitionsValuePortsElem_DeepCopy : val → M val :=
  deep_copy NetworkPoliciesIngressDefinitionsValuePortsElem_type NetworkPoliciesIngressDefinitionsValuePortsElem_DeepCopyInto.

Definition NetworkPoliciesIngressDefinitionsValue_DeepCopyInto (in_ out : ref) : M unit :=
  body [
    assign out in_;
    if_field "From" in_ out (λ in_ out, [
      make_slice out NetworkPoliciesIngressDefinitionsValueFromElem_type in_;
      range_slice in_ (λ i, a ← elem in_ i; b ← elem out i; NetworkPoliciesIngressDefinitionsValueFromElem_DeepCopyInto a b)]);
    if_field "Ports" in_ out (λ in_ out, [
      make_slice out NetworkPoliciesIngressDefinitionsValuePortsElem_type in_;
      range_slice in_ (λ i, a ← elem in_ i; b ← elem out i; NetworkPoliciesIngressDefinitionsValuePortsElem_DeepCopyInto a b)])].
Definition NetworkPoliciesIngressDefinitionsValue_DeepCopy : val → M val :=
  deep_copy NetworkPoliciesIngressDefinitionsValue_type NetworkPoliciesIngressDefinitionsValue_DeepCopyInto.

Definition NetworkPoliciesIngressDefinitions_DeepCopyInto (in_ : val) (out : ref) : M unit :=
  in_ ← new_var in_; body [
    make_map out;
    range_map in_ (λ key x, v ← copied_value NetworkPoliciesIngressDefinitionsValue_DeepCopy x; set_key out key v)].
Definition NetworkPoliciesIngressDefinitions_DeepCopy : val → M val :=
  deep_copy_map NetworkPoliciesIngressDefinitions_DeepCopyInto.

Definition NetworkPoliciesIngressTo_DeepCopyInto (in_ : val) (out : ref) : M unit :=
  in_ ← new_var in_; body [
    make_map out;
    range_map in_ (λ key x, v ← copied_value JSON_DeepCopy x; set_key out key v)].
Definition NetworkPoliciesIngressTo_DeepCopy : val → M val := deep_copy_map NetworkPoliciesIngressTo_DeepCopyInto.

Definition NetworkPoliciesIngress_DeepCopyInto (in_ out : ref) : M unit :=
  body [
    assign out in_;
    if_field "Defaults" in_ out (λ in_ out, [
      set_new out NetworkPoliciesIngressDefaults_type;
      through in_ out NetworkPoliciesIngressDefaults_DeepCopyInto]);
    if_field "Definitions" in_ out (λ in_ out, [
      make_map out;
      range_map in_ (λ key x, v ← copied_value NetworkPoliciesIngressDefinitionsValue_DeepCopy x; set_key out key v)]);
    if_field "To" in_ out (λ in_ out, [
      make_map out;
      range_map in_ (λ key x, v ← copied_value JSON_DeepCopy x; set_key out key v)])].
Definition NetworkPoliciesIngress_DeepCopy : val → M val :=
  deep_copy NetworkPoliciesIngress_type NetworkPoliciesIngress_DeepCopyInto.

Definition NetworkPolicies_DeepCopyInto (in_ out : ref) : M unit :=
  body [
    assign out in_;
    if_field "Additional" in_ out (λ in_ out, [
      make_slice out AdditionalPolicy_type in_;
      range_slice in_ (λ i, a ← elem in_ i; b ← elem out i; AdditionalPolicy_DeepCopyInto a b)]);
    if_field "AdditionalPolicies" in_ out (λ in_ out, [
      make_slice out AdditionalPolicy_type in_;
      range_slice in_ (λ i, a ← elem in_ i; b ← elem out i; AdditionalPolicy_DeepCopyInto a b)]);
    if_field "DefaultsAsHooks" in_ out (λ in_ out, [
      set_new out NetworkPoliciesDefaultsAsHooks_type;
      through in_ out NetworkPoliciesDefaultsAsHooks_DeepCopyInto]);
    if_field "Egress" in_ out (λ in_ out, [
      set_new out NetworkPoliciesEgress_type;
      through in_ out NetworkPoliciesEgress_DeepCopyInto]);
    if_field "HbonePortInjection" in_ out (λ in_ out, [
      set_new out NetworkPoliciesHbonePortInjection_type;
      through in_ out (λ a b, assign b a)]);
    if_field "Ingress" in_ out (λ in_ out, [
      set_new out NetworkPoliciesIngress_type;
      through in_ out NetworkPoliciesIngress_DeepCopyInto])].
Definition NetworkPolicies_DeepCopy : val → M val := deep_copy NetworkPolicies_type NetworkPolicies_DeepCopyInto.

Definition RoutesInbound_DeepCopyInto (in_ : val) (out : ref) : M unit :=
  in_ ← new_var in_; body [
    make_map out;
    range_map in_ (λ key x, v ← copied_value JSON_DeepCopy x; set_key out key v)].
Definition RoutesInbound_DeepCopy : val → M val := deep_copy_map RoutesInbound_DeepCopyInto.

Definition RoutesOutbound_DeepCopyInto (in_ : val) (out : ref) : M unit :=
  in_ ← new_var in_; body [
    make_map out;
    range_map in_ (λ key x, v ← copied_value JSON_DeepCopy x; set_key out key v)].
Definition RoutesOutbound_DeepCopy : val → M val := deep_copy_map RoutesOutbound_DeepCopyInto.

Definition InboundRouteDefaults_DeepCopyInto (in_ out : ref) : M unit :=
  body [
    assign out in_;
    if_field "Gateways" in_ out (λ in_ out, [make_slice out TString in_; copy_slice out in_])].
Definition InboundRouteDefaults_DeepCopy : val → M val :=
  deep_copy InboundRouteDefaults_type InboundRouteDefaults_DeepCopyInto.

Definition RouteDefaults_DeepCopyInto (in_ out : ref) : M unit :=
  body [
    assign out in_;
    if_field "Inbound" in_ out (λ in_ out, [
      set_new out InboundRouteDefaults_type;
      through in_ out InboundRouteDefaults_DeepCopyInto])].
Definition RouteDefaults_DeepCopy : val → M val := deep_copy RouteDefaults_type RouteDefaults_DeepCopyInto.

Definition Routes_DeepCopyInto (in_ out : ref) : M unit :=
  body [
    assign out in_;
    if_field "Defaults" in_ out (λ in_ out, [
      set_new out RouteDefaults_type;
      through in_ out RouteDefaults_DeepCopyInto]);
    if_field "Inbound" in_ out (λ in_ out, [
      make_map out;
      range_map in_ (λ key x, v ← copied_value JSON_DeepCopy x; set_key out key v)]);
    if_field "Outbound" in_ out (λ in_ out, [
      make_map out;
      range_map in_ (λ key x, v ← copied_value JSON_DeepCopy x; set_key out key v)])].
Definition Routes_DeepCopy : val → M val := deep_copy Routes_type Routes_DeepCopyInto.

Definition RoutePassthrough_DeepCopyInto (in_ out : ref) : M unit :=
  body [
    assign out in_;
    if_field "GatewayPort" in_ out (λ in_ out, [set_new out TInt; through in_ out (λ a b, assign b a)])].
Definition RoutePassthrough_DeepCopy : val → M val := deep_copy RoutePassthrough_type RoutePassthrough_DeepCopyInto.

Definition InboundRoute_DeepCopyInto (in_ out : ref) : M unit :=
  body [
    assign out in_;
    if_field "Gateways" in_ out (λ in_ out, [make_slice out TString in_; copy_slice out in_]);
    if_field "Hosts" in_ out (λ in_ out, [make_slice out TString in_; copy_slice out in_]);
    if_field "Port" in_ out (λ in_ out, [set_new out IntOrString_type; through in_ out (λ a b, assign b a)]);
    if_field "ContainerPort" in_ out (λ in_ out, [
      set_new out IntOrString_type;
      through in_ out (λ a b, assign b a)]);
    if_field "Selector" in_ out (λ in_ out, [make_map out; range_map in_ (λ key x, set_key out key x)]);
    if_field "Http" in_ out (λ in_ out, [
      make_slice out JSON_type in_;
      range_slice in_ (λ i, a ← elem in_ i; b ← elem out i; JSON_DeepCopyInto a b)]);
    if_field "Passthrough" in_ out (λ in_ out, [
      set_new out RoutePassthrough_type;
      through in_ out RoutePassthrough_DeepCopyInto]);
    if_field "Labels" in_ out (λ in_ out, [make_map out; range_map in_ (λ key x, set_key out key x)]);
    if_field "Annotations" in_ out (λ in_ out, [make_map out; range_map in_ (λ key x, set_key out key x)])].
Definition InboundRoute_DeepCopy : val → M val := deep_copy InboundRoute_type InboundRoute_DeepCopyInto.

Definition OutboundRoutePort_DeepCopyInto (in_ out : ref) : M unit :=
  body [assign out in_].
Definition OutboundRoutePort_DeepCopy : val → M val :=
  deep_copy OutboundRoutePort_type OutboundRoutePort_DeepCopyInto.

Definition RouteMetadata_DeepCopyInto (in_ out : ref) : M unit :=
  body [
    assign out in_;
    if_field "Labels" in_ out (λ in_ out, [make_map out; range_map in_ (λ key x, set_key out key x)]);
    if_field "Annotations" in_ out (λ in_ out, [make_map out; range_map in_ (λ key x, set_key out key x)])].
Definition RouteMetadata_DeepCopy : val → M val := deep_copy RouteMetadata_type RouteMetadata_DeepCopyInto.

Definition OutboundRoute_DeepCopyInto (in_ out : ref) : M unit :=
  body [
    assign out in_;
    if_field "Hosts" in_ out (λ in_ out, [make_slice out TString in_; copy_slice out in_]);
    if_field "Ports" in_ out (λ in_ out, [make_slice out OutboundRoutePort_type in_; copy_slice out in_]);
    if_field "Metadata" in_ out (λ in_ out, [
      set_new out RouteMetadata_type;
      through in_ out RouteMetadata_DeepCopyInto])].
Definition OutboundRoute_DeepCopy : val → M val := deep_copy OutboundRoute_type OutboundRoute_DeepCopyInto.

Definition PackageSpec_DeepCopyInto (in_ out : ref) : M unit :=
  body [
    assign out in_;
    if_field "Istio" in_ out (λ in_ out, [set_new out Istio_type; through in_ out Istio_DeepCopyInto]);
    if_field "NetworkPolicies" in_ out (λ in_ out, [
      set_new out NetworkPolicies_type;
      through in_ out NetworkPolicies_DeepCopyInto]);
    if_field "Routes" in_ out (λ in_ out, [set_new out Routes_type; through in_ out Routes_DeepCopyInto])].
Definition PackageSpec_DeepCopy : val → M val := deep_copy PackageSpec_type PackageSpec_DeepCopyInto.

Definition AppliedResource_DeepCopyInto (in_ out : ref) : M unit :=
  body [assign out in_].
Definition AppliedResource_DeepCopy : val → M val := deep_copy AppliedResource_type AppliedResource_DeepCopyInto.

Definition PackageStatus_DeepCopyInto (in_ out : ref) : M unit :=
  body [
    assign out in_;
    if_field "Conditions" in_ out (λ in_ out, [
      make_slice out Condition_type in_;
      range_slice in_ (λ i, a ← elem in_ i; b ← elem out i; Condition_DeepCopyInto a b)]);
    if_field "AppliedResources" in_ out (λ in_ out, [make_slice out AppliedResource_type in_; copy_slice out in_])].
Definition PackageStatus_DeepCopy : val → M val := deep_copy PackageStatus_type PackageStatus_DeepCopyInto.

Definition Package_DeepCopyInto (in_ out : ref) : M unit :=
  body [
    assign out in_;
    assign (field_ref "TypeMeta" out) (field_ref "TypeMeta" in_);
    ObjectMeta_DeepCopyInto (field_ref "ObjectMeta" in_) (field_ref "ObjectMeta" out);
    PackageSpec_DeepCopyInto (field_ref "Spec" in_) (field_ref "Spec" out);
    PackageStatus_DeepCopyInto (field_ref "Status" in_) (field_ref "Status" out)].
Definition Package_DeepCopy : val → M val := deep_copy Package_type Package_DeepCopyInto.
Definition Package_DeepCopyObject : val → M (option val) := deep_copy_object Package_DeepCopy.

Definition PackageList_DeepCopyInto (in_ out : ref) : M unit :=
  body [
    assign out in_;
    assign (field_ref "TypeMeta" out) (field_ref "TypeMeta" in_);
    ListMeta_DeepCopyInto (field_ref "ListMeta" in_) (field_ref "ListMeta" out);
    if_field "Items" in_ out (λ in_ out, [
      make_slice out Package_type in_;
      range_slice in_ (λ i, a ← elem in_ i; b ← elem out i; Package_DeepCopyInto a b)])].
Definition PackageList_DeepCopy : val → M val := deep_copy PackageList_type PackageList_DeepCopyInto.
Definition PackageList_DeepCopyObject : val → M (option val) := deep_copy_object PackageList_DeepCopy.

End DeepCopy.
