(* ===== verification/CopyTemplate.v ===== *)
(** * The template of the deep copies, and that it copies

    controller-gen writes the copy of a type by following its shape.  [template]
    is that rule, once for all types; [template_copies] is its correctness.  The
    generated methods are instances of it ([Copies.v]). *)

From S2P Require Import Prelude Memory Ownership GoTypes DeepCopy.
Local Open Scope string_scope.
Local Open Scope list_scope.

Section Template.
Context `{ExternalMethods} `{MapOrder}.

(** [in.DeepCopyInto(out)]: a method of this file, or of another package. *)
Definition into (t : gotype) (ss : ref → ref → list (M unit)) : ref → ref → M unit :=
  match t with TNamed n _ => external_DeepCopyInto n | _ => λ in_ out, body (ss in_ out) end.
Definition copy_method (t : gotype) (ss : ref → ref → list (M unit)) : val → M val :=
  match t with TNamed n _ => external_DeepCopy n | _ => deep_copy t (into t ss) end.

(** The statements for a field: none for what [*out = *in] has copied. *)
Definition field_stmts (f : string) (t : gotype) (ss : ref → ref → list (M unit)) (in_ out : ref) : list (M unit) :=
  match t with
  | TBasic _ => []
  | TPlain _ => [assign (field_ref f out) (field_ref f in_)]
  | TStruct _ | TNamed _ _ => [into t ss (field_ref f in_) (field_ref f out)]
  | _ => [if_field f in_ out ss]
  end.

(** The statements for [*in] and [*out], after the nil check where there is one. *)
Fixpoint template (t : gotype) : ref → ref → list (M unit) :=
  match t with
  | TBasic _ | TPlain _ => λ _ _, []
  | TStruct ts => λ in_ out, assign out in_ :: concat ((λ '(f, t), field_stmts f t (template t) in_ out) <$> ts)
  | TPtr t => λ in_ out,
      [set_new out t; through in_ out (if flat t then λ a b, assign b a else into t (template t))]
  | TSlice t => λ in_ out,
      [make_slice out t in_;
       if flat t then copy_slice out in_
       else range_slice in_ (λ i, a ← elem in_ i;
              if nilable t then if_not_nil a (b ← elem out i; body (template t a b))
              else b ← elem out i; into t (template t) a b)]
  | TMap t => λ in_ out,
      [make_map out;
       range_map in_ (λ key x, if flat t then set_key out key x
         else v ← copied_value (copy_method t (template t)) x; set_key out key v)]
  | TNamed n _ => λ in_ out, [external_DeepCopyInto n in_ out]
  end.
End Template.

(** ** What it means to copy *)

(** The place [out] was given the value [v], and otherwise memory was only added. *)
Definition writes (h : memory) (out : ref) (v : val) (h' : memory) : Prop := ∃ h1, write h out v = Some h1 ∧ h1 ⊆ h'.

(** The arguments of a copy: a value to read, and a place to write outside of it. *)
Record source (t : gotype) (h : memory) (in_ out : ref) (v : val) : Prop := {
  src_read : read h in_ = Some v;
  src_typed : well_typed t h v;
  src_out : is_Some (read h out);
  src_apart : r_block in_ ≠ r_block out;
  src_outside : r_block out ∉ footprint t h v
}.

(** [s] leaves a copy of [v] in [out], and [f] copies any value of the type. *)
Definition leaves_copy (t : gotype) (s : M unit) (h : memory) (out : ref) (v : val) : Prop :=
  ∃ h' v', s h = Ok ((), h') ∧ writes h out v' h' ∧ copied t h v h' v'.
Definition copies (t : gotype) (f : ref → ref → M unit) : Prop :=
  ∀ h in_ out v, source t h in_ out v → leaves_copy t (f in_ out) h out v.
(** [f] returns a pointer to a new copy. *)
Definition copies_new (t : gotype) (f : val → M val) : Prop :=
  ∀ h r v, read h r = Some v → well_typed t h v →
  ∃ h' r' v', f (VPtr r) h = Ok (VPtr r', h') ∧ h ⊆ h' ∧ r_block r' ∉ dom h ∧ read h' r' = Some v' ∧ copied t h v h' v'.

(** Well-formed types: field names differ, pointers and maps lead to values and
    not to nilable types, and the methods of another package's type copy it. *)
Fixpoint proper `{ExternalMethods} (t : gotype) : Prop :=
  match t with
  | TStruct ts => bool_decide (NoDup ts.*1) = true ∧ all (λ '(_, t), proper t) ts
  | TPtr t | TMap t => nilable t = false ∧ proper t
  | TSlice t => proper t
  | TNamed n t => copies t (external_DeepCopyInto n) ∧ copies_new t (external_DeepCopy n)
  | _ => True
  end.

(** *** Writes *)

Lemma writes_read h out v h' : writes h out v h' → read h' out = Some v.
Proof. intros (h1 & Hw & Hs). eapply read_mono; [done|]. by eapply read_write_same. Qed.

Lemma writes_dom h out v h' : writes h out v h' → dom h ⊆ dom h'.
Proof. intros (h1 & Hw & Hs%subseteq_dom). by rewrite <-(write_dom _ _ _ _ Hw). Qed.

Lemma writes_evolves h out v h' : writes h out v h' → evolves (r_block out) h h'.
Proof.
  intros (h1 & Hw & Hs) l [b Hl]%elem_of_dom Hne. rewrite Hl. eapply lookup_weaken; [|done].
  by rewrite (write_other _ _ _ _ _ Hw Hne).
Qed.

Lemma writes_write h out v h' : write h out v = Some h' → writes h out v h'.
Proof. intros Hw. by exists h'. Qed.

Lemma writes_again h out v h1 w h2 : writes h out v h1 → writes h1 out w h2 → writes h out w h2.
Proof.
  intros (ha & Ha & Hs) (hb & Hb & Hs2). destruct (write_Some ha out w) as [hc Hc]; [eexists; by eapply read_write_same|].
  destruct (write_mono _ _ _ _ _ Hs Hc) as (hd & Hd & Hsub). rewrite Hb in Hd. injection Hd as <-.
  exists hc. split; [by rewrite <-(write_again _ _ _ _ _ Ha)|by etrans].
Qed.

Lemma writes_sub h h1 out v h2 : is_Some (read h out) → h ⊆ h1 → writes h1 out v h2 → writes h out v h2.
Proof.
  intros Hr Hs (hb & Hb & Hs2). destruct (write_Some h out v Hr) as [hc Hc].
  destruct (write_mono _ _ _ _ _ Hs Hc) as (hd & Hd & Hsub). rewrite Hb in Hd. injection Hd as <-. exists hc. split; [done|by etrans].
Qed.

(** What a new block does later is not seen. *)
Lemma writes_then h out v h1 l h2 : writes h out v h1 → l ∉ dom h → evolves l h1 h2 → writes h out v h2.
Proof.
  intros (ha & Ha & Hs) Hl He. exists ha. split; [done|]. apply map_subseteq_spec. intros k b Hk.
  assert (k ∈ dom h) as Hd by (rewrite <-(write_dom _ _ _ _ Ha); by eapply elem_of_dom_2).
  rewrite (He k); [by eapply lookup_weaken| |by intros ->]. eapply elem_of_dom_2. by eapply lookup_weaken.
Qed.

Lemma writes_field h out f x fs h' :
  read h out = Some (VStruct fs) → is_Some (field_of f fs) →
  writes h (field_ref f out) x h' → writes h out (VStruct (set_field f x fs)) h'.
Proof. intros Hr Hf (h1 & Hw & Hs). exists h1. split; [|done]. by rewrite <-(write_field _ _ _ _ _ Hr Hf). Qed.

Lemma evolves_refl b h : evolves b h h.
Proof. by intros l _ _. Qed.

Lemma sub_evolves b h h' : h ⊆ h' → evolves b h h'.
Proof. intros Hs l [x Hl]%elem_of_dom _. rewrite Hl. by eapply lookup_weaken. Qed.

Lemma read_evolves b h h' r x : read h r = Some x → r_block r ≠ b → evolves b h h' → read h' r = Some x.
Proof. intros Hr Hne He. rewrite <-Hr. apply read_other, He; [by eapply read_dom|done]. Qed.

Lemma new_var_sub h l x h' : l ∉ dom h → evolves l (<[l := Cells [x]]> h) h' → h ⊆ h'.
Proof.
  intros Hl He. apply map_subseteq_spec. intros k b Hk. assert (k ∈ dom h) by by eapply elem_of_dom_2.
  assert (k ≠ l) by by intros ->. rewrite (He k); [by rewrite lookup_insert_ne|rewrite dom_insert_L; set_solver|done].
Qed.

Lemma kept_sub t h h' v : well_typed t h v → h ⊆ h' → kept t h h' v.
Proof.
  intros Hw Hs. apply frame. intros l Hl. apply (footprint_allocated t h v Hw) in Hl as [b Hb]%elem_of_dom.
  rewrite Hb. by eapply lookup_weaken.
Qed.

Lemma copied_sub t h v h1 v' h2 : copied t h v h1 v' → h1 ⊆ h2 → copied t h v h2 v'.
Proof.
  intros [Hc Hw Hf] Hs. destruct (kept_sub t h1 h2 v' Hw Hs) as (Hc' & Hf' & Hw').
  split; [congruence|by apply Hw'|by rewrite Hf'].
Qed.

(** ** The template copies *)

Section Correct.
Context `{ExternalMethods} `{MapOrder}.

Definition leaf (t : gotype) : bool := match t with TBasic _ | TPlain _ => true | _ => false end.

(** What is proved of every type by induction. *)
Definition template_ok (t : gotype) : Prop :=
  proper t → leaf t = false →
  ∀ h in_ out v, source t h in_ out v → v ≠ VNil ∨ nilable t = false → leaves_copy t (body (template t in_ out)) h out v.

Lemma into_copies t : template_ok t → proper t → leaf t = false → nilable t = false → copies t (into t (template t)).
Proof.
  intros Ht Hp Hl Hn h in_ out v Hsrc. destruct t; try done; [by apply Ht; [..|right]|].
  destruct Hp as [Hf _], Hsrc as [Hr Hw Ho Ha Hout]. destruct (Hf h in_ out v) as (h' & v' & Hrun & Hwr & Hc); [by split|].
  exists h', v'. split; [done|]. split; [done|]. by destruct Hc.
Qed.

(** A new variable for the copy. *)
Lemma deep_copy_new t f : copies t f → copies_new t (deep_copy t f).
Proof.
  intros Hf h r v Hr Hw. destruct (run_new_var (zero t) h) as (l & h1 & Hnew & -> & Hl & Hs & Hrl).
  destruct (kept_sub t h _ v Hw Hs) as (Hc1 & Hf1 & Hw1). pose proof (footprint_allocated t h v Hw) as Hal.
  destruct (Hf (<[l := Cells [zero t]]> h) r (var_ref l) v) as (h2 & v' & Hrun & Hwr & Hc).
  { split; [by eapply read_mono|by apply Hw1|by eexists| |rewrite Hf1; simpl; set_solver].
    simpl. intros E. apply Hl. rewrite <-E. by eapply read_dom. }
  exists h2, (var_ref l), v'. split; [|split; [|split; [done|split; [by eapply writes_read|]]]].
  - unfold deep_copy. eapply run_then; [done|]. by eapply run_seq.
  - eapply (new_var_sub h l); [done|by apply (writes_evolves _ (var_ref l) v')].
  - eapply copied_from; [split_and!; [exact Hc1|exact Hf1|exact Hw1]|by apply subseteq_dom|done].
Qed.

Lemma method_copies_new t : template_ok t → proper t → leaf t = false → nilable t = false → copies_new t (copy_method t (template t)).
Proof.
  intros Ht Hp Hl Hn. destruct t; try done; [by apply deep_copy_new, (into_copies (TStruct fs))|].
  destruct Hp as [_ Hf]. intros h r v Hr Hw. destruct (Hf h r v Hr Hw) as (h' & r' & v' & Hrun & Hs & Hb & Hrd & []).
  exists h', r', v'. by split_and!.
Qed.

(** *** Pointers *)

Lemma ptr_ok t : template_ok t → template_ok (TPtr t).
Proof.
  intros IH [Hn Hp] _ h in_ out v [Hr Hw Ho Ha Hout] [Hv|?]; [|done].
  destruct Hw as [->|(r & x & -> & Hx & Hwx)]; [done|]. simpl in Hout. rewrite Hx in Hout.
  destruct (run_new_var (zero t) h) as (l & h1 & Hnew & -> & Hl & Hs & Hrl).
  assert (r_block out ∈ dom h) as Hod by (destruct Ho; by eapply read_dom).
  destruct (write_Some (<[l := Cells [zero t]]> h) out (VPtr (var_ref l))) as [h2 Hw2]; [destruct Ho; eexists; by eapply read_mono|].
  assert (evolves (r_block out) h h2) as He2.
  { eapply evolves_trans; [by apply subseteq_dom|by apply sub_evolves|]. by eapply writes_evolves, writes_write. }
  assert (read h2 (var_ref l) = Some (zero t)) as Hrl2.
  { rewrite <-Hrl. apply read_other. eapply write_other; [done|]. simpl. set_solver. }
  destruct (kept_evolves t (r_block out) h h2 x Hwx) as (Hc2 & Hf2 & Hw2'); [set_solver|done|].
  assert (copies t (if flat t then λ a b, assign b a else into t (template t))) as Hcall.
  { destruct (flat t) eqn:Hflat; [|apply into_copies; [done|done|by destruct t|done]].
    intros hh a b y [Hra Hya Hob _ _]. destruct (write_Some hh b y Hob) as [hb Hwb]. exists hb, y.
    split; [by eapply run_assign|]. split; [by apply writes_write|by apply copied_flat]. }
  pose proof (footprint_allocated t h x Hwx) as Hal.
  destruct (Hcall h2 r (var_ref l) x) as (h3 & x' & Hrun & Hwr & Hcop).
  { split; [eapply read_evolves; [done| |done]; set_solver|by apply Hw2'|by eexists| |rewrite Hf2; simpl; set_solver].
    simpl. intros E. apply Hl. rewrite <-E. by eapply read_dom. }
  exists h3, (VPtr (var_ref l)). split; [|split].
  - simpl. eapply run_seq; [unfold set_new; eapply run_then; [exact Hnew|by apply run_store]|]. eapply run_seq; [|done].
    unfold through. eapply run_then; [apply run_deref; by eapply read_evolves|].
    eapply run_then; [apply run_deref; by eapply read_write_same|exact Hrun].
  - eapply (writes_then _ _ _ h2 l); [|done|by eapply (writes_evolves _ (var_ref l))].
    eapply writes_sub; [done|exact Hs|by apply writes_write].
  - assert (copied t h x h3 x') as [Hcc Hcw Hcf].
    { eapply copied_from; [by split_and!| |done]. rewrite (write_dom _ _ _ _ Hw2). by apply subseteq_dom. }
    pose proof (writes_read _ _ _ _ Hwr) as Hr3. split; simpl.
    + by rewrite Hr3, Hx, Hcc.
    + right. by exists (var_ref l), x'.
    + rewrite Hr3. set_solver.
Qed.

(** *** Slices *)

Section Slice.
Context (t : gotype) (s : nat → M unit) (in_ out : ref) (b l : loc) (off n : nat) (vs : list val) (h2 : memory).
Notation xs := (take n (drop off vs)).
Context (Hin : read h2 in_ = Some (VSlice b off n)) (Hout : read h2 out = Some (VSlice l 0 n)).
Context (Hinl : r_block in_ ≠ l) (Houtl : r_block out ≠ l) (Hbl : b ≠ l).
Context (Hb : h2 !! b = Some (Cells vs)) (Hlen : (off + n ≤ length vs)%nat).
Context (Hxs : ∀ x, x ∈ xs → well_typed t h2 x ∧ l ∉ footprint t h2 x) (Hl : l ∈ dom h2).
Context (Hstep : ∀ i h x, (i < n)%nat → source t h (Ref b (off + i) []) (Ref l i []) x →
  read h (Ref l i []) = Some (zero t) → read h in_ = Some (VSlice b off n) → read h out = Some (VSlice l 0 n) →
  leaves_copy t (s i) h (Ref l i []) x).

Lemma slice_length : length xs = n.
Proof. rewrite length_take, length_drop. lia. Qed.

(** After [k] elements. *)
Record slice_inv (k : nat) (h : memory) (copies : list val) : Prop := {
  sl_cells : h !! l = Some (Cells (copies ++ replicate (n - k) (zero t)));
  sl_length : length copies = k;
  sl_evolves : evolves l h2 h;
  sl_dom : dom h2 ⊆ dom h;
  sl_copied : Forall2 (λ x x', copied t h2 x h x') (take k xs) copies
}.

Lemma slice_step k h copies :
  (k < n)%nat → slice_inv k h copies → ∃ h' x', s k h = Ok ((), h') ∧ slice_inv (S k) h' (copies ++ [x']).
Proof.
  intros Hk [Hc Hlk He Hd Hall]. destruct (lookup_lt_is_Some_2 xs k) as [x Hx]; [by rewrite slice_length|].
  destruct (Hxs x) as [Hwx Hlx]; [by eapply list_elem_of_lookup_2|].
  destruct (kept_evolves t l h2 h x Hwx Hlx He) as (Hck & Hfk & Hwk).
  assert (read h (Ref l k []) = Some (zero t)) as Hz.
  { unfold read. simpl. rewrite Hc. rewrite lookup_app_r by lia. rewrite lookup_replicate_2 by lia. done. }
  assert (read h (Ref b (off + k) []) = Some x) as Hxr.
  { unfold read. simpl. rewrite (He b); [|by eapply elem_of_dom_2|done]. rewrite Hb.
    rewrite lookup_take_Some, lookup_drop in Hx. destruct Hx as [-> _]. done. }
  destruct (Hstep k h x Hk) as (h' & x' & Hrun & Hwr & Hcop); [|done|by eapply read_evolves..|].
  { split; [done|by apply Hwk|by eexists|done|by rewrite Hfk]. }
  exists h', x'. split; [done|]. pose proof (writes_evolves _ _ _ _ Hwr) as He'. simpl in He'. pose proof (writes_dom _ _ _ _ Hwr) as Hd'.
  destruct Hwr as (h1 & Hw1 & Hs1). apply write_inv in Hw1 as (cs & old & new & Hcs & Hold & [= <-] & ->). simpl in *.
  rewrite Hc in Hcs. injection Hcs as <-. split.
  - eapply lookup_weaken; [|exact Hs1]. rewrite lookup_insert_eq. f_equal. f_equal.
    rewrite insert_app_r_alt by lia. replace (k - length copies)%nat with 0%nat by lia.
    replace (n - k)%nat with (S (n - S k)) by lia. simpl. by rewrite <-app_assoc.
  - rewrite length_app. simpl. lia.
  - by eapply evolves_trans.
  - by etrans.
  - rewrite (take_S_r _ _ _ Hx). apply Forall2_app.
    + eapply Forall2_impl; [exact Hall|]. intros y y' Hy. eapply copied_evolves; [exact Hy|exact Hl|exact He'].
    + constructor; [|constructor]. by eapply copied_from.
Qed.

Lemma slice_loop : ∀ k h copies, (k ≤ n)%nat → slice_inv k h copies →
  ∃ h' copies', for_range k (n - k) s h = Ok ((), h') ∧ slice_inv n h' copies'.
Proof.
  intros k h copies Hk. remember (n - k)%nat as d eqn:Hd. revert k h copies Hk Hd.
  induction d as [|d IH]; intros k h copies Hk Hd Hinv.
  - exists h, copies. split; [done|]. by replace n with k by lia.
  - destruct (slice_step k h copies ltac:(lia) Hinv) as (h1 & x' & Hrun & Hinv1).
    destruct (IH (S k) h1 (copies ++ [x']) ltac:(lia) ltac:(lia) Hinv1) as (h' & cs & Hrun' & Hinv').
    exists h', cs. split; [|done]. simpl. by eapply run_seq.
Qed.
End Slice.

(** The statement for one element, by the kind of its type. *)
Definition element_stmt (t : gotype) (in_ out : ref) (i : nat) : M unit :=
  if flat t then a ← elem in_ i; b ← elem out i; assign b a
  else a ← elem in_ i;
    if nilable t then if_not_nil a (b ← elem out i; body (template t a b))
    else b ← elem out i; into t (template t) a b.

Lemma element_copies t in_ out b off n l i h x :
  template_ok t → proper t → (i < n)%nat → source t h (Ref b (off + i) []) (Ref l i []) x →
  read h (Ref l i []) = Some (zero t) → read h in_ = Some (VSlice b off n) → read h out = Some (VSlice l 0 n) →
  leaves_copy t (element_stmt t in_ out i) h (Ref l i []) x.
Proof.
  intros IH Hp Hi Hsrc Hz Hin Hout. pose proof (run_elem h in_ b off n i Hin Hi) as Ha.
  pose proof (run_elem h out l 0 n i Hout Hi) as Hb. unfold element_stmt. destruct (flat t) eqn:Hflat.
  { destruct Hsrc as [Hr Hw Ho _ _]. destruct (write_Some h (Ref l i []) x Ho) as [h' Hw'].
    exists h', x. split; [|split; [by apply writes_write|by apply copied_flat]].
    eapply run_then; [exact Ha|]. eapply run_then; [exact Hb|]. by eapply run_assign. }
  assert (leaf t = false) as Hleaf by by destruct t. destruct (nilable t) eqn:Hn.
  - destruct (is_nil x) eqn:Hnil; [assert (x = VNil) as -> by by destruct x|assert (x ≠ VNil) as Hne by by intros ->].
    + exists h, VNil. pose proof (src_read _ _ _ _ _ Hsrc) as Hr. split; [|split].
      * eapply run_then; [exact Ha|]. by apply run_if_nil.
      * apply writes_write. apply write_id. rewrite Hz. by destruct t.
      * destruct t; try done; by split; [|by left|].
    + destruct (IH Hp Hleaf h _ _ x Hsrc) as (h' & x' & Hrun & Hrest); [by left|]. exists h', x'. split; [|done].
      eapply run_then; [exact Ha|]. eapply run_if_not_nil; [exact (src_read _ _ _ _ _ Hsrc)|done|].
      by eapply run_then; [exact Hb|].
  - destruct (into_copies t IH Hp Hleaf Hn h _ _ x Hsrc) as (h' & x' & Hrun & Hrest). exists h', x'. split; [|done].
    eapply run_then; [exact Ha|]. by eapply run_then; [exact Hb|].
Qed.

Lemma run_elements t in_ out n h r b l off :
  read h in_ = Some (VSlice b off n) → read h out = Some (VSlice l 0 n) →
  for_range 0 n (element_stmt t in_ out) h = r →
  (if flat t then copy_slice out in_ else range_slice in_ (λ i, a ← elem in_ i;
     if nilable t then if_not_nil a (b ← elem out i; body (template t a b)) else b ← elem out i; into t (template t) a b)) h = r.
Proof.
  intros Hin Hout Hrun. unfold element_stmt in Hrun. destruct (flat t).
  - unfold copy_slice. eapply run_then; [by eapply run_len|]. eapply run_then; [by eapply run_len|]. by rewrite Nat.min_id.
  - unfold range_slice. by eapply run_then; [by eapply run_len|].
Qed.

(** A reference to a new block is stored; what there was stays as it is. *)
Lemma store_new h out (v : loc → val) blk :
  is_Some (read h out) →
  ∃ l h2, (l ← alloc blk; store out (v l)) h = Ok ((), h2) ∧ l ∉ dom h ∧ h2 !! l = Some blk ∧ read h2 out = Some (v l) ∧
    evolves (r_block out) h h2 ∧ dom h ⊆ dom h2 ∧
    (∀ h3, evolves l h2 h3 → writes h out (v l) h3).
Proof.
  intros Ho. destruct (run_alloc blk h) as (l & Hnew & Hl & Hs). exists l.
  destruct (write_Some (<[l := blk]> h) out (v l)) as [h2 Hw]; [destruct Ho; eexists; by eapply read_mono|]. exists h2.
  assert (l ≠ r_block out) as Hlo by (intros ->; apply Hl; destruct Ho; by eapply read_dom).
  assert (dom h ⊆ dom h2) as Hd by (rewrite (write_dom _ _ _ _ Hw); by apply subseteq_dom).
  split; [eapply run_then; [done|by apply run_store]|]. split; [done|].
  split; [by rewrite (write_other _ _ _ _ _ Hw Hlo), lookup_insert_eq|]. split; [by eapply read_write_same|].
  split; [eapply evolves_trans; [by apply subseteq_dom|by apply sub_evolves|by eapply writes_evolves, writes_write]|].
  split; [done|]. intros h3 He. eapply (writes_then _ _ _ h2 l); [|done|done].
  eapply writes_sub; [done|exact Hs|by apply writes_write].
Qed.

Lemma Forall2_copied_contents t h xs h' xs' :
  Forall2 (λ x x', copied t h x h' x') xs xs' →
  contents t h' <$> xs' = contents t h <$> xs ∧ all (well_typed t h') xs' ∧ ⋃ (footprint t h' <$> xs') ## dom h.
Proof.
  induction 1 as [|x x' xs xs' [Hc Hw Hf] _ (IH1 & IH2 & IH3)]; [by split_and!|].
  rewrite !fmap_cons, union_list_cons, Hc, IH1. split; [done|]. split; [done|set_solver].
Qed.

Lemma copied_all_from t h h2 h3 xs xs' :
  (∀ x, x ∈ xs → kept t h h2 x) → dom h ⊆ dom h2 → Forall2 (λ x x', copied t h2 x h3 x') xs xs' →
  Forall2 (λ x x', copied t h x h3 x') xs xs'.
Proof.
  intros Hk Hd. induction 1 as [|x x' xs xs' Hc _ IH]; constructor.
  - eapply copied_from; [apply Hk; by left|done|done].
  - apply IH. intros y Hy. apply Hk. by right.
Qed.

Lemma slice_ok t : template_ok t → template_ok (TSlice t).
Proof.
  intros IH Hp _ h in_ out v [Hr Hw Ho Ha Hout] [Hv|?]; [|done]. simpl in Hp.
  destruct Hw as [->|(b & off & n & vs & -> & Hb & Hlen & Hall)]; [done|]. simpl in Hout.
  destruct (store_new h out (λ l, VSlice l 0 n) (Cells (replicate n (zero t))) Ho)
    as (l & h2 & Hst & Hl & Hlb & Hro & He & Hd & Hwr).
  assert (window h b off n = take n (drop off vs)) as Hwin by (unfold window; by rewrite Hb).
  rewrite Hwin in *. rewrite all_Forall, Forall_forall in Hall.
  assert (∀ x, x ∈ take n (drop off vs) → kept t h h2 x ∧ l ∉ footprint t h x) as Hk.
  { intros x Hx. split; [|intros Hlx; by apply Hl, (footprint_allocated t h x (Hall x Hx))].
    eapply kept_evolves; [by apply Hall| |exact He]. intros Hox. apply Hout, elem_of_union_r. by eapply elem_of_fmap_union. }
  assert (b ∈ dom h) as Hbd by by eapply elem_of_dom_2. assert (l ≠ r_block out) as Hlo by (intros ->; apply Hl; destruct Ho; by eapply read_dom).
  assert (read h2 in_ = Some (VSlice b off n)) as Hin2 by by eapply read_evolves.
  destruct (slice_loop t (element_stmt t in_ out) in_ out b l off n vs h2) with 0 h2 (@nil val) as (h3 & xs' & Hloop & [Hc3 Hn3 He3 Hd3 Hcop]);
    try done; try lia.
  - intros E. apply Hl. rewrite <-E. by eapply read_dom.
  - intros ->. done.
  - rewrite (He b); [done|done|set_solver].
  - intros x Hx. destruct (Hk x Hx) as [(_ & Hf & Hw2) Hlx]. rewrite Hf. auto.
  - by eapply elem_of_dom_2.
  - intros. by apply element_copies with b off n.
  - split; [by rewrite Nat.sub_0_r|done|by intros ? ? ?|done|constructor].
  - rewrite Nat.sub_0_r in Hloop. rewrite Nat.sub_diag, app_nil_r in Hc3.
    rewrite take_take, Nat.min_id in Hcop. apply (copied_all_from t h h2 h3) in Hcop; [|by intros x Hx; apply Hk|done].
    destruct (Forall2_copied_contents _ _ _ _ _ Hcop) as (Hcc & Hcw & Hcf).
    assert (window h3 l 0 n = xs') as Hw3 by (unfold window; rewrite Hc3, drop_0, take_ge by lia; done).
    exists h3, (VSlice l 0 n). split; [|split; [by apply Hwr|]].
    + simpl. eapply run_seq; [unfold make_slice, set_make_slice; by eapply run_then; [by eapply run_len|]|].
      eapply run_seq; [|done]. by eapply run_elements.
    + split; simpl; rewrite ?Hw3.
      * by rewrite Hwin, Hcc.
      * right. exists l, 0, n, xs'. rewrite Hw3. split; [done|]. split; [done|]. split; [lia|done].
      * set_solver.
Qed.

(** *** Maps *)

(** The statement for one entry. *)
Definition entry_stmt (t : gotype) (out : ref) (key : string) (x : val) : M unit :=
  if flat t then set_key out key x else v ← copied_value (copy_method t (template t)) x; set_key out key v.

Lemma copied_value_ok t f h x :
  copies_new t f → well_typed t h x → ∃ h' x', copied_value f x h = Ok (x', h') ∧ h ⊆ h' ∧ copied t h x h' x'.
Proof.
  intros Hf Hw. destruct (run_new_var x h) as (l & h1 & Hnew & -> & Hl & Hs & Hrl).
  pose proof (kept_sub t h _ x Hw Hs) as Hk.
  destruct (Hf _ (var_ref l) x Hrl) as (h2 & r' & v' & Hrun & Hs2 & _ & Hr' & Hc); [by apply Hk|].
  exists h2, v'. split; [|split; [by etrans|]].
  - unfold copied_value. eapply run_then; [done|]. eapply run_then; [done|]. by apply run_load.
  - eapply copied_from; [exact Hk|by apply subseteq_dom|done].
Qed.

Lemma run_set_key h out key x l m :
  read h out = Some (VMap l) → h !! l = Some (Table m) → set_key out key x h = Ok ((), <[l := Table (<[key := x]> m)]> h).
Proof. intros Hr Hl. unfold set_key. eapply run_then; [by apply run_load|]. simpl. by rewrite Hl. Qed.

Lemma entry_copies t out key x h l m :
  template_ok t → proper t → nilable t = false → read h out = Some (VMap l) → r_block out ≠ l → h !! l = Some (Table m) →
  well_typed t h x →
  ∃ h' x', entry_stmt t out key x h = Ok ((), h') ∧ h' !! l = Some (Table (<[key := x']> m)) ∧ evolves l h h' ∧
    dom h ⊆ dom h' ∧ copied t h x h' x'.
Proof.
  intros IH Hp Hn Hr Hol Hl Hw. assert (l ∈ dom h) as Hld by by eapply elem_of_dom_2.
  assert (∀ h1 y, h ⊆ h1 → evolves l h1 (<[l := Table (<[key := y]> m)]> h1)) as Hev.
  { intros h1 y _ k _ Hne. by apply lookup_insert_ne. }
  unfold entry_stmt. destruct (flat t) eqn:Hflat.
  { exists (<[l := Table (<[key := x]> m)]> h), x. split; [by apply run_set_key|]. split; [apply lookup_insert_eq|].
    split; [by apply Hev|]. split; [apply dom_insert_subseteq|by apply copied_flat]. }
  destruct (copied_value_ok t (copy_method t (template t)) h x) as (h1 & x' & Hrun & Hs & Hc);
    [apply method_copies_new; by destruct t|done|].
  exists (<[l := Table (<[key := x']> m)]> h1), x'. split; [|split; [apply lookup_insert_eq|split; [|split]]].
  - eapply run_then; [exact Hrun|]. apply run_set_key; [by eapply read_mono|by eapply lookup_weaken].
  - eapply evolves_trans; [by apply subseteq_dom|by apply sub_evolves|by apply Hev].
  - etrans; [by apply subseteq_dom|apply dom_insert_subseteq].
  - eapply copied_evolves; [exact Hc|exact Hld|by apply Hev].
Qed.

Section Entries.
Context (t : gotype) (out : ref) (l : loc) (h2 : memory).
Context (IH : template_ok t) (Hp : proper t) (Hn : nilable t = false).
Context (Hout : read h2 out = Some (VMap l)) (Houtl : r_block out ≠ l) (Hl : l ∈ dom h2).

(** After the entries [es], whose copies are in the table [m]. *)
Record map_inv (es : list (string * val)) (h : memory) (m : gmap string val) : Prop := {
  mi_table : h !! l = Some (Table m);
  mi_evolves : evolves l h2 h;
  mi_dom : dom h2 ⊆ dom h;
  mi_some key x' : m !! key = Some x' → ∃ x, (key, x) ∈ es ∧ copied t h2 x h x';
  mi_none key : m !! key = None → key ∉ es.*1
}.

Lemma map_step es key x h m :
  key ∉ es.*1 → well_typed t h2 x → l ∉ footprint t h2 x → map_inv es h m →
  ∃ h' m', entry_stmt t out key x h = Ok ((), h') ∧ map_inv (es ++ [(key, x)]) h' m'.
Proof.
  intros Hkey Hw Hlx [Ht He Hd Hsome Hnone]. destruct (kept_evolves t l h2 h x Hw Hlx He) as (Hc & Hf & Hw').
  destruct (entry_copies t out key x h l m IH Hp Hn) as (h' & x' & Hrun & Ht' & He' & Hd' & Hcop);
    [by eapply read_evolves|done|done|by apply Hw'|].
  exists h', (<[key := x']> m). split; [done|]. split; [done|by eapply evolves_trans|by etrans| |].
  - intros k y [[-> <-]|[Hne Hy]]%lookup_insert_Some.
    + exists x. split; [set_solver|]. by eapply copied_from.
    + destruct (Hsome k y Hy) as (y0 & Hin & Hcy). exists y0. split; [set_solver|]. by eapply copied_evolves.
  - intros k [Hk Hne]%lookup_insert_None. rewrite fmap_app. apply Hnone in Hk. set_solver.
Qed.

Lemma map_loop todo : ∀ es h m, NoDup (es ++ todo).*1 →
  (∀ key x, (key, x) ∈ todo → well_typed t h2 x ∧ l ∉ footprint t h2 x) → map_inv es h m →
  ∃ h' m', for_entries todo (entry_stmt t out) h = Ok ((), h') ∧ map_inv (es ++ todo) h' m'.
Proof.
  induction todo as [|[key x] todo IHt]; intros es h m Hnd Htodo Hinv.
  { exists h, m. split; [done|]. by rewrite app_nil_r. }
  destruct (Htodo key x) as [Hw Hlx]; [by left|].
  destruct (map_step es key x h m) as (h1 & m1 & Hrun & Hinv1); [|done..|].
  { rewrite fmap_app in Hnd. apply NoDup_app in Hnd as (_ & Hdis & _). intros Hin. apply (Hdis key Hin). by left. }
  destruct (IHt (es ++ [(key, x)]) h1 m1) as (h' & m' & Hrun' & Hinv'); rewrite <-?app_assoc in *; [done| |done|].
  { intros k y Hin. apply (Htodo k). by right. }
  exists h', m'. split; [|done]. simpl. by eapply run_seq.
Qed.
End Entries.

Lemma run_entries t in_ out l m h r :
  read h in_ = Some (VMap l) → h !! l = Some (Table m) → for_entries (map_order m) (entry_stmt t out) h = r →
  range_map in_ (λ key x, if flat t then set_key out key x
    else v ← copied_value (copy_method t (template t)) x; set_key out key v) h = r.
Proof. intros Hr Hl Hrun. unfold range_map. eapply run_then; [by apply run_load|]. simpl. by rewrite Hl. Qed.

(** The table of a finished loop. *)
Lemma map_inv_copied t l h h2 h3 m m' b :
  (∀ key x, m !! key = Some x → kept t h h2 x) → dom h ⊆ dom h2 → l ∉ dom h → h !! b = Some (Table m) →
  map_inv t l h2 (map_order m) h3 m' → copied (TMap t) h (VMap b) h3 (VMap l).
Proof.
  intros Hk Hd Hl Hb [Ht He Hd3 Hsome Hnone].
  assert (∀ key x' , m' !! key = Some x' → ∃ x, m !! key = Some x ∧ copied t h x h3 x') as Hs.
  { intros key x' Hx'. destruct (Hsome key x' Hx') as (x & Hin & Hc). rewrite (map_order_perm m) in Hin.
    apply elem_of_map_to_list in Hin. exists x. split; [done|]. eapply copied_from; [by apply (Hk key)|done|done]. }
  assert (∀ x', x' ∈ (map_to_list m').*2 → ∃ x, copied t h x h3 x') as Hel.
  { intros x' ([key y] & -> & Hin%elem_of_map_to_list)%list_elem_of_fmap. destruct (Hs key y Hin) as (x & _ & Hc). by exists x. }
  split; simpl; rewrite ?Ht.
  - rewrite Hb. f_equal. apply map_eq. intros key. rewrite !lookup_fmap. destruct (m' !! key) as [x'|] eqn:Hx'.
    + destruct (Hs key x' Hx') as (x & -> & Hc). simpl. by rewrite (copied_contents _ _ _ _ _ Hc).
    + destruct (m !! key) as [x|] eqn:Hx; [|done]. exfalso. apply (Hnone key Hx'). apply list_elem_of_fmap.
      exists (key, x). split; [done|]. rewrite (map_order_perm m). by apply elem_of_map_to_list.
  - right. exists l, m'. split; [done|]. split; [done|]. rewrite all_Forall, Forall_forall. intros x' Hx'.
    destruct (Hel x' Hx') as [x Hc]. apply Hc.
  - assert (⋃ (footprint t h3 <$> (map_to_list m').*2) ## dom h); [|set_solver].
    intros k (Y & (x' & -> & Hx')%list_elem_of_fmap & Hky)%elem_of_union_list. destruct (Hel x' Hx') as [x [_ _ Hf]]. by apply Hf.
Qed.

Lemma map_ok t : template_ok t → template_ok (TMap t).
Proof.
  intros IH [Hn Hp] _ h in_ out v [Hr Hw Ho Ha Hout] [Hv|?]; [|done].
  destruct Hw as [->|(b & m & -> & Hb & Hall)]; [done|]. simpl in Hout. rewrite Hb in Hout.
  destruct (store_new h out VMap (Table ∅) Ho) as (l & h2 & Hst & Hl & Hlb & Hro & He & Hd & Hwr).
  rewrite all_Forall, Forall_forall in Hall.
  assert (∀ key x, m !! key = Some x → well_typed t h x ∧ r_block out ∉ footprint t h x) as Hent.
  { intros key x Hx. assert (x ∈ (map_to_list m).*2) as Hin.
    { apply list_elem_of_fmap. exists (key, x). split; [done|]. by apply elem_of_map_to_list. }
    split; [by apply Hall|]. intros Hox. apply Hout, elem_of_union_r. by eapply elem_of_fmap_union. }
  assert (∀ key x, m !! key = Some x → kept t h h2 x) as Hk.
  { intros key x Hx. destruct (Hent key x Hx). by eapply kept_evolves. }
  assert (r_block out ∈ dom h) as Hod by (destruct Ho; by eapply read_dom).
  destruct (map_loop t out l h2 IH Hp Hn Hro ltac:(set_solver) (elem_of_dom_2 _ _ _ Hlb) (map_order m) [] h2 ∅)
    as (h3 & m' & Hloop & Hinv).
  - simpl. rewrite (map_order_perm m). apply NoDup_fst_map_to_list.
  - intros key x Hin. rewrite (map_order_perm m) in Hin. apply elem_of_map_to_list in Hin.
    destruct (Hent key x Hin) as [Hwx Hox]. destruct (Hk key x Hin) as (_ & Hf & Hw2). rewrite Hf. split; [auto|].
    intros Hlx. by apply Hl, (footprint_allocated t h x Hwx).
  - split; [done|by intros ? ? ?|done|by intros ? ?; rewrite lookup_empty|intros ? _; apply not_elem_of_nil].
  - exists h3, (VMap l). split; [|split; [by apply Hwr, Hinv|by eapply map_inv_copied]].
    simpl. eapply run_seq; [exact Hst|]. eapply run_seq; [|done]. eapply run_entries; [| |exact Hloop].
    + by eapply read_evolves.
    + rewrite (He b); [done|by eapply elem_of_dom_2|set_solver].
Qed.

(** *** Structs *)

Lemma field_copies f t h in_ out fs cs x :
  (leaf t = false → template_ok t) → proper t → read h in_ = Some (VStruct fs) → field_of f fs = Some x →
  read h out = Some (VStruct cs) → field_of f cs = Some x → well_typed t h x → r_block in_ ≠ r_block out →
  r_block out ∉ footprint t h x →
  leaves_copy t (body (field_stmts f t (template t) in_ out)) h (field_ref f out) x.
Proof.
  intros IH Hp Hin Hf Hout Hc Hw Hne Hnot.
  assert (read h (field_ref f in_) = Some x) as Hfi by by rewrite (read_field _ _ _ _ Hin).
  assert (read h (field_ref f out) = Some x) as Hfo by by rewrite (read_field _ _ _ _ Hout).
  assert (source t h (field_ref f in_) (field_ref f out) x) as Hsrc by by (split; [..|eexists| |]).
  assert (flat t = true → ∀ s, s h = Ok ((), h) → leaves_copy t s h (field_ref f out) x) as Hflat.
  { intros Hfl s Hs. exists h, x. split; [done|]. split; [apply writes_write; by apply write_id|by apply copied_flat]. }
  assert (nilable t = true → leaves_copy t (body [if_field f in_ out (template t)]) h (field_ref f out) x) as Hnil.
  { intros Hn. destruct (is_nil x) eqn:Hx.
    - assert (x = VNil) as -> by by destruct x. exists h, VNil. split; [apply run_body_one; by apply run_if_nil|].
      split; [apply writes_write; by apply write_id|]. destruct t; try done; by split; [|by left|].
    - assert (x ≠ VNil) as Hxn by by intros ->.
      destruct (IH ltac:(by destruct t) Hp ltac:(by destruct t) h _ _ x Hsrc) as (h' & x' & Hrun & Hrest); [by left|].
      exists h', x'. split; [|done]. apply run_body_one. by eapply run_if_not_nil. }
  assert (leaf t = false → nilable t = false → leaves_copy t (body [into t (template t) (field_ref f in_) (field_ref f out)]) h (field_ref f out) x) as Hinto.
  { intros Hl Hn. destruct (into_copies t (IH Hl) Hp Hl Hn h _ _ x Hsrc) as (h' & x' & Hrun & Hrest).
    exists h', x'. split; [by apply run_body_one|done]. }
  destruct t; [by apply Hflat| |by apply Hinto|by apply Hnil|by apply Hnil|by apply Hnil|by apply Hinto].
  apply Hflat; [done|]. simpl. apply run_body_one. eapply run_assign; [done|]. by apply write_id.
Qed.

(** A field with its type and its value, and the value of its copy. *)
Notation item := (string * gotype * val)%type.
Definition item_type (it : item) : string * gotype := it.1.
Definition item_value (it : item) : string * val := (it.1.1, it.2).
Definition item_copy (ic : item * val) : string * val := (ic.1.1.1, ic.2).

Lemma typed_items ts fs h :
  all2 (λ '(f, t) '(g, x), f = g ∧ well_typed t h x) ts fs →
  ∃ items, ts = item_type <$> items ∧ fs = item_value <$> items ∧ Forall (λ it, well_typed it.1.2 h it.2) items.
Proof.
  revert fs. induction ts as [|[f t] ts IH]; intros [|[g x] fs] Hall; try done; [by exists []|].
  destruct Hall as [[-> Hw] Hall]. destruct (IH fs Hall) as (items & -> & -> & Hit). exists ((g, t, x) :: items).
  split; [done|]. split; [done|]. by constructor.
Qed.

Lemma field_of_app f x l1 l2 : f ∉ l1.*1 → field_of f (l1 ++ (f, x) :: l2) = Some x.
Proof.
  induction l1 as [|[g y] l1 IH]; simpl; intros Hf; [by rewrite String.eqb_refl|].
  apply not_elem_of_cons in Hf as [Hne%String.eqb_neq Hf]. rewrite Hne. auto.
Qed.
Lemma set_field_app f x x' l1 l2 : f ∉ l1.*1 → set_field f x' (l1 ++ (f, x) :: l2) = l1 ++ (f, x') :: l2.
Proof.
  induction l1 as [|[g y] l1 IH]; simpl; intros Hf; [by rewrite String.eqb_refl|].
  apply not_elem_of_cons in Hf as [Hne%String.eqb_neq Hf]. rewrite Hne. by rewrite IH.
Qed.

Section Struct.
Context (h : memory) (in_ out : ref) (items : list item).
Context (Hin : read h in_ = Some (VStruct (item_value <$> items))) (Hne : r_block in_ ≠ r_block out) (Hod : r_block out ∈ dom h).
Context (Hnd : NoDup (item_value <$> items).*1).
Context (Hitems : ∀ it, it ∈ items → (leaf it.1.2 = false → template_ok it.1.2) ∧ proper it.1.2 ∧ well_typed it.1.2 h it.2 ∧
  r_block out ∉ footprint it.1.2 h it.2).

(** After the fields [d], with [todo] still as [*out = *in] left them. *)
Record struct_inv (d : list (item * val)) (todo : list item) (h' : memory) : Prop := {
  si_items : items = (fst <$> d) ++ todo;
  si_writes : writes h out (VStruct ((item_copy <$> d) ++ (item_value <$> todo))) h';
  si_copied : Forall (λ ic, copied ic.1.1.2 h ic.1.2 h' ic.2) d
}.

Lemma struct_step d it todo h' :
  struct_inv d (it :: todo) h' →
  ∃ h'' x', body (field_stmts it.1.1 it.1.2 (template it.1.2) in_ out) h' = Ok ((), h'') ∧ struct_inv (d ++ [(it, x')]) todo h''.
Proof.
  intros [Hi Hw Hc]. destruct (Hitems it) as (IH & Hp & Hwt & Hout); [rewrite Hi; set_solver|].
  pose proof (writes_evolves _ _ _ _ Hw) as He.
  destruct (kept_evolves it.1.2 _ h h' it.2 Hwt Hout He) as (Hk1 & Hk2 & Hk3).
  assert (it.1.1 ∉ (item_copy <$> d).*1) as Hfresh.
  { rewrite Hi, fmap_app, fmap_app in Hnd. apply NoDup_app in Hnd as (_ & Hdis & _). intros Hf. apply (Hdis it.1.1); [|by left].
    rewrite <-!list_fmap_compose in *. exact Hf. }
  assert (field_of it.1.1 (item_value <$> items) = Some it.2) as Hfi.
  { rewrite Hi, fmap_app. apply field_of_app. rewrite <-!list_fmap_compose in *. exact Hfresh. }
  pose proof (field_of_app _ it.2 _ (item_value <$> todo) Hfresh) as Hfo.
  destruct (field_copies it.1.1 it.1.2 h' in_ out (item_value <$> items) ((item_copy <$> d) ++ (item_value <$> it :: todo)) it.2)
    as (h'' & x' & Hrun & Hwr & Hcop); try done.
  - by eapply read_evolves.
  - by eapply writes_read.
  - by apply Hk3.
  - by rewrite Hk2.
  - exists h'', x'. split; [done|]. assert (evolves (r_block out) h' h'') as He' by by apply (writes_evolves _ _ _ _ Hwr). split.
    + rewrite fmap_app, Hi. simpl. by rewrite <-app_assoc.
    + eapply writes_again; [exact Hw|]. apply (writes_field _ _ _ _ _ _ (writes_read _ _ _ _ Hw)) in Hwr; [|by eexists].
      rewrite fmap_cons in Hwr. unfold item_value in Hwr at 1. rewrite (set_field_app _ _ _ _ _ Hfresh) in Hwr.
      rewrite fmap_app, <-app_assoc. exact Hwr.
    + apply Forall_app. split; [|constructor; [|constructor]].
      * eapply Forall_impl; [exact Hc|]. intros ic Hic. eapply copied_evolves; [exact Hic|exact Hod|exact He'].
      * eapply copied_from; [by split_and!|by eapply writes_dom|done].
Qed.

Lemma struct_loop todo : ∀ d h', struct_inv d todo h' →
  ∃ h'' d', body (concat ((λ it, field_stmts it.1.1 it.1.2 (template it.1.2) in_ out) <$> todo)) h' = Ok ((), h'') ∧ struct_inv d' [] h''.
Proof.
  induction todo as [|it todo IHt]; intros d h' Hinv; [by exists h', d|].
  destruct (struct_step d it todo h' Hinv) as (h1 & x' & Hrun & Hinv1).
  destruct (IHt _ h1 Hinv1) as (h2 & d' & Hrun2 & Hinv2). exists h2, d'. split; [|done]. simpl. by eapply run_body_app.
Qed.
End Struct.

Lemma struct_contents h h' (d : list (item * val)) :
  Forall (λ ic, copied ic.1.1.2 h ic.1.2 h' ic.2) d →
  zip_with (λ '(_, t) '(f, x), (f, contents t h' x)) (item_type <$> (fst <$> d)) (item_copy <$> d) =
  zip_with (λ '(_, t) '(f, x), (f, contents t h x)) (item_type <$> (fst <$> d)) (item_value <$> (fst <$> d)).
Proof.
  induction 1 as [|[[[f t] x] x'] d Hc _ IH]; [done|]. rewrite !fmap_cons. cbn [zip_with item_type item_value item_copy fst snd].
  rewrite IH. f_equal. f_equal. apply Hc.
Qed.

Lemma struct_typed h h' (d : list (item * val)) :
  Forall (λ ic, copied ic.1.1.2 h ic.1.2 h' ic.2) d →
  all2 (λ '(f, t) '(g, x), f = g ∧ well_typed t h' x) (item_type <$> (fst <$> d)) (item_copy <$> d).
Proof. induction 1 as [|[[[f t] x] x'] d Hc _ IH]; [done|]. split; [split; [done|apply Hc]|exact IH]. Qed.

Lemma struct_fresh h h' (d : list (item * val)) :
  Forall (λ ic, copied ic.1.1.2 h ic.1.2 h' ic.2) d →
  ⋃ (zip_with (λ '(_, t) '(_, x), footprint t h' x) (item_type <$> (fst <$> d)) (item_copy <$> d)) ## dom h.
Proof.
  induction 1 as [|[[[f t] x] x'] d Hc _ IH]; [simpl; set_solver|]. rewrite !fmap_cons.
  cbn [zip_with item_type item_copy fst snd]. rewrite union_list_cons. pose proof (copied_fresh _ _ _ _ _ Hc). set_solver.
Qed.

Lemma struct_stmts in_ out (items : list item) :
  (λ '(f, t), field_stmts f t (template t) in_ out) <$> (item_type <$> items) =
  (λ it, field_stmts it.1.1 it.1.2 (template it.1.2) in_ out) <$> items.
Proof. rewrite <-list_fmap_compose. apply list_fmap_ext. by intros i [[f t] x] _. Qed.

Lemma struct_ok ts : Forall (λ ft, leaf ft.2 = false → template_ok ft.2) ts → template_ok (TStruct ts).
Proof.
  intros IH [Hnd%bool_decide_eq_true_1 Hp] _ h in_ out v [Hr Hw Ho Ha Hout] _.
  destruct Hw as (fs & -> & Hall). destruct (typed_items ts fs h Hall) as (items & -> & -> & Hit).
  destruct (write_Some h out (VStruct (item_value <$> items)) Ho) as [h1 Hw1].
  rewrite all_Forall, Forall_forall in Hp. rewrite Forall_forall in IH. rewrite Forall_forall in Hit. simpl in Hout.
  destruct (struct_loop h in_ out items Hr Ha) with items (@nil (item * val)) h1 as (h2 & d & Hrun & [Hi Hwr Hc]).
  - destruct Ho. by eapply read_dom.
  - assert ((item_value <$> items).*1 = (item_type <$> items).*1) as ->; [|exact Hnd].
    rewrite <-!list_fmap_compose. by apply list_fmap_ext.
  - intros it Hin. split; [|split; [|split]].
    + by apply (IH (item_type it)), list_elem_of_fmap_2.
    + specialize (Hp (item_type it) (list_elem_of_fmap_2 _ _ _ Hin)). by destruct it as [[f t] x].
    + by apply Hit.
    + intros Hox. apply Hout. apply list_elem_of_lookup in Hin as [i Hi].
      eapply (elem_of_zip_union (λ '(_, t) '(_, x), footprint t h x) _ _ i (item_type it) (item_value it));
        [by rewrite list_lookup_fmap, Hi..|]. by destruct it as [[f t] x].
  - split; [done|by apply writes_write|constructor].
  - rewrite app_nil_r in Hi. rewrite app_nil_r in Hwr. subst items. exists h2, (VStruct (item_copy <$> d)). split; [|split; [done|]].
    + simpl. eapply run_seq; [by eapply run_assign|]. by rewrite struct_stmts.
    + split; simpl.
      * f_equal. by apply struct_contents.
      * exists (item_copy <$> d). split; [done|]. by apply (struct_typed h).
      * by apply struct_fresh.
Qed.

(** The template copies every type. *)
Theorem template_copies t : leaf t = false → template_ok t.
Proof.
  induction t as [z|z|ts IH|t IH|t IH|t IH|n t IH] using gotype_induction; intros Hl; try done.
  - apply struct_ok. eapply Forall_impl; [exact IH|]. done.
  - destruct (leaf t) eqn:E; [|by apply ptr_ok, IH]. apply ptr_ok. intros ? ?. congruence.
  - destruct (leaf t) eqn:E; [|by apply slice_ok, IH]. apply slice_ok. intros ? ?. congruence.
  - destruct (leaf t) eqn:E; [|by apply map_ok, IH]. apply map_ok. intros ? ?. congruence.
  - intros [Hf _] _ h in_ out v [Hr Hw Ho Ha Hout] _. destruct (Hf h in_ out v) as (h' & v' & Hrun & Hwr & Hc); [by split|].
    exists h', v'. split; [by apply run_body_one|]. split; [done|]. by destruct Hc.
Qed.

(** So do the methods of a named type. *)
Corollary method_into_copies t : proper t → leaf t = false → nilable t = false → copies t (into t (template t)).
Proof. intros. by apply into_copies; [apply template_copies|..]. Qed.
Corollary method_copy_new t : proper t → leaf t = false → nilable t = false → copies_new t (copy_method t (template t)).
Proof. intros. by apply method_copies_new; [apply template_copies|..]. Qed.
End Correct.
