(* ===== verification/Copies.v ===== *)
(** * The generated deep copies copy, and isolate

    Every method of zz_generated.deepcopy.go is an instance of the template, so
    it returns the same contents in new memory.  What is done to a copy is not
    seen in the original, nor the other way round. *)

From S2P Require Import Prelude Memory Ownership GoTypes DeepCopy CopyTemplate.
Local Open Scope string_scope.
Local Open Scope list_scope.

(** ** All methods *)

Section Copies.
Context `{ExternalTypes} `{ExternalMethods} `{MapOrder}.

(** The struct types with their methods, and the map types with theirs. *)
Definition struct_methods : list (gotype * (ref → ref → M unit) * (val → M val)) :=
  [(AdditionalPolicy_type, AdditionalPolicy_DeepCopyInto, AdditionalPolicy_DeepCopy);
   (IstioAmbient_type, IstioAmbient_DeepCopyInto, IstioAmbient_DeepCopy);
   (IstioAuthorizationPoliciesAdditionalPoliciesValueSpec_type,
    IstioAuthorizationPoliciesAdditionalPoliciesValueSpec_DeepCopyInto,
    IstioAuthorizationPoliciesAdditionalPoliciesValueSpec_DeepCopy);
   (IstioAuthorizationPoliciesAdditionalPoliciesValue_type,
    IstioAuthorizationPoliciesAdditionalPoliciesValue_DeepCopyInto,
    IstioAuthorizationPoliciesAdditionalPoliciesValue_DeepCopy);
   (IstioAuthorizationPoliciesCustomElem_type,
    IstioAuthorizationPoliciesCustomElem_DeepCopyInto, IstioAuthorizationPoliciesCustomElem_DeepCopy);
   (IstioAuthorizationPoliciesDefaultsAllowInNamespace_type,
    IstioAuthorizationPoliciesDefaultsAllowInNamespace_DeepCopyInto,
    IstioAuthorizationPoliciesDefaultsAllowInNamespace_DeepCopy);
   (IstioAuthorizationPoliciesDefaultsDenyAll_type,
    IstioAuthorizationPoliciesDefaultsDenyAll_DeepCopyInto, IstioAuthorizationPoliciesDefaultsDenyAll_DeepCopy);
   (IstioAuthorizationPoliciesDefaults_type,
    IstioAuthorizationPoliciesDefaults_DeepCopyInto, IstioAuthorizationPoliciesDefaults_DeepCopy);
   (IstioAuthorizationPolicies_type, IstioAuthorizationPolicies_DeepCopyInto, IstioAuthorizationPolicies_DeepCopy);
   (IstioMtls_type, IstioMtls_DeepCopyInto, IstioMtls_DeepCopy);
   (IstioServiceEntriesCustomElem_type,
    IstioServiceEntriesCustomElem_DeepCopyInto, IstioServiceEntriesCustomElem_DeepCopy);
   (IstioServiceEntries_type, IstioServiceEntries_DeepCopyInto, IstioServiceEntries_DeepCopy);
   (IstioSidecar_type, IstioSidecar_DeepCopyInto, IstioSidecar_DeepCopy);
   (Istio_type, Istio_DeepCopyInto, Istio_DeepCopy);
   (NetworkPoliciesDefaultsAsHooks_type,
    NetworkPoliciesDefaultsAsHooks_DeepCopyInto, NetworkPoliciesDefaultsAsHooks_DeepCopy);
   (NetworkPoliciesEgressDefaultsAllowInNamespace_type,
    NetworkPoliciesEgressDefaultsAllowInNamespace_DeepCopyInto,
    NetworkPoliciesEgressDefaultsAllowInNamespace_DeepCopy);
   (NetworkPoliciesEgressDefaultsAllowIstiod_type,
    NetworkPoliciesEgressDefaultsAllowIstiod_DeepCopyInto, NetworkPoliciesEgressDefaultsAllowIstiod_DeepCopy);
   (NetworkPoliciesEgressDefaultsAllowKubeDNS_type,
    NetworkPoliciesEgressDefaultsAllowKubeDNS_DeepCopyInto, NetworkPoliciesEgressDefaultsAllowKubeDNS_DeepCopy);
   (NetworkPoliciesEgressDefaultsDenyAll_type,
    NetworkPoliciesEgressDefaultsDenyAll_DeepCopyInto, NetworkPoliciesEgressDefaultsDenyAll_DeepCopy);
   (NetworkPoliciesEgressDefaults_type,
    NetworkPoliciesEgressDefaults_DeepCopyInto, NetworkPoliciesEgressDefaults_DeepCopy);
   (NetworkPoliciesEgressDefinitionsValuePortsElem_type,
    NetworkPoliciesEgressDefinitionsValuePortsElem_DeepCopyInto,
    NetworkPoliciesEgressDefinitionsValuePortsElem_DeepCopy);
   (NetworkPoliciesEgressDefinitionsValueToElemIPBlock_type,
    NetworkPoliciesEgressDefinitionsValueToElemIPBlock_DeepCopyInto,
    NetworkPoliciesEgressDefinitionsValueToElemIPBlock_DeepCopy);
   (NetworkPoliciesEgressDefinitionsValueToElem_type,
    NetworkPoliciesEgressDefinitionsValueToElem_DeepCopyInto,
    NetworkPoliciesEgressDefinitionsValueToElem_DeepCopy);
   (NetworkPoliciesEgressDefinitionsValue_type,
    NetworkPoliciesEgressDefinitionsValue_DeepCopyInto, NetworkPoliciesEgressDefinitionsValue_DeepCopy);
   (NetworkPoliciesEgress_type, NetworkPoliciesEgress_DeepCopyInto, NetworkPoliciesEgress_DeepCopy);
   (NetworkPoliciesHbonePortInjection_type,
    NetworkPoliciesHbonePortInjection_DeepCopyInto, NetworkPoliciesHbonePortInjection_DeepCopy);
   (NetworkPoliciesIngressDefaultsAllowInNamespace_type,
    NetworkPoliciesIngressDefaultsAllowInNamespace_DeepCopyInto,
    NetworkPoliciesIngressDefaultsAllowInNamespace_DeepCopy);
   (NetworkPoliciesIngressDefaultsAllowPrometheusToIstioSidecar_type,
    NetworkPoliciesIngressDefaultsAllowPrometheusToIstioSidecar_DeepCopyInto,
    NetworkPoliciesIngressDefaultsAllowPrometheusToIstioSidecar_DeepCopy);
   (NetworkPoliciesIngressDefaultsDenyAll_type,
    NetworkPoliciesIngressDefaultsDenyAll_DeepCopyInto, NetworkPoliciesIngressDefaultsDenyAll_DeepCopy);
   (NetworkPoliciesIngressDefaults_type,
    NetworkPoliciesIngressDefaults_DeepCopyInto, NetworkPoliciesIngressDefaults_DeepCopy);
   (NetworkPoliciesIngressDefinitionsValueFromElemIPBlock_type,
    NetworkPoliciesIngressDefinitionsValueFromElemIPBlock_DeepCopyInto,
    NetworkPoliciesIngressDefinitionsValueFromElemIPBlock_DeepCopy);
   (NetworkPoliciesIngressDefinitionsValueFromElem_type,
    NetworkPoliciesIngressDefinitionsValueFromElem_DeepCopyInto,
    NetworkPoliciesIngressDefinitionsValueFromElem_DeepCopy);
   (NetworkPoliciesIngressDefinitionsValuePortsElem_type,
    NetworkPoliciesIngressDefinitionsValuePortsElem_DeepCopyInto,
    NetworkPoliciesIngressDefinitionsValuePortsElem_DeepCopy);
   (NetworkPoliciesIngressDefinitionsValue_type,
    NetworkPoliciesIngressDefinitionsValue_DeepCopyInto, NetworkPoliciesIngressDefinitionsValue_DeepCopy);
   (NetworkPoliciesIngress_type, NetworkPoliciesIngress_DeepCopyInto, NetworkPoliciesIngress_DeepCopy);
   (NetworkPolicies_type, NetworkPolicies_DeepCopyInto, NetworkPolicies_DeepCopy);
   (InboundRouteDefaults_type, InboundRouteDefaults_DeepCopyInto, InboundRouteDefaults_DeepCopy);
   (RouteDefaults_type, RouteDefaults_DeepCopyInto, RouteDefaults_DeepCopy);
   (Routes_type, Routes_DeepCopyInto, Routes_DeepCopy);
   (RoutePassthrough_type, RoutePassthrough_DeepCopyInto, RoutePassthrough_DeepCopy);
   (InboundRoute_type, InboundRoute_DeepCopyInto, InboundRoute_DeepCopy);
   (OutboundRoutePort_type, OutboundRoutePort_DeepCopyInto, OutboundRoutePort_DeepCopy);
   (RouteMetadata_type, RouteMetadata_DeepCopyInto, RouteMetadata_DeepCopy);
   (OutboundRoute_type, OutboundRoute_DeepCopyInto, OutboundRoute_DeepCopy);
   (PackageSpec_type, PackageSpec_DeepCopyInto, PackageSpec_DeepCopy);
   (AppliedResource_type, AppliedResource_DeepCopyInto, AppliedResource_DeepCopy);
   (PackageStatus_type, PackageStatus_DeepCopyInto, PackageStatus_DeepCopy);
   (Package_type, Package_DeepCopyInto, Package_DeepCopy);
   (PackageList_type, PackageList_DeepCopyInto, PackageList_DeepCopy)].
Definition map_methods : list (gotype * (val → ref → M unit) * (val → M val)) :=
  [(AdditionalPolicyAnnotations_type, AdditionalPolicyAnnotations_DeepCopyInto, AdditionalPolicyAnnotations_DeepCopy);
   (AdditionalPolicyLabels_type, AdditionalPolicyLabels_DeepCopyInto, AdditionalPolicyLabels_DeepCopy);
   (AdditionalPolicySpec_type, AdditionalPolicySpec_DeepCopyInto, AdditionalPolicySpec_DeepCopy);
   (IstioAuthorizationPoliciesAdditionalPoliciesValueAnnotations_type,
    IstioAuthorizationPoliciesAdditionalPoliciesValueAnnotations_DeepCopyInto,
    IstioAuthorizationPoliciesAdditionalPoliciesValueAnnotations_DeepCopy);
   (IstioAuthorizationPoliciesAdditionalPoliciesValueLabels_type,
    IstioAuthorizationPoliciesAdditionalPoliciesValueLabels_DeepCopyInto,
    IstioAuthorizationPoliciesAdditionalPoliciesValueLabels_DeepCopy);
   (IstioAuthorizationPoliciesAdditionalPoliciesValueSpecRulesElem_type,
    IstioAuthorizationPoliciesAdditionalPoliciesValueSpecRulesElem_DeepCopyInto,
    IstioAuthorizationPoliciesAdditionalPoliciesValueSpecRulesElem_DeepCopy);
   (IstioAuthorizationPoliciesAdditionalPoliciesValueSpecSelector_type,
    IstioAuthorizationPoliciesAdditionalPoliciesValueSpecSelector_DeepCopyInto,
    IstioAuthorizationPoliciesAdditionalPoliciesValueSpecSelector_DeepCopy);
   (IstioAuthorizationPoliciesAdditionalPolicies_type,
    IstioAuthorizationPoliciesAdditionalPolicies_DeepCopyInto,
    IstioAuthorizationPoliciesAdditionalPolicies_DeepCopy);
   (IstioAuthorizationPoliciesCustomElemAnnotations_type,
    IstioAuthorizationPoliciesCustomElemAnnotations_DeepCopyInto,
    IstioAuthorizationPoliciesCustomElemAnnotations_DeepCopy);
   (IstioAuthorizationPoliciesCustomElemLabels_type,
    IstioAuthorizationPoliciesCustomElemLabels_DeepCopyInto, IstioAuthorizationPoliciesCustomElemLabels_DeepCopy);
   (IstioAuthorizationPoliciesCustomElemSpec_type,
    IstioAuthorizationPoliciesCustomElemSpec_DeepCopyInto, IstioAuthorizationPoliciesCustomElemSpec_DeepCopy);
   (IstioServiceEntriesCustomElemAnnotations_type,
    IstioServiceEntriesCustomElemAnnotations_DeepCopyInto, IstioServiceEntriesCustomElemAnnotations_DeepCopy);
   (IstioServiceEntriesCustomElemLabels_type,
    IstioServiceEntriesCustomElemLabels_DeepCopyInto, IstioServiceEntriesCustomElemLabels_DeepCopy);
   (IstioServiceEntriesCustomElemSpec_type,
    IstioServiceEntriesCustomElemSpec_DeepCopyInto, IstioServiceEntriesCustomElemSpec_DeepCopy);
   (NetworkPoliciesEgressDefinitionsValueToElemNamespaceSelector_type,
    NetworkPoliciesEgressDefinitionsValueToElemNamespaceSelector_DeepCopyInto,
    NetworkPoliciesEgressDefinitionsValueToElemNamespaceSelector_DeepCopy);
   (NetworkPoliciesEgressDefinitionsValueToElemPodSelector_type,
    NetworkPoliciesEgressDefinitionsValueToElemPodSelector_DeepCopyInto,
    NetworkPoliciesEgressDefinitionsValueToElemPodSelector_DeepCopy);
   (NetworkPoliciesEgressDefinitions_type,
    NetworkPoliciesEgressDefinitions_DeepCopyInto, NetworkPoliciesEgressDefinitions_DeepCopy);
   (NetworkPoliciesEgressFrom_type, NetworkPoliciesEgressFrom_DeepCopyInto, NetworkPoliciesEgressFrom_DeepCopy);
   (NetworkPoliciesIngressDefinitionsValueFromElemNamespaceSelector_type,
    NetworkPoliciesIngressDefinitionsValueFromElemNamespaceSelector_DeepCopyInto,
    NetworkPoliciesIngressDefinitionsValueFromElemNamespaceSelector_DeepCopy);
   (NetworkPoliciesIngressDefinitionsValueFromElemPodSelector_type,
    NetworkPoliciesIngressDefinitionsValueFromElemPodSelector_DeepCopyInto,
    NetworkPoliciesIngressDefinitionsValueFromElemPodSelector_DeepCopy);
   (NetworkPoliciesIngressDefinitions_type,
    NetworkPoliciesIngressDefinitions_DeepCopyInto, NetworkPoliciesIngressDefinitions_DeepCopy);
   (NetworkPoliciesIngressTo_type, NetworkPoliciesIngressTo_DeepCopyInto, NetworkPoliciesIngressTo_DeepCopy);
   (RoutesInbound_type, RoutesInbound_DeepCopyInto, RoutesInbound_DeepCopy);
   (RoutesOutbound_type, RoutesOutbound_DeepCopyInto, RoutesOutbound_DeepCopy)].

(** The methods of a map type: the receiver is the map itself. *)
Definition map_into (t : gotype) (in_ : val) (out : ref) : M unit := in_ ← new_var in_; body (template t in_ out).

Lemma struct_methods_template :
  Forall (λ '(t, f, c), f = into t (template t) ∧ c = deep_copy t f) struct_methods.
Proof. repeat (constructor; [split; reflexivity|]). constructor. Qed.

Lemma map_methods_template :
  Forall (λ '(t, f, c), f = map_into t ∧ c = deep_copy_map f) map_methods.
Proof. repeat (constructor; [split; reflexivity|]). constructor. Qed.

(** The methods of other packages do what they are documented to do. *)
Class ExternalCopies : Prop := {
  external_into n : copies (external_shape n) (external_DeepCopyInto n);
  external_new n : copies_new (external_shape n) (external_DeepCopy n)
}.

Ltac solve_proper :=
  repeat lazymatch goal with
  | |- copies _ _ => apply external_into
  | |- copies_new _ _ => apply external_new
  | |- _ ∧ _ => split
  | |- _ = _ => vm_compute; reflexivity
  | |- True => exact I
  | _ => hnf
  end.

Lemma struct_types_proper `{!ExternalCopies} :
  Forall (λ '(t, _, _), proper t ∧ leaf t = false ∧ nilable t = false) struct_methods.
Proof. repeat (constructor; [solve_proper|]). constructor. Qed.

Lemma map_types_proper `{!ExternalCopies} :
  Forall (λ '(t, _, _), ∃ t', t = TMap t' ∧ proper t) map_methods.
Proof. repeat (constructor; [eexists; split; [reflexivity|solve_proper]|]). constructor. Qed.

(** ** Map types *)

(** A map is copied; the nil map becomes an empty one. *)
Definition copies_map (t : gotype) (f : val → ref → M unit) : Prop :=
  ∀ h v out, well_typed t h v → is_Some (read h out) → r_block out ∉ footprint t h v →
  if is_nil v then ∃ h' l, f v out h = Ok ((), h') ∧ writes h out (VMap l) h' ∧ h' !! l = Some (Table ∅) ∧ l ∉ dom h
  else leaves_copy t (f v out) h out v.
(** The nil map stays one. *)
Definition copies_new_map (t : gotype) (c : val → M val) : Prop :=
  ∀ h v, well_typed t h v → ∃ h' v', c v h = Ok (v', h') ∧ h ⊆ h' ∧ copied t h v h' v' ∧ (v' = VNil ↔ v = VNil).

Lemma map_into_copies t : proper (TMap t) → copies_map (TMap t) (map_into (TMap t)).
Proof.
  intros Hp h v out Hw Ho Hout. destruct (run_new_var v h) as (l & h1 & Hnew & -> & Hl & Hs & Hrl).
  assert (r_block out ∈ dom h) as Hod by (destruct Ho; by eapply read_dom).
  assert (is_Some (read (<[l := Cells [v]]> h) out)) as Ho1 by (destruct Ho; eexists; by eapply read_mono).
  destruct (kept_sub _ _ _ _ Hw Hs) as (Hc1 & Hf1 & Hw1). destruct (is_nil v) eqn:Hnil.
  - assert (v = VNil) as -> by by destruct v.
    destruct (store_new _ out VMap (Table ∅) Ho1) as (k & h2 & Hst & Hk & Hkb & Hro & He & Hd & Hwr).
    assert (read h2 (var_ref l) = Some VNil) as Hin2 by (eapply read_evolves; [exact Hrl| |exact He]; simpl; intros ->; done).
    exists h2, k. split; [|split; [|split; [done|]]].
    + unfold map_into. eapply run_then; [exact Hnew|]. simpl. eapply run_seq; [exact Hst|]. eapply run_seq; [|done].
      unfold range_map. by eapply run_then; [by apply run_load|].
    + eapply writes_sub; [exact Ho|exact Hs|]. apply Hwr. apply evolves_refl.
    + intros Hkd. apply Hk. rewrite dom_insert_L. set_solver.
  - destruct (template_copies (TMap t) eq_refl Hp eq_refl (<[l := Cells [v]]> h) (var_ref l) out v) as (h' & v' & Hrun & Hwr & Hc).
    + split; [done|by apply Hw1|done|by simpl; intros ->|by rewrite Hf1].
    + left. by intros ->.
    + exists h', v'. split; [unfold map_into; by eapply run_then|]. split; [by eapply writes_sub|].
      eapply copied_from; [by split_and!|by apply subseteq_dom|done].
Qed.

Lemma deep_copy_map_new t f : copies_map (TMap t) f → copies_new_map (TMap t) (deep_copy_map f).
Proof.
  intros Hf h v Hw. unfold deep_copy_map. destruct (is_nil v) eqn:Hnil.
  { assert (v = VNil) as -> by by destruct v. exists h, VNil. split; [done|]. split; [done|]. split; [by split; [|left|]|done]. }
  destruct (run_new_var VNil h) as (l & h1 & Hnew & -> & Hl & Hs & Hrl).
  destruct (kept_sub _ _ _ _ Hw Hs) as (Hc1 & Hf1 & Hw1). pose proof (footprint_allocated _ h v Hw) as Hal.
  specialize (Hf (<[l := Cells [VNil]]> h) v (var_ref l) (Hw1 Hw) ltac:(by eexists)). rewrite Hf1, Hnil in Hf.
  destruct Hf as (h' & v' & Hrun & Hwr & Hc); [simpl; set_solver|]. exists h', v'. split; [|split; [|split]].
  - eapply run_then; [exact Hnew|]. eapply run_seq; [exact Hrun|]. apply run_load. by eapply writes_read.
  - eapply (new_var_sub h l); [done|by apply (writes_evolves _ (var_ref l) v')].
  - eapply copied_from; [by split_and!|by apply subseteq_dom|done].
  - split; intros ->; [|done]. pose proof (copied_contents _ _ _ _ _ Hc) as Hcc. rewrite Hc1 in Hcc. exfalso.
    destruct v; try done; simpl in Hcc; try by destruct Hw as [?|(? & ? & ? & _)]. 
    destruct Hw as [?|(b' & m & [= <-] & Hb & _)]; [done|]. by rewrite Hb in Hcc.
Qed.

(** ** The theorems *)

(** Each method at its type. *)
Lemma struct_method_copies `{!ExternalCopies} t f c : (t, f, c) ∈ struct_methods → copies t f ∧ copies_new t c.
Proof.
  intros Hin. pose proof struct_methods_template as Ht. pose proof struct_types_proper as Hp.
  rewrite Forall_forall in Ht, Hp. specialize (Ht _ Hin). specialize (Hp _ Hin). cbv beta iota in Ht, Hp.
  destruct Ht as [-> ->], Hp as (Hp & Hl & Hn). pose proof (method_into_copies t Hp Hl Hn). split; [done|by apply deep_copy_new].
Qed.

Lemma map_method_copies `{!ExternalCopies} t f c : (t, f, c) ∈ map_methods → copies_map t f ∧ copies_new_map t c.
Proof.
  intros Hin. pose proof map_methods_template as Ht. pose proof map_types_proper as Hp.
  rewrite Forall_forall in Ht, Hp. specialize (Ht _ Hin). specialize (Hp _ Hin). cbv beta iota in Ht, Hp.
  destruct Ht as [-> ->], Hp as (t' & -> & Hp). pose proof (map_into_copies t' Hp). split; [done|by apply deep_copy_map_new].
Qed.

(** C12: The generated deep copies copy. Each of the 73 pairs of methods, on every
    well-typed value in every memory, returns without a panic: DeepCopyInto
    leaves in its target, and DeepCopy returns, a value with the same contents in
    memory that was not in use, and nothing else changes. A nil pointer or map is
    returned as it is, as an object a nil pointer becomes the nil interface; only
    DeepCopyInto of a nil map makes an empty one of it. *)
Theorem DeepCopy_copies `{!ExternalCopies} :
  Forall (λ '(t, f, c), copies t f ∧ copies_new t c ∧ ∀ h, c VNil h = Ok (VNil, h)) struct_methods ∧
  Forall (λ '(t, f, c), copies_map t f ∧ copies_new_map t c) map_methods ∧
  Forall (λ '(c, o), ∀ v h p h', c v h = Ok (p, h') → o v h = Ok (if is_nil p then None else Some p, h'))
    [(Package_DeepCopy, Package_DeepCopyObject); (PackageList_DeepCopy, PackageList_DeepCopyObject)].
Proof.
  split; [|split].
  - rewrite Forall_forall. intros [[t f] c] Hin. destruct (struct_method_copies t f c Hin) as [Hf Hc].
    split; [done|]. split; [done|]. intros h. pose proof struct_methods_template as Ht. rewrite Forall_forall in Ht.
    specialize (Ht _ Hin). cbv beta iota in Ht. by destruct Ht as [_ ->].
  - rewrite Forall_forall. intros [[t f] c]. apply map_method_copies.
  - repeat constructor; intros v h p h' Hc; (eapply run_then; [exact Hc|]); by destruct (is_nil p).
Qed.

(** C14: A deep copy isolates. Whatever is done to memory that was not in use
    before the copy, which is all that the copy refers to, the original keeps its
    contents; and whatever is done to the memory that was, which is all that the
    original refers to, the copy keeps them. *)
Theorem DeepCopy_isolates `{!ExternalCopies} t f c h r v
    (Hmethod : (t, f, c) ∈ struct_methods) (Hr : read h r = Some v) (Hv : well_typed t h v) :
  ∃ h' r' v', c (VPtr r) h = Ok (VPtr r', h') ∧ read h' r' = Some v' ∧ contents t h' v' = contents t h v ∧
    (∀ h2, (∀ l, l ∈ dom h → h2 !! l = h' !! l) → read h2 r = Some v ∧ contents t h2 v = contents t h v) ∧
    (∀ h2, (∀ l, l ∉ dom h → h2 !! l = h' !! l) → read h2 r' = Some v' ∧ contents t h2 v' = contents t h v).
Proof.
  destruct (struct_method_copies t f c Hmethod) as [_ Hc].
  destruct (Hc h r v Hr Hv) as (h' & r' & v' & Hrun & Hs & Hr' & Hread & [Hcc Hcw Hcf]).
  exists h', r', v'. split; [done|]. split; [done|]. split; [done|]. split; intros h2 Hsame.
  - assert (∀ l, l ∈ dom h → h2 !! l = h !! l) as Hold.
    { intros l Hl. rewrite (Hsame l Hl). apply elem_of_dom in Hl as [b Hb]. rewrite Hb. by eapply lookup_weaken. }
    split; [rewrite <-Hr; apply read_other, Hold; by eapply read_dom|].
    apply (frame t h h2 v). intros l Hl. by apply Hold, (footprint_allocated t h v Hv).
  - split; [rewrite <-Hread; by apply read_other, Hsame|]. rewrite <-Hcc.
    apply (frame t h' h2 v'). intros l Hl. apply Hsame. intros Hd. rewrite elem_of_disjoint in Hcf. exact (Hcf l Hl Hd).
Qed.
End Copies.

(** ** Other packages' methods, concretely *)

(** Their types are structs of basic values, slices and maps here, and their
    methods the template's. *)
Definition demo_shape (n : string) : gotype :=
  if String.eqb n "JSON" then TStruct [("Raw", TSlice TInt)]
  else if String.eqb n "ObjectMeta"
  then TStruct [("Name", TString); ("Namespace", TString); ("Labels", TMap TString); ("Annotations", TMap TString)]
  else if String.eqb n "Condition" then TStruct [("Type", TString); ("Status", TString)]
  else TStruct [("ResourceVersion", TString)].
Definition demo_external_types : ExternalTypes :=
  {| external_shape := demo_shape; TypeMeta_zero := ""; IntOrString_zero := "" |}.
Definition demo_order : MapOrder := {| map_order := map_to_list; map_order_perm m := Permutation_refl _ |}.
Definition no_methods : ExternalMethods := {| external_DeepCopyInto _ _ _ := panic; external_DeepCopy _ _ := panic |}.
Definition demo_into (n : string) (in_ out : ref) : M unit :=
  body (@template no_methods demo_order (demo_shape n) in_ out).
Definition demo_external_methods : ExternalMethods :=
  {| external_DeepCopyInto := demo_into; external_DeepCopy n := deep_copy (demo_shape n) (demo_into n) |}.

Lemma demo_shape_proper n : @proper no_methods (demo_shape n) ∧ leaf (demo_shape n) = false ∧ nilable (demo_shape n) = false ∧
  demo_into n = @into no_methods (demo_shape n) (@template no_methods demo_order (demo_shape n)).
Proof. unfold demo_into, demo_shape. repeat destruct (String.eqb _ _); by split_and!. Qed.

Lemma demo_external_copies : @ExternalCopies demo_external_types demo_external_methods.
Proof.
  assert (∀ n, copies (demo_shape n) (demo_into n)) as Hinto.
  { intros n. destruct (demo_shape_proper n) as (Hp & Hl & Hn & ->). by apply method_into_copies. }
  split; intros n; [apply Hinto|]. by apply deep_copy_new.
Qed.
