(* ===== verification/GoStrings.v ===== *)
(** * The Go standard library's [strings], [strconv] and [sort], as the source uses them

    Go strings are byte strings.  [ToUpper], [ToLower] and [TrimSpace] are the
    ASCII part of the Go functions: bytes from 128 up are left unchanged. *)

From S2P Require Import Prelude.
From Stdlib Require String.
Local Open Scope string_scope.

(** ** Characters *)

Definition code (c : ascii) : N := N_of_ascii c.
Definition in_range (lo hi : ascii) (c : ascii) : bool :=
  (code lo <=? code c)%N && (code c <=? code hi)%N.
Definition is_digit (c : ascii) : bool := in_range "0" "9" c.
Definition is_upper (c : ascii) : bool := in_range "A" "Z" c.
Definition is_lower (c : ascii) : bool := in_range "a" "z" c.
Definition is_alnum (c : ascii) : bool := is_upper c || is_lower c || is_digit c.
Definition is_white (c : ascii) : bool := (code c =? 32)%N || ((9 <=? code c)%N && (code c <=? 13)%N).

Definition upper_char (c : ascii) : ascii :=
  if is_lower c then ascii_of_N (code c - 32) else c.
Definition lower_char (c : ascii) : ascii :=
  if is_upper c then ascii_of_N (code c + 32) else c.

(** ** Strings *)

Fixpoint str_map (f : ascii → ascii) (s : string) : string :=
  match s with "" => "" | String c s => String (f c) (str_map f s) end.
Fixpoint str_forall (p : ascii → bool) (s : string) : bool :=
  match s with "" => true | String c s => p c && str_forall p s end.

Definition len (s : string) : nat := String.length s.
Definition ToUpper : string → string := str_map upper_char.
Definition ToLower : string → string := str_map lower_char.

(** [s[:i]] and [s[i:]]. *)
Fixpoint str_take (i : nat) (s : string) : string :=
  match i, s with S i, String c s => String c (str_take i s) | _, _ => "" end.
Fixpoint str_drop (i : nat) (s : string) : string :=
  match i, s with 0, _ => s | S i, String _ s => str_drop i s | _, "" => "" end.

Fixpoint HasPrefix (s prefix : string) {struct prefix} : bool :=
  match prefix, s with
  | "", _ => true
  | String p prefix, String c s => Ascii.eqb c p && HasPrefix s prefix
  | _, _ => false
  end.

(** [strings.Index]: the first position of [sub], or -1. *)
Fixpoint Index (s sub : string) : Z :=
  if HasPrefix s sub then 0%Z
  else match s with
       | "" => (-1)%Z
       | String _ s => let i := Index s sub in if (i <? 0)%Z then (-1)%Z else (i + 1)%Z
       end.

(** [strings.LastIndex] of a one-byte substring. *)
Fixpoint LastIndexByte (s : string) (c : ascii) : Z :=
  match s with
  | "" => (-1)%Z
  | String d s =>
      let i := LastIndexByte s c in
      if (0 <=? i)%Z then (i + 1)%Z else if Ascii.eqb d c then 0%Z else (-1)%Z
  end.

Definition Contains (s sub : string) : bool := (0 <=? Index s sub)%Z.

(** [strings.ReplaceAll] of a one-byte substring by a one-byte string. *)
Definition ReplaceAllByte (s : string) (old new : ascii) : string :=
  str_map (λ c, if Ascii.eqb c old then new else c) s.

Definition TrimPrefix (s prefix : string) : string :=
  if HasPrefix s prefix then str_drop (len prefix) s else s.
Fixpoint str_rev_app (s acc : string) : string :=
  match s with "" => acc | String c s => str_rev_app s (String c acc) end.
Definition str_rev (s : string) : string := str_rev_app s "".
Definition TrimSuffix (s suffix : string) : string :=
  str_rev (TrimPrefix (str_rev s) (str_rev suffix)).

Fixpoint trim_left (p : ascii → bool) (s : string) : string :=
  match s with String c s' => if p c then trim_left p s' else s | "" => "" end.
Definition TrimSpace (s : string) : string :=
  str_rev (trim_left is_white (str_rev (trim_left is_white s))).
Definition TrimRightByte (s : string) (c : ascii) : string :=
  str_rev (trim_left (Ascii.eqb c) (str_rev s)).

(** [strings.Split] at a one-byte separator: never empty. *)
Fixpoint SplitByte (s : string) (sep : ascii) : list string :=
  match s with
  | "" => [""]
  | String c s =>
      if Ascii.eqb c sep then "" :: SplitByte s sep
      else match SplitByte s sep with
           | p :: ps => String c p :: ps
           | [] => [String c ""]
           end
  end.

(** ** [strconv] *)

Definition digit_val (c : ascii) : Z := Z.of_N (code c) - 48.
Definition digit_char (d : Z) : ascii := ascii_of_N (Z.to_N (d + 48)).

(** The value of a string of decimal digits read after [acc]. *)
Fixpoint digits_val (acc : Z) (s : string) : option Z :=
  match s with
  | "" => Some acc
  | String c s => if is_digit c then digits_val (acc * 10 + digit_val c) s else None
  end.

Definition in_int64 (z : Z) : bool := (MinInt64 <=? z)%Z && (z <=? MaxInt64)%Z.

(** [strconv.Atoi]: an optional sign and at least one digit, within 64 bits. *)
Definition Atoi (s : string) : option Z :=
  let number (neg : bool) (ds : string) : option Z :=
    match ds with
    | "" => None
    | _ => v ← digits_val 0 ds;
           let z := if neg then (- v)%Z else v in
           if in_int64 z then Some z else None
    end in
  match s with
  | "" => None
  | String c s' =>
      if Ascii.eqb c "-" then number true s'
      else if Ascii.eqb c "+" then number false s'
      else number false s
  end.

Fixpoint digits_of (fuel : nat) (n : Z) (acc : string) : string :=
  match fuel with
  | 0 => acc
  | S fuel =>
      let acc' := String (digit_char (n mod 10)) acc in
      if (n / 10 =? 0)%Z then acc' else digits_of fuel (n / 10) acc'
  end.

(** [strconv.Itoa]; the fuel is the number of bits, at least the number of digits. *)
Definition Itoa (z : Z) : string :=
  let n := Z.abs z in
  let ds := digits_of (S (Z.to_nat (Z.log2 n))) n "" in
  if (z <? 0)%Z then String "-" ds else ds.

(** [strconv.Quote], which [%q] prints. Bytes from 128 up are printed as they are. *)
Definition quote_mark : ascii := ascii_of_N 34.
Definition hex_char (n : N) : ascii := if (n <? 10)%N then ascii_of_N (n + 48) else ascii_of_N (n + 87).
Definition quote_char (c : ascii) : string :=
  let esc d := String "\" (String d "") in
  match code c with
  | 7%N => esc "a"%char | 8%N => esc "b"%char | 9%N => esc "t"%char | 10%N => esc "n"%char
  | 11%N => esc "v"%char | 12%N => esc "f"%char | 13%N => esc "r"%char
  | n => if Ascii.eqb c quote_mark || Ascii.eqb c "\" then String "\" (String c "")
         else if (n <? 32)%N || (n =? 127)%N
              then "\x" +:+ String (hex_char (n / 16)) (String (hex_char (n mod 16)) "")
              else String c ""
  end.
Fixpoint quote_body (s : string) : string :=
  match s with "" => "" | String c s => quote_char c +:+ quote_body s end.
Definition Quote (s : string) : string :=
  String quote_mark (quote_body s +:+ String quote_mark "").

Definition Join (l : list string) (sep : string) : string := String.concat sep l.

(** ** [sort] *)
Definition sort_Strings (l : list string) : list string := merge_sort String.le l.

(** ** Lemmas *)

Lemma str_app_nil_r s : s +:+ "" = s.
Proof. induction s; simpl; [done|]. change (String a (s +:+ "") = String a s). by rewrite IHs. Qed.
Lemma str_app_assoc a b c : a +:+ (b +:+ c) = (a +:+ b) +:+ c.
Proof. induction a as [|x a IH]; [done|]. change (String x (a +:+ (b +:+ c)) = String x ((a +:+ b) +:+ c)). by rewrite IH. Qed.
Lemma str_app_cons c a b : String c a +:+ b = String c (a +:+ b).
Proof. done. Qed.
Lemma str_app_nil a : "" +:+ a = a.
Proof. done. Qed.
Lemma len_app a b : len (a +:+ b) = len a + len b.
Proof. induction a as [|x a IH]; [done|]. rewrite str_app_cons. unfold len in *. simpl. by rewrite IH. Qed.

Lemma str_app_eq_same_len a b c d : len a = len c → a +:+ b = c +:+ d → a = c ∧ b = d.
Proof.
  revert c. induction a as [|x a IH]; intros [|y c]; unfold len in *; simpl; try done.
  intros [= Hl]. rewrite !str_app_cons. intros [= -> H].
  destruct (IH _ Hl H) as [-> ->]. done.
Qed.

Lemma str_app_inj_r a b c : a +:+ c = b +:+ c → a = b.
Proof.
  intros H. apply (str_app_eq_same_len a c b c); [|done].
  apply (f_equal len) in H. rewrite !len_app in H. lia.
Qed.

Lemma str_forall_app p a b : str_forall p (a +:+ b) = str_forall p a && str_forall p b.
Proof. induction a as [|c a IH]; [done|]. rewrite str_app_cons. simpl. by rewrite IH, andb_assoc. Qed.

Lemma str_forall_impl (p q : ascii → bool) s :
  (∀ c, p c = true → q c = true) → str_forall p s = true → str_forall q s = true.
Proof. intros Hpq. induction s as [|c s IH]; simpl; [done|]. intros [? ?]%andb_true_iff. by rewrite Hpq, IH. Qed.

Lemma str_take_app a b : str_take (len a) (a +:+ b) = a.
Proof. induction a as [|c a IH]; [by destruct b|]. rewrite str_app_cons. simpl. by f_equal. Qed.
Lemma str_drop_app a b : str_drop (len a) (a +:+ b) = b.
Proof. induction a as [|c a IH]; [by destruct b|]. rewrite str_app_cons. simpl. done. Qed.

Lemma str_drop_app_plus a m b : str_drop (len a + len m) (a +:+ (m +:+ b)) = b.
Proof. rewrite str_app_assoc, <-len_app. apply str_drop_app. Qed.

Lemma HasPrefix_app p s : HasPrefix (p +:+ s) p = true.
Proof. induction p as [|c p IH]; [done|]. rewrite str_app_cons. simpl. by rewrite Ascii.eqb_refl. Qed.

Lemma HasPrefix_true s p : HasPrefix s p = true → ∃ t, s = p +:+ t.
Proof.
  revert s. induction p as [|c p IH]; intros s; simpl; [by exists s|].
  destruct s as [|d s]; [done|]. intros [->%Ascii.eqb_eq (t & ->)%IH]%andb_true_iff. by exists t.
Qed.

(** [Index] where the first byte of the pattern does not occur before it. *)
Lemma Index_found a sub b c sub' :
  sub = String c sub' → str_forall (λ d, negb (Ascii.eqb d c)) a = true →
  Index (a +:+ (sub +:+ b)) sub = Z.of_nat (len a).
Proof.
  intros ->. induction a as [|d a IH]; intros Ha.
  - rewrite str_app_nil. destruct (String c sub' +:+ b) eqn:E; [done|].
    cbn [Index]. rewrite <-E, HasPrefix_app. done.
  - simpl in Ha. apply andb_true_iff in Ha as [Hd%negb_true_iff Ha].
    rewrite str_app_cons. cbn [Index HasPrefix]. rewrite Hd, (IH Ha). cbn [andb].
    unfold len in *. simpl String.length.
    destruct (Z.ltb_spec (Z.of_nat (String.length a)) 0); lia.
Qed.

Lemma Index_absent s c sub' :
  str_forall (λ d, negb (Ascii.eqb d c)) s = true → Index s (String c sub') = (-1)%Z.
Proof.
  induction s as [|d s IH]; simpl; [done|].
  intros [Hd%negb_true_iff Hs]%andb_true_iff. by rewrite Hd, (IH Hs).
Qed.

Lemma LastIndexByte_absent s c :
  str_forall (λ d, negb (Ascii.eqb d c)) s = true → LastIndexByte s c = (-1)%Z.
Proof.
  induction s as [|d s IH]; simpl; [done|].
  intros [Hd%negb_true_iff Hs]%andb_true_iff. by rewrite (IH Hs), Hd.
Qed.

Lemma LastIndexByte_found a c b :
  str_forall (λ d, negb (Ascii.eqb d c)) b = true →
  LastIndexByte (a +:+ String c b) c = Z.of_nat (len a).
Proof.
  intros Hb. induction a as [|d a IH].
  - rewrite str_app_nil. simpl. by rewrite (LastIndexByte_absent b c Hb), Ascii.eqb_refl.
  - rewrite str_app_cons. cbn -[Z.of_nat]. rewrite IH.
    unfold len. destruct (Z.leb_spec 0 (Z.of_nat (String.length a))); lia.
Qed.

(** *** Decimal numbers *)

Lemma digit_char_spec d : (0 ≤ d < 10)%Z → is_digit (digit_char d) = true ∧ digit_val (digit_char d) = d.
Proof.
  intros Hd. assert (d = 0 ∨ d = 1 ∨ d = 2 ∨ d = 3 ∨ d = 4 ∨ d = 5 ∨ d = 6 ∨ d = 7 ∨ d = 8 ∨ d = 9)%Z as H by lia.
  by decompose [or] H; subst.
Qed.

Lemma digit_val_bound c : is_digit c = true → (0 ≤ digit_val c < 10)%Z.
Proof.
  unfold is_digit, in_range, digit_val. change (code "0") with 48%N. change (code "9") with 57%N.
  intros [?%N.leb_le ?%N.leb_le]%andb_true_iff. lia.
Qed.

Lemma digits_of_app fuel n a b : digits_of fuel n (a +:+ b) = digits_of fuel n a +:+ b.
Proof.
  revert n a. induction fuel as [|fuel IH]; intros n a; [done|]. simpl.
  destruct (n / 10 =? 0)%Z; [done|]. rewrite <-str_app_cons. apply IH.
Qed.

Lemma digits_of_val fuel n acc :
  (0 ≤ n < 2 ^ Z.of_nat fuel)%Z → fuel ≠ 0 →
  digits_val 0 (digits_of fuel n acc) = digits_val n acc.
Proof.
  revert n acc. induction fuel as [|fuel IH]; intros n acc Hn Hf; [done|]. simpl.
  destruct (digit_char_spec (n mod 10)) as [Hd Hv]; [by apply Z.mod_pos_bound|].
  destruct (Z.eqb_spec (n / 10) 0) as [H0|H0].
  - simpl. rewrite Hd, Hv. simpl. f_equal. pose proof (Z.div_mod n 10). lia.
  - destruct (decide (fuel = 0)) as [->|Hf'].
    { simpl in Hn. change (2 ^ Z.of_nat 1)%Z with 2%Z in Hn. exfalso. apply H0. apply Z.div_small. lia. }
    rewrite IH; [|split; [apply Z.div_pos; lia|]|done].
    + simpl. rewrite Hd, Hv. f_equal. pose proof (Z.div_mod n 10). lia.
    + rewrite Nat2Z.inj_succ, Z.pow_succ_r in Hn by lia.
      apply Z.div_lt_upper_bound; lia.
Qed.

Lemma digits_of_digits fuel n acc :
  str_forall is_digit acc = true → (0 ≤ n)%Z → str_forall is_digit (digits_of fuel n acc) = true.
Proof.
  revert n acc. induction fuel as [|fuel IH]; intros n acc Hacc Hn; simpl; [done|].
  destruct (digit_char_spec (n mod 10)) as [Hd _]; [by apply Z.mod_pos_bound|].
  assert (str_forall is_digit (String (digit_char (n mod 10)) acc) = true) as H by (simpl; by rewrite Hd).
  destruct (n / 10 =? 0)%Z; [done|]. apply IH; [done|]. apply Z.div_pos; lia.
Qed.

Lemma digits_of_nonempty fuel n acc : fuel ≠ 0 ∨ acc ≠ "" → digits_of fuel n acc ≠ "".
Proof.
  revert n acc. induction fuel as [|fuel IH]; intros n acc H; simpl; [naive_solver|].
  destruct (n / 10 =? 0)%Z; [done|]. apply IH. by right.
Qed.

Lemma log2_fuel n : (0 ≤ n)%Z → (n < 2 ^ Z.of_nat (S (Z.to_nat (Z.log2 n))))%Z.
Proof.
  intros Hn. rewrite Nat2Z.inj_succ, Z2Nat.id by apply Z.log2_nonneg.
  destruct (decide (n = 0)%Z) as [->|]; [by vm_compute|].
  apply Z.log2_spec. lia.
Qed.

Lemma Itoa_nonneg z : (0 ≤ z)%Z → Itoa z = digits_of (S (Z.to_nat (Z.log2 z))) z "".
Proof. intros Hz. unfold Itoa. rewrite Z.abs_eq by done. destruct (Z.ltb_spec z 0); [lia|done]. Qed.

Lemma Itoa_digits z : (0 ≤ z)%Z → str_forall is_digit (Itoa z) = true.
Proof. intros Hz. rewrite Itoa_nonneg by done. by apply digits_of_digits. Qed.

Lemma Itoa_nonempty z : Itoa z ≠ "".
Proof.
  unfold Itoa. assert (digits_of (S (Z.to_nat (Z.log2 (Z.abs z)))) (Z.abs z) "" ≠ "").
  { apply digits_of_nonempty. by left. }
  destruct (z <? 0)%Z; [done|done].
Qed.

Lemma Itoa_val z : (0 ≤ z)%Z → digits_val 0 (Itoa z) = Some z.
Proof. intros Hz. rewrite Itoa_nonneg by done. rewrite digits_of_val; [done|split; [done|by apply log2_fuel]|done]. Qed.

Lemma Itoa_inj_nonneg x y : (0 ≤ x)%Z → (0 ≤ y)%Z → Itoa x = Itoa y → x = y.
Proof. intros Hx Hy H. apply (f_equal (digits_val 0)) in H. rewrite !Itoa_val in H by done. congruence. Qed.

Lemma digits_val_nonneg acc s z : (0 ≤ acc)%Z → digits_val acc s = Some z → (0 ≤ z)%Z.
Proof.
  revert acc. induction s as [|c s IH]; intros acc Ha; simpl; [intros [= <-]; lia|].
  destruct (is_digit c) eqn:Hc; [|done]. apply IH. pose proof (digit_val_bound c Hc). lia.
Qed.

Lemma digits_val_Some acc s : str_forall is_digit s = true → is_Some (digits_val acc s).
Proof.
  revert acc. induction s as [|c s IH]; intros acc; simpl; [by eexists|].
  intros [-> Hs]%andb_true_iff. by apply IH.
Qed.

(** On a non-empty digit string [Atoi] is the value, bounded by 64 bits. *)
Lemma Atoi_digits s : s ≠ "" → str_forall is_digit s = true →
  Atoi s = v ← digits_val 0 s; if (v <=? MaxInt64)%Z then Some v else None.
Proof.
  intros Hne Hs. destruct s as [|c s]; [done|].
  assert (is_digit c = true) as Hc by (simpl in Hs; by apply andb_true_iff in Hs as [? _]).
  assert (Ascii.eqb c "-" = false ∧ Ascii.eqb c "+" = false) as [Hm Hp].
  { split; apply Ascii.eqb_neq; intros ->; done. }
  unfold Atoi. rewrite Hm, Hp. destruct (digits_val_Some 0 _ Hs) as [v Hv].
  rewrite Hv. simpl. pose proof (digits_val_nonneg 0 _ _ (Z.le_refl 0) Hv).
  unfold in_int64. destruct (Z.leb_spec MinInt64 v); [done|unfold MinInt64 in *; lia].
Qed.

Lemma Atoi_Itoa z : (0 ≤ z ≤ MaxInt64)%Z → Atoi (Itoa z) = Some z.
Proof.
  intros Hz. rewrite Atoi_digits by (by auto using Itoa_nonempty || (apply Itoa_digits; lia)).
  rewrite Itoa_val by lia. simpl. destruct (Z.leb_spec z MaxInt64); [done|lia].
Qed.

(** [Atoi] inverts [Itoa] on the whole range of [int]. *)
Lemma Atoi_Itoa_int64 z : (MinInt64 ≤ z ≤ MaxInt64)%Z → Atoi (Itoa z) = Some z.
Proof.
  intros Hz. destruct (Z.ltb_spec z 0) as [Hneg|]; [|by apply Atoi_Itoa; lia].
  pose proof (Itoa_nonempty (- z)) as Hne. pose proof (Itoa_val (- z) ltac:(lia)) as Hv.
  assert (Itoa z = String "-" (Itoa (- z))) as ->.
  { unfold Itoa. rewrite Z.abs_opp. destruct (Z.ltb_spec z 0); [|lia]. by destruct (Z.ltb_spec (- z) 0); [lia|]. }
  unfold Atoi. simpl. destruct (Itoa (- z)) as [|c s]; [done|].
  rewrite Hv. simpl. unfold in_int64. rewrite Z.opp_involutive.
  destruct (Z.leb_spec MinInt64 z); [|lia]. by destruct (Z.leb_spec z MaxInt64); [|lia].
Qed.

(** A byte outside a class does not occur in a string of that class. *)
Notation lacks c s := (str_forall (λ d, negb (Ascii.eqb d c)) s = true).

Lemma class_lacks (p : ascii → bool) s c : p c = false → str_forall p s = true → lacks c s.
Proof.
  intros Hc. apply str_forall_impl. intros d Hd. apply negb_true_iff, Ascii.eqb_neq. congruence.
Qed.

Lemma lacks_cons c d s : d ≠ c → lacks c s → lacks c (String d s).
Proof. intros Hd Hs. cbn [str_forall]. apply andb_true_iff. split; [by apply negb_true_iff, Ascii.eqb_neq|done]. Qed.

Lemma lacks_app c a b : lacks c a → lacks c b → lacks c (a +:+ b).
Proof. intros Ha Hb. by rewrite str_forall_app, Ha, Hb. Qed.

(** A two-byte start that cannot occur: the first byte is absent from [a], the
    second from [b]. *)
Lemma Index_absent2 a b c1 c2 t :
  lacks c1 a → lacks c2 b → c1 ≠ c2 → Index (a +:+ b) (String c1 (String c2 t)) = (-1)%Z.
Proof.
  intros Ha Hb Hne.
  assert (∀ s, lacks c2 s → Index s (String c1 (String c2 t)) = (-1)%Z) as Hs.
  { induction s as [|d s IH]; [done|]. cbn [str_forall]. intros [Hd Hs]%andb_true_iff.
    cbn [Index HasPrefix]. rewrite (IH Hs). destruct s as [|e s]; [by rewrite andb_false_r|].
    cbn [str_forall] in Hs. apply andb_true_iff in Hs as [He%negb_true_iff _].
    cbn [HasPrefix]. by rewrite He, !andb_false_r. }
  induction a as [|d a IH]; [by apply Hs|].
  cbn [str_forall] in Ha. apply andb_true_iff in Ha as [Hd%negb_true_iff Ha].
  rewrite str_app_cons. cbn [Index HasPrefix]. by rewrite Hd, (IH Ha).
Qed.

(** *** Reversal and trimming *)

Lemma str_rev_app_spec s acc : str_rev_app s acc = str_rev s +:+ acc.
Proof.
  unfold str_rev. revert acc. induction s as [|c s IH]; intros acc; [done|].
  cbn [str_rev_app]. rewrite IH, (IH (String c "")), <-str_app_assoc. done.
Qed.
Lemma str_rev_cons c s : str_rev (String c s) = str_rev s +:+ String c "".
Proof. unfold str_rev at 1. cbn [str_rev_app]. apply str_rev_app_spec. Qed.
Lemma str_rev_append a b : str_rev (a +:+ b) = str_rev b +:+ str_rev a.
Proof.
  induction a as [|c a IH]; [by rewrite str_app_nil, str_app_nil_r|].
  by rewrite str_app_cons, !str_rev_cons, IH, str_app_assoc.
Qed.
Lemma str_rev_rev s : str_rev (str_rev s) = s.
Proof. induction s as [|c s IH]; [done|]. rewrite str_rev_cons, str_rev_append, IH. done. Qed.
Lemma str_forall_rev p s : str_forall p (str_rev s) = str_forall p s.
Proof.
  induction s as [|c s IH]; [done|]. rewrite str_rev_cons, str_forall_app, IH. simpl.
  by rewrite andb_true_r, andb_comm.
Qed.
Lemma str_rev_nil_iff s : str_rev s = "" ↔ s = "".
Proof. split; [|by intros ->]. intros H. apply (f_equal str_rev) in H. by rewrite str_rev_rev in H. Qed.

Lemma TrimPrefix_app p s : TrimPrefix (p +:+ s) p = s.
Proof. unfold TrimPrefix. rewrite HasPrefix_app. apply str_drop_app. Qed.
Lemma TrimPrefix_none s c : (∀ t, s ≠ String c t) → TrimPrefix s (String c "") = s.
Proof.
  intros H. unfold TrimPrefix. destruct (HasPrefix s (String c "")) eqn:E; [|done].
  apply HasPrefix_true in E as [t ->]. by destruct (H t).
Qed.
Lemma TrimSuffix_app s t : TrimSuffix (s +:+ t) t = s.
Proof. unfold TrimSuffix. by rewrite str_rev_append, TrimPrefix_app, str_rev_rev. Qed.
Lemma TrimSuffix_none s c : (∀ t, s ≠ t +:+ String c "") → TrimSuffix s (String c "") = s.
Proof.
  intros H. unfold TrimSuffix. change (str_rev (String c "")) with (String c "").
  rewrite TrimPrefix_none; [apply str_rev_rev|].
  intros t Ht. apply (H (str_rev t)). apply (f_equal str_rev) in Ht.
  by rewrite str_rev_rev, str_rev_cons in Ht.
Qed.
Lemma trim_left_none p s : str_forall (λ c, negb (p c)) s = true → trim_left p s = s.
Proof. destruct s as [|c s]; simpl; [done|]. by intros [->%negb_true_iff _]%andb_true_iff. Qed.
Lemma TrimSpace_none s : str_forall (λ c, negb (is_white c)) s = true → TrimSpace s = s.
Proof.
  intros H. unfold TrimSpace. rewrite (trim_left_none _ s H), trim_left_none; [apply str_rev_rev|].
  by rewrite str_forall_rev.
Qed.
Lemma ends_with_lacks s t c : lacks c s → s ≠ t +:+ String c "".
Proof. intros H ->. rewrite str_forall_app in H. simpl in H. by rewrite Ascii.eqb_refl, andb_false_r in H. Qed.
Lemma starts_with_lacks s t c : lacks c s → s ≠ String c t.
Proof. intros H ->. simpl in H. by rewrite Ascii.eqb_refl in H. Qed.

(** *** Splitting *)

Fixpoint JoinByte (l : list string) (sep : ascii) : string :=
  match l with
  | [] => ""
  | [p] => p
  | p :: l => p +:+ String sep (JoinByte l sep)
  end.

Lemma SplitByte_nonempty s sep : SplitByte s sep ≠ [].
Proof. destruct s as [|c s]; simpl; [done|]. case_match; [done|]. by case_match. Qed.

Lemma SplitByte_lacks p s sep : lacks sep p →
  SplitByte (p +:+ String sep s) sep = p :: SplitByte s sep.
Proof.
  induction p as [|c p IH].
  - intros _. rewrite str_app_nil. cbn [SplitByte]. by rewrite Ascii.eqb_refl.
  - cbn [str_forall]. intros [Hc%negb_true_iff Hp]%andb_true_iff.
    rewrite str_app_cons. cbn [SplitByte]. by rewrite Hc, (IH Hp).
Qed.
Lemma SplitByte_one p sep : lacks sep p → SplitByte p sep = [p].
Proof.
  induction p as [|c p IH]; simpl; [done|].
  intros [->%negb_true_iff Hp]%andb_true_iff. by rewrite (IH Hp).
Qed.

Lemma SplitByte_Join l sep : l ≠ [] → Forall (λ p, lacks sep p) l → SplitByte (JoinByte l sep) sep = l.
Proof.
  intros Hne Hl. induction Hl as [|p l Hp Hl IH]; [done|].
  destruct l as [|q l]; [by apply SplitByte_one|].
  change (JoinByte (p :: q :: l) sep) with (p +:+ String sep (JoinByte (q :: l) sep)).
  rewrite SplitByte_lacks by done. by rewrite IH.
Qed.

Lemma JoinByte_forall p l sep :
  p sep = true → Forall (λ s, str_forall p s = true) l → str_forall p (JoinByte l sep) = true.
Proof.
  intros Hsep Hl. induction Hl as [|s l Hs Hl IH]; [done|]. destruct l as [|q l]; [done|].
  change (JoinByte (s :: q :: l) sep) with (s +:+ String sep (JoinByte (q :: l) sep)).
  rewrite str_forall_app, Hs. cbn [str_forall andb]. by rewrite Hsep, IH.
Qed.

(** *** Sorting *)

Lemma sort_Strings_perm l : sort_Strings l ≡ₚ l.
Proof. apply merge_sort_Permutation. Qed.
Lemma sort_Strings_sorted l : Sorted String.le (sort_Strings l).
Proof. apply Sorted_merge_sort, _. Qed.
Lemma sort_Strings_unique l1 l2 : l1 ≡ₚ l2 → sort_Strings l1 = sort_Strings l2.
Proof.
  intros H. apply (Sorted_unique String.le); [apply sort_Strings_sorted..|].
  by rewrite !sort_Strings_perm.
Qed.

#[export] Hint Resolve Itoa_digits Itoa_nonempty : go.
