(* ===== verification/Regex.v ===== *)
(** * Regular expressions of the Go [regexp] package

    [MatchString] of a pattern anchored with [^...$] decides membership of the
    whole text in the language of the pattern.  The matcher uses derivatives,
    with smart constructors that keep them small; [matches] is the language. *)

From S2P Require Import Prelude GoStrings.
Local Open Scope string_scope.

Inductive regex :=
  | RNone
  | REps
  | RCls (p : ascii → bool)
  | RCat (r1 r2 : regex)
  | RAlt (r1 r2 : regex)
  | RStar (r : regex).

(** Pattern notation of the source: [(r)?], [r+], [r{n}], a literal text. *)
Definition ROpt (r : regex) : regex := RAlt r REps.
Definition RPlus (r : regex) : regex := RCat r (RStar r).
Fixpoint RTimes (n : nat) (r : regex) : regex :=
  match n with 0 => REps | S n => RCat r (RTimes n r) end.
Definition RChr (c : ascii) : regex := RCls (Ascii.eqb c).
Fixpoint RLit (s : string) : regex :=
  match s with "" => REps | String c s => RCat (RChr c) (RLit s) end.
Fixpoint RSeq (l : list regex) : regex :=
  match l with [] => REps | [r] => r | r :: l => RCat r (RSeq l) end.
Fixpoint RAny (l : list regex) : regex :=
  match l with [] => RNone | [r] => r | r :: l => RAlt r (RAny l) end.

Fixpoint nullable (r : regex) : bool :=
  match r with
  | RNone | RCls _ => false
  | REps | RStar _ => true
  | RCat r1 r2 => nullable r1 && nullable r2
  | RAlt r1 r2 => nullable r1 || nullable r2
  end.

Definition rcat (r1 r2 : regex) : regex :=
  match r1, r2 with
  | RNone, _ => RNone
  | REps, _ => r2
  | _, RNone => RNone
  | _, _ => RCat r1 r2
  end.
Definition ralt (r1 r2 : regex) : regex :=
  match r1, r2 with
  | RNone, _ => r2
  | _, RNone => r1
  | _, _ => RAlt r1 r2
  end.

Fixpoint deriv (c : ascii) (r : regex) : regex :=
  match r with
  | RNone | REps => RNone
  | RCls p => if p c then REps else RNone
  | RCat r1 r2 =>
      if nullable r1 then ralt (rcat (deriv c r1) r2) (deriv c r2)
      else rcat (deriv c r1) r2
  | RAlt r1 r2 => ralt (deriv c r1) (deriv c r2)
  | RStar r => rcat (deriv c r) (RStar r)
  end.

Fixpoint MatchString (r : regex) (s : string) : bool :=
  match s with
  | "" => nullable r
  | String c s => MatchString (deriv c r) s
  end.

(** ** The language *)

Inductive matches : regex → string → Prop :=
  | m_eps : matches REps ""
  | m_cls p c : p c = true → matches (RCls p) (String c "")
  | m_cat r1 r2 s1 s2 : matches r1 s1 → matches r2 s2 → matches (RCat r1 r2) (s1 +:+ s2)
  | m_altl r1 r2 s : matches r1 s → matches (RAlt r1 r2) s
  | m_altr r1 r2 s : matches r2 s → matches (RAlt r1 r2) s
  | m_star_nil r : matches (RStar r) ""
  | m_star_cons r s1 s2 : matches r s1 → matches (RStar r) s2 → matches (RStar r) (s1 +:+ s2).

Create HintDb regex.
#[export] Hint Constructors matches : regex.

Lemma str_app_eq_nil a b : a +:+ b = "" → a = "" ∧ b = "".
Proof. destruct a; [done|]. by rewrite str_app_cons. Qed.

Lemma nullable_spec r : nullable r = true ↔ matches r "".
Proof.
  induction r as [| |p|r1 IH1 r2 IH2|r1 IH1 r2 IH2|r IH]; simpl.
  - split; [done|inversion 1].
  - split; eauto with regex.
  - split; [done|inversion 1].
  - rewrite andb_true_iff, IH1, IH2. split.
    + intros [H1 H2]. by apply (m_cat _ _ "" "").
    + inversion 1 as [| |? ? s1 s2 H1 H2 E| | | |]; subst.
      match goal with E : _ = "" |- _ => apply str_app_eq_nil in E as [-> ->] end. done.
  - rewrite orb_true_iff, IH1, IH2. split; [intros [?|?]; eauto with regex|inversion 1; auto].
  - split; eauto with regex.
Qed.

Lemma rcat_spec r1 r2 s : matches (rcat r1 r2) s ↔ matches (RCat r1 r2) s.
Proof.
  assert (∀ r, matches (RCat r RNone) s ↔ matches RNone s) as Hnone.
  { intros r. split; inversion 1; subst; match goal with H : matches RNone _ |- _ => inversion H end. }
  assert (∀ r, matches (RCat RNone r) s ↔ matches RNone s) as Hnone'.
  { intros r. split; inversion 1; subst; match goal with H : matches RNone _ |- _ => inversion H end. }
  assert (∀ r, matches (RCat REps r) s ↔ matches r s) as Heps.
  { intros r. split.
    - inversion 1; subst. match goal with H : matches REps _ |- _ => inversion H; subst end.
      by rewrite str_app_nil.
    - intros H. rewrite <-(str_app_nil s). eauto with regex. }
  destruct r1, r2; simpl; rewrite ?Hnone, ?Hnone', ?Heps; done.
Qed.

Lemma ralt_spec r1 r2 s : matches (ralt r1 r2) s ↔ matches (RAlt r1 r2) s.
Proof.
  assert (∀ r, matches (RAlt RNone r) s ↔ matches r s) as Hl.
  { intros r. split; [inversion 1; subst; [match goal with H : matches RNone _ |- _ => inversion H end|done]|eauto with regex]. }
  assert (∀ r, matches (RAlt r RNone) s ↔ matches r s) as Hr.
  { intros r. split; [inversion 1; subst; [done|match goal with H : matches RNone _ |- _ => inversion H end]|eauto with regex]. }
  destruct r1, r2; simpl; rewrite ?Hl, ?Hr; done.
Qed.

Lemma m_cat_inv r1 r2 s : matches (RCat r1 r2) s ↔ ∃ s1 s2, s = s1 +:+ s2 ∧ matches r1 s1 ∧ matches r2 s2.
Proof. split; [inversion 1; subst; eauto|intros (s1 & s2 & -> & ? & ?); eauto with regex]. Qed.

Lemma m_alt_inv r1 r2 s : matches (RAlt r1 r2) s ↔ matches r1 s ∨ matches r2 s.
Proof. split; [inversion 1; auto|intros [?|?]; eauto with regex]. Qed.

Lemma m_cls_inv p s : matches (RCls p) s ↔ ∃ c, s = String c "" ∧ p c = true.
Proof. split; [inversion 1; eauto|intros (c & -> & ?); eauto with regex]. Qed.

Lemma m_eps_inv s : matches REps s ↔ s = "".
Proof. split; [by inversion 1|intros ->; constructor]. Qed.

Lemma m_none_inv s : matches RNone s ↔ False.
Proof. split; [by inversion 1|done]. Qed.

(** A non-empty word of a star starts with a non-empty word of its body. *)
Lemma m_star_step r c s :
  matches (RStar r) (String c s) →
  ∃ s1 s2, s = s1 +:+ s2 ∧ matches r (String c s1) ∧ matches (RStar r) s2.
Proof.
  remember (RStar r) as q eqn:Eq. remember (String c s) as t eqn:Et. intros H. revert c s Et.
  induction H as [| | | | | |r' s1 s2 H1 _ H2 IH2]; intros x s0 Et; simplify_eq.
  destruct s1 as [|d s1].
  - rewrite str_app_nil in Et. by apply IH2.
  - rewrite str_app_cons in Et. simplify_eq. eauto.
Qed.

Lemma deriv_spec c r s : matches (deriv c r) s ↔ matches r (String c s).
Proof.
  revert s. induction r as [| |p|r1 IH1 r2 IH2|r1 IH1 r2 IH2|r IH]; intros s; simpl.
  - split; inversion 1.
  - split; inversion 1.
  - rewrite m_cls_inv. destruct (p c) eqn:Hp.
    + rewrite m_eps_inv. split; [intros ->; eauto|intros (d & [= -> ->] & _); done].
    + rewrite m_none_inv. split; [done|intros (d & [= -> ->] & ?); congruence].
  - assert (matches (rcat (deriv c r1) r2) s ↔ ∃ s1 s2, s = s1 +:+ s2 ∧ matches r1 (String c s1) ∧ matches r2 s2) as Hcat.
    { rewrite rcat_spec, m_cat_inv. by setoid_rewrite IH1. }
    rewrite m_cat_inv. destruct (nullable r1) eqn:Hn.
    + rewrite ralt_spec, m_alt_inv, Hcat, IH2. split.
      * intros [(s1 & s2 & -> & ? & ?)|H].
        -- exists (String c s1), s2. by rewrite str_app_cons.
        -- exists "", (String c s). apply nullable_spec in Hn. done.
      * intros ([|d s1] & s2 & E & H1 & H2).
        -- rewrite str_app_nil in E. subst. by right.
        -- rewrite str_app_cons in E. simplify_eq. left. eauto.
    + rewrite Hcat. split.
      * intros (s1 & s2 & -> & ? & ?). exists (String c s1), s2. by rewrite str_app_cons.
      * intros ([|d s1] & s2 & E & H1 & H2).
        -- apply nullable_spec in H1. congruence.
        -- rewrite str_app_cons in E. simplify_eq. eauto.
  - by rewrite ralt_spec, !m_alt_inv, IH1, IH2.
  - rewrite rcat_spec, m_cat_inv. setoid_rewrite IH. split.
    + intros (s1 & s2 & -> & H1 & H2). rewrite <-str_app_cons. eauto with regex.
    + intros (s1 & s2 & -> & H1 & H2)%m_star_step. eauto.
Qed.

(** The matcher decides the language. *)
Lemma MatchString_spec r s : MatchString r s = true ↔ matches r s.
Proof.
  revert r. induction s as [|c s IH]; intros r; simpl; [apply nullable_spec|].
  by rewrite IH, deriv_spec.
Qed.

(** ** Shapes of the derived forms *)

Lemma m_opt_inv r s : matches (ROpt r) s ↔ matches r s ∨ s = "".
Proof. unfold ROpt. by rewrite m_alt_inv, m_eps_inv. Qed.

Lemma m_chr_inv c s : matches (RChr c) s ↔ s = String c "".
Proof.
  unfold RChr. rewrite m_cls_inv. split.
  - by intros (d & -> & ->%Ascii.eqb_eq).
  - intros ->. exists c. split; [done|apply Ascii.eqb_refl].
Qed.

Lemma m_lit_inv t s : matches (RLit t) s ↔ s = t.
Proof.
  revert s. induction t as [|c t IH]; intros s; simpl; [apply m_eps_inv|].
  rewrite m_cat_inv. setoid_rewrite m_chr_inv. setoid_rewrite IH. split.
  - by intros (s1 & s2 & -> & -> & ->).
  - intros ->. by exists (String c ""), t.
Qed.

Lemma m_star_cls_inv p s : matches (RStar (RCls p)) s ↔ str_forall p s = true.
Proof.
  split.
  - remember (RStar (RCls p)) as q eqn:Eq. intros H.
    induction H as [| | | | | |r s1 s2 H1 _ H2 IH2]; simplify_eq; [done|].
    apply m_cls_inv in H1 as (c & -> & Hc). rewrite str_app_cons. simpl. rewrite Hc. by apply IH2.
  - induction s as [|c s IH]; [constructor|]. simpl. intros [Hc Hs]%andb_true_iff.
    apply (m_star_cons _ (String c "") s); [by constructor|by apply IH].
Qed.

Lemma m_plus_cls_inv p s : matches (RPlus (RCls p)) s ↔ s ≠ "" ∧ str_forall p s = true.
Proof.
  unfold RPlus. rewrite m_cat_inv. setoid_rewrite m_cls_inv. setoid_rewrite m_star_cls_inv. split.
  - intros (s1 & s2 & -> & (c & -> & Hc) & Hs). rewrite str_app_cons. simpl. by rewrite Hc.
  - intros [Hne Hs]. destruct s as [|c s]; [done|]. simpl in Hs. apply andb_true_iff in Hs as [Hc Hs].
    exists (String c ""), s. naive_solver.
Qed.
