(* ===== verification/Json.v ===== *)
(** * The Go [encoding/json] package, as the source uses it

    Documents, a parser for raw bytes, a compact printer, and the decoding
    rules of struct fields, maps, slices and pointers.  Two simplifications:
    of several members of one object that name the same field the last one
    counts (encoding/json merges them), and bytes from 128 up are kept as they
    are (encoding/json replaces invalid UTF-8).  The API server stores neither
    duplicate members nor invalid UTF-8. *)

From S2P Require Import Prelude GoStrings Regex.
Local Open Scope string_scope.

Inductive json :=
  | JNull
  | JBool (b : bool)
  | JNum (lit : string)
  | JStr (s : string)
  | JArr (l : list json)
  | JObj (ms : list (string * json)).

(** ** Scanning *)

Fixpoint skip_ws (s : string) : string :=
  match s with
  | String c s' =>
      if (code c =? 32)%N || (code c =? 9)%N || (code c =? 10)%N || (code c =? 13)%N
      then skip_ws s' else s
  | "" => ""
  end.

Definition hex_val (c : ascii) : option N :=
  if is_digit c then Some (code c - 48)%N
  else if in_range "a" "f" c then Some (code c - 87)%N
  else if in_range "A" "F" c then Some (code c - 55)%N
  else None.
Definition hex4 (a b c d : ascii) : option N :=
  a ← hex_val a; b ← hex_val b; c ← hex_val c; d ← hex_val d;
  Some (((a * 16 + b) * 16 + c) * 16 + d)%N.

(** The UTF-8 bytes of a code point. *)
Definition utf8 (n : N) : string :=
  if (n <? 128)%N then String (ascii_of_N n) ""
  else if (n <? 2048)%N then String (ascii_of_N (192 + n / 64)) (String (ascii_of_N (128 + n mod 64)) "")
  else if (n <? 65536)%N then
    String (ascii_of_N (224 + n / 4096)) (String (ascii_of_N (128 + n / 64 mod 64)) (String (ascii_of_N (128 + n mod 64)) ""))
  else String (ascii_of_N (240 + n / 262144)) (String (ascii_of_N (128 + n / 4096 mod 64))
         (String (ascii_of_N (128 + n / 64 mod 64)) (String (ascii_of_N (128 + n mod 64)) ""))).
Definition is_surrogate (n : N) : bool := (55296 <=? n)%N && (n <=? 57343)%N.
Definition surrogate_pair (hi lo : N) : option N :=
  if (55296 <=? hi)%N && (hi <=? 56319)%N && (56320 <=? lo)%N && (lo <=? 57343)%N
  then Some ((hi - 55296) * 1024 + (lo - 56320) + 65536)%N else None.
Definition replacement : N := 65533.

Definition simple_escape (c : ascii) : option ascii :=
  if Ascii.eqb c quote_mark || Ascii.eqb c "\" || Ascii.eqb c "/" then Some c
  else if Ascii.eqb c "b" then Some (ascii_of_N 8)
  else if Ascii.eqb c "f" then Some (ascii_of_N 12)
  else if Ascii.eqb c "n" then Some (ascii_of_N 10)
  else if Ascii.eqb c "r" then Some (ascii_of_N 13)
  else if Ascii.eqb c "t" then Some (ascii_of_N 9)
  else None.

(** The contents of a string literal after its opening quote, and the rest. *)
Fixpoint parse_str (s : string) : option (string * string) :=
  let push (t : string) (r : option (string * string)) := '(u, rest) ← r; Some (t +:+ u, rest) in
  match s with
  | "" => None
  | String c s1 =>
      if Ascii.eqb c quote_mark then Some ("", s1)
      else if Ascii.eqb c "\" then
        match s1 with
        | String e s2 =>
            if Ascii.eqb e "u" then
              match s2 with
              | String h1 (String h2 (String h3 (String h4 s3))) =>
                  match hex4 h1 h2 h3 h4 with
                  | None => None
                  | Some n =>
                      if is_surrogate n then
                        match s3 with
                        | String c5 (String c6 (String h5 (String h6 (String h7 (String h8 s4))))) =>
                            if Ascii.eqb c5 "\" && Ascii.eqb c6 "u" then
                              match hex4 h5 h6 h7 h8 with
                              | Some m =>
                                  match surrogate_pair n m with
                                  | Some cp => push (utf8 cp) (parse_str s4)
                                  | None => push (utf8 replacement) (parse_str s3)
                                  end
                              | None => push (utf8 replacement) (parse_str s3)
                              end
                            else push (utf8 replacement) (parse_str s3)
                        | _ => push (utf8 replacement) (parse_str s3)
                        end
                      else push (utf8 n) (parse_str s3)
                  end
              | _ => None
              end
            else match simple_escape e with
                 | Some d => push (String d "") (parse_str s2)
                 | None => None
                 end
        | "" => None
        end
      else if (code c <? 32)%N then None
      else push (String c "") (parse_str s1)
  end.

Definition is_numchar (c : ascii) : bool :=
  is_digit c || Ascii.eqb c "-" || Ascii.eqb c "+" || Ascii.eqb c "." || Ascii.eqb c "e" || Ascii.eqb c "E".
Fixpoint span (p : ascii → bool) (s : string) : string * string :=
  match s with
  | String c s' => if p c then let '(a, b) := span p s' in (String c a, b) else ("", s)
  | "" => ("", "")
  end.

(** -?(0|[1-9][0-9]* )([.][0-9]+)?([eE][+-]?[0-9]+)? *)
Definition number_re : regex :=
  RSeq [ROpt (RChr "-");
        RAlt (RChr "0") (RCat (RCls (in_range "1" "9")) (RStar (RCls is_digit)));
        ROpt (RCat (RChr ".") (RPlus (RCls is_digit)));
        ROpt (RSeq [RAlt (RChr "e") (RChr "E"); ROpt (RAlt (RChr "+") (RChr "-")); RPlus (RCls is_digit)])].

Definition parse_num (s : string) : option (json * string) :=
  let '(lit, rest) := span is_numchar s in
  if MatchString number_re lit then Some (JNum lit, rest) else None.

Definition expect (t : string) (v : json) (s : string) : option (json * string) :=
  if HasPrefix s t then Some (v, str_drop (len t) s) else None.

(** Recursive descent.  Every call consumes at least one byte before the next
    one, so the length of the text, plus one, is enough fuel. *)
Fixpoint parse_value (fuel : nat) (s : string) {struct fuel} : option (json * string) :=
  match fuel with
  | 0 => None
  | S fuel =>
      match skip_ws s with
      | "" => None
      | String c s1 =>
          if Ascii.eqb c "n" then expect "null" JNull (String c s1)
          else if Ascii.eqb c "t" then expect "true" (JBool true) (String c s1)
          else if Ascii.eqb c "f" then expect "false" (JBool false) (String c s1)
          else if Ascii.eqb c quote_mark then '(t, rest) ← parse_str s1; Some (JStr t, rest)
          else if Ascii.eqb c "[" then
            match skip_ws s1 with
            | String d rest => if Ascii.eqb d "]" then Some (JArr [], rest)
                               else '(l, rest) ← parse_elems fuel s1; Some (JArr l, rest)
            | "" => None
            end
          else if Ascii.eqb c "{" then
            match skip_ws s1 with
            | String d rest => if Ascii.eqb d "}" then Some (JObj [], rest)
                               else '(ms, rest) ← parse_members fuel s1; Some (JObj ms, rest)
            | "" => None
            end
          else parse_num (String c s1)
      end
  end
with parse_elems (fuel : nat) (s : string) {struct fuel} : option (list json * string) :=
  match fuel with
  | 0 => None
  | S fuel =>
      '(v, s) ← parse_value fuel s;
      match skip_ws s with
      | String c s1 =>
          if Ascii.eqb c "]" then Some ([v], s1)
          else if Ascii.eqb c "," then '(l, rest) ← parse_elems fuel s1; Some (v :: l, rest)
          else None
      | "" => None
      end
  end
with parse_members (fuel : nat) (s : string) {struct fuel} : option (list (string * json) * string) :=
  match fuel with
  | 0 => None
  | S fuel =>
      match skip_ws s with
      | String c s1 =>
          if Ascii.eqb c quote_mark then
            '(k, s2) ← parse_str s1;
            match skip_ws s2 with
            | String d s3 =>
                if Ascii.eqb d ":" then
                  '(v, s4) ← parse_value fuel s3;
                  match skip_ws s4 with
                  | String e s5 =>
                      if Ascii.eqb e "}" then Some ([(k, v)], s5)
                      else if Ascii.eqb e "," then '(ms, rest) ← parse_members fuel s5; Some ((k, v) :: ms, rest)
                      else None
                  | "" => None
                  end
                else None
            | "" => None
            end
          else None
      | "" => None
      end
  end.

(** The document that raw bytes hold; an error when they are not one document. *)
Definition json_parse (s : string) : option json :=
  match parse_value (S (len s)) s with
  | Some (v, rest) => match skip_ws rest with "" => Some v | _ => None end
  | None => None
  end.

(** ** Printing, without blanks *)

Definition print_char (c : ascii) : string :=
  if Ascii.eqb c quote_mark || Ascii.eqb c "\" then String "\" (String c "")
  else if (code c <? 32)%N then "\u00" +:+ String (hex_char (code c / 16)) (String (hex_char (code c mod 16)) "")
  else String c "".
Fixpoint print_chars (s : string) : string :=
  match s with "" => "" | String c s => print_char c +:+ print_chars s end.
Definition print_str (s : string) : string :=
  String quote_mark (print_chars s +:+ String quote_mark "").

Fixpoint json_print (j : json) : string :=
  let fix elems (l : list json) : string :=
    match l with
    | [] => ""
    | [v] => json_print v
    | v :: l => json_print v +:+ String "," (elems l)
    end in
  let fix members (l : list (string * json)) : string :=
    match l with
    | [] => ""
    | [(k, v)] => print_str k +:+ String ":" (json_print v)
    | (k, v) :: l => print_str k +:+ String ":" (json_print v +:+ String "," (members l))
    end in
  match j with
  | JNull => "null"
  | JBool b => if b then "true" else "false"
  | JNum lit => lit
  | JStr s => print_str s
  | JArr l => String "[" (elems l +:+ "]")
  | JObj ms => String "{" (members ms +:+ "}")
  end.

(** ** Decoding *)

(** The member of an object that sets a struct field: names match without case. *)
Fixpoint field (name : string) (ms : list (string * json)) : option json :=
  match ms with
  | [] => None
  | (k, v) :: ms =>
      match field name ms with
      | Some w => Some w
      | None => if String.eqb (ToLower k) (ToLower name) then Some v else None
      end
  end.

(** The members of a document decoded into a struct; [null] leaves it zero. *)
Definition struct_members (j : json) : outcome (list (string * json)) :=
  match j with
  | JNull => Ok []
  | JObj ms => Ok ms
  | _ => Err JsonError
  end.

(** A pointer field: absent and [null] are nil. *)
Definition dec_ptr {A} (dec : json → outcome A) (o : option json) : outcome (option A) :=
  match o with
  | None | Some JNull => Ok None
  | Some j => x ← dec j; Ok (Some x)
  end.
(** A field that is not a pointer: absent and [null] leave the zero value. *)
Definition dec_val {A} (zero : A) (dec : json → outcome A) (o : option json) : outcome A :=
  match o with
  | None | Some JNull => Ok zero
  | Some j => dec j
  end.

Definition dec_bool (j : json) : outcome bool :=
  match j with JBool b => Ok b | _ => Err JsonError end.
Definition dec_string (j : json) : outcome string :=
  match j with JStr s => Ok s | _ => Err JsonError end.
Definition dec_int (j : json) : outcome Z :=
  match j with
  | JNum lit => match Atoi lit with Some z => Ok z | None => Err JsonError end
  | _ => Err JsonError
  end.
Definition dec_int32 (j : json) : outcome Z :=
  z ← dec_int j;
  if ((-2147483648 <=? z) && (z <=? 2147483647))%Z then Ok z else Err JsonError.
Definition dec_uint32 (j : json) : outcome Z :=
  match j with
  | JNum lit =>
      if str_forall is_digit lit
      then match digits_val 0 lit with
           | Some z => if (z <=? 4294967295)%Z then Ok z else Err JsonError
           | None => Err JsonError
           end
      else Err JsonError
  | _ => Err JsonError
  end.

(** A slice whose elements decode with [dec]; [null] is nil. *)
Definition dec_slice {A} (dec : json → outcome A) (j : json) : outcome (list A) :=
  match j with JArr l => traverse dec l | _ => Err JsonError end.
(** A slice of a type whose element is left zero by [null]. *)
Definition dec_strings (j : json) : outcome (list string) :=
  dec_slice (λ v, dec_val "" dec_string (Some v)) j.

(** A map: members decode in order, a later one replaces an earlier one. *)
Fixpoint dec_members {A} (dec : json → outcome A) (ms : list (string * json)) (m : gmap string A)
    : outcome (gmap string A) :=
  match ms with
  | [] => Ok m
  | (k, v) :: ms => x ← dec v; dec_members dec ms (<[k := x]> m)
  end.
Definition dec_map {A} (dec : json → outcome A) (o : option json) : outcome (gomap A) :=
  match o with
  | None | Some JNull => Ok None
  | Some (JObj ms) => m ← dec_members dec ms ∅; Ok (Some m)
  | Some _ => Err JsonError
  end.
Definition dec_string_map (o : option json) : outcome (gomap string) :=
  dec_map (λ v, dec_val "" dec_string (Some v)) o.

(** A number literal that does not fit a float64. *)
Definition float64_limit : Z := 2 ^ 1024 - 2 ^ 970.
Definition digits_or_zero (s : string) : Z := default 0%Z (digits_val 0 s).
Definition float64_overflows (lit : string) : bool :=
  let lit := TrimPrefix lit "-" in
  let '(int, rest) := span is_digit lit in
  let '(frac, rest) :=
    match rest with
    | String c r => if Ascii.eqb c "." then span is_digit r else ("", rest)
    | "" => ("", "")
    end in
  let exp :=
    match rest with
    | String _ (String s r) =>
        if Ascii.eqb s "-" then (- digits_or_zero r)%Z
        else if Ascii.eqb s "+" then digits_or_zero r else digits_or_zero (String s r)
    | _ => 0%Z
    end in
  let m := digits_or_zero (int +:+ frac) in
  let e := (exp - Z.of_nat (len frac))%Z in
  if (m =? 0)%Z then false
  else if (0 <=? e)%Z then (float64_limit <=? m * 10 ^ e)%Z
  else (float64_limit * 10 ^ (- e) <=? m)%Z.

(** Decoding into an [interface{}]: any document whose numbers are float64s. *)
Fixpoint any_ok (j : json) : bool :=
  let fix all (l : list json) : bool := match l with [] => true | v :: l => any_ok v && all l end in
  let fix allm (l : list (string * json)) : bool := match l with [] => true | (_, v) :: l => any_ok v && allm l end in
  match j with
  | JNum lit => negb (float64_overflows lit)
  | JArr l => all l
  | JObj ms => allm ms
  | _ => true
  end.
Definition dec_any (j : json) : outcome json := if any_ok j then Ok j else Err JsonError.

(** [json.Unmarshal(raw, &x)] where [dec] decodes the document into [x]. *)
Definition Unmarshal {A} (dec : json → outcome A) (raw : string) : outcome A :=
  match json_parse raw with
  | Some j => dec j
  | None => Err JsonError
  end.
