(* ===== verification/JsonText.v ===== *)
(** * Texts in a printed document

    The reconciler searches the bytes of raw documents for a quoted name.  What
    such a search finds in a document that was printed without blanks: which
    member names and string values, read back with a scanner of the bytes. *)

From S2P Require Import Prelude GoStrings Json.
Local Open Scope string_scope.
Local Open Scope list_scope.

(** ** A text inside another *)

Definition inside (sub s : string) : Prop := ∃ a b, s = a +:+ (sub +:+ b).
Lemma inside_refl s : inside s s.
Proof. exists "", "". by rewrite str_app_nil, str_app_nil_r. Qed.
Lemma inside_l sub s t : inside sub s → inside sub (s +:+ t).
Proof. intros (a & b & ->). exists a, (b +:+ t). by rewrite <-!str_app_assoc. Qed.
Lemma inside_r sub s t : inside sub t → inside sub (s +:+ t).
Proof. intros (a & b & ->). exists (s +:+ a), b. by rewrite !str_app_assoc. Qed.
Lemma inside_cons sub c t : inside sub t → inside sub (String c t).
Proof. apply (inside_r sub (String c "")). Qed.
Lemma inside_trans a b c : inside a b → inside b c → inside a c.
Proof. intros Ha (x & y & ->). by apply inside_r, inside_l. Qed.

Lemma Contains_inside s sub : Contains s sub = true ↔ inside sub s.
Proof.
  unfold Contains. rewrite Z.leb_le. split.
  - induction s as [|c s IH]; cbn [Index]; (destruct (HasPrefix _ _) eqn:E; [apply HasPrefix_true in E as [t E]; rewrite E; intros _|]).
    + apply inside_l, inside_refl.
    + lia.
    + apply inside_l, inside_refl.
    + destruct (Z.ltb_spec (Index s sub) 0); [lia|]. intros _. apply inside_cons, IH. lia.
  - intros (a & b & ->). induction a as [|c a IH].
    + rewrite str_app_nil. destruct (sub +:+ b) as [|d t] eqn:E; simpl; rewrite <-E, HasPrefix_app; lia.
    + rewrite str_app_cons. cbn [Index]. destruct (HasPrefix _ _); [lia|].
      destruct (Z.ltb_spec (Index (a +:+ (sub +:+ b)) sub) 0); lia.
Qed.

(** ** The parts of a document *)

Inductive part : json → json → Prop :=
  | part_refl j : part j j
  | part_elem l v x : v ∈ l → part x v → part x (JArr l)
  | part_member ms k v x : (k, v) ∈ ms → part x v → part x (JObj ms).
(** A text is a string value or the name of a member, at any depth. *)
Definition has_member (t : string) (j : json) : Prop := ∃ ms v, (t, v) ∈ ms ∧ part (JObj ms) j.
Definition has_text (t : string) (j : json) : Prop := part (JStr t) j ∨ has_member t j.

Lemma has_text_elem t l v : v ∈ l → has_text t v → has_text t (JArr l).
Proof.
  intros Hv [Hp|(ms & w & Hw & Hp)]; [left; by eapply part_elem|right].
  exists ms, w. split; [done|by eapply part_elem].
Qed.
Lemma has_text_member t ms k v : (k, v) ∈ ms → has_text t v → has_text t (JObj ms).
Proof.
  intros Hv [Hp|(ms' & w & Hw & Hp)]; [left; by eapply part_member|right].
  exists ms', w. split; [done|by eapply part_member].
Qed.
Lemma has_text_name t ms v : (t, v) ∈ ms → has_text t (JObj ms).
Proof. intros Hv. right. exists ms, v. split; [done|constructor]. Qed.

(** The literals of numbers, which the document keeps as text. *)
Definition numeral_char (c : ascii) : bool :=
  is_digit c || Ascii.eqb c "+" || Ascii.eqb c "-" || Ascii.eqb c "." || Ascii.eqb c "e" || Ascii.eqb c "E".
Definition numerals_plain (j : json) : Prop := ∀ lit, part (JNum lit) j → str_forall numeral_char lit = true.

Section JsonInduction.
Context (P : json → Prop) (Hnull : P JNull) (Hbool : ∀ b, P (JBool b)) (Hnum : ∀ lit, P (JNum lit)) (Hstr : ∀ s, P (JStr s)).
Context (Harr : ∀ l, Forall P l → P (JArr l)) (Hobj : ∀ ms, Forall (λ kv, P kv.2) ms → P (JObj ms)).
Fixpoint json_nested (j : json) : P j :=
  match j with
  | JNull => Hnull
  | JBool b => Hbool b
  | JNum lit => Hnum lit
  | JStr s => Hstr s
  | JArr l => Harr l ((fix elems (l : list json) : Forall P l :=
      match l with [] => Forall_nil_2 _ | v :: l => Forall_cons_2 _ v l (json_nested v) (elems l) end) l)
  | JObj ms => Hobj ms ((fix members (ms : list (string * json)) : Forall (λ kv, P kv.2) ms :=
      match ms with [] => Forall_nil_2 _ | kv :: ms => Forall_cons_2 _ kv ms (json_nested kv.2) (members ms) end) ms)
  end.
End JsonInduction.

(** The printers of members and elements, by themselves. *)
Fixpoint print_elems (l : list json) : string :=
  match l with
  | [] => ""
  | [v] => json_print v
  | v :: l => json_print v +:+ String "," (print_elems l)
  end.
Fixpoint print_members (l : list (string * json)) : string :=
  match l with
  | [] => ""
  | [(k, v)] => print_str k +:+ String ":" (json_print v)
  | (k, v) :: l => print_str k +:+ String ":" (json_print v +:+ String "," (print_members l))
  end.
Lemma json_print_arr l : json_print (JArr l) = String "[" (print_elems l +:+ "]").
Proof. done. Qed.
Lemma json_print_obj ms : json_print (JObj ms) = String "{" (print_members ms +:+ "}").
Proof. done. Qed.

(** ** Every text is printed *)

Lemma print_elems_inside l v : v ∈ l → inside (json_print v) (print_elems l).
Proof.
  induction 1 as [v l|v v' l Hv IH].
  - destruct l; cbn [print_elems]; [apply inside_refl|]. apply inside_l, inside_refl.
  - destruct l as [|w l]; [by apply elem_of_nil in Hv|]. cbn [print_elems] in *. by apply inside_r, inside_cons.
Qed.
Lemma print_members_inside ms k v :
  (k, v) ∈ ms → inside (print_str k) (print_members ms) ∧ inside (json_print v) (print_members ms).
Proof.
  intros Hin. remember (k, v) as kv eqn:E. revert E. induction Hin as [kv ms|kv kv' ms Hin IH]; intros ->.
  - destruct ms; cbn [print_members]; (split; [apply inside_l, inside_refl|apply inside_r, inside_cons]);
      [apply inside_refl|apply inside_l, inside_refl].
  - destruct ms as [|w ms]; [by apply elem_of_nil in Hin|]. destruct kv' as [k' v'].
    destruct (IH eq_refl) as [H1 H2]. cbn [print_members] in *.
    split; apply inside_r, inside_cons, inside_r, inside_cons; done.
Qed.

Lemma part_printed x j : part x j → inside (json_print x) (json_print j).
Proof.
  induction 1 as [j|l v x Hin _ IH|ms k v x Hin _ IH]; [apply inside_refl|..].
  - rewrite json_print_arr. apply inside_cons, inside_l. eapply inside_trans; [exact IH|]. by apply print_elems_inside.
  - rewrite json_print_obj. apply inside_cons, inside_l. eapply inside_trans; [exact IH|]. by apply (print_members_inside ms k v).
Qed.
Lemma text_printed t j : has_text t j → inside (print_str t) (json_print j).
Proof.
  intros [Hp|(ms & v & Hv & Hp)]; [exact (part_printed _ _ Hp)|].
  eapply inside_trans; [|by apply part_printed]. rewrite json_print_obj. apply inside_cons, inside_l.
  by apply (print_members_inside ms t v).
Qed.

(** ** Reading the bytes back

    A scanner is outside a string, inside one, or after a backslash inside one;
    it keeps what it has read of the string. *)
Inductive scan_state := Out | In (acc : string) | Esc (acc : string).
Definition scan_next (st : scan_state) (c : ascii) : scan_state :=
  match st with
  | Out => if Ascii.eqb c quote_mark then In "" else Out
  | In acc => if Ascii.eqb c quote_mark then Out else if Ascii.eqb c "\" then Esc acc else In (acc +:+ String c "")
  | Esc acc => In (acc +:+ String "\" (String c ""))
  end.
Fixpoint after (st : scan_state) (s : string) : scan_state :=
  match s with "" => st | String c s => after (scan_next st c) s end.
(** The strings that end, as they are written, and the bytes between strings. *)
Fixpoint strings_of (st : scan_state) (s : string) : list string :=
  match s with
  | "" => []
  | String c s => (match st with In acc => if Ascii.eqb c quote_mark then [acc] else [] | _ => [] end) ++ strings_of (scan_next st c) s
  end.
Fixpoint marks_of (st : scan_state) (s : string) : list ascii :=
  match s with
  | "" => []
  | String c s => (match st with Out => if Ascii.eqb c quote_mark then [] else [c] | _ => [] end) ++ marks_of (scan_next st c) s
  end.

Lemma after_app st a b : after st (a +:+ b) = after (after st a) b.
Proof. revert st. induction a as [|c a IH]; intros st; [done|]. rewrite str_app_cons. cbn [after]. apply IH. Qed.
Lemma strings_of_app st a b : strings_of st (a +:+ b) = strings_of st a ++ strings_of (after st a) b.
Proof.
  revert st. induction a as [|c a IH]; intros st; [done|]. rewrite str_app_cons. cbn [strings_of after]. by rewrite IH, app_assoc.
Qed.
Lemma marks_of_app st a b : marks_of st (a +:+ b) = marks_of st a ++ marks_of (after st a) b.
Proof.
  revert st. induction a as [|c a IH]; intros st; [done|]. rewrite str_app_cons. cbn [marks_of after]. by rewrite IH, app_assoc.
Qed.

(** The bytes a printed document has between its strings. *)
Definition mark_char (c : ascii) : bool :=
  numeral_char c || existsb (Ascii.eqb c) (Stdlib.Strings.String.list_ascii_of_string "{}[],:nultrefas").

(** The scanner finds texts of [T] only. *)
Definition clean (T : string → Prop) (s : string) : Prop :=
  after Out s = Out ∧ (∀ tok, tok ∈ strings_of Out s → ∃ u, T u ∧ tok = print_chars u) ∧
  (∀ c, c ∈ marks_of Out s → mark_char c = true).

Lemma clean_app T a b : clean T a → clean T b → clean T (a +:+ b).
Proof.
  intros (Ha & Hta & Hma) (Hb & Htb & Hmb). unfold clean. rewrite after_app, strings_of_app, marks_of_app, Ha.
  split; [done|]. split; intros x [?|?]%elem_of_app; auto.
Qed.
Lemma clean_impl (T T' : string → Prop) s : (∀ t, T t → T' t) → clean T s → clean T' s.
Proof. intros HT (H1 & H2 & H3). split; [done|]. split; [|done]. intros tok (u & Hu & ->)%H2. eauto. Qed.
Lemma clean_marks T s : str_forall mark_char s = true → clean T s.
Proof.
  induction s as [|c s IH]; [intros _; repeat split; intros x Hx; by apply elem_of_nil in Hx|].
  cbn [str_forall]. intros [Hc Hs]%andb_prop. apply (clean_app T (String c "") s); [|by apply IH].
  assert (Ascii.eqb c quote_mark = false) as Hq by (apply Ascii.eqb_neq; by intros ->).
  unfold clean. cbn [after scan_next strings_of marks_of]. rewrite Hq. repeat split.
  - intros x Hx. by apply elem_of_nil in Hx.
  - by intros x ->%list_elem_of_singleton.
Qed.
Lemma clean_char T c s : mark_char c = true → clean T s → clean T (String c s).
Proof. intros Hc. apply (clean_app T (String c "")). apply clean_marks. cbn [str_forall]. by rewrite Hc. Qed.

(** Bytes that neither end a string nor escape in it. *)
Definition safe_char (c : ascii) : bool := negb (Ascii.eqb c quote_mark) && negb (Ascii.eqb c "\").
Notation safe s := (str_forall safe_char s = true).

Lemma safe_scan acc s : safe s →
  after (In acc) s = In (acc +:+ s) ∧ strings_of (In acc) s = [] ∧ marks_of (In acc) s = [].
Proof.
  revert acc. induction s as [|c s IH]; intros acc; [by rewrite str_app_nil_r|].
  cbn [str_forall]. intros [[Hq%negb_true_iff Hb%negb_true_iff]%andb_prop Hs]%andb_prop.
  cbn [after strings_of marks_of scan_next]. rewrite Hq, Hb. destruct (IH (acc +:+ String c "") Hs) as (-> & -> & ->).
  by rewrite <-str_app_assoc.
Qed.
Lemma hex_safe c : safe (String (hex_char (code c / 16)) (String (hex_char (code c mod 16)) "")).
Proof. destruct c as [[] [] [] [] [] [] [] []]; vm_compute; reflexivity. Qed.

(** What [print_char] writes, by cases. *)
Lemma print_char_cases c :
  (print_char c = String "\" (String c "") ∧ (c = quote_mark ∨ c = "\"%char)) ∨
  (∃ h, print_char c = "\u00" +:+ h ∧ safe h ∧ len h = 2) ∨
  (print_char c = String c "" ∧ safe_char c = true).
Proof.
  unfold print_char, safe_char. destruct (Ascii.eqb_spec c quote_mark) as [|Hq]; cbn [orb]; [auto|].
  destruct (Ascii.eqb_spec c "\") as [|Hb]; [auto|]. destruct (code c <? 32)%N; [|auto].
  right; left. eexists. split; [reflexivity|]. split; [apply hex_safe|done].
Qed.

Lemma print_char_scan acc c :
  after (In acc) (print_char c) = In (acc +:+ print_char c) ∧ strings_of (In acc) (print_char c) = [] ∧
  marks_of (In acc) (print_char c) = [].
Proof.
  destruct (print_char_cases c) as [[-> _]|[(h & -> & Hh & _)|[-> Hc]]].
  - done.
  - change ("\u00" +:+ h) with (String "\" (String "u" ("00" +:+ h))).
    change (after (In acc) (String "\" (String "u" ("00" +:+ h)))) with (after (In (acc +:+ String "\" "u")) ("00" +:+ h)).
    change (strings_of (In acc) (String "\" (String "u" ("00" +:+ h)))) with (strings_of (In (acc +:+ String "\" "u")) ("00" +:+ h)).
    change (marks_of (In acc) (String "\" (String "u" ("00" +:+ h)))) with (marks_of (In (acc +:+ String "\" "u")) ("00" +:+ h)).
    destruct (safe_scan (acc +:+ String "\" "u") ("00" +:+ h)) as (-> & -> & ->); [by rewrite str_forall_app, Hh|].
    by rewrite <-str_app_assoc.
  - apply safe_scan. cbn [str_forall]. by rewrite Hc.
Qed.
Lemma print_chars_scan acc s :
  after (In acc) (print_chars s) = In (acc +:+ print_chars s) ∧ strings_of (In acc) (print_chars s) = [] ∧
  marks_of (In acc) (print_chars s) = [].
Proof.
  revert acc. induction s as [|c s IH]; intros acc; [by rewrite str_app_nil_r|]. cbn [print_chars].
  rewrite after_app, strings_of_app, marks_of_app. destruct (print_char_scan acc c) as (-> & -> & ->).
  destruct (IH (acc +:+ print_char c)) as (-> & -> & ->). by rewrite <-str_app_assoc.
Qed.

Lemma clean_str (T : string → Prop) t : T t → clean T (print_str t).
Proof.
  intros Ht. destruct (print_chars_scan "" t) as (Ha & Hs & Hm). unfold clean, print_str.
  cbn [after strings_of marks_of scan_next]. change (Ascii.eqb quote_mark quote_mark) with true. cbv iota.
  rewrite after_app, strings_of_app, marks_of_app, Ha, Hs, Hm. rewrite str_app_nil. split; [done|]. split.
  - intros tok ->%list_elem_of_singleton. by exists t.
  - intros c Hc. by apply elem_of_nil in Hc.
Qed.

(** The scanner finds exactly texts of the document. *)
Lemma print_clean j : numerals_plain j → clean (λ t, has_text t j) (json_print j).
Proof.
  induction j as [|b|lit|s|l IH|ms IH] using json_nested; intros Hn.
  - by apply clean_marks.
  - destruct b; by apply clean_marks.
  - apply clean_marks. eapply str_forall_impl; [|apply (Hn lit); constructor]. intros c Hc. unfold mark_char. by rewrite Hc.
  - apply clean_str. left. constructor.
  - rewrite json_print_arr. apply clean_char; [done|]. apply clean_app; [|by apply clean_marks].
    assert (Forall (λ v, clean (λ t, has_text t (JArr l)) (json_print v)) l) as Hl.
    { rewrite Forall_forall in IH |- *. intros v Hv. eapply clean_impl; [intros t; by apply has_text_elem|].
      apply IH; [done|]. intros lit Hp. apply Hn. by eapply part_elem. }
    clear IH Hn. revert Hl. generalize (λ t, has_text t (JArr l)). intros T Hl. induction Hl as [|v l' Hv Hl IH]; [by apply clean_marks|]. destruct l' as [|w l']; [done|].
    apply clean_app; [done|]. by apply clean_char.
  - rewrite json_print_obj. apply clean_char; [done|]. apply clean_app; [|by apply clean_marks].
    assert (Forall (λ kv, (λ t, has_text t (JObj ms)) kv.1 ∧ clean (λ t, has_text t (JObj ms)) (json_print kv.2)) ms) as Hl.
    { rewrite Forall_forall in IH |- *. intros [k v] Hv. split; [by eapply has_text_name|].
      eapply clean_impl; [intros t; by eapply has_text_member|]. apply (IH (k, v)); [done|].
      intros lit Hp. apply Hn. by eapply part_member. }
    clear IH Hn. revert Hl. generalize (λ t, has_text t (JObj ms)). intros T Hl. induction Hl as [|[k v] l' [Hk Hv] Hl IH]; [by apply clean_marks|]. cbn [fst snd] in *.
    destruct l' as [|w l']; (apply clean_app; [by apply clean_str|]); (apply clean_char; [done|]); [done|].
    apply clean_app; [done|]. by apply clean_char.
Qed.

(** ** What a search for a quoted word finds *)

Definition quoted (t : string) : string := String quote_mark (t +:+ String quote_mark "").

Lemma search_found t k t' s :
  t = String k t' → safe t → inside (quoted t) s → ∀ st,
  (∃ tok, tok ∈ strings_of st s ∧ (tok = t ∨ ∃ w, tok = w +:+ String "\" (String quote_mark t))) ∨ k ∈ marks_of st s.
Proof.
  intros -> Ht (a & b & ->). set (t := String k t') in *. induction a as [|c a IH]; intros st.
  - rewrite str_app_nil. unfold quoted. change (String quote_mark (t +:+ String quote_mark "") +:+ b)
      with (String quote_mark ((t +:+ String quote_mark "") +:+ b)). rewrite <-str_app_assoc.
    change (String quote_mark "" +:+ b) with (String quote_mark b).
    assert (∀ acc, acc +:+ t ∈ strings_of (In acc) (t +:+ String quote_mark b)) as Hin.
    { intros acc. rewrite strings_of_app. destruct (safe_scan acc t Ht) as (-> & -> & _). by left. }
    destruct st as [|acc|acc]; cbn [strings_of marks_of scan_next]; change (Ascii.eqb quote_mark quote_mark) with true; cbv iota.
    + left. exists t. split; [apply (Hin "")|by left].
    + right. unfold t. rewrite str_app_cons. cbn [marks_of]. cbn [str_forall] in Ht. apply andb_prop in Ht as [Hk _].
      apply andb_prop in Hk as [->%negb_true_iff _]. by left.
    + left. exists ((acc +:+ String "\" (String quote_mark "")) +:+ t). split; [apply Hin|]. right. exists acc. by rewrite <-str_app_assoc.
  - rewrite str_app_cons. cbn [strings_of marks_of]. destruct (IH (scan_next st c)) as [(tok & Htok & Hx)|Hk].
    + left. exists tok. split; [apply elem_of_app; by right|done].
    + right. apply elem_of_app. by right.
Qed.

Lemma print_chars_safe u : safe (print_chars u) → print_chars u = u.
Proof.
  induction u as [|c u IH]; [done|]. cbn [print_chars]. rewrite str_forall_app. intros [Hc Hu]%andb_prop.
  rewrite IH by done. destruct (print_char_cases c) as [[E _]|[(h & E & _)|[-> _]]]; [| |done]; rewrite E in Hc; discriminate Hc.
Qed.

(** A printed text that ends in an escaped quote and safe bytes. *)
Lemma print_chars_escaped u w t :
  safe t → print_chars u = w +:+ String "\" (String quote_mark t) → ∃ w', u = w' +:+ String quote_mark t.
Proof.
  intros Ht. revert w. induction u as [|c u IH]; intros w; [by destruct w|]. cbn [print_chars].
  assert (∀ w, print_chars u = w +:+ String "\" (String quote_mark t) → ∃ w', String c u = w' +:+ String quote_mark t) as Hnext.
  { intros w' [w'' ->]%IH. by exists (String c w''). }
  assert (∀ t', print_chars u ≠ String quote_mark t') as Hstart.
  { intros t'. destruct u as [|d u]; [done|]. cbn [print_chars].
    destruct (print_char_cases d) as [[-> _]|[(h & -> & _)|[-> Hd]]]; [done|done|]. by intros [= -> _]. }
  destruct (print_char_cases c) as [[-> Hc]|[(h & -> & Hh & Hl)|[-> Hc]]].
  - intros E. destruct w as [|x [|y w]]; rewrite ?str_app_cons, ?str_app_nil in E; injection E.
    + intros E' ->. exists "". rewrite str_app_nil, <-E'. f_equal. symmetry. apply print_chars_safe. by rewrite E'.
    + intros E' _ _. by apply Hstart in E'.
    + intros E' _ _. by apply Hnext in E'.
  - destruct h as [|x [|y [|]]]; try done. cbn [str_forall] in Hh. apply andb_prop in Hh as [Hx Hy].
    intros E. destruct w as [|? [|? [|? [|? [|? [|? w]]]]]]; rewrite ?str_app_cons, ?str_app_nil in E; injection E.
    7: { intros E' _ _ _ _ _ _. by apply Hnext in E'. }
    all: intros; subst; done.
  - intros E. destruct w as [|x w]; rewrite ?str_app_cons, ?str_app_nil in E; injection E.
    + intros _ ->. done.
    + intros E' _. by apply Hnext in E'.
Qed.

(** A word of letters and digits whose first letter is none of the marks. *)
Definition is_word (t : string) : Prop :=
  str_forall is_alnum t = true ∧ match t with String k _ => mark_char k = false | "" => False end.

Lemma alnum_printed t : str_forall is_alnum t = true → print_chars t = t ∧ safe t.
Proof.
  intros Ht. assert (safe t) as Hs.
  { eapply str_forall_impl; [|exact Ht]. intros c Hc. destruct c as [[] [] [] [] [] [] [] []]; done. }
  split; [|done]. induction t as [|c t IH]; [done|]. cbn [str_forall] in Ht, Hs. apply andb_prop in Ht as [Hc Ht].
  apply andb_prop in Hs as [_ Hs]. cbn [print_chars]. rewrite IH by done.
  assert (print_char c = String c "") as ->; [|done]. by destruct c as [[] [] [] [] [] [] [] []].
Qed.

(** The texts that put the quoted word in the bytes: the word, and those that
    end in a quote and the word. *)
Definition spells (t : string) (j : json) : Prop := ∃ u, has_text u j ∧ (u = t ∨ ∃ w, u = w +:+ String quote_mark t).

Lemma print_chars_app a b : print_chars (a +:+ b) = print_chars a +:+ print_chars b.
Proof. induction a as [|c a IH]; [done|]. rewrite str_app_cons. cbn [print_chars]. by rewrite IH, str_app_assoc. Qed.
Lemma spelled_printed t j : is_word t → spells t j → inside (quoted t) (json_print j).
Proof.
  intros [[Hprint _]%alnum_printed _] (u & Hu & Hx). eapply inside_trans; [|by apply text_printed].
  unfold print_str, quoted. destruct Hx as [->|[w ->]]; [rewrite Hprint; apply inside_refl|].
  rewrite print_chars_app. cbn [print_chars]. rewrite Hprint. apply inside_cons. rewrite <-str_app_assoc. apply inside_r.
  change (print_char quote_mark) with (String "\" (String quote_mark "")). apply inside_cons, inside_refl.
Qed.
Lemma printed_spelled t j : is_word t → numerals_plain j → inside (quoted t) (json_print j) → spells t j.
Proof.
  intros [Ht Hk] Hn Hin. destruct (alnum_printed t Ht) as [Hprint Hsafe]. destruct t as [|k t']; [done|].
  destruct (print_clean j Hn) as (_ & Htexts & Hmarks).
  destruct (search_found _ k t' _ eq_refl Hsafe Hin Out) as [(tok & Htok & Hx)|Hmark];
    [|apply Hmarks in Hmark; by rewrite Hk in Hmark].
  apply Htexts in Htok as (u & Hu & ->). exists u. split; [done|]. destruct Hx as [E|[w E]].
  - left. rewrite <-E. symmetry. apply print_chars_safe. by rewrite E.
  - right. by eapply print_chars_escaped.
Qed.
