(* ===== verification/K8s.v ===== *)
(** * Data types of the Kubernetes and Istio API packages

    The structs the source fills in or inspects, with the fields it uses.
    They come from k8s.io/api, k8s.io/apimachinery and istio.io/api; only their
    shape is stated here.  What their functions do is a parameter of the
    development ([External.v]).

    Pointers are options.  A proto message that the Istio decoder produces from
    a user document is represented by that document ([..._decoded]). *)

From S2P Require Import Prelude Json.

(** ** k8s.io/apimachinery *)

Inductive IntOrStringType := IntType | StringType.
Record IntOrString := { ios_Type : IntOrStringType; IntVal : Z; StrVal : string }.

Record LabelSelectorRequirement := { lsr_Key : string; lsr_Operator : string; lsr_Values : list string }.
Record LabelSelector := {
  MatchLabels : gomap string;
  MatchExpressions : list LabelSelectorRequirement
}.
Definition emptySelector : LabelSelector := {| MatchLabels := None; MatchExpressions := [] |}.

Record OwnerReference := {
  or_APIVersion : string;
  or_Kind : string;
  or_Name : string;
  or_UID : string;
  or_Controller : option bool;
  or_BlockOwnerDeletion : option bool
}.

Record ObjectMeta := {
  om_Name : string;
  om_Namespace : string;
  om_UID : string;
  om_Generation : Z;
  om_DeletionTimestamp : option Z;
  om_Labels : gomap string;
  om_Annotations : gomap string;
  om_OwnerReferences : list OwnerReference
}.

(** A composite literal [ObjectMeta{Name: n, Labels: l, Annotations: a}]. *)
Definition newMeta (name : string) (labels annotations : gomap string) : ObjectMeta :=
  {| om_Name := name; om_Namespace := ""; om_UID := ""; om_Generation := 0;
     om_DeletionTimestamp := None; om_Labels := labels; om_Annotations := annotations;
     om_OwnerReferences := [] |}.

(** Assignments to the fields of an [ObjectMeta]. *)
Definition set_Namespace (ns : string) (m : ObjectMeta) : ObjectMeta :=
  {| om_Name := om_Name m; om_Namespace := ns; om_UID := om_UID m; om_Generation := om_Generation m;
     om_DeletionTimestamp := om_DeletionTimestamp m; om_Labels := om_Labels m;
     om_Annotations := om_Annotations m; om_OwnerReferences := om_OwnerReferences m |}.
Definition set_Labels (l : gomap string) (m : ObjectMeta) : ObjectMeta :=
  {| om_Name := om_Name m; om_Namespace := om_Namespace m; om_UID := om_UID m; om_Generation := om_Generation m;
     om_DeletionTimestamp := om_DeletionTimestamp m; om_Labels := l;
     om_Annotations := om_Annotations m; om_OwnerReferences := om_OwnerReferences m |}.
Definition set_Annotations (a : gomap string) (m : ObjectMeta) : ObjectMeta :=
  {| om_Name := om_Name m; om_Namespace := om_Namespace m; om_UID := om_UID m; om_Generation := om_Generation m;
     om_DeletionTimestamp := om_DeletionTimestamp m; om_Labels := om_Labels m;
     om_Annotations := a; om_OwnerReferences := om_OwnerReferences m |}.
Definition set_OwnerReferences (r : list OwnerReference) (m : ObjectMeta) : ObjectMeta :=
  {| om_Name := om_Name m; om_Namespace := om_Namespace m; om_UID := om_UID m; om_Generation := om_Generation m;
     om_DeletionTimestamp := om_DeletionTimestamp m; om_Labels := om_Labels m;
     om_Annotations := om_Annotations m; om_OwnerReferences := r |}.

Record GroupVersionKind := { Group : string; Version : string; Kind : string }.
Definition noGVK : GroupVersionKind := {| Group := ""; Version := ""; Kind := "" |}.

Inductive ConditionStatus := ConditionTrue | ConditionFalse | ConditionUnknown.
Record Condition := {
  c_Type : string;
  c_Status : ConditionStatus;
  c_ObservedGeneration : Z;
  c_LastTransitionTime : Z;
  c_Reason : string;
  c_Message : string
}.

(** ** k8s.io/api/networking/v1 *)

Record NetworkPolicyPort := {
  npp_Protocol : option string;
  npp_Port : option IntOrString;
  npp_EndPort : option Z
}.
Record IPBlock := { ipb_CIDR : string; ipb_Except : option (list string) }.
Record NetworkPolicyPeer := {
  peer_PodSelector : option LabelSelector;
  peer_NamespaceSelector : option LabelSelector;
  peer_IPBlock : option IPBlock
}.
Record NetworkPolicyEgressRule := { er_Ports : list NetworkPolicyPort; er_To : list NetworkPolicyPeer }.
Record NetworkPolicyIngressRule := { ir_Ports : list NetworkPolicyPort; ir_From : list NetworkPolicyPeer }.
Record NetworkPolicySpec := {
  nps_PodSelector : LabelSelector;
  nps_Ingress : list NetworkPolicyIngressRule;
  nps_Egress : list NetworkPolicyEgressRule;
  nps_PolicyTypes : list string
}.
Definition emptyNetworkPolicySpec : NetworkPolicySpec :=
  {| nps_PodSelector := emptySelector; nps_Ingress := []; nps_Egress := []; nps_PolicyTypes := [] |}.

Definition ProtocolTCP : string := "TCP".
Definition ProtocolUDP : string := "UDP".
Definition PolicyTypeIngress : string := "Ingress".
Definition PolicyTypeEgress : string := "Egress".

(** ** istio.io/api *)

Inductive MutualTLS_Mode := MutualTLS_UNSET | MutualTLS_DISABLE | MutualTLS_PERMISSIVE | MutualTLS_STRICT.
Inductive OutboundTrafficPolicy_Mode := OutboundTrafficPolicy_REGISTRY_ONLY | OutboundTrafficPolicy_ALLOW_ANY.
Inductive ServiceEntry_Location := MESH_EXTERNAL | MESH_INTERNAL.
Inductive ServiceEntry_Resolution := Resolution_NONE | Resolution_STATIC | Resolution_DNS | Resolution_DNS_ROUND_ROBIN.
Inductive AuthorizationPolicy_Action := ALLOW | DENY | AUDIT | CUSTOM.

Record ServicePort := { sp_Number : Z; sp_Protocol : string; sp_Name : string }.
Record ServiceEntryFields := {
  se_Hosts : list string;
  se_Location : ServiceEntry_Location;
  se_Resolution : ServiceEntry_Resolution;
  se_Ports : list ServicePort
}.
Inductive ServiceEntrySpec :=
  | ServiceEntry_fields (f : ServiceEntryFields)
  | ServiceEntry_decoded (doc : json).
Definition zeroServiceEntry : ServiceEntrySpec :=
  ServiceEntry_fields {| se_Hosts := []; se_Location := MESH_EXTERNAL; se_Resolution := Resolution_NONE; se_Ports := [] |}.

Record Destination := { dest_Host : string; dest_Port : option Z }.
Inductive HTTPRoute :=
  | HTTPRoute_route (route : list Destination)
  | HTTPRoute_decoded (doc : json).
Record TLSMatchAttributes := { tls_SniHosts : list string; tls_Port : Z }.
Record TLSRoute := { tls_Match : list TLSMatchAttributes; tls_Route : list Destination }.
Record VirtualServiceSpec := {
  vs_Hosts : list string;
  vs_Gateways : list string;
  vs_Http : list HTTPRoute;
  vs_Tls : list TLSRoute
}.

Record Source := { src_Principals : list string; src_Namespaces : list string; src_IpBlocks : list string }.
Record Operation := { op_Ports : list string }.
Record Rule := { rule_From : list Source; rule_To : list Operation }.
Record AuthorizationPolicyFields := {
  ap_Selector : option (gomap string);   (* WorkloadSelector.MatchLabels *)
  ap_Action : AuthorizationPolicy_Action;
  ap_Rules : list Rule
}.
Inductive AuthorizationPolicySpec :=
  | AuthorizationPolicy_fields (f : AuthorizationPolicyFields)
  | AuthorizationPolicy_decoded (doc : json).
Definition zeroAuthorizationPolicy : AuthorizationPolicySpec :=
  AuthorizationPolicy_fields {| ap_Selector := None; ap_Action := ALLOW; ap_Rules := [] |}.

(** ** client.Object

    The objects the operator handles: type metadata, object metadata, and one
    of six specs.  The spec's constructor is the object's Go type. *)

Inductive Body :=
  | NetworkPolicy (spec : NetworkPolicySpec)
  | PeerAuthentication (mode : MutualTLS_Mode)
  | AuthorizationPolicy (spec : AuthorizationPolicySpec)
  | VirtualService (spec : VirtualServiceSpec)
  | ServiceEntry (spec : ServiceEntrySpec)
  | Sidecar (mode : OutboundTrafficPolicy_Mode).

Record Object := { o_GVK : GroupVersionKind; o_Meta : ObjectMeta; o_Body : Body }.

Inductive ObjectType := TNetworkPolicy | TPeerAuthentication | TAuthorizationPolicy
  | TVirtualService | TServiceEntry | TSidecar.

Definition type_of (b : Body) : ObjectType :=
  match b with
  | NetworkPolicy _ => TNetworkPolicy
  | PeerAuthentication _ => TPeerAuthentication
  | AuthorizationPolicy _ => TAuthorizationPolicy
  | VirtualService _ => TVirtualService
  | ServiceEntry _ => TServiceEntry
  | Sidecar _ => TSidecar
  end.

(** A composite literal of an object, before any type metadata is set. *)
Definition newObject (m : ObjectMeta) (b : Body) : Object := {| o_GVK := noGVK; o_Meta := m; o_Body := b |}.
Definition set_Meta (m : ObjectMeta) (o : Object) : Object := {| o_GVK := o_GVK o; o_Meta := m; o_Body := o_Body o |}.
Definition set_Body (b : Body) (o : Object) : Object := {| o_GVK := o_GVK o; o_Meta := o_Meta o; o_Body := b |}.
Definition set_GVK (g : GroupVersionKind) (o : Object) : Object := {| o_GVK := g; o_Meta := o_Meta o; o_Body := o_Body o |}.
Definition o_Name (o : Object) : string := om_Name (o_Meta o).
Definition o_Namespace (o : Object) : string := om_Namespace (o_Meta o).
Definition o_Labels (o : Object) : gomap string := om_Labels (o_Meta o).
Definition o_Annotations (o : Object) : gomap string := om_Annotations (o_Meta o).
Definition o_OwnerReferences (o : Object) : list OwnerReference := om_OwnerReferences (o_Meta o).

#[export] Instance IntOrStringType_eq_dec : EqDecision IntOrStringType.
Proof. solve_decision. Defined.
#[export] Instance IntOrString_eq_dec : EqDecision IntOrString.
Proof. solve_decision. Defined.
#[export] Instance OwnerReference_eq_dec : EqDecision OwnerReference.
Proof. solve_decision. Defined.
#[export] Instance GVK_eq_dec : EqDecision GroupVersionKind.
Proof. solve_decision. Defined.
#[export] Instance ConditionStatus_eq_dec : EqDecision ConditionStatus.
Proof. solve_decision. Defined.
#[export] Instance Condition_eq_dec : EqDecision Condition.
Proof. solve_decision. Defined.
#[export] Instance ObjectType_eq_dec : EqDecision ObjectType.
Proof. solve_decision. Defined.
