(* ===== verification/ApiTypes.v ===== *)
(** * The Package API: api/v1alpha1

    Records for the structs of package_types.go, routes_shorthand.go and
    zz_generated.types.go.  Field names carry a prefix for their struct.  A
    pointer is an option; a map or slice whose nil value the code tells apart
    from an empty one is an option too. *)

From S2P Require Import Prelude Json K8s.

(** [apiextensionsv1.JSON]: an uninterpreted document, as raw bytes. *)
Record JSON := { Raw : string }.

(** ** zz_generated.types.go *)

Record AdditionalPolicy := {
  AdditionalPolicy_Annotations : gomap string;
  AdditionalPolicy_Labels : gomap string;
  AdditionalPolicy_Name : string;
  AdditionalPolicy_Spec : gmap string JSON
}.

(** [*struct{ Enabled *bool }]: the shape of every per-default switch. *)
Record EnabledSwitch := { Switch_Enabled : option bool }.

Record IstioAmbient := { Ambient_Enabled : bool }.

Record AuthzAdditionalSpec := {
  AuthzAdditionalSpec_Action : option string;
  AuthzAdditionalSpec_Rules : list (gomap JSON);
  AuthzAdditionalSpec_Selector : gmap string JSON
}.
Record AuthzAdditionalPolicy := {
  AuthzAdditional_Annotations : gomap string;
  AuthzAdditional_Enabled : bool;
  AuthzAdditional_Labels : gomap string;
  AuthzAdditional_Name : option string;
  AuthzAdditional_Namespace : option string;
  AuthzAdditional_Spec : AuthzAdditionalSpec
}.
Record AuthzCustomElem := {
  AuthzCustom_Annotations : gomap string;
  AuthzCustom_Labels : gomap string;
  AuthzCustom_Name : string;
  AuthzCustom_Spec : gmap string JSON
}.
Record AuthzDefaults := {
  AuthzDefaults_AllowInNamespace : option EnabledSwitch;
  AuthzDefaults_DenyAll : option EnabledSwitch;
  AuthzDefaults_Enabled : option bool
}.
Record IstioAuthorizationPolicies := {
  Authz_AdditionalPolicies : gmap string AuthzAdditionalPolicy;
  Authz_Custom : list AuthzCustomElem;
  Authz_Defaults : option AuthzDefaults;
  Authz_Enabled : bool;
  Authz_GenerateFromNetpol : option bool
}.
Record IstioMtls := { Mtls_Mode : string }.
Record ServiceEntryCustomElem := {
  ServiceEntryCustom_Annotations : gomap string;
  ServiceEntryCustom_Labels : gomap string;
  ServiceEntryCustom_Name : string;
  ServiceEntryCustom_Spec : gmap string JSON
}.
Record IstioServiceEntries := { ServiceEntries_Custom : list ServiceEntryCustomElem }.
Record IstioSidecar := { Sidecar_Enabled : bool; Sidecar_OutboundTrafficPolicyMode : string }.
Record Istio := {
  Istio_Ambient : option IstioAmbient;
  Istio_AuthorizationPolicies : option IstioAuthorizationPolicies;
  Istio_Enabled : bool;
  Istio_Mtls : option IstioMtls;
  Istio_PrependReleaseName : bool;
  Istio_ServiceEntries : option IstioServiceEntries;
  Istio_Sidecar : option IstioSidecar
}.

Record NetworkPoliciesDefaultsAsHooks := {
  Hooks_DeletePolicies : list string;
  Hooks_Enabled : option bool;
  Hooks_Hooks : list string;
  Hooks_Weight : Z
}.
Record NetworkPoliciesEgressDefaults := {
  EgressDefaults_AllowInNamespace : option EnabledSwitch;
  EgressDefaults_AllowIstiod : option EnabledSwitch;
  EgressDefaults_AllowKubeDNS : option EnabledSwitch;
  EgressDefaults_DenyAll : option EnabledSwitch;
  EgressDefaults_Enabled : option bool
}.
Record NetworkPoliciesIngressDefaults := {
  IngressDefaults_AllowInNamespace : option EnabledSwitch;
  IngressDefaults_AllowPrometheusToIstioSidecar : option EnabledSwitch;
  IngressDefaults_DenyAll : option EnabledSwitch;
  IngressDefaults_Enabled : option bool
}.

(** The ports and peers of egress and ingress definitions have the same shape. *)
Record DefinitionPortElem := {
  PortElem_EndPort : option Z;
  PortElem_Port : option IntOrString;
  PortElem_Protocol : option string
}.
Record DefinitionIPBlockElem := {
  IPBlockElem_CIDR : option string;
  IPBlockElem_Except : option (list string)
}.
Record DefinitionPeerElem := {
  PeerElem_IPBlock : option DefinitionIPBlockElem;
  PeerElem_NamespaceSelector : gomap JSON;
  PeerElem_PodSelector : gomap JSON
}.
Record NetworkPoliciesEgressDefinitionsValue := {
  EgressDef_Ports : list DefinitionPortElem;
  EgressDef_To : list DefinitionPeerElem
}.
Record NetworkPoliciesIngressDefinitionsValue := {
  IngressDef_From : list DefinitionPeerElem;
  IngressDef_Ports : list DefinitionPortElem
}.

Record NetworkPoliciesEgress := {
  Egress_Defaults : option NetworkPoliciesEgressDefaults;
  Egress_Definitions : gmap string NetworkPoliciesEgressDefinitionsValue;
  Egress_ExcludeCIDRs : option (list string);
  Egress_From : gmap string JSON
}.
Record NetworkPoliciesIngress := {
  Ingress_Defaults : option NetworkPoliciesIngressDefaults;
  Ingress_Definitions : gmap string NetworkPoliciesIngressDefinitionsValue;
  Ingress_To : gmap string JSON
}.
Record NetworkPoliciesHbonePortInjection := { Hbone_Enabled : bool }.
Record NetworkPolicies := {
  NP_Additional : list AdditionalPolicy;
  NP_AdditionalPolicies : list AdditionalPolicy;
  NP_DefaultsAsHooks : option NetworkPoliciesDefaultsAsHooks;
  NP_Egress : option NetworkPoliciesEgress;
  NP_Enabled : bool;
  NP_HbonePortInjection : option NetworkPoliciesHbonePortInjection;
  NP_Ingress : option NetworkPoliciesIngress;
  NP_PrependReleaseName : bool
}.

(** ** routes_shorthand.go *)

Record InboundRouteDefaults := { InboundDefaults_Gateways : option (list string) }.
Record RouteDefaults := { RouteDefaults_Inbound : option InboundRouteDefaults }.
Record Routes := {
  Routes_Defaults : option RouteDefaults;
  Routes_Inbound : gmap string JSON;
  Routes_Outbound : gmap string JSON;
  Routes_PrependReleaseName : bool
}.
Record RoutePassthrough := { Passthrough_Enabled : bool; Passthrough_GatewayPort : option Z }.
Record InboundRoute := {
  Inbound_Enabled : bool;
  Inbound_Gateways : option (list string);
  Inbound_Hosts : list string;
  Inbound_Service : string;
  Inbound_Port : option IntOrString;
  Inbound_ContainerPort : option IntOrString;
  Inbound_Selector : gomap string;
  Inbound_Http : list JSON;
  Inbound_Passthrough : option RoutePassthrough;
  Inbound_Resolution : string;
  Inbound_Labels : gomap string;
  Inbound_Annotations : gomap string
}.
Record OutboundRoutePort := { OutPort_Number : Z; OutPort_Name : string; OutPort_Protocol : string }.
Record RouteMetadata := { RouteMetadata_Labels : gomap string; RouteMetadata_Annotations : gomap string }.
Record OutboundRoute := {
  Outbound_Enabled : bool;
  Outbound_Hosts : list string;
  Outbound_Location : string;
  Outbound_Resolution : string;
  Outbound_Ports : list OutboundRoutePort;
  Outbound_Metadata : option RouteMetadata
}.

(** ** package_types.go *)

Record PackageSpec := {
  Spec_Istio : option Istio;
  Spec_NetworkPolicies : option NetworkPolicies;
  Spec_Routes : option Routes
}.
Record AppliedResource := { ar_APIVersion : string; ar_Kind : string; ar_Name : string }.
Record PackageStatus := {
  Status_ObservedGeneration : Z;
  Status_Conditions : list Condition;
  Status_AppliedResources : list AppliedResource
}.
Record Package := {
  pkg_Meta : ObjectMeta;
  pkg_Spec : PackageSpec;
  pkg_Status : PackageStatus
}.
Definition pkg_Name (p : Package) : string := om_Name (pkg_Meta p).
Definition pkg_Namespace (p : Package) : string := om_Namespace (pkg_Meta p).
Definition pkg_UID (p : Package) : string := om_UID (pkg_Meta p).
Definition pkg_Generation (p : Package) : Z := om_Generation (pkg_Meta p).

(** [bbv1alpha1.GroupVersion.String()] (groupversion_info.go). *)
Definition GroupVersion : string := "bigbang.dev/v1alpha1".

#[export] Instance AppliedResource_eq_dec : EqDecision AppliedResource.
Proof. solve_decision. Defined.
