(* ===== verification/Interaction.v ===== *)
(** * Programs that talk to the API server

    The controller is a program whose calls are answered by its environment:
    the API server, the clock, the event recorder and the metrics registry.  A
    program is a tree of calls; nothing is assumed of the answers, so other
    clients may change the cluster between any two calls.  Two semantics are
    given: the trace of a run against a handler, and a program logic that
    states what holds for every handler. *)

From S2P Require Import Prelude K8s ApiTypes.

(** A namespace and a name. *)
Definition NamespacedName : Type := string * string.

Inductive call :=
  | GetPackage (key : NamespacedName)                        (* r.Get(&pkg) *)
  | GetConfigMap (key : NamespacedName)                      (* r.Get(&cm), its Data *)
  | GetService (uncached : bool) (key : NamespacedName)      (* reader.Get(&svc), its target ports *)
  | ListObjects (kind : ObjectType) (ns : string) (labels : gmap string string)
  | ListPackages
  | Patch (o : Object) (force : bool) (owner : string)       (* server-side apply *)
  | Delete (o : Object)
  | StatusUpdate (p : Package)                               (* r.Status().Update *)
  | Now
  | Event (p : Package) (reason message : string)
  | IncTotal (ns name outcome : string)                      (* reconcileTotal *)
  | SetApplied (ns name : string) (n : Z)                    (* appliedResources *)
  | ObserveDuration (ns name : string) (seconds : Z).        (* reconcileDurationSeconds *)

(** What a call answers: a value or an error; [None] is a nil error. *)
Definition ans (c : call) : Type :=
  match c with
  | GetPackage _ => (Package + error)%type
  | GetConfigMap _ => (gmap string string + error)%type
  | GetService _ _ => (list IntOrString + error)%type
  | ListObjects _ _ _ => (list Object + error)%type
  | ListPackages => (list Package + error)%type
  | Patch _ _ _ => (Object + error)%type
  | Delete _ => option error
  | StatusUpdate _ => (Package + error)%type
  | Now => Z
  | Event _ _ _ | IncTotal _ _ _ | SetApplied _ _ _ | ObserveDuration _ _ _ => unit
  end.

Inductive prog (A : Type) :=
  | Ret (a : A)
  | Call (c : call) (k : ans c → prog A)
  | Crash
  | Hang.
Arguments Ret {A} a.
Arguments Call {A} c k.
Arguments Crash {A}.
Arguments Hang {A}.

Fixpoint pbind {A B} (f : A → prog B) (p : prog A) : prog B :=
  match p with
  | Ret a => f a
  | Call c k => Call c (λ r, pbind f (k r))
  | Crash => Crash
  | Hang => Hang
  end.
#[export] Instance prog_ret : MRet prog := @Ret.
#[export] Instance prog_bind : MBind prog := @pbind.

Definition ask (c : call) : prog (ans c) := Call c Ret.

(** Go code without calls, inside a program. *)
Definition lift {A} (m : outcome A) : prog (A + error) :=
  match m with
  | Ok a => Ret (inl a)
  | Err e => Ret (inr e)
  | Panics => Crash
  | Diverges => Hang
  end.

(** ** Runs *)

Inductive event := Ev (c : call) (r : ans c).
Definition ev_call (e : event) : call := let '(Ev c _) := e in c.
Definition trace := list event.

Definition handler (W : Type) := ∀ c : call, W → ans c * W.

Fixpoint run {W A} (h : handler W) (p : prog A) (w : W) : outcome A * trace * W :=
  match p with
  | Ret a => (Ok a, [], w)
  | Call c k =>
      let '(r, w) := h c w in
      let '(o, tr, w) := run h (k r) w in
      (o, Ev c r :: tr, w)
  | Crash => (Panics, [], w)
  | Hang => (Diverges, [], w)
  end.

Lemma run_bind {W A B} (h : handler W) (p : prog A) (f : A → prog B) w :
  run h (p ≫= f) w =
  let '(o, tr, w) := run h p w in
  match o with
  | Ok a => let '(o', tr', w') := run h (f a) w in (o', tr ++ tr', w')
  | Err e => (Err e, tr, w)
  | Panics => (Panics, tr, w)
  | Diverges => (Diverges, tr, w)
  end.
Proof.
  unfold mbind, prog_bind. revert w. induction p as [a|c k IH| |]; intros w; simpl; [|..|done|done].
  - by destruct (run h (f a) w) as [[? ?] ?].
  - destruct (h c w) as [r w']. rewrite IH. destruct (run h (k r) w') as [[o tr] w''].
    destruct o; [|done..]. by destruct (run h (f a) w'') as [[? ?] ?].
Qed.

(** ** A program logic for every environment

    [wp G p Q h]: after history [h], every call the program issues satisfies the
    guarantee [G], whatever was answered before, and its result satisfies [Q]. *)
Fixpoint wp {A} (G : trace → call → Prop) (p : prog A) (Q : trace → A → Prop) (h : trace) : Prop :=
  match p with
  | Ret a => Q h a
  | Call c k => G h c ∧ ∀ r, wp G (k r) Q (h ++ [Ev c r])
  | Crash | Hang => True
  end.

Lemma wp_mono {A} (G : trace → call → Prop) (p : prog A) (Q Q' : trace → A → Prop) h :
  (∀ h a, Q h a → Q' h a) → wp G p Q h → wp G p Q' h.
Proof.
  intros HQ. revert h. induction p as [a|c k IH| |]; intros h; simpl; [apply HQ| |done|done].
  intros [HG Hk]. split; [done|]. intros r. by apply IH.
Qed.

Lemma wp_bind {A B} (G : trace → call → Prop) (p : prog A) (f : A → prog B) (Q : trace → B → Prop) h :
  wp G p (λ h a, wp G (f a) Q h) h → wp G (p ≫= f) Q h.
Proof.
  unfold mbind, prog_bind. revert h. induction p as [a|c k IH| |]; intros h; simpl; [done| |done|done].
  intros [HG Hk]. split; [done|]. intros r. by apply IH.
Qed.

Lemma wp_ask (G : trace → call → Prop) c (Q : trace → ans c → Prop) h :
  G h c → (∀ r, Q (h ++ [Ev c r]) r) → wp G (ask c) Q h.
Proof. intros HG HQ. by split. Qed.

Lemma wp_lift {A} (G : trace → call → Prop) (m : outcome A) (Q : trace → A + error → Prop) h :
  (∀ a, m = Ok a → Q h (inl a)) → (∀ e, m = Err e → Q h (inr e)) → wp G (lift m) Q h.
Proof. intros HOk HErr. destruct m; simpl; auto. Qed.

(** What the logic proves is true of every run. *)
Theorem wp_adequate {W A} (h : handler W) (G : trace → call → Prop) (p : prog A) (Q : trace → A → Prop) past w :
  wp G p Q past →
  let '(o, tr, _) := run h p w in
  (∀ tr1 e tr2, tr = tr1 ++ e :: tr2 → G (past ++ tr1) (ev_call e)) ∧
  (∀ a, o = Ok a → Q (past ++ tr) a).
Proof.
  revert past w. induction p as [a|c k IH| |]; intros past w; simpl.
  - intros HQ. split; [by intros [] ? ?|]. intros ? [= <-]. by rewrite app_nil_r.
  - intros [HG Hk]. destruct (h c w) as [r w']. specialize (IH r (past ++ [Ev c r]) w' (Hk r)).
    destruct (run h (k r) w') as [[o tr] w'']. destruct IH as [IHG IHQ]. split.
    + intros [|e' tr1] e tr2 [= <- ->]; simpl; [by rewrite app_nil_r|].
      specialize (IHG tr1 e tr2 eq_refl). by rewrite <-app_assoc in IHG.
    + intros a Ha. specialize (IHQ a Ha). by rewrite <-app_assoc in IHQ.
  - intros _. split; [by intros [] ? ?|done].
  - intros _. split; [by intros [] ? ?|done].
Qed.

(** A program's loop over a list, which stops at the first error. *)
Fixpoint each {A B} (f : A → prog (B + error)) (l : list A) : prog (list B + error) :=
  match l with
  | [] => Ret (inl [])
  | x :: l =>
      r ← f x;
      match r with
      | inr e => Ret (inr e)
      | inl y => rest ← each f l; Ret (match rest with inl ys => inl (y :: ys) | inr e => inr e end)
      end
  end.

(** Every call the program may issue, whatever is answered, satisfies [P]. *)
Fixpoint issues {A} (P : call → Prop) (p : prog A) : Prop :=
  match p with
  | Call c k => P c ∧ ∀ r, issues P (k r)
  | Ret _ | Crash | Hang => True
  end.

Section Issues.
Context (P : call → Prop).

Lemma issues_bind {A B} (p : prog A) (f : A → prog B) : issues P p → (∀ a, issues P (f a)) → issues P (p ≫= f).
Proof.
  intros Hp Hf. unfold mbind, prog_bind. induction p as [a|c k IH| |]; simpl in *; [apply Hf| |done|done].
  destruct Hp as [Hc Hk]. split; [done|]. intros r. by apply IH.
Qed.
Lemma issues_ask {B} c (f : ans c → prog B) : P c → (∀ r, issues P (f r)) → issues P (ask c ≫= f).
Proof. by split. Qed.
Lemma issues_lift {A} (m : outcome A) : issues P (lift m).
Proof. by destruct m. Qed.
Lemma issues_each {A B} (f : A → prog (B + error)) l : (∀ x, issues P (f x)) → issues P (each f l).
Proof.
  intros Hf. induction l as [|x l IH]; simpl; [done|]. apply issues_bind; [apply Hf|].
  intros [y|e]; [|done]. by apply issues_bind.
Qed.

(** So it is of the calls of every run. *)
Lemma issues_run {W A} (h : handler W) (p : prog A) w : issues P p → Forall (λ e, P (ev_call e)) (run h p w).1.2.
Proof.
  revert w. induction p as [a|c k IH| |]; intros w; simpl; [constructor| |constructor..].
  intros [Hc Hk]. destruct (h c w) as [r w']. specialize (IH r w' (Hk r)).
  destruct (run h (k r) w') as [[o tr] w'']. by constructor.
Qed.
End Issues.

(** A program returns on every path on which the answers satisfy [B]: it does
    not panic and does not loop forever. *)
Fixpoint returns_under {A} (B : ∀ c, ans c → Prop) (p : prog A) : Prop :=
  match p with
  | Ret _ => True
  | Call c k => ∀ r, B c r → returns_under B (k r)
  | Crash | Hang => False
  end.

Section Returns.
Context (B : ∀ c, ans c → Prop).

Lemma returns_under_bind {A C} (p : prog A) (f : A → prog C) :
  returns_under B p → (∀ a, returns_under B (f a)) → returns_under B (p ≫= f).
Proof.
  intros Hp Hf. unfold mbind, prog_bind. induction p as [a|c k IH| |]; simpl in *; [apply Hf| |done|done].
  intros r Hr. by apply IH, Hp.
Qed.

Lemma returns_under_ask {C} c (f : ans c → prog C) :
  (∀ r, B c r → returns_under B (f r)) → returns_under B (ask c ≫= f).
Proof. by intros Hf r Hr; apply Hf. Qed.

Lemma returns_under_lift {A} (m : outcome A) : returns m → returns_under B (lift m).
Proof. by destruct m. Qed.

Lemma returns_under_each {A C} (f : A → prog (C + error)) l :
  (∀ x, returns_under B (f x)) → returns_under B (each f l).
Proof.
  intros Hf. induction l as [|x l IH]; simpl; [done|]. apply returns_under_bind; [apply Hf|].
  intros [y|e]; [|done]. by apply returns_under_bind.
Qed.

(** A handler whose answers satisfy [B] runs such a program to its end. *)
Lemma returns_under_run {W A} (h : handler W) (p : prog A) w :
  (∀ c w, B c (h c w).1) → returns_under B p → is_Ok (run h p w).1.1.
Proof.
  intros Hh. revert w. induction p as [a|c k IH| |]; intros w; simpl; [by eexists| |done|done].
  intros Hk. pose proof (Hh c w) as Hr. destruct (h c w) as [r w']. simpl in Hr. specialize (IH r w' (Hk r Hr)).
  by destruct (run h (k r) w') as [[? ?] ?].
Qed.
End Returns.
