(* ===== verification/Status.v ===== *)
(** * status.go: conditions and the summary of applied resources *)

From S2P Require Import Prelude GoStrings K8s ApiTypes.
From S2P Require Import Interaction.
From stdpp Require Import sorting.
Local Open Scope string_scope.
Local Open Scope list_scope.

(** Code outside the repository that the controller calls: the text of an
    encoding/json error, [apierrors.IsNotFound], and the [String] methods of
    [GroupVersion] and [GroupVersionKind]. *)
Class ControllerExt := {
  JsonErrorText : string;
  IsNotFound : error → bool;
  GroupVersionString : string → string → string;
  GVKString : GroupVersionKind → string
}.

Section Errors.
Context `{ControllerExt}.
(** [err.Error()] *)
Fixpoint Error (e : error) : string :=
  match e with
  | Errorf msg => msg
  | Wrapf prefix cause => prefix +:+ ": " +:+ Error cause
  | WrapIn prefix cause suffix => prefix +:+ Error cause +:+ suffix
  | JsonError => JsonErrorText
  | LibError text => text
  end.
End Errors.

(** ** Conditions *)

Definition set_Status (s : PackageStatus) (p : Package) : Package :=
  {| pkg_Meta := pkg_Meta p; pkg_Spec := pkg_Spec p; pkg_Status := s |}.
Definition set_Conditions (cs : list Condition) (p : Package) : Package :=
  set_Status {| Status_ObservedGeneration := Status_ObservedGeneration (pkg_Status p); Status_Conditions := cs;
                Status_AppliedResources := Status_AppliedResources (pkg_Status p) |} p.
Definition set_ObservedGeneration (g : Z) (p : Package) : Package :=
  set_Status {| Status_ObservedGeneration := g; Status_Conditions := Status_Conditions (pkg_Status p);
                Status_AppliedResources := Status_AppliedResources (pkg_Status p) |} p.
Definition set_AppliedResources (rs : list AppliedResource) (p : Package) : Package :=
  set_Status {| Status_ObservedGeneration := Status_ObservedGeneration (pkg_Status p);
                Status_Conditions := Status_Conditions (pkg_Status p); Status_AppliedResources := rs |} p.

Definition set_LastTransitionTime (t : Z) (c : Condition) : Condition :=
  {| c_Type := c_Type c; c_Status := c_Status c; c_ObservedGeneration := c_ObservedGeneration c;
     c_LastTransitionTime := t; c_Reason := c_Reason c; c_Message := c_Message c |}.

(** The loop of [setCondition]: the first condition of the type is replaced;
    without one, [c] is appended. *)
Fixpoint upsertCondition (c : Condition) (cs : list Condition) : list Condition :=
  match cs with
  | [] => [c]
  | existing :: cs =>
      if negb (String.eqb (c_Type existing) (c_Type c)) then existing :: upsertCondition c cs
      else (if decide (c_Status existing = c_Status c)
            then set_LastTransitionTime (c_LastTransitionTime existing) c else c) :: cs
  end.
Definition setCondition (pkg : Package) (c : Condition) : Package :=
  set_Conditions (upsertCondition c (Status_Conditions (pkg_Status pkg))) pkg.

Fixpoint dropCondition (condType : string) (cs : list Condition) : list Condition :=
  match cs with
  | [] => []
  | existing :: cs => if String.eqb (c_Type existing) condType then cs else existing :: dropCondition condType cs
  end.
Definition removeCondition (pkg : Package) (condType : string) : Package :=
  set_Conditions (dropCondition condType (Status_Conditions (pkg_Status pkg))) pkg.

Definition condition (pkg : Package) (type : string) (status : ConditionStatus) (reason message : string) (now : Z) : Condition :=
  {| c_Type := type; c_Status := status; c_ObservedGeneration := pkg_Generation pkg; c_LastTransitionTime := now;
     c_Reason := reason; c_Message := message |}.

(** ** summarize *)

Section Summarize.
Context `{ControllerExt}.

Definition appliedResource (o : Object) : AppliedResource :=
  {| ar_APIVersion := GroupVersionString (Group (o_GVK o)) (Version (o_GVK o)); ar_Kind := Kind (o_GVK o); ar_Name := o_Name o |}.

(** The comparison given to [sort.Slice], by kind and then by name. *)
Definition resource_less (a b : AppliedResource) : bool :=
  if negb (String.eqb (ar_Kind a) (ar_Kind b)) then String.ltb (ar_Kind a) (ar_Kind b)
  else String.ltb (ar_Name a) (ar_Name b).
Definition resource_le (a b : AppliedResource) : Prop := resource_less b a = false.
#[export] Instance resource_le_dec : RelDecision resource_le.
Proof. intros a b. unfold resource_le. apply _. Defined.

(** [sort.Slice]: sorted by the comparison.  Its order of resources of one kind
    and name, which differ in the API version only, is left open by Go; the model
    keeps the order of the objects. *)
Definition summarize (objs : list Object) : list AppliedResource := merge_sort resource_le (appliedResource <$> objs).

(** ** The three transitions *)

Definition markReconciling (pkg : Package) : prog (Package + error) :=
  now ← ask Now;
  let pkg := setCondition pkg (condition pkg "Reconciling" ConditionTrue "Progressing"
    ("reconciling generation " +:+ Itoa (pkg_Generation pkg)) now) in
  ask (StatusUpdate pkg).

(** The package that [markFailed] writes. *)
Definition failedPackage (pkg : Package) (reason : string) (err : error) (now1 now2 : Z) : Package :=
  let pkg := setCondition pkg (condition pkg "Ready" ConditionFalse reason (Error err) now1) in
  let pkg := setCondition pkg (condition pkg "Stalled" ConditionTrue reason (Error err) now2) in
  let pkg := removeCondition pkg "Reconciling" in
  set_ObservedGeneration (pkg_Generation pkg) pkg.

(** The package after the call, and the error [Reconcile] returns. *)
Definition markFailed (pkg : Package) (reason : string) (err : error) : prog (Package * option error) :=
  now1 ← ask Now;
  now2 ← ask Now;
  let pkg := failedPackage pkg reason err now1 now2 in
  r ← ask (StatusUpdate pkg);
  match r with
  | inr statusErr =>
      Ret (pkg, Some (WrapIn ("status update after " +:+ reason +:+ ": " +:+ Error statusErr +:+ " (original: ") err ")"))
  | inl pkg => Ret (pkg, Some err)
  end.

(** The package that [markReady] writes. *)
Definition readyPackage (pkg : Package) (desired : list Object) (now : Z) : Package :=
  let pkg := setCondition pkg (condition pkg "Ready" ConditionTrue "ResourcesApplied" "bb-common resources reconciled" now) in
  let pkg := removeCondition pkg "Stalled" in
  let pkg := removeCondition pkg "Reconciling" in
  let pkg := set_ObservedGeneration (pkg_Generation pkg) pkg in
  set_AppliedResources (summarize desired) pkg.

Definition markReady (pkg : Package) (desired : list Object) : prog (Package * option error) :=
  now ← ask Now;
  let pkg := readyPackage pkg desired now in
  r ← ask (StatusUpdate pkg);
  match r with
  | inr e => Ret (pkg, Some e)
  | inl pkg => Ret (pkg, None)
  end.
End Summarize.

(** ** Lemmas on conditions *)

(** In a list whose keys differ, an element is known by its key. *)
Lemma NoDup_key_inj {A B} (f : A → B) l x y :
  NoDup (f <$> l) → x ∈ l → y ∈ l → f x = f y → x = y.
Proof.
  intros Hnd [i Hi]%list_elem_of_lookup [k Hk]%list_elem_of_lookup E.
  assert (i = k) as ->; [|congruence].
  apply (NoDup_lookup (f <$> l) i k (f x)); [done|by rewrite list_lookup_fmap, Hi|by rewrite list_lookup_fmap, Hk, E].
Qed.

Definition condition_types (pkg : Package) : list string := c_Type <$> Status_Conditions (pkg_Status pkg).
Definition unique_conditions (pkg : Package) : Prop := NoDup (condition_types pkg).
Definition has_condition (pkg : Package) (type : string) (status : ConditionStatus) : Prop :=
  ∃ c, c ∈ Status_Conditions (pkg_Status pkg) ∧ c_Type c = type ∧ c_Status c = status.
Definition lacks_condition (pkg : Package) (type : string) : Prop := type ∉ condition_types pkg.

(** The condition that ends up in the list: the time of the last transition is
    kept when the status did not change. *)
Definition transition (c : Condition) (cs : list Condition) : Condition :=
  match find (λ e, String.eqb (c_Type e) (c_Type c)) cs with
  | Some existing =>
      if decide (c_Status existing = c_Status c) then set_LastTransitionTime (c_LastTransitionTime existing) c else c
  | None => c
  end.

Lemma transition_type c cs : c_Type (transition c cs) = c_Type c ∧ c_Status (transition c cs) = c_Status c.
Proof. unfold transition. destruct (find _ cs); [|done]. by destruct (decide _). Qed.

Lemma upsert_types c cs :
  c_Type <$> upsertCondition c cs =
  if decide (c_Type c ∈ (c_Type <$> cs)) then c_Type <$> cs else (c_Type <$> cs) ++ [c_Type c].
Proof.
  induction cs as [|e cs IH]; [by rewrite decide_False by apply not_elem_of_nil|]. cbn [upsertCondition].
  rewrite fmap_cons. destruct (String.eqb_spec (c_Type e) (c_Type c)) as [E|E]; cbn [negb]; rewrite fmap_cons.
  - rewrite (decide_True (P := c_Type c ∈ _)) by (rewrite E; by left). destruct (decide (c_Status e = c_Status c)); cbn [c_Type set_LastTransitionTime]; by rewrite E.
  - rewrite IH. destruct (decide (c_Type c ∈ (c_Type <$> cs))).
    + rewrite decide_True by (by right). done.
    + rewrite decide_False; [done|]. by intros [?|?]%elem_of_cons.
Qed.

Lemma upsert_elem c cs x :
  NoDup (c_Type <$> cs) →
  x ∈ upsertCondition c cs ↔ (x ∈ cs ∧ c_Type x ≠ c_Type c) ∨ x = transition c cs.
Proof.
  unfold transition. induction cs as [|e cs IH]; simpl; intros Hnd.
  - set_solver.
  - apply NoDup_cons in Hnd as [He Hnd]. destruct (String.eqb_spec (c_Type e) (c_Type c)) as [E|E]; simpl.
    + rewrite !elem_of_cons. split.
      * intros [->|Hx]; [by right|]. left. split; [by right|]. intros Ex. apply He. rewrite E, <-Ex. by apply list_elem_of_fmap_2.
      * intros [[[->|?] ?]|?]; [done|by right|by left].
    + rewrite !elem_of_cons, IH by done. split.
      * intros [->|[[? ?]|?]]; [by left; split; [left|]|by left; split; [right|]|by right].
      * intros [[[?|?] ?]|?]; [by left|by right; left|by right; right].
Qed.

Lemma upsert_NoDup c cs : NoDup (c_Type <$> cs) → NoDup (c_Type <$> upsertCondition c cs).
Proof.
  intros Hnd. rewrite upsert_types. destruct (decide _); [done|]. apply NoDup_app.
  split_and!; [done| |apply NoDup_singleton]. by intros x Hx ->%list_elem_of_singleton.
Qed.

Lemma drop_elem t cs x : NoDup (c_Type <$> cs) → x ∈ dropCondition t cs ↔ x ∈ cs ∧ c_Type x ≠ t.
Proof.
  induction cs as [|e cs IH]; simpl; intros Hnd; [set_solver|].
  apply NoDup_cons in Hnd as [He Hnd]. destruct (String.eqb_spec (c_Type e) t) as [<-|E].
  - rewrite elem_of_cons. split; [|by intros [[->|?] ?]]. intros Hx. split; [by right|].
    intros Ex. apply He. rewrite <-Ex. by apply list_elem_of_fmap_2.
  - rewrite !elem_of_cons, IH by done. split; [intros [->|[? ?]]|intros [[?|?] ?]]; eauto.
Qed.

Lemma drop_types t cs : ∃ k, c_Type <$> dropCondition t cs = k ∧ k `sublist_of` (c_Type <$> cs).
Proof.
  eexists. split; [done|]. induction cs as [|e cs IH]; simpl; [done|].
  destruct (String.eqb _ _); [by apply sublist_cons|by apply sublist_skip].
Qed.

Lemma drop_NoDup t cs : NoDup (c_Type <$> cs) → NoDup (c_Type <$> dropCondition t cs).
Proof. intros Hnd. destruct (drop_types t cs) as (k & -> & Hk). by eapply sublist_NoDup. Qed.

Lemma setCondition_unique pkg c : unique_conditions pkg → unique_conditions (setCondition pkg c).
Proof. apply upsert_NoDup. Qed.
Lemma removeCondition_unique pkg t : unique_conditions pkg → unique_conditions (removeCondition pkg t).
Proof. apply drop_NoDup. Qed.
#[export] Hint Resolve setCondition_unique removeCondition_unique : go.

Lemma lacks_elem pkg t : lacks_condition pkg t ↔ ∀ c, c ∈ Status_Conditions (pkg_Status pkg) → c_Type c ≠ t.
Proof.
  unfold lacks_condition, condition_types. rewrite list_elem_of_fmap. naive_solver.
Qed.

Lemma has_setCondition pkg c t s :
  unique_conditions pkg →
  has_condition (setCondition pkg c) t s ↔
  if decide (t = c_Type c) then s = c_Status c else has_condition pkg t s.
Proof.
  intros Hu. unfold has_condition, setCondition; cbn [pkg_Status set_Conditions set_Status Status_Conditions].
  setoid_rewrite upsert_elem; [|done]. destruct (transition_type c (Status_Conditions (pkg_Status pkg))) as [Ht Hs].
  destruct (decide (t = c_Type c)) as [->|Hne].
  - split; [intros (x & [[? ?]| ->] & ? & <-); congruence|]. intros ->. eexists. split; [by right|done].
  - split; [intros (x & [[? ?]| ->] & <- & <-); [by exists x|congruence]|].
    intros (x & Hx & <- & <-). exists x. split; [by left|done].
Qed.

Lemma has_removeCondition pkg t t' s :
  unique_conditions pkg → has_condition (removeCondition pkg t) t' s ↔ t' ≠ t ∧ has_condition pkg t' s.
Proof.
  intros Hu. unfold has_condition, removeCondition; cbn [pkg_Status set_Conditions set_Status Status_Conditions].
  setoid_rewrite drop_elem; [|done]. naive_solver.
Qed.

Lemma lacks_has pkg t : lacks_condition pkg t ↔ ∀ s, ¬ has_condition pkg t s.
Proof. rewrite lacks_elem. unfold has_condition. naive_solver. Qed.

(** ** Lemmas on the summary *)

Lemma str_ltb_leb a b : String.ltb b a = false ↔ String.le a b.
Proof.
  unfold String.ltb, String.le, String.leb. rewrite (String.compare_antisym b a).
  destruct (String.compare a b); simpl; split; done.
Qed.

Lemma resource_le_spec a b :
  resource_le a b ↔
  (ar_Kind a = ar_Kind b ∧ String.le (ar_Name a) (ar_Name b)) ∨ (ar_Kind a ≠ ar_Kind b ∧ String.le (ar_Kind a) (ar_Kind b)).
Proof.
  unfold resource_le, resource_less. destruct (String.eqb_spec (ar_Kind b) (ar_Kind a)); simpl;
    rewrite str_ltb_leb; naive_solver.
Qed.

#[export] Instance resource_le_total : Total resource_le.
Proof.
  intros a b. rewrite !resource_le_spec. destruct (decide (ar_Kind a = ar_Kind b)) as [E|E].
  - destruct (String.le_total (ar_Name a) (ar_Name b)); eauto.
  - destruct (String.le_total (ar_Kind a) (ar_Kind b)); eauto.
Qed.

#[export] Instance resource_le_trans : Transitive resource_le.
Proof.
  intros a b c. rewrite !resource_le_spec. intros [[E1 L1]|[E1 L1]] [[E2 L2]|[E2 L2]].
  - left. split; [congruence|by etrans].
  - right. rewrite E1. done.
  - right. rewrite <-E2. done.
  - destruct (decide (ar_Kind a = ar_Kind c)) as [E|E]; [|right; split; [done|by etrans]].
    rewrite E in L1. destruct E1. rewrite E. by apply (anti_symm String.le).
Qed.

Section StatusProperties.
Context `{ControllerExt}.

(** C39: Conditions form a map from type to condition, as the API declares, and
    [setCondition] and [removeCondition] are its insert and delete. The
    condition set keeps the time of its last transition when its status did not
    change and takes the new time when it did; every other condition, the
    observed generation and the summary are untouched. *)
Theorem setCondition_correct pkg c t (Hu : unique_conditions pkg) :
  let cs := Status_Conditions (pkg_Status pkg) in
  let set := setCondition pkg c in
  let removed := removeCondition pkg t in
  unique_conditions set ∧ unique_conditions removed ∧
  (∀ x, x ∈ Status_Conditions (pkg_Status set) ↔ (x ∈ cs ∧ c_Type x ≠ c_Type c) ∨ x = transition c cs) ∧
  (∀ old, old ∈ cs → c_Type old = c_Type c →
     c_LastTransitionTime (transition c cs) =
       if decide (c_Status old = c_Status c) then c_LastTransitionTime old else c_LastTransitionTime c) ∧
  (∀ x, x ∈ Status_Conditions (pkg_Status removed) ↔ x ∈ cs ∧ c_Type x ≠ t) ∧
  (pkg_Meta set, pkg_Spec set, Status_ObservedGeneration (pkg_Status set), Status_AppliedResources (pkg_Status set)) =
  (pkg_Meta pkg, pkg_Spec pkg, Status_ObservedGeneration (pkg_Status pkg), Status_AppliedResources (pkg_Status pkg)).
Proof.
  cbv zeta. split_and!; [auto with go..|intros x; by apply upsert_elem| |intros x; by apply drop_elem|done].
  intros old Hold Ht. unfold transition. destruct (find _ _) as [e|] eqn:Ef.
  - apply find_some in Ef as [He%list_elem_of_In Et%String.eqb_eq].
    rewrite (NoDup_key_inj c_Type _ e old Hu) by congruence.
    by destruct (decide _).
  - apply find_none with (x := old) in Ef; [|by apply list_elem_of_In]. apply String.eqb_neq in Ef. congruence.
Qed.

(** What the failed and the ready status hold. *)
Lemma failedPackage_unique pkg reason err now1 now2 :
  unique_conditions pkg → unique_conditions (failedPackage pkg reason err now1 now2).
Proof.
  intros Hu. apply (removeCondition_unique (setCondition (setCondition pkg _) _) "Reconciling").
  by do 2 apply setCondition_unique.
Qed.

Lemma has_failedPackage pkg reason err now1 now2 t s :
  unique_conditions pkg →
  has_condition (failedPackage pkg reason err now1 now2) t s ↔
  t ≠ "Reconciling" ∧ if decide (t = "Stalled") then s = ConditionTrue
                     else if decide (t = "Ready") then s = ConditionFalse else has_condition pkg t s.
Proof.
  intros Hu. unfold failedPackage. cbv zeta.
  set (c1 := condition pkg "Ready" ConditionFalse _ _ _). set (p1 := setCondition pkg c1).
  assert (unique_conditions p1) as Hu1 by by apply setCondition_unique.
  set (c2 := condition p1 "Stalled" ConditionTrue _ _ _). set (p2 := setCondition p1 c2).
  assert (unique_conditions p2) as Hu2 by by apply setCondition_unique.
  etrans; [by apply (has_removeCondition p2)|]. unfold p2. rewrite has_setCondition by done.
  change (c_Type c2) with "Stalled". destruct (decide (t = "Stalled")); [done|]. unfold p1.
  by rewrite has_setCondition.
Qed.

Lemma readyPackage_unique pkg desired now : unique_conditions pkg → unique_conditions (readyPackage pkg desired now).
Proof.
  intros Hu. apply (removeCondition_unique (removeCondition (setCondition pkg _) "Stalled") "Reconciling").
  by apply removeCondition_unique, setCondition_unique.
Qed.

Lemma has_readyPackage pkg desired now t s :
  unique_conditions pkg →
  has_condition (readyPackage pkg desired now) t s ↔
  t ≠ "Reconciling" ∧ t ≠ "Stalled" ∧ if decide (t = "Ready") then s = ConditionTrue else has_condition pkg t s.
Proof.
  intros Hu. unfold readyPackage. cbv zeta.
  set (c3 := condition pkg "Ready" ConditionTrue _ _ _). set (q1 := setCondition pkg c3).
  assert (unique_conditions q1) as Hq1 by by apply setCondition_unique. set (q2 := removeCondition q1 "Stalled").
  assert (unique_conditions q2) as Hq2 by by apply removeCondition_unique.
  etrans; [by apply (has_removeCondition q2)|]. unfold q2. rewrite has_removeCondition by done. unfold q1.
  by rewrite has_setCondition.
Qed.

Lemma readyPackage_lacks pkg desired now t :
  unique_conditions pkg → t = "Stalled" ∨ t = "Reconciling" → lacks_condition (readyPackage pkg desired now) t.
Proof. intros Hu Ht. apply lacks_has. intros s Hs%has_readyPackage; [|done]. naive_solver. Qed.

(** Writing the ready status again writes the same status: the time of the last
    transition is kept. *)
Lemma upsert_same c cs e :
  NoDup (c_Type <$> cs) → e ∈ cs → c_Type e = c_Type c → c_Status e = c_Status c →
  set_LastTransitionTime (c_LastTransitionTime e) c = e → upsertCondition c cs = cs.
Proof.
  intros Hnd He Ht Hs Hsame. induction cs as [|x cs IH]; [by apply elem_of_nil in He|].
  rewrite fmap_cons in Hnd. apply NoDup_cons in Hnd as [Hx Hnd]. cbn [upsertCondition].
  apply elem_of_cons in He as [<-|He].
  - rewrite Ht, String.eqb_refl. cbn [negb]. by rewrite decide_True, Hsame.
  - destruct (String.eqb_spec (c_Type x) (c_Type c)) as [E|]; cbn [negb]; [|by rewrite IH].
    destruct Hx. rewrite E, <-Ht. by apply list_elem_of_fmap_2.
Qed.

Lemma drop_none t cs : t ∉ c_Type <$> cs → dropCondition t cs = cs.
Proof.
  induction cs as [|x cs IH]; [done|]. rewrite fmap_cons, not_elem_of_cons. intros [Hx Hcs]. cbn [dropCondition].
  destruct (String.eqb_spec (c_Type x) t); [congruence|]. by rewrite IH.
Qed.

Lemma readyPackage_again pkg desired now now2 :
  unique_conditions pkg → readyPackage (readyPackage pkg desired now) desired now2 = readyPackage pkg desired now.
Proof.
  intros Hu. set (ready := readyPackage pkg desired now).
  assert (Status_Conditions (pkg_Status (readyPackage ready desired now2)) = Status_Conditions (pkg_Status ready)) as E.
  { set (c2 := condition ready "Ready" ConditionTrue "ResourcesApplied" "bb-common resources reconciled" now2).
    change (dropCondition "Reconciling" (dropCondition "Stalled" (upsertCondition c2 (Status_Conditions (pkg_Status ready)))) =
            Status_Conditions (pkg_Status ready)).
    assert (upsertCondition c2 (Status_Conditions (pkg_Status ready)) = Status_Conditions (pkg_Status ready)) as ->.
    { set (c := condition pkg "Ready" ConditionTrue "ResourcesApplied" "bb-common resources reconciled" now).
      apply (upsert_same _ _ (transition c (Status_Conditions (pkg_Status pkg)))).
      - by apply readyPackage_unique.
      - unfold ready, readyPackage. cbn [pkg_Status set_AppliedResources set_ObservedGeneration set_Status Status_Conditions].
        destruct (transition_type c (Status_Conditions (pkg_Status pkg))) as [Ht _].
        assert (NoDup (c_Type <$> upsertCondition c (Status_Conditions (pkg_Status pkg)))) as Hnd by by apply upsert_NoDup.
        apply drop_elem; [by apply (drop_NoDup "Stalled")|]. split; [|by rewrite Ht].
        apply drop_elem; [done|]. split; [|by rewrite Ht]. apply upsert_elem; [done|]. by right.
      - apply (transition_type c).
      - apply (transition_type c).
      - unfold transition. destruct (find _ _) as [e|]; [|done]. by destruct (decide _). }
    rewrite (drop_none "Stalled") by (apply (readyPackage_lacks pkg desired now); auto).
    apply drop_none. apply (readyPackage_lacks pkg desired now); auto. }
  transitivity (set_Conditions (Status_Conditions (pkg_Status (readyPackage ready desired now2))) ready); [reflexivity|].
  by rewrite E.
Qed.

(** C30: The three transitions follow the kstatus conventions, for every package
    with well-formed conditions: a package being processed has Reconciling=True;
    a failed one Ready=False and Stalled=True with the failure's reason, and no
    Reconciling; a ready one Ready=True and neither Stalled nor Reconciling. The
    last two record the generation they processed, and only success replaces the
    summary of applied resources. *)
Theorem transitions_kstatus pkg reason err desired now1 now2 (Hu : unique_conditions pkg) :
  let failed := failedPackage pkg reason err now1 now2 in
  let ready := readyPackage pkg desired now1 in
  unique_conditions failed ∧ unique_conditions ready ∧
  has_condition failed "Ready" ConditionFalse ∧ has_condition failed "Stalled" ConditionTrue ∧
  lacks_condition failed "Reconciling" ∧
  Status_ObservedGeneration (pkg_Status failed) = pkg_Generation pkg ∧
  Status_AppliedResources (pkg_Status failed) = Status_AppliedResources (pkg_Status pkg) ∧
  has_condition ready "Ready" ConditionTrue ∧ lacks_condition ready "Stalled" ∧ lacks_condition ready "Reconciling" ∧
  Status_ObservedGeneration (pkg_Status ready) = pkg_Generation pkg ∧
  Status_AppliedResources (pkg_Status ready) = summarize desired ∧
  (∀ t s, t ∉ ["Ready"; "Stalled"; "Reconciling"] →
     (has_condition failed t s ↔ has_condition pkg t s) ∧ (has_condition ready t s ↔ has_condition pkg t s)).
Proof.
  cbv zeta. split_and!; try done.
  - by apply failedPackage_unique.
  - by apply readyPackage_unique.
  - by apply has_failedPackage.
  - by apply has_failedPackage.
  - apply lacks_has. by intros s [? _]%has_failedPackage.
  - by apply has_readyPackage.
  - apply readyPackage_lacks; auto.
  - apply readyPackage_lacks; auto.
  - intros t s Ht. rewrite !not_elem_of_cons in Ht. destruct Ht as (? & ? & ? & _). split.
    + rewrite has_failedPackage, !decide_False by done. naive_solver.
    + rewrite has_readyPackage, decide_False by done. naive_solver.
Qed.

(** The summary lists exactly the resources of the objects, ordered by kind
    and then by name, and when no two share both it is the only list that does:
    the order in which the objects were generated and the choices of an unstable
    sort do not show. *)
Theorem summarize_correct objs :
  summarize objs ≡ₚ appliedResource <$> objs ∧
  StronglySorted resource_le (summarize objs) ∧
  (NoDup ((λ o, (Kind (o_GVK o), o_Name o)) <$> objs) →
   ∀ l, l ≡ₚ appliedResource <$> objs → StronglySorted resource_le l → l = summarize objs).
Proof.
  assert (summarize objs ≡ₚ appliedResource <$> objs) as Hperm by apply merge_sort_Permutation.
  assert (StronglySorted resource_le (summarize objs)) as Hsort
    by (apply Sorted_StronglySorted; [apply _|]; apply Sorted_merge_sort, _).
  split_and!; [done..|]. intros Hnd l Hl Hs.
  apply (StronglySorted_unique_strong resource_le); [|done..|by rewrite Hl, Hperm].
  intros x y Hx Hy Hxy Hyx. rewrite Hl in Hx. rewrite Hperm in Hy.
  apply list_elem_of_fmap in Hx as (o1 & -> & H1). apply list_elem_of_fmap in Hy as (o2 & -> & H2).
  rewrite !resource_le_spec in Hxy, Hyx. simpl in Hxy, Hyx.
  assert (Kind (o_GVK o1) = Kind (o_GVK o2) ∧ o_Name o1 = o_Name o2) as [Ek En].
  { destruct Hxy as [[E1 L1]|[E1 L1]], Hyx as [[E2 L2]|[E2 L2]]; try congruence.
    - split; [done|]. by apply (anti_symm String.le).
    - destruct E1. by apply (anti_symm String.le). }
  f_equal. apply (NoDup_key_inj _ _ o1 o2 Hnd); [done..|congruence].
Qed.
End StatusProperties.
