(* ===== verification/External.v ===== *)
(** * Code outside the repository: parameters of the model

    The source calls k8s.io/apimachinery, sigs.k8s.io/yaml, the Istio decoders
    and reflection-driven decoders of API types.  Their functions are the fields
    of the class [Ext]; what the theorems rely on is stated in the classes of
    laws, each the documented behaviour of one library. *)

From S2P Require Import Prelude GoStrings Json K8s ApiTypes.
Local Open Scope string_scope.

Class Ext := {
  (** k8s.io/apimachinery/pkg/util/intstr *)
  FromInt : Z → IntOrString;
  IntValue : IntOrString → Z;
  IntOrString_MarshalJSON : IntOrString → outcome json;
  IntOrString_UnmarshalJSON : json → outcome IntOrString;

  (** k8s.io/apimachinery/pkg/util/validation: the violations found *)
  IsDNS1123Label : string → list string;
  IsDNS1123Subdomain : string → list string;

  (** metav1.LabelSelectorAsSelector, whose selector the source discards *)
  LabelSelectorAsSelector : LabelSelector → outcome unit;

  (** Decoders of API types *)
  decode_NetworkPolicySpec : json → outcome NetworkPolicySpec;
  decode_EgressRules : json → outcome (list NetworkPolicyEgressRule);
  decode_IngressRules : json → outcome (list NetworkPolicyIngressRule);
  decode_ServiceEntry : json → outcome unit;
  decode_AuthorizationPolicy : json → outcome unit;
  decode_HTTPRoute : json → outcome unit;

  (** sigs.k8s.io/yaml *)
  JSONToYAML : string → outcome string;
  UnmarshalStrict_egressDefinitions : string → outcome (gomap NetworkPoliciesEgressDefinitionsValue);
  UnmarshalStrict_ingressDefinitions : string → outcome (gomap NetworkPoliciesIngressDefinitionsValue);
  UnmarshalStrict_routes : string → outcome (option RouteDefaults);
  UnmarshalStrict_gateways : string → outcome (gmap string (option LabelSelector * string))
}.

(** ** Laws *)

(** intstr: [FromInt] makes an integer of the value it is given, within 32 bits. *)
Class IntStrLaws `{Ext} : Prop := {
  FromInt_value v : (-2147483648 ≤ v < 2147483648)%Z →
    FromInt v = {| ios_Type := IntType; IntVal := v; StrVal := "" |};
  IntValue_int v s : IntValue {| ios_Type := IntType; IntVal := v; StrVal := s |} = v
}.

(** intstr: marshalling then unmarshalling a port gives it back.  The field the
    type does not select is the zero value, as every constructor leaves it. *)
Definition canonical (p : IntOrString) : Prop :=
  match ios_Type p with
  | IntType => StrVal p = "" ∧ (-2147483648 ≤ IntVal p < 2147483648)%Z
  | StringType => IntVal p = 0%Z
  end.
Class IntStrJsonLaws `{Ext} : Prop := {
  IntOrString_roundtrip p : canonical p →
    ∃ j, IntOrString_MarshalJSON p = Ok j ∧ j ≠ JNull ∧ IntOrString_UnmarshalJSON j = Ok p
}.

(** Library calls return: with a value or an error. *)
Class ExtReturns `{Ext} : Prop := {
  ret_IntOrString_MarshalJSON p : returns (IntOrString_MarshalJSON p);
  ret_IntOrString_UnmarshalJSON j : returns (IntOrString_UnmarshalJSON j);
  ret_LabelSelectorAsSelector s : returns (LabelSelectorAsSelector s);
  ret_NetworkPolicySpec j : returns (decode_NetworkPolicySpec j);
  ret_EgressRules j : returns (decode_EgressRules j);
  ret_IngressRules j : returns (decode_IngressRules j);
  ret_ServiceEntry j : returns (decode_ServiceEntry j);
  ret_AuthorizationPolicy j : returns (decode_AuthorizationPolicy j);
  ret_HTTPRoute j : returns (decode_HTTPRoute j);
  ret_JSONToYAML s : returns (JSONToYAML s)
}.
#[export] Hint Resolve ret_IntOrString_MarshalJSON ret_IntOrString_UnmarshalJSON
  ret_LabelSelectorAsSelector ret_NetworkPolicySpec ret_EgressRules ret_IngressRules
  ret_ServiceEntry ret_AuthorizationPolicy ret_HTTPRoute ret_JSONToYAML : go.

(** validation: what a DNS-1123 label or subdomain may hold, and that neither is empty. *)
Definition is_dns_char (c : ascii) : bool := is_lower c || is_digit c || Ascii.eqb c "-".
Class DNSLaws `{Ext} : Prop := {
  label_chars s : IsDNS1123Label s = [] → s ≠ "" ∧ str_forall is_dns_char s = true;
  subdomain_chars s : IsDNS1123Subdomain s = [] →
    s ≠ "" ∧ str_forall (λ c, is_dns_char c || Ascii.eqb c ".") s = true
}.

(** ** A concrete instance, for examples

    Decoders that accept every document of the right shape and read none of its
    members, integers as the library's own struct, labels checked by their
    characters. *)
Definition demo_IntOrString_marshal (p : IntOrString) : outcome json :=
  match ios_Type p with
  | IntType => Ok (JNum (Itoa (IntVal p)))
  | StringType => Ok (JStr (StrVal p))
  end.
Definition demo_IntOrString_unmarshal (j : json) : outcome IntOrString :=
  match j with
  | JStr s => Ok {| ios_Type := StringType; IntVal := 0; StrVal := s |}
  | _ => z ← dec_int32 j; Ok {| ios_Type := IntType; IntVal := z; StrVal := "" |}
  end.
Definition demo_object (j : json) : outcome unit :=
  match j with JObj _ | JNull => Ok tt | _ => Err JsonError end.

#[export] Instance demo_ext : Ext := {
  FromInt v := {| ios_Type := IntType; IntVal := int32_wrap v; StrVal := "" |};
  IntValue p := match ios_Type p with IntType => IntVal p | StringType => default 0%Z (Atoi (StrVal p)) end;
  IntOrString_MarshalJSON := demo_IntOrString_marshal;
  IntOrString_UnmarshalJSON := demo_IntOrString_unmarshal;
  IsDNS1123Label s := if String.eqb s "" || negb (str_forall is_dns_char s) then ["invalid"] else [];
  IsDNS1123Subdomain s :=
    if String.eqb s "" || negb (str_forall (λ c, is_dns_char c || Ascii.eqb c ".") s) then ["invalid"] else [];
  LabelSelectorAsSelector _ := Ok tt;
  decode_NetworkPolicySpec j := _ ← demo_object j; Ok emptyNetworkPolicySpec;
  decode_EgressRules j := match j with JArr l => Ok ((λ _, {| er_Ports := []; er_To := [] |}) <$> l) | JNull => Ok [] | _ => Err JsonError end;
  decode_IngressRules j := match j with JArr l => Ok ((λ _, {| ir_Ports := []; ir_From := [] |}) <$> l) | JNull => Ok [] | _ => Err JsonError end;
  decode_ServiceEntry := demo_object;
  decode_AuthorizationPolicy := demo_object;
  decode_HTTPRoute := demo_object;
  JSONToYAML s := Ok s;
  UnmarshalStrict_egressDefinitions _ := Ok (Some ∅);
  UnmarshalStrict_ingressDefinitions _ := Ok (Some ∅);
  UnmarshalStrict_routes _ := Ok None;
  UnmarshalStrict_gateways _ := Ok ∅
}.

#[export] Instance demo_IntStrLaws : IntStrLaws.
Proof. split; simpl; [|done]. intros v Hv. by rewrite int32_wrap_id. Defined.

#[export] Instance demo_IntStrJsonLaws : IntStrJsonLaws.
Proof.
  split. intros [t v s]. unfold canonical. destruct t; simpl.
  - intros [-> Hv]. exists (JNum (Itoa v)). split_and!; [done|done|].
    unfold demo_IntOrString_unmarshal, dec_int32, dec_int.
    rewrite Atoi_Itoa_int64 by (unfold MinInt64, MaxInt64; lia). simpl.
    destruct (Z.leb_spec (-2147483648) v); [|lia]. by destruct (Z.leb_spec v 2147483647); [|lia].
  - intros ->. by exists (JStr s).
Defined.

#[export] Instance demo_ExtReturns : ExtReturns.
Proof.
  split; simpl; try done.
  - intros p. unfold demo_IntOrString_marshal. by destruct (ios_Type p).
  - intros j. unfold demo_IntOrString_unmarshal, dec_int32, dec_int.
    destruct j as [| |lit| | |]; try done. destruct (Atoi lit); [|done]. simpl. by case_match.
  - by intros [].
  - by intros [].
  - by intros [].
  - by intros [].
  - by intros [].
  - by intros [].
Defined.

#[export] Instance demo_DNSLaws : DNSLaws.
Proof.
  split; simpl; intros s; destruct (String.eqb_spec s ""); simpl; [done| |done|];
    case_match eqn:E; try done; intros _; by apply negb_false_iff in E.
Defined.

(** A package named "app" in namespace "apps", and a raw value holding a document. *)
Definition demo_spec : PackageSpec := {| Spec_Istio := None; Spec_NetworkPolicies := None; Spec_Routes := None |}.
Definition demo_package (spec : PackageSpec) : Package :=
  {| pkg_Meta := set_Namespace "apps" (newMeta "app" None None);
     pkg_Spec := spec;
     pkg_Status := {| Status_ObservedGeneration := 0; Status_Conditions := []; Status_AppliedResources := [] |} |}.
Definition demo_raw (j : json) : JSON := {| Raw := json_print j |}.
