(* ===== verification/Names.v ===== *)
(** * util.go and names.go: key order and resource names *)

From S2P Require Import Prelude GoStrings.
Local Open Scope string_scope.

(** ** util.go *)

(** The keys of a map, collected in the map's own order and then sorted. *)
Definition sortedKeys {V} (m : gmap string V) : list string :=
  sort_Strings (map_to_list m).*1.

(** [for _, k := range sortedKeys(m) { v := m[k]; ... }] *)
Definition for_sorted {V B} (m : gmap string V) (f : string → V → outcome (list B)) : outcome (list B) :=
  collect (λ k, match m !! k with Some v => f k v | None => Ok [] end) (sortedKeys m).

(** ** names.go *)

Definition cidrAnywhere : string := "0.0.0.0/0".
Definition nameAnyPod : string := "any-pod".

Definition prependName (prepend : bool) (releaseName name : string) : string :=
  if negb prepend then name else releaseName +:+ "-" +:+ name.

Definition cidrNameSegment (cidr : string) : string :=
  let out := ReplaceAllByte cidr "." "-" in
  ReplaceAllByte out "/" "-".

(** The loop that writes "-<port>" for every port. *)
Fixpoint writePorts (ports : list Z) : string :=
  match ports with
  | [] => ""
  | p :: ports => "-" +:+ Itoa p +:+ writePorts ports
  end.

Definition namePortSuffix (ports : list Z) (hasRange : bool) : outcome string :=
  if (length ports =? 0)%nat then Ok "any-port"
  else if hasRange then
    p0 ← index ports 0;
    p1 ← index ports 1;
    Ok ("ports-" +:+ Itoa p0 +:+ "-thru-" +:+ Itoa p1)
  else
    let prefix := if (1 <? length ports)%nat then "ports" else "port" in
    Ok (prefix +:+ writePorts ports).

(** ** Key order *)

Lemma sortedKeys_elem {V} (m : gmap string V) k : k ∈ sortedKeys m ↔ is_Some (m !! k).
Proof.
  unfold sortedKeys. rewrite sort_Strings_perm, list_elem_of_fmap. split.
  - intros ([k' v] & -> & Hkv%elem_of_map_to_list). by eexists.
  - intros [v Hv]. exists (k, v). by rewrite elem_of_map_to_list.
Qed.

Lemma sortedKeys_NoDup {V} (m : gmap string V) : NoDup (sortedKeys m).
Proof. unfold sortedKeys. rewrite sort_Strings_perm. apply NoDup_fst_map_to_list. Qed.

Lemma sortedKeys_sorted {V} (m : gmap string V) : Sorted String.le (sortedKeys m).
Proof. apply sort_Strings_sorted. Qed.

Lemma sortedKeys_empty {V} : sortedKeys (∅ : gmap string V) = [].
Proof. unfold sortedKeys. by rewrite map_to_list_empty. Qed.

Lemma for_sorted_elem {V B} (m : gmap string V) (f : string → V → outcome (list B)) out y :
  for_sorted m f = Ok out → y ∈ out ↔ ∃ k v ys, m !! k = Some v ∧ f k v = Ok ys ∧ y ∈ ys.
Proof.
  intros Hout. rewrite (collect_elem_of _ _ _ _ Hout). split.
  - intros (k & ys & [v Hv]%sortedKeys_elem & Hf & Hy). rewrite Hv in Hf. by exists k, v, ys.
  - intros (k & v & ys & Hv & Hf & Hy). exists k, ys. rewrite sortedKeys_elem, Hv. by eauto.
Qed.

(** A loop that succeeded ran its body successfully on every entry. *)
Lemma for_sorted_body {V B} (m : gmap string V) (f : string → V → outcome (list B)) out k v :
  for_sorted m f = Ok out → m !! k = Some v → is_Ok (f k v).
Proof.
  intros (yss & Hall & _)%collect_Ok Hk. assert (k ∈ sortedKeys m) as Hin by (apply sortedKeys_elem; eauto).
  apply list_elem_of_lookup in Hin as [i Hi].
  destruct (Forall2_lookup_l _ _ _ _ _ Hall Hi) as (ys & _ & Hys). rewrite Hk in Hys. by exists ys.
Qed.

Lemma for_sorted_Forall {V B} (P : B → Prop) (m : gmap string V) (f : string → V → outcome (list B)) out :
  for_sorted m f = Ok out → (∀ k v ys, m !! k = Some v → f k v = Ok ys → Forall P ys) → Forall P out.
Proof.
  intros Hout Hf. eapply collect_Forall; [done|]. intros k ys [v Hv]%sortedKeys_elem. rewrite Hv. by apply Hf.
Qed.

Lemma for_sorted_returns {V B} (m : gmap string V) (f : string → V → outcome (list B)) :
  (∀ k v, m !! k = Some v → returns (f k v)) → returns (for_sorted m f).
Proof.
  intros Hf. apply collect_returns. intros k [v Hv]%sortedKeys_elem. rewrite Hv. by apply Hf.
Qed.

(** ** Names *)

Lemma prependName_true r n : prependName true r n = r +:+ "-" +:+ n.
Proof. done. Qed.
Lemma prependName_inj p r n1 n2 : prependName p r n1 = prependName p r n2 → n1 = n2.
Proof.
  destruct p; simpl; [|done]. intros H.
  apply str_app_eq_same_len in H as [_ H]; [|done].
  by apply str_app_eq_same_len in H as [_ H].
Qed.

(** The text after a run of digits that starts with another byte is unique. *)
Lemma digits_split a b x y c d :
  str_forall is_digit a = true → str_forall is_digit b = true →
  is_digit c = false → is_digit d = false →
  a +:+ String c x = b +:+ String d y → a = b ∧ String c x = String d y.
Proof.
  revert b. induction a as [|e a IH]; intros [|f b] Ha Hb Hc Hd H; simpl in Ha, Hb.
  - done.
  - rewrite str_app_nil, str_app_cons in H. simplify_eq. apply andb_true_iff in Hb as [? _]. congruence.
  - rewrite str_app_nil, str_app_cons in H. simplify_eq. apply andb_true_iff in Ha as [? _]. congruence.
  - rewrite !str_app_cons in H. injection H as -> H. apply andb_true_iff in Ha as [_ Ha]. apply andb_true_iff in Hb as [_ Hb].
    destruct (IH b Ha Hb Hc Hd H) as [-> ?]. done.
Qed.

Lemma writePorts_inj ps qs :
  Forall (λ p, 0 ≤ p)%Z ps → Forall (λ p, 0 ≤ p)%Z qs → writePorts ps = writePorts qs → ps = qs.
Proof.
  intros Hps. revert qs. induction Hps as [|p ps Hp Hps IH]; intros qs Hqs; destruct Hqs as [|q qs Hq Hqs]; simpl; [done..|].
  rewrite !(str_app_cons "-"), !str_app_nil. intros [= H].
  assert (∀ l, writePorts l = "" ∨ ∃ t, writePorts l = String "-" t) as Hw.
  { intros [|z l]; [by left|right]. by eexists. }
  destruct (Hw ps) as [E1|[t1 E1]], (Hw qs) as [E2|[t2 E2]]; rewrite E1, E2 in H.
  - rewrite !str_app_nil_r in H. f_equal; [by apply Itoa_inj_nonneg|].
    apply IH; [done|congruence].
  - exfalso. rewrite str_app_nil_r in H. pose proof (Itoa_digits p Hp) as Hd.
    rewrite H, str_forall_app in Hd. simpl in Hd. by rewrite andb_false_r in Hd.
  - exfalso. rewrite str_app_nil_r in H. pose proof (Itoa_digits q Hq) as Hd.
    rewrite <-H, str_forall_app in Hd. simpl in Hd. by rewrite andb_false_r in Hd.
  - apply digits_split in H as [Hpq Ht]; [|by apply Itoa_digits..|done|done].
    f_equal; [by apply Itoa_inj_nonneg|]. apply IH; [done|congruence].
Qed.

(** A port list as the parsers build it: a range has two ports, all non-negative. *)
Definition ports_ok (ports : list Z) (hasRange : bool) : Prop :=
  Forall (λ p, 0 ≤ p)%Z ports ∧ (hasRange = true → length ports = 2).

Lemma namePortSuffix_returns ports hasRange :
  (hasRange = true → length ports = 2) → is_Ok (namePortSuffix ports hasRange).
Proof.
  intros Hr. unfold namePortSuffix. destruct ports as [|p [|q ps]]; simpl; [by eexists| |].
  - destruct hasRange; [by specialize (Hr eq_refl)|by eexists].
  - destruct hasRange; by eexists.
Qed.

Lemma str_app_inj_l a b c : a +:+ b = a +:+ c → b = c.
Proof. by intros [_ H]%str_app_eq_same_len. Qed.

(** The suffix of a range is not the suffix of a list. *)
Lemma range_suffix_not_list a b l :
  (0 ≤ a)%Z → Forall (λ p, 0 ≤ p)%Z l →
  "-" +:+ Itoa a +:+ "-thru-" +:+ Itoa b ≠ writePorts l.
Proof.
  intros Ha Hl H. destruct Hl as [|p l Hp Hl]; simpl in H; [done|].
  apply str_app_inj_l in H.
  assert (writePorts l = "" ∨ ∃ q l', 0 ≤ q ∧ writePorts l = String "-" (Itoa q +:+ writePorts l'))%Z as [E|(q & l' & Hq & E)].
  { destruct Hl as [|q l' Hq Hl]; [by left|right]. exists q, l'. done. }
  - rewrite E, str_app_nil_r in H. pose proof (Itoa_digits p Hp) as Hd.
    rewrite <-H, str_forall_app in Hd. simpl in Hd. by rewrite andb_false_r in Hd.
  - rewrite E in H. change ("-thru-" +:+ Itoa b) with (String "-" ("thru-" +:+ Itoa b)) in H.
    apply digits_split in H as [_ H]; [|by apply Itoa_digits..|done|done].
    injection H as H. pose proof (Itoa_digits q Hq) as Hd. pose proof (Itoa_nonempty q) as Hne.
    destruct (Itoa q) as [|d t]; [done|]. rewrite str_app_cons in H. injection H as <- _. by vm_compute in Hd.
Qed.

(** Two port specifications with the same suffix are the same. *)
Lemma namePortSuffix_inj ps r qs t n :
  ports_ok ps r → ports_ok qs t → namePortSuffix ps r = Ok n → namePortSuffix qs t = Ok n →
  ps = qs ∧ r = t.
Proof.
  intros [Hps Hr] [Hqs Ht]. unfold namePortSuffix.
  assert (∀ (l : list Z) (b : bool), (b = true → length l = 2) → l = [] → b = false) as Hnil.
  { intros l [] H ->; [by specialize (H eq_refl)|done]. }
  destruct ps as [|p0 ps], qs as [|q0 qs]; simpl.
  - intros _ _. rewrite (Hnil _ _ Hr), (Hnil _ _ Ht); done.
  - intros [= <-]. destruct t; [destruct (index _ 1)|destruct qs]; simpl; try done.
  - intros H [= <-]. revert H. destruct r; [destruct (index _ 1)|destruct ps]; simpl; try done.
  - inversion Hps as [|? ? Hp0 Hps']; subst. inversion Hqs as [|? ? Hq0 Hqs']; subst.
    destruct r, t.
    + destruct ps as [|p1 [|]]; [by specialize (Hr eq_refl)| |by specialize (Hr eq_refl)].
      destruct qs as [|q1 [|]]; [by specialize (Ht eq_refl)| |by specialize (Ht eq_refl)].
      simpl. intros [= <-] [= H]. apply str_app_inj_l in H.
      inversion Hps' as [|? ? Hp1 _]; inversion Hqs' as [|? ? Hq1 _]; subst.
      apply (digits_split (Itoa q0) (Itoa p0) ("thru-" +:+ Itoa q1) ("thru-" +:+ Itoa p1)) in H as [H0 H1];
        [|by apply Itoa_digits..|done|done].
      injection H1 as H1. apply str_app_inj_l in H1.
      apply Itoa_inj_nonneg in H0; [|done..]. apply Itoa_inj_nonneg in H1; [|done..]. by subst.
    + destruct ps as [|p1 [|]]; [by specialize (Hr eq_refl)| |by specialize (Hr eq_refl)].
      simpl. intros [= <-] [= H]. exfalso.
      destruct qs as [|q1 qs]; simpl in H; [done|].
      change ("ports" +:+ writePorts (q0 :: q1 :: qs) = "ports" +:+ ("-" +:+ Itoa p0 +:+ "-thru-" +:+ Itoa p1)) in H.
      apply str_app_inj_l in H. symmetry in H. by apply range_suffix_not_list in H.
    + destruct qs as [|q1 [|]]; [by specialize (Ht eq_refl)| |by specialize (Ht eq_refl)].
      simpl. intros [= <-] [= H]. exfalso.
      destruct ps as [|p1 ps]; simpl in H; [done|].
      change ("ports" +:+ ("-" +:+ Itoa q0 +:+ "-thru-" +:+ Itoa q1) = "ports" +:+ writePorts (p0 :: p1 :: ps)) in H.
      apply str_app_inj_l in H. by apply range_suffix_not_list in H.
    + destruct ps as [|p1 ps], qs as [|q1 qs]; intros [= <-] H; try done.
      * apply (inj Ok), str_app_inj_l, (writePorts_inj [q0] [p0]) in H; [by rewrite H|done..].
      * apply (inj Ok), str_app_inj_l, (writePorts_inj (q0 :: q1 :: qs) (p0 :: p1 :: ps)) in H; [by rewrite H|done..].
Qed.
