(* ===== verification/ShorthandKeys.v ===== *)
(** * shorthand.go, first half: the grammar of shorthand map keys

    The five patterns, the four key parsers and [parsePortSpec], then the
    shapes of the keys the patterns accept and what the parsers make of them. *)

From S2P Require Import Prelude GoStrings Regex Names.
Local Open Scope string_scope.

Definition protoTCP : string := "TCP".

Record parsedK8sRemote := {
  remote_Namespace : string;
  remote_Pod : string;
  remote_Identity : string;
  remote_Protocol : string;
  remote_Ports : list Z;
  remote_HasPortRange : bool
}.
Record parsedLocalIngressKey := {
  local_Pod : string;
  local_Protocol : string;
  local_Ports : list Z;
  local_HasPortRange : bool
}.
Record parsedCIDR := {
  cidr_CIDR : string;
  cidr_Protocol : string;
  cidr_Ports : list Z;
  cidr_HasPortRange : bool
}.

(** ** The patterns *)

(** The classes A-Za-z0-9-, \d and \w-. *)
Definition name_char (c : ascii) : bool := is_alnum c || Ascii.eqb c "-".
Definition word_char (c : ascii) : bool := is_alnum c || Ascii.eqb c "_" || Ascii.eqb c "-".
Definition digits_re : regex := RPlus (RCls is_digit).
Definition name_re : regex := RPlus (RCls name_char).

(** The optional protocol: tcp:// or udp://. *)
Definition proto_re : regex := ROpt (RCat (RAlt (RLit "tcp") (RLit "udp")) (RLit "://")).
(** A name of class A-Za-z0-9-, or a star. *)
Definition name_or_star_re : regex := RAlt name_re (RChr "*").
(** An optional slash followed by a name or a star. *)
Definition pod_re : regex := ROpt (RCat (RChr "/") name_or_star_re).
(** Digits, a dash, digits. *)
Definition range_re : regex := RCat digits_re (RCat (RChr "-") digits_re).
(** Comma-separated digits, each bracket optional on its own. *)
Definition list_re : regex :=
  RCat (ROpt (RChr "[")) (RCat digits_re (RCat (RStar (RCat (RChr ",") digits_re)) (ROpt (RChr "]")))).
(** An optional colon and one of the three port forms, in the order each
    pattern writes them. *)
Definition ports_re : regex := ROpt (RCat (RChr ":") (RAlt digits_re (RAlt range_re list_re))).
Definition local_ports_re : regex := ROpt (RCat (RChr ":") (RAlt list_re (RAlt digits_re range_re))).
(** Three dotted digit groups, a fourth, a slash and digits. *)
Definition cidr_re : regex :=
  RCat (RTimes 3 (RCat digits_re (RChr "."))) (RCat digits_re (RCat (RChr "/") digits_re)).

Definition egressRemoteKeyRe : regex :=
  RCat proto_re (RCat name_or_star_re (RCat pod_re ports_re)).
Definition ingressRemoteKeyRe : regex :=
  RCat (ROpt (RCat name_re (RChr "@"))) (RCat name_or_star_re pod_re).
Definition ingressLocalKeyRe : regex :=
  RCat proto_re (RCat (RPlus (RCls word_char)) local_ports_re).
Definition egressCIDRKeyRe : regex := RCat proto_re (RCat cidr_re ports_re).
Definition ingressCIDRKeyRe : regex := cidr_re.

(** ** The parsers *)

Definition parsePortSpec (s : string) : outcome (list Z * bool) :=
  let s := TrimSpace s in
  let s := TrimPrefix s "[" in
  let s := TrimSuffix s "]" in
  let i := Index s "-" in
  if (0 <=? i)%Z then
    match Atoi (str_take (Z.to_nat i) s), Atoi (str_drop (Z.to_nat i + 1) s) with
    | Some a, Some b => Ok ([a; b], true)
    | _, _ => Err (Errorf ("bad port range " +:+ Quote s))
    end
  else
    let parts := SplitByte s "," in
    out ← traverse (λ p, match Atoi (TrimSpace p) with
                         | Some n => Ok n
                         | None => Err (Errorf ("bad port " +:+ Quote p))
                         end) parts;
    Ok (out, false).

Definition mismatch (what key grammar : string) : error :=
  Errorf (what +:+ " " +:+ Quote key +:+ " does not match `" +:+ grammar +:+ "`").

(** The protocol prefix, shared by three parsers: [Protocol] and the rest. *)
Definition split_proto (key : string) : string * string :=
  let i := Index key "://" in
  if (0 <=? i)%Z then (ToUpper (str_take (Z.to_nat i) key), str_drop (Z.to_nat i + 3) key)
  else (protoTCP, key).

(** The ports after the first ':', shared by two parsers. *)
Definition split_ports (rest : string) : outcome (list Z * bool * string) :=
  let i := Index rest ":" in
  if (0 <=? i)%Z then
    '(ports, hasRange) ← parsePortSpec (str_drop (Z.to_nat i + 1) rest);
    Ok (ports, hasRange, str_take (Z.to_nat i) rest)
  else Ok ([], false, rest).

(** [<namespace>[/<pod>]] *)
Definition split_pod (rest : string) : string * string :=
  let i := Index rest "/" in
  if (0 <=? i)%Z then (str_take (Z.to_nat i) rest, str_drop (Z.to_nat i + 1) rest)
  else (rest, "").

Definition parseEgressRemoteKey (key : string) : outcome parsedK8sRemote :=
  if negb (MatchString egressRemoteKeyRe key)
  then Err (mismatch "egress k8s key" key "[<tcp|udp>://]<ns>[/<pod>][:<ports>]")
  else
    let '(proto, rest) := split_proto key in
    '(ports, hasRange, rest) ← split_ports rest;
    let '(ns, pod) := split_pod rest in
    Ok {| remote_Namespace := ns; remote_Pod := pod; remote_Identity := "";
          remote_Protocol := proto; remote_Ports := ports; remote_HasPortRange := hasRange |}.

Definition parseIngressRemoteKey (key : string) : outcome parsedK8sRemote :=
  if negb (MatchString ingressRemoteKeyRe key)
  then Err (mismatch "ingress k8s key" key "[<identity>@]<ns>[/<pod>]")
  else
    let i := Index key "@" in
    let '(identity, rest) :=
      if (0 <=? i)%Z then (str_take (Z.to_nat i) key, str_drop (Z.to_nat i + 1) key) else ("", key) in
    let '(ns, pod) := split_pod rest in
    Ok {| remote_Namespace := ns; remote_Pod := pod; remote_Identity := identity;
          remote_Protocol := protoTCP; remote_Ports := []; remote_HasPortRange := false |}.

Definition parseIngressLocalKey (key : string) : outcome parsedLocalIngressKey :=
  if negb (MatchString ingressLocalKeyRe key)
  then Err (mismatch "ingress local key" key "[<udp|tcp>://]<pod-name>[:<ports>]")
  else
    let '(proto, rest) := split_proto key in
    '(ports, hasRange, rest) ← split_ports rest;
    Ok {| local_Pod := rest; local_Protocol := proto; local_Ports := ports; local_HasPortRange := hasRange |}.

Definition parseEgressCIDRKey (key : string) : outcome parsedCIDR :=
  if negb (MatchString egressCIDRKeyRe key)
  then Err (mismatch "egress cidr key" key "[<tcp|udp>://]<cidr>[:<ports>]")
  else
    let '(proto, rest) := split_proto key in
    let i := LastIndexByte rest ":" in
    '(ports, hasRange, rest) ←
      (if (LastIndexByte rest "/" <? i)%Z then
         '(ports, hasRange) ← parsePortSpec (str_drop (Z.to_nat i + 1) rest);
         Ok (ports, hasRange, str_take (Z.to_nat i) rest)
       else Ok ([], false, rest));
    Ok {| cidr_CIDR := rest; cidr_Protocol := proto; cidr_Ports := ports; cidr_HasPortRange := hasRange |}.

Definition parseIngressCIDRKey (key : string) : outcome parsedCIDR :=
  if negb (MatchString ingressCIDRKeyRe key)
  then Err (mismatch "ingress cidr key" key "<cidr>")
  else Ok {| cidr_CIDR := key; cidr_Protocol := protoTCP; cidr_Ports := []; cidr_HasPortRange := false |}.

(** ** The texts the patterns describe

    An independent description of the grammar: a key is rendered from its
    parts, and the parsers are shown to invert the rendering. *)

Definition digits (s : string) : Prop := s ≠ "" ∧ str_forall is_digit s = true.

(** [a-b], or a list with optional brackets; one number is a list of one. *)
Inductive port_text :=
  | PTRange (a b : string)
  | PTList (bra : bool) (ds : list string) (ket : bool).

Definition pt_ok (t : port_text) : Prop :=
  match t with
  | PTRange a b => digits a ∧ digits b
  | PTList _ ds _ => ds ≠ [] ∧ Forall digits ds
  end.

Definition pt_text (t : port_text) : string :=
  match t with
  | PTRange a b => a +:+ String "-" b
  | PTList bra ds ket => (if bra then "[" else "") +:+ (JoinByte ds "," +:+ (if ket then "]" else ""))
  end.

(** The ports a text denotes; [None] when one of them overflows [int]. *)
Definition pt_value (t : port_text) : option (list Z * bool) :=
  match t with
  | PTRange a b => x ← Atoi a; y ← Atoi b; Some ([x; y], true)
  | PTList _ ds _ => zs ← mapM Atoi ds; Some (zs, false)
  end.

Definition colon_text (t : option port_text) : string :=
  match t with None => "" | Some t => String ":" (pt_text t) end.
Definition colon_value (t : option port_text) : option (list Z * bool) :=
  match t with None => Some ([], false) | Some t => pt_value t end.
Definition colon_ok (t : option port_text) : Prop :=
  match t with None => True | Some t => pt_ok t end.

Inductive proto_text := NoProto | TcpProto | UdpProto.
Definition proto_render (p : proto_text) : string :=
  match p with NoProto => "" | TcpProto => "tcp://" | UdpProto => "udp://" end.
Definition proto_value (p : proto_text) : string :=
  match p with UdpProto => "UDP" | _ => "TCP" end.

Definition name_text (s : string) : Prop := s ≠ "" ∧ str_forall name_char s = true.
Definition name_or_star (s : string) : Prop := name_text s ∨ s = "*".
Definition pod_text (pod : option string) : string :=
  match pod with None => "" | Some p => String "/" p end.
Definition pod_ok (pod : option string) : Prop :=
  match pod with None => True | Some p => name_or_star p end.

Example parse_range : parseEgressRemoteKey "udp://other-ns/*:8000-9000" =
  Ok {| remote_Namespace := "other-ns"; remote_Pod := "*"; remote_Identity := ""; remote_Protocol := "UDP";
        remote_Ports := [8000; 9000]%Z; remote_HasPortRange := true |}.
Proof. vm_compute. reflexivity. Qed.
Example parse_list : parsePortSpec "[6379,6380]" = Ok ([6379; 6380]%Z, false).
Proof. vm_compute. reflexivity. Qed.
Example parse_cidr : parseEgressCIDRKey "10.0.0.0/8:443" =
  Ok {| cidr_CIDR := "10.0.0.0/8"; cidr_Protocol := "TCP"; cidr_Ports := [443]%Z; cidr_HasPortRange := false |}.
Proof. vm_compute. reflexivity. Qed.

(** ** Port texts *)

Lemma digits_re_spec s : matches digits_re s ↔ digits s.
Proof. apply m_plus_cls_inv. Qed.

Lemma digits_lacks c s : is_digit c = false → digits s → lacks c s.
Proof. intros Hc [_ Hs]. by apply (class_lacks is_digit). Qed.

Lemma comma_star_spec s :
  matches (RStar (RCat (RChr ",") digits_re)) s ↔
  ∃ ds, Forall digits ds ∧ s = foldr (λ d t, String "," (d +:+ t)) "" ds.
Proof.
  split.
  - remember (RStar _) as q eqn:Eq. intros H.
    induction H as [| | | | | |r s1 s2 H1 _ H2 IH2]; simplify_eq; [by exists []|].
    destruct IH2 as (ds & Hds & ->); [done|].
    apply m_cat_inv in H1 as (? & d & -> & ->%m_chr_inv & Hd%digits_re_spec).
    exists (d :: ds). split; [by constructor|]. done.
  - intros (ds & Hds & ->). induction Hds as [|d ds Hd Hds IH]; [constructor|].
    change (matches (RStar (RCat (RChr ",") digits_re)) (String "," (d +:+ foldr (λ d t, String "," (d +:+ t)) "" ds))).
    rewrite <-str_app_cons. constructor; [|done].
    apply m_cat_inv. exists ",", d. rewrite m_chr_inv, digits_re_spec. done.
Qed.

Lemma JoinByte_fold d ds : JoinByte (d :: ds) "," = d +:+ foldr (λ d t, String "," (d +:+ t)) "" ds.
Proof.
  revert d. induction ds as [|e ds IH]; intros d; [by rewrite str_app_nil_r|].
  change (d +:+ String "," (JoinByte (e :: ds) ",") = d +:+ foldr (λ d t, String "," (d +:+ t)) "" (e :: ds)).
  by rewrite IH.
Qed.

Lemma opt_chr_spec c s : matches (ROpt (RChr c)) s ↔ ∃ b : bool, s = if b then String c "" else "".
Proof.
  rewrite m_opt_inv, m_chr_inv. split; [intros [->| ->]; [by exists true|by exists false]|].
  intros [[] ->]; auto.
Qed.

Lemma list_re_spec s : matches list_re s ↔ ∃ bra ds ket, pt_ok (PTList bra ds ket) ∧ s = pt_text (PTList bra ds ket).
Proof.
  split.
  - intros (s1 & ? & -> & [bra ->]%opt_chr_spec & (d & ? & -> & Hd%digits_re_spec &
      (? & s5 & -> & (ds & Hds & ->)%comma_star_spec & [ket ->]%opt_chr_spec)%m_cat_inv)%m_cat_inv)%m_cat_inv.
    exists bra, (d :: ds), ket. split; [split; [done|by constructor]|].
    unfold pt_text. by rewrite JoinByte_fold, <-!str_app_assoc.
  - intros (bra & ds & ket & [Hne Hds] & ->). destruct Hds as [|d ds Hd Hds]; [done|].
    unfold pt_text. rewrite JoinByte_fold, <-!str_app_assoc.
    constructor; [apply opt_chr_spec; eauto|]. constructor; [by apply digits_re_spec|].
    constructor; [apply comma_star_spec; eauto|apply opt_chr_spec; eauto].
Qed.

Lemma range_re_spec s : matches range_re s ↔ ∃ a b, pt_ok (PTRange a b) ∧ s = pt_text (PTRange a b).
Proof.
  split.
  - intros (a & ? & -> & Ha%digits_re_spec & (? & b & -> & ->%m_chr_inv & Hb%digits_re_spec)%m_cat_inv)%m_cat_inv.
    by exists a, b.
  - intros (a & b & [Ha Hb] & ->). constructor; [by apply digits_re_spec|].
    apply (m_cat _ _ "-" b); [by apply m_chr_inv|by apply digits_re_spec].
Qed.

Lemma port_text_spec s :
  matches digits_re s ∨ matches range_re s ∨ matches list_re s ↔ ∃ t, pt_ok t ∧ s = pt_text t.
Proof.
  rewrite digits_re_spec, range_re_spec, list_re_spec. split.
  - intros [Hd|[(a & b & ? & ->)|(bra & ds & ket & ? & ->)]]; [|eauto..].
    exists (PTList false [s] false). split; [split; [done|by constructor]|].
    simpl. by rewrite str_app_nil_r.
  - intros ([a b|bra ds ket] & H & ->); right; [left|right]; eauto.
Qed.

Lemma ports_re_spec s : matches ports_re s ↔ ∃ t, colon_ok t ∧ s = colon_text t.
Proof.
  unfold ports_re. rewrite m_opt_inv. split.
  - intros [(? & ? & -> & ->%m_chr_inv & Ht)%m_cat_inv| ->]; [|by exists None].
    rewrite !m_alt_inv, port_text_spec in Ht. destruct Ht as (t & Ht & ->). by exists (Some t).
  - intros ([t|] & Ht & ->); [left|by right].
    apply (m_cat _ _ ":" (pt_text t)); [by apply m_chr_inv|].
    rewrite !m_alt_inv, port_text_spec. eauto.
Qed.

Lemma local_ports_re_spec s : matches local_ports_re s ↔ ∃ t, colon_ok t ∧ s = colon_text t.
Proof.
  rewrite <-ports_re_spec. unfold ports_re, local_ports_re. rewrite !m_opt_inv, !m_cat_inv.
  assert (∀ t, matches (RAlt list_re (RAlt digits_re range_re)) t ↔ matches (RAlt digits_re (RAlt range_re list_re)) t) as H.
  { intros t. rewrite !m_alt_inv. tauto. }
  by setoid_rewrite H.
Qed.

(** What [parsePortSpec] makes of a port text: its value. *)
Lemma TrimSpace_digits d : digits d → TrimSpace d = d.
Proof.
  intros [_ Hd]. apply TrimSpace_none. revert Hd. apply str_forall_impl.
  intros c Hc. unfold is_digit, in_range in Hc. unfold is_white.
  change (code "0") with 48%N in Hc. change (code "9") with 57%N in Hc.
  apply andb_true_iff in Hc as [?%N.leb_le ?%N.leb_le].
  apply negb_true_iff, orb_false_iff. split; [by apply N.eqb_neq; lia|].
  apply andb_false_iff. right. apply N.leb_gt. lia.
Qed.

(** The characters of a port text. *)
Definition port_char (c : ascii) : bool :=
  is_digit c || Ascii.eqb c "-" || Ascii.eqb c "," || Ascii.eqb c "[" || Ascii.eqb c "]".

Lemma digits_forall p d : (∀ c, is_digit c = true → p c = true) → digits d → str_forall p d = true.
Proof. intros Hp [_ Hd]. by apply (str_forall_impl is_digit). Qed.

Lemma pt_text_chars t : pt_ok t → str_forall port_char (pt_text t) = true.
Proof.
  assert (∀ c, is_digit c = true → port_char c = true) as Hdc.
  { intros c Hc. unfold port_char. by rewrite Hc. }
  destruct t as [a b|bra ds ket]; simpl.
  - intros [Ha Hb]. rewrite str_forall_app, (digits_forall _ _ Hdc Ha). simpl. by apply digits_forall.
  - intros [_ Hds]. rewrite !str_forall_app.
    assert (str_forall port_char (JoinByte ds ",") = true) as ->.
    { apply JoinByte_forall; [done|]. eapply Forall_impl; [done|]. intros d. by apply digits_forall. }
    by destruct bra, ket.
Qed.

Lemma port_char_not_white c : port_char c = true → is_white c = false.
Proof.
  intros H. unfold port_char in H. rewrite !orb_true_iff in H.
  destruct H as [[[[H|H]|H]|H]|H]; [|by apply Ascii.eqb_eq in H as ->..].
  unfold is_digit, in_range in H. unfold is_white.
  change (code "0") with 48%N in H. change (code "9") with 57%N in H.
  apply andb_true_iff in H as [?%N.leb_le ?%N.leb_le].
  apply orb_false_iff. split; [by apply N.eqb_neq; lia|].
  apply andb_false_iff. right. apply N.leb_gt. lia.
Qed.

Lemma pt_text_TrimSpace t : pt_ok t → TrimSpace (pt_text t) = pt_text t.
Proof.
  intros Ht. apply TrimSpace_none. eapply str_forall_impl; [|by apply pt_text_chars].
  intros c Hc. by rewrite port_char_not_white.
Qed.

Lemma join_lacks c ds : is_digit c = false → c ≠ ","%char → Forall digits ds → lacks c (JoinByte ds ",").
Proof.
  intros Hc Hcomma Hds. apply JoinByte_forall.
  - by apply negb_true_iff, Ascii.eqb_neq.
  - eapply Forall_impl; [done|]. intros d. by apply digits_lacks.
Qed.

Lemma trim_brackets (bra ket : bool) s :
  lacks "[" s → lacks "]" s →
  TrimSuffix (TrimPrefix ((if bra then "[" else "") +:+ (s +:+ (if ket then "]" else ""))) "[") "]" = s.
Proof.
  intros Ho Hc. destruct bra.
  - rewrite TrimPrefix_app. destruct ket; [apply TrimSuffix_app|].
    rewrite str_app_nil_r. apply TrimSuffix_none. intros t. by apply ends_with_lacks.
  - rewrite str_app_nil, TrimPrefix_none.
    + destruct ket; [apply TrimSuffix_app|].
      rewrite str_app_nil_r. apply TrimSuffix_none. intros t. by apply ends_with_lacks.
    + intros t. apply starts_with_lacks. apply lacks_app; [done|]. by destruct ket.
Qed.

Lemma port_list_value ds :
  Forall digits ds →
  match mapM Atoi ds with
  | Some zs => traverse (λ p, match Atoi (TrimSpace p) with
                              | Some n => Ok n | None => Err (Errorf ("bad port " +:+ Quote p)) end) ds = Ok zs
  | None => is_Err (traverse (λ p, match Atoi (TrimSpace p) with
                              | Some n => Ok n | None => Err (Errorf ("bad port " +:+ Quote p)) end) ds)
  end.
Proof.
  intros Hds. induction Hds as [|d ds Hd Hds IH]; [done|]. simpl.
  rewrite TrimSpace_digits by done. destruct (Atoi d) as [z|]; simpl; [|by eexists].
  destruct (mapM Atoi ds) as [zs|]; simpl.
  - by rewrite IH.
  - destruct IH as [e ->]. by eexists.
Qed.

Lemma parsePortSpec_text t :
  pt_ok t →
  match pt_value t with
  | Some v => parsePortSpec (pt_text t) = Ok v
  | None => is_Err (parsePortSpec (pt_text t))
  end.
Proof.
  intros Ht. unfold parsePortSpec. rewrite pt_text_TrimSpace by done.
  destruct t as [a b|bra ds ket]; simpl in *.
  - destruct Ht as [Ha Hb].
    assert (a +:+ String "-" b = "" +:+ ((a +:+ String "-" b) +:+ "")) as -> by by rewrite str_app_nil, str_app_nil_r.
    rewrite (trim_brackets false false) by (apply lacks_app; [by apply digits_lacks|cbn [str_forall]; by apply andb_true_iff; split; [done|apply digits_lacks]]).
    change (String "-" b) with ("-" +:+ b).
    rewrite (Index_found a "-" b "-" "") by (done || by apply digits_lacks).
    destruct (Z.leb_spec 0 (Z.of_nat (len a))); [|lia].
    rewrite Nat2Z.id, str_take_app. change 1 with (len "-"). rewrite str_drop_app_plus.
    destruct (Atoi a); [|by eexists]. destruct (Atoi b); [done|by eexists].
  - destruct Ht as [Hne Hds]. rewrite trim_brackets by (apply join_lacks; done).
    rewrite (Index_absent _ "-") by (apply join_lacks; done). simpl.
    rewrite SplitByte_Join; [|done|eapply Forall_impl; [done|]; intros d; by apply digits_lacks].
    pose proof (port_list_value ds Hds) as H. destruct (mapM Atoi ds); simpl.
    + by rewrite H.
    + destruct H as [e ->]. by eexists.
Qed.

(** ** Keys *)

Lemma proto_re_spec s : matches proto_re s ↔ ∃ p, s = proto_render p.
Proof.
  unfold proto_re. rewrite m_opt_inv, m_cat_inv. split.
  - intros [(s1 & s2 & -> & H & ->%m_lit_inv)| ->]; [|by exists NoProto].
    rewrite m_alt_inv, !m_lit_inv in H. destruct H as [->| ->]; [by exists TcpProto|by exists UdpProto].
  - intros ([] & ->); [by right|left..]; [exists "tcp", "://"|exists "udp", "://"];
      by rewrite m_alt_inv, !m_lit_inv; auto.
Qed.

Lemma name_re_spec s : matches name_re s ↔ name_text s.
Proof. apply m_plus_cls_inv. Qed.

Lemma name_or_star_spec s : matches name_or_star_re s ↔ name_or_star s.
Proof. unfold name_or_star_re. by rewrite m_alt_inv, name_re_spec, m_chr_inv. Qed.

Lemma pod_re_spec s : matches pod_re s ↔ ∃ pod, pod_ok pod ∧ s = pod_text pod.
Proof.
  unfold pod_re. rewrite m_opt_inv, m_cat_inv. split.
  - intros [(? & p & -> & ->%m_chr_inv & Hp%name_or_star_spec)| ->]; [by exists (Some p)|by exists None].
  - intros ([p|] & Hp & ->); [left|by right]. exists "/", p. by rewrite m_chr_inv, name_or_star_spec.
Qed.

Lemma name_lacks c s : name_char c = false → c ≠ "*"%char → name_or_star s → lacks c s.
Proof.
  intros Hc Hs [[_ Hn]| ->]; [by apply (class_lacks name_char)|].
  by apply lacks_cons.
Qed.

Lemma pod_text_lacks c pod :
  name_char c = false → c ≠ "*"%char → c ≠ "/"%char → pod_ok pod → lacks c (pod_text pod).
Proof.
  intros Hn Hs Hc. destruct pod as [p|]; [|done]. intros Hp.
  apply lacks_cons; [done|by apply name_lacks].
Qed.

Lemma colon_lacks c t : port_char c = false → c ≠ ":"%char → colon_ok t → lacks c (colon_text t).
Proof.
  intros Hp Hc. destruct t as [t|]; [|done]. intros Ht. apply lacks_cons; [done|].
  eapply class_lacks; [done|by apply pt_text_chars].
Qed.

(** The steps the parsers share, on a rendered key. *)
Lemma split_proto_text p body t :
  lacks ":" body → colon_ok t →
  split_proto (proto_render p +:+ (body +:+ colon_text t)) = (proto_value p, body +:+ colon_text t).
Proof.
  intros Hb Ht. unfold split_proto.
  assert (Index (body +:+ colon_text t) "://" = (-1)%Z) as Hno.
  { apply Index_absent2; [done|by apply colon_lacks|done]. }
  destruct p.
  - rewrite str_app_nil, Hno. done.
  - change (proto_render TcpProto) with ("tcp" +:+ "://"). rewrite <-str_app_assoc.
    rewrite (Index_found "tcp" "://" _ ":" "//") by done. reflexivity.
  - change (proto_render UdpProto) with ("udp" +:+ "://"). rewrite <-str_app_assoc.
    rewrite (Index_found "udp" "://" _ ":" "//") by done. reflexivity.
Qed.

Lemma split_ports_text body t :
  lacks ":" body → colon_ok t →
  match colon_value t with
  | Some v => split_ports (body +:+ colon_text t) = Ok (v.1, v.2, body)
  | None => is_Err (split_ports (body +:+ colon_text t))
  end.
Proof.
  intros Hb Ht. unfold split_ports. destruct t as [t|]; simpl.
  - change (String ":" (pt_text t)) with (":" +:+ pt_text t).
    rewrite (Index_found body ":" (pt_text t) ":" "") by done.
    destruct (Z.leb_spec 0 (Z.of_nat (len body))); [|lia].
    rewrite Nat2Z.id, str_take_app. change 1 with (len ":"). rewrite str_drop_app_plus.
    pose proof (parsePortSpec_text t Ht) as Hv. destruct (pt_value t) as [[]|].
    + by rewrite Hv.
    + destruct Hv as [e ->]. by eexists.
  - rewrite str_app_nil_r, (Index_absent body ":") by done. done.
Qed.

Lemma split_pod_text ns pod : name_or_star ns → split_pod (ns +:+ pod_text pod) = (ns, default "" pod).
Proof.
  intros Hns. unfold split_pod. destruct pod as [p|]; simpl.
  - change (String "/" p) with ("/" +:+ p).
    rewrite (Index_found ns "/" p "/" "") by (done || by apply name_lacks).
    destruct (Z.leb_spec 0 (Z.of_nat (len ns))); [|lia].
    rewrite Nat2Z.id, str_take_app. change 1 with (len "/"). by rewrite str_drop_app_plus.
  - by rewrite str_app_nil_r, (Index_absent ns "/") by by apply name_lacks.
Qed.

(** A parser specified by a pattern, the keys [text k] the pattern describes,
    and the value of each key. *)
Record parser_ok {K R} (parse : string → outcome R) (ok : K → Prop) (text : K → string)
    (value : K → option R) : Prop := {
  parser_grammar key : (¬ ∃ k, ok k ∧ key = text k) → is_Err (parse key);
  parser_value k : ok k → match value k with Some r => parse (text k) = Ok r | None => is_Err (parse (text k)) end
}.

Lemma parser_ok_intro {K R} (re : regex) (parse : string → outcome R)
    (ok : K → Prop) (text : K → string) (value : K → option R) :
  (∀ key, matches re key ↔ ∃ k, ok k ∧ key = text k) →
  (∀ key, MatchString re key = false → is_Err (parse key)) →
  (∀ k, ok k → MatchString re (text k) = true →
     match value k with Some r => parse (text k) = Ok r | None => is_Err (parse (text k)) end) →
  parser_ok parse ok text value.
Proof.
  intros Hre Hbad Hgood. split.
  - intros key Hno. apply Hbad. apply not_true_iff_false. by rewrite MatchString_spec, Hre.
  - intros k Hk. apply Hgood; [done|]. apply MatchString_spec, Hre. eauto.
Qed.

(** Such a parser is sound, complete and total. *)
Lemma parser_ok_Ok {K R} (re : regex) (parse : string → outcome R) (ok : K → Prop) text value :
  (∀ key, matches re key ↔ ∃ k, ok k ∧ key = text k) → parser_ok parse ok text value →
  ∀ key r, parse key = Ok r ↔ ∃ k, ok k ∧ key = text k ∧ value k = Some r.
Proof.
  intros Hre [Hg Hv] key r. split.
  - intros Hp. destruct (MatchString re key) eqn:Hm.
    + apply MatchString_spec, Hre in Hm as (k & Hk & ->). exists k. split_and!; [done|done|].
      specialize (Hv k Hk). destruct (value k) as [r'|]; [congruence|]. destruct Hv; congruence.
    + destruct (Hg key) as [e He]; [|congruence].
      intros Hk. apply Hre, MatchString_spec in Hk. congruence.
  - intros (k & Hk & -> & E). specialize (Hv k Hk). by rewrite E in Hv.
Qed.

Lemma parser_ok_returns {K R} (re : regex) (parse : string → outcome R) (ok : K → Prop) text value :
  (∀ key, matches re key ↔ ∃ k, ok k ∧ key = text k) → parser_ok parse ok text value →
  ∀ key, returns (parse key).
Proof.
  intros Hre [Hg Hv] key. destruct (MatchString re key) eqn:Hm.
  - apply MatchString_spec, Hre in Hm as (k & Hk & ->).
    specialize (Hv k Hk). destruct (value k); [by rewrite Hv|by destruct Hv as [e ->]].
  - destruct (Hg key) as [e ->]; [|done]. intros Hk. apply Hre, MatchString_spec in Hk. congruence.
Qed.

(** *** [[<tcp|udp>://]<ns>[/<pod>][:<ports>]] *)
Record egress_key := { ek_proto : proto_text; ek_ns : string; ek_pod : option string; ek_ports : option port_text }.
Definition egress_key_ok (k : egress_key) : Prop :=
  name_or_star (ek_ns k) ∧ pod_ok (ek_pod k) ∧ colon_ok (ek_ports k).
Definition egress_key_text (k : egress_key) : string :=
  proto_render (ek_proto k) +:+ ((ek_ns k +:+ pod_text (ek_pod k)) +:+ colon_text (ek_ports k)).
Definition egress_key_value (k : egress_key) : option parsedK8sRemote :=
  '(ports, range) ← colon_value (ek_ports k);
  Some {| remote_Namespace := ek_ns k; remote_Pod := default "" (ek_pod k); remote_Identity := "";
          remote_Protocol := proto_value (ek_proto k); remote_Ports := ports; remote_HasPortRange := range |}.

Lemma egressRemoteKeyRe_spec key :
  matches egressRemoteKeyRe key ↔ ∃ k, egress_key_ok k ∧ key = egress_key_text k.
Proof.
  split.
  - intros (? & ? & -> & [p ->]%proto_re_spec & (ns & ? & -> & Hns%name_or_star_spec &
      (? & ? & -> & (pod & Hpod & ->)%pod_re_spec & (t & Ht & ->)%ports_re_spec)%m_cat_inv)%m_cat_inv)%m_cat_inv.
    exists {| ek_proto := p; ek_ns := ns; ek_pod := pod; ek_ports := t |}.
    split; [done|]. unfold egress_key_text; simpl. by rewrite <-str_app_assoc.
  - intros ([p ns pod t] & (Hns & Hpod & Ht) & ->). unfold egress_key_text; simpl in *.
    rewrite <-str_app_assoc. constructor; [apply proto_re_spec; eauto|].
    constructor; [by apply name_or_star_spec|].
    constructor; [apply pod_re_spec; eauto|apply ports_re_spec; eauto].
Qed.

Lemma parseEgressRemoteKey_ok : parser_ok parseEgressRemoteKey egress_key_ok egress_key_text egress_key_value.
Proof.
  apply (parser_ok_intro egressRemoteKeyRe); [apply egressRemoteKeyRe_spec| |].
  - intros key Hm. unfold parseEgressRemoteKey. rewrite Hm. by eexists.
  - intros [p ns pod t] (Hns & Hpod & Ht) Hm. unfold parseEgressRemoteKey. rewrite Hm.
    unfold egress_key_text, egress_key_value in *; cbn [ek_proto ek_ns ek_pod ek_ports negb] in *.
    assert (lacks ":" (ns +:+ pod_text pod)) as Hl.
    { apply lacks_app; [by apply name_lacks|by apply pod_text_lacks]. }
    rewrite split_proto_text by done.
    pose proof (split_ports_text (ns +:+ pod_text pod) t Hl Ht) as Hv.
    destruct (colon_value t) as [[ports range]|].
    + rewrite Hv. cbn. by rewrite split_pod_text.
    + destruct Hv as [e ->]. by eexists.
Qed.

(** *** [[<identity>@]<ns>[/<pod>]] *)
Record ingress_key := { ik_identity : option string; ik_ns : string; ik_pod : option string }.
Definition ingress_key_ok (k : ingress_key) : Prop :=
  match ik_identity k with Some i => name_text i | None => True end ∧ name_or_star (ik_ns k) ∧ pod_ok (ik_pod k).
Definition ingress_key_text (k : ingress_key) : string :=
  match ik_identity k with Some i => i +:+ "@" | None => "" end +:+ (ik_ns k +:+ pod_text (ik_pod k)).
Definition ingress_key_value (k : ingress_key) : option parsedK8sRemote :=
  Some {| remote_Namespace := ik_ns k; remote_Pod := default "" (ik_pod k);
          remote_Identity := default "" (ik_identity k);
          remote_Protocol := "TCP"; remote_Ports := []; remote_HasPortRange := false |}.

Lemma ingressRemoteKeyRe_spec key :
  matches ingressRemoteKeyRe key ↔ ∃ k, ingress_key_ok k ∧ key = ingress_key_text k.
Proof.
  split.
  - intros (i & ? & -> & Hi & (ns & ? & -> & Hns%name_or_star_spec & (pod & Hpod & ->)%pod_re_spec)%m_cat_inv)%m_cat_inv.
    rewrite m_opt_inv in Hi. destruct Hi as [(i' & ? & -> & Hi%name_re_spec & ->%m_chr_inv)%m_cat_inv| ->].
    + by exists {| ik_identity := Some i'; ik_ns := ns; ik_pod := pod |}.
    + by exists {| ik_identity := None; ik_ns := ns; ik_pod := pod |}.
  - intros ([i ns pod] & (Hi & Hns & Hpod) & ->). unfold ingress_key_text; simpl in *.
    constructor.
    + apply m_opt_inv. destruct i as [i|]; [left|by right].
      constructor; [by apply name_re_spec|by apply m_chr_inv].
    + constructor; [by apply name_or_star_spec|apply pod_re_spec; eauto].
Qed.

Lemma parseIngressRemoteKey_ok : parser_ok parseIngressRemoteKey ingress_key_ok ingress_key_text ingress_key_value.
Proof.
  apply (parser_ok_intro ingressRemoteKeyRe); [apply ingressRemoteKeyRe_spec| |].
  - intros key Hm. unfold parseIngressRemoteKey. rewrite Hm. by eexists.
  - intros [i ns pod] (Hi & Hns & Hpod) Hm. unfold parseIngressRemoteKey. rewrite Hm.
    unfold ingress_key_text, ingress_key_value in *; cbn [ik_identity ik_ns ik_pod negb] in *.
    assert (lacks "@" (ns +:+ pod_text pod)) as Hl.
    { apply lacks_app; [by apply name_lacks|by apply pod_text_lacks]. }
    destruct i as [i|].
    + rewrite <-str_app_assoc, (Index_found i "@" _ "@" "") by (done || by apply (class_lacks name_char), Hi).
      destruct (Z.leb_spec 0 (Z.of_nat (len i))); [|lia].
      rewrite Nat2Z.id, str_take_app. change 1 with (len "@"). rewrite str_drop_app_plus.
      by rewrite split_pod_text.
    + rewrite str_app_nil, (Index_absent _ "@") by done. simpl. by rewrite split_pod_text.
Qed.

(** *** [[<udp|tcp>://]<pod-name>[:<ports>]] *)
Record local_key := { lk_proto : proto_text; lk_pod : string; lk_ports : option port_text }.
Definition local_key_ok (k : local_key) : Prop :=
  (lk_pod k ≠ "" ∧ str_forall word_char (lk_pod k) = true) ∧ colon_ok (lk_ports k).
Definition local_key_text (k : local_key) : string :=
  proto_render (lk_proto k) +:+ (lk_pod k +:+ colon_text (lk_ports k)).
Definition local_key_value (k : local_key) : option parsedLocalIngressKey :=
  '(ports, range) ← colon_value (lk_ports k);
  Some {| local_Pod := lk_pod k; local_Protocol := proto_value (lk_proto k);
          local_Ports := ports; local_HasPortRange := range |}.

Lemma ingressLocalKeyRe_spec key :
  matches ingressLocalKeyRe key ↔ ∃ k, local_key_ok k ∧ key = local_key_text k.
Proof.
  split.
  - intros (? & ? & -> & [p ->]%proto_re_spec & (pod & ? & -> & Hpod%m_plus_cls_inv & (t & Ht & ->)%local_ports_re_spec)%m_cat_inv)%m_cat_inv.
    by exists {| lk_proto := p; lk_pod := pod; lk_ports := t |}.
  - intros ([p pod t] & (Hpod & Ht) & ->). unfold local_key_text; simpl in *.
    constructor; [apply proto_re_spec; eauto|].
    constructor; [by apply m_plus_cls_inv|apply local_ports_re_spec; eauto].
Qed.

Lemma parseIngressLocalKey_ok : parser_ok parseIngressLocalKey local_key_ok local_key_text local_key_value.
Proof.
  apply (parser_ok_intro ingressLocalKeyRe); [apply ingressLocalKeyRe_spec| |].
  - intros key Hm. unfold parseIngressLocalKey. rewrite Hm. by eexists.
  - intros [p pod t] ([_ Hpod] & Ht) Hm. unfold parseIngressLocalKey. rewrite Hm.
    unfold local_key_text, local_key_value in *; cbn [lk_proto lk_pod lk_ports negb] in *.
    assert (lacks ":" pod) as Hl by by apply (class_lacks word_char).
    rewrite split_proto_text by done.
    pose proof (split_ports_text pod t Hl Ht) as Hv.
    destruct (colon_value t) as [[ports range]|].
    + rewrite Hv. done.
    + destruct Hv as [e ->]. by eexists.
Qed.

(** *** [[<tcp|udp>://]<cidr>[:<ports>]] *)
Record cidr_text := { ct_a : string; ct_b : string; ct_c : string; ct_d : string; ct_mask : string }.
Definition cidr_text_ok (c : cidr_text) : Prop :=
  digits (ct_a c) ∧ digits (ct_b c) ∧ digits (ct_c c) ∧ digits (ct_d c) ∧ digits (ct_mask c).
Definition cidr_addr (c : cidr_text) : string :=
  ct_a c +:+ ("." +:+ (ct_b c +:+ ("." +:+ (ct_c c +:+ ("." +:+ ct_d c))))).
Definition cidr_render (c : cidr_text) : string := cidr_addr c +:+ String "/" (ct_mask c).

Lemma dotted_spec s : matches (RCat digits_re (RChr ".")) s ↔ ∃ d, digits d ∧ s = d +:+ ".".
Proof.
  rewrite m_cat_inv. split.
  - intros (d & ? & -> & Hd%digits_re_spec & ->%m_chr_inv). eauto.
  - intros (d & Hd & ->). exists d, ".". by rewrite digits_re_spec, m_chr_inv.
Qed.

Lemma cidr_re_spec s : matches cidr_re s ↔ ∃ c, cidr_text_ok c ∧ s = cidr_render c.
Proof.
  unfold cidr_re. cbn [RTimes]. split.
  - intros (? & ? & -> & H & (d & ? & -> & Hd%digits_re_spec & (? & m & -> & ->%m_chr_inv & Hm%digits_re_spec)%m_cat_inv)%m_cat_inv)%m_cat_inv.
    apply m_cat_inv in H as (? & ? & -> & (a & Ha & ->)%dotted_spec & H).
    apply m_cat_inv in H as (? & ? & -> & (b & Hb & ->)%dotted_spec & H).
    apply m_cat_inv in H as (? & ? & -> & (c & Hc & ->)%dotted_spec & ->%m_eps_inv).
    exists {| ct_a := a; ct_b := b; ct_c := c; ct_d := d; ct_mask := m |}.
    split; [done|]. unfold cidr_render, cidr_addr; simpl. by rewrite str_app_nil_r, <-!str_app_assoc.
  - intros ([a b c d m] & (Ha & Hb & Hc & Hd & Hm) & ->). unfold cidr_render, cidr_addr; simpl in *.
    assert (∀ a b c x, a +:+ ("." +:+ (b +:+ ("." +:+ (c +:+ ("." +:+ x))))) =
      ((a +:+ ".") +:+ ((b +:+ ".") +:+ ((c +:+ ".") +:+ ""))) +:+ x) as E
      by (intros; by rewrite str_app_nil_r, <-!str_app_assoc).
    rewrite E, <-(str_app_assoc _ d).
    constructor.
    + repeat (constructor; [apply dotted_spec; eauto|]). constructor.
    + constructor; [by apply digits_re_spec|].
      apply (m_cat _ _ "/" m); [by apply m_chr_inv|by apply digits_re_spec].
Qed.

Lemma cidr_addr_lacks c k : is_digit k = false → k ≠ "."%char → cidr_text_ok c → lacks k (cidr_addr c).
Proof.
  intros Hk Hdot (Ha & Hb & Hc & Hd & _). unfold cidr_addr.
  repeat (apply lacks_app; [first [by apply digits_lacks|by apply lacks_cons]|]). by apply digits_lacks.
Qed.

Record egress_cidr_key := { ck_proto : proto_text; ck_cidr : cidr_text; ck_ports : option port_text }.
Definition egress_cidr_key_ok (k : egress_cidr_key) : Prop := cidr_text_ok (ck_cidr k) ∧ colon_ok (ck_ports k).
Definition egress_cidr_key_text (k : egress_cidr_key) : string :=
  proto_render (ck_proto k) +:+ (cidr_render (ck_cidr k) +:+ colon_text (ck_ports k)).
Definition egress_cidr_key_value (k : egress_cidr_key) : option parsedCIDR :=
  '(ports, range) ← colon_value (ck_ports k);
  Some {| cidr_CIDR := cidr_render (ck_cidr k); cidr_Protocol := proto_value (ck_proto k);
          cidr_Ports := ports; cidr_HasPortRange := range |}.

Lemma egressCIDRKeyRe_spec key :
  matches egressCIDRKeyRe key ↔ ∃ k, egress_cidr_key_ok k ∧ key = egress_cidr_key_text k.
Proof.
  split.
  - intros (? & ? & -> & [p ->]%proto_re_spec & (? & ? & -> & (c & Hc & ->)%cidr_re_spec & (t & Ht & ->)%ports_re_spec)%m_cat_inv)%m_cat_inv.
    by exists {| ck_proto := p; ck_cidr := c; ck_ports := t |}.
  - intros ([p c t] & (Hc & Ht) & ->). unfold egress_cidr_key_text; simpl in *.
    constructor; [apply proto_re_spec; eauto|].
    constructor; [apply cidr_re_spec; eauto|apply ports_re_spec; eauto].
Qed.

Lemma cidr_render_lacks c : cidr_text_ok c → lacks ":" (cidr_render c).
Proof.
  intros Hc. apply lacks_app; [by apply cidr_addr_lacks|].
  apply lacks_cons; [done|]. apply digits_lacks; [done|]. apply Hc.
Qed.

(** The last '/' of a rendered key is the one of the mask. *)
Lemma cidr_slash c t : cidr_text_ok c → colon_ok t →
  LastIndexByte (cidr_render c +:+ colon_text t) "/" = Z.of_nat (len (cidr_addr c)).
Proof.
  intros Hc Ht. unfold cidr_render. rewrite <-str_app_assoc, str_app_cons.
  apply LastIndexByte_found, lacks_app; [apply digits_lacks; [done|apply Hc]|by apply colon_lacks].
Qed.

Lemma parseEgressCIDRKey_ok : parser_ok parseEgressCIDRKey egress_cidr_key_ok egress_cidr_key_text egress_cidr_key_value.
Proof.
  apply (parser_ok_intro egressCIDRKeyRe); [apply egressCIDRKeyRe_spec| |].
  - intros key Hm. unfold parseEgressCIDRKey. rewrite Hm. by eexists.
  - intros [p c t] (Hc & Ht) Hm. unfold parseEgressCIDRKey. rewrite Hm.
    unfold egress_cidr_key_text, egress_cidr_key_value in *; cbn [ck_proto ck_cidr ck_ports negb] in *.
    rewrite split_proto_text by (done || by apply cidr_render_lacks).
    rewrite cidr_slash by done. destruct t as [t|]; cbn [colon_text colon_value].
    + assert (lacks ":" (pt_text t)) as Hl by (eapply class_lacks; [|by apply pt_text_chars]; done).
      rewrite LastIndexByte_found by done.
      destruct (Z.ltb_spec (Z.of_nat (len (cidr_addr c))) (Z.of_nat (len (cidr_render c)))) as [_|H];
        [|unfold cidr_render in H; rewrite len_app in H; unfold len in H; simpl in H; lia].
      rewrite Nat2Z.id, str_take_app. change (String ":" (pt_text t)) with (":" +:+ pt_text t).
      change 1 with (len ":"). rewrite str_drop_app_plus.
      pose proof (parsePortSpec_text t Ht) as Hv. destruct (pt_value t) as [[ports range]|].
      * by rewrite Hv.
      * destruct Hv as [e ->]. by eexists.
    + rewrite str_app_nil_r, LastIndexByte_absent by by apply cidr_render_lacks.
      destruct (Z.ltb_spec (Z.of_nat (len (cidr_addr c))) (-1)); [lia|done].
Qed.

(** *** [<cidr>] *)
Lemma parseIngressCIDRKey_ok :
  parser_ok parseIngressCIDRKey cidr_text_ok cidr_render
    (λ c, Some {| cidr_CIDR := cidr_render c; cidr_Protocol := "TCP"; cidr_Ports := []; cidr_HasPortRange := false |}).
Proof.
  apply (parser_ok_intro ingressCIDRKeyRe); [apply cidr_re_spec| |].
  - intros key Hm. unfold parseIngressCIDRKey. rewrite Hm. by eexists.
  - intros c Hc Hm. unfold parseIngressCIDRKey. by rewrite Hm.
Qed.

(** ** What the parsers deliver *)

Definition in_int64_nonneg (p : Z) : Prop := (0 ≤ p ≤ MaxInt64)%Z.

Lemma Atoi_digits_bound d z : digits d → Atoi d = Some z → in_int64_nonneg z.
Proof.
  intros [Hne Hd]. rewrite Atoi_digits by done. destruct (digits_val 0 d) as [v|] eqn:E; simpl; [|done].
  destruct (Z.leb_spec v MaxInt64); [|done]. intros [= <-]. split; [|done].
  by eapply digits_val_nonneg.
Qed.

Lemma pt_value_bounds t ports range :
  pt_ok t → pt_value t = Some (ports, range) →
  Forall in_int64_nonneg ports ∧ ports ≠ [] ∧ (range = true → length ports = 2).
Proof.
  destruct t as [a b|bra ds ket]; simpl.
  - intros [Ha Hb]. destruct (Atoi a) eqn:Ea; [|done]. destruct (Atoi b) eqn:Eb; [|done].
    intros [= <- <-]. split_and!; [|done..].
    apply Forall_cons; split; [by apply (Atoi_digits_bound a)|].
    apply Forall_cons; split; [by apply (Atoi_digits_bound b)|constructor].
  - intros [Hne Hds]. destruct (mapM Atoi ds) as [zs|] eqn:E; [|done]. intros [= <- <-].
    apply mapM_Some in E. split_and!; [|by intros ->; inversion E; subst|done].
    clear Hne. induction E as [|d z ds zs Hz _ IH]; [done|]. inversion Hds; subst.
    constructor; [by eapply Atoi_digits_bound|auto].
Qed.

Lemma colon_value_bounds t ports range :
  colon_ok t → colon_value t = Some (ports, range) →
  Forall in_int64_nonneg ports ∧ (range = true → length ports = 2).
Proof.
  destruct t as [t|]; simpl; [|by intros _ [= <- <-]].
  intros Ht Hv. by destruct (pt_value_bounds t ports range Ht Hv) as (? & _ & ?).
Qed.

Lemma proto_value_cases p : proto_value p = "TCP" ∨ proto_value p = "UDP".
Proof. destruct p; auto. Qed.

(** What every caller of a parser may rely on. *)
Definition ports_sound (proto : string) (ports : list Z) (range : bool) : Prop :=
  (proto = "TCP" ∨ proto = "UDP") ∧ Forall in_int64_nonneg ports ∧ (range = true → length ports = 2).

Lemma ports_sound_ok proto ports range : ports_sound proto ports range → ports_ok ports range.
Proof.
  intros (_ & Hp & Hr). split; [|done]. eapply Forall_impl; [done|]. by intros p [? _].
Qed.

Lemma parseEgressRemoteKey_sound key r :
  parseEgressRemoteKey key = Ok r → ports_sound (remote_Protocol r) (remote_Ports r) (remote_HasPortRange r).
Proof.
  rewrite (parser_ok_Ok egressRemoteKeyRe _ _ _ _ egressRemoteKeyRe_spec parseEgressRemoteKey_ok).
  intros (k & (_ & _ & Ht) & _ & Hv). unfold egress_key_value in Hv.
  destruct (colon_value (ek_ports k)) as [[ports range]|] eqn:E; simplify_eq/=.
  split; [apply proto_value_cases|by eapply colon_value_bounds].
Qed.

Lemma parseIngressRemoteKey_sound key r :
  parseIngressRemoteKey key = Ok r → remote_Ports r = [] ∧ remote_HasPortRange r = false ∧ remote_Protocol r = "TCP".
Proof.
  rewrite (parser_ok_Ok ingressRemoteKeyRe _ _ _ _ ingressRemoteKeyRe_spec parseIngressRemoteKey_ok).
  by intros (k & _ & _ & [= <-]).
Qed.

Lemma parseIngressLocalKey_sound key r :
  parseIngressLocalKey key = Ok r → ports_sound (local_Protocol r) (local_Ports r) (local_HasPortRange r).
Proof.
  rewrite (parser_ok_Ok ingressLocalKeyRe _ _ _ _ ingressLocalKeyRe_spec parseIngressLocalKey_ok).
  intros (k & (_ & Ht) & _ & Hv). unfold local_key_value in Hv.
  destruct (colon_value (lk_ports k)) as [[ports range]|] eqn:E; simplify_eq/=.
  split; [apply proto_value_cases|by eapply colon_value_bounds].
Qed.

Lemma parseEgressCIDRKey_sound key r :
  parseEgressCIDRKey key = Ok r → ports_sound (cidr_Protocol r) (cidr_Ports r) (cidr_HasPortRange r).
Proof.
  rewrite (parser_ok_Ok egressCIDRKeyRe _ _ _ _ egressCIDRKeyRe_spec parseEgressCIDRKey_ok).
  intros (k & (_ & Ht) & _ & Hv). unfold egress_cidr_key_value in Hv.
  destruct (colon_value (ck_ports k)) as [[ports range]|] eqn:E; simplify_eq/=.
  split; [apply proto_value_cases|by eapply colon_value_bounds].
Qed.

Lemma parseIngressCIDRKey_sound key r :
  parseIngressCIDRKey key = Ok r → cidr_CIDR r = key ∧ cidr_Ports r = [] ∧ cidr_HasPortRange r = false.
Proof.
  unfold parseIngressCIDRKey. destruct (negb _); [done|]. by intros [= <-].
Qed.

Lemma parseEgressRemoteKey_returns key : returns (parseEgressRemoteKey key).
Proof. apply (parser_ok_returns _ _ _ _ _ egressRemoteKeyRe_spec parseEgressRemoteKey_ok). Qed.
Lemma parseIngressRemoteKey_returns key : returns (parseIngressRemoteKey key).
Proof. apply (parser_ok_returns _ _ _ _ _ ingressRemoteKeyRe_spec parseIngressRemoteKey_ok). Qed.
Lemma parseIngressLocalKey_returns key : returns (parseIngressLocalKey key).
Proof. apply (parser_ok_returns _ _ _ _ _ ingressLocalKeyRe_spec parseIngressLocalKey_ok). Qed.
Lemma parseEgressCIDRKey_returns key : returns (parseEgressCIDRKey key).
Proof. apply (parser_ok_returns _ _ _ _ _ egressCIDRKeyRe_spec parseEgressCIDRKey_ok). Qed.
Lemma parseIngressCIDRKey_returns key : returns (parseIngressCIDRKey key).
Proof. unfold parseIngressCIDRKey. by destruct (negb _). Qed.

#[export] Hint Resolve parseEgressRemoteKey_returns parseIngressRemoteKey_returns
  parseIngressLocalKey_returns parseEgressCIDRKey_returns parseIngressCIDRKey_returns : go.

(** C27: [parseEgressRemoteKey] decides the grammar
    [<tcp|udp>://] (optional), a namespace or a star, an optional pod, optional ports:
    it succeeds exactly on the renderings of well-formed keys whose ports fit
    in an [int], and returns the parts the key was rendered from; on any other
    text it returns an error, never panicking. *)
Theorem parseEgressRemoteKey_grammar key :
  returns (parseEgressRemoteKey key) ∧
  ∀ r, parseEgressRemoteKey key = Ok r ↔
       ∃ k, egress_key_ok k ∧ key = egress_key_text k ∧ egress_key_value k = Some r.
Proof.
  split; [apply parseEgressRemoteKey_returns|].
  apply (parser_ok_Ok egressRemoteKeyRe _ _ _ _ egressRemoteKeyRe_spec parseEgressRemoteKey_ok).
Qed.

(** C31: The ingress parsers decide their grammars: a local key is an optional
    protocol, a pod name and optional ports, a remote key an optional identity,
    a namespace or a star and an optional pod; each succeeds exactly on the
    rendered keys and returns the parts. *)
Theorem ingress_keys_grammar key :
  returns (parseIngressLocalKey key) ∧ returns (parseIngressRemoteKey key) ∧
  (∀ r, parseIngressLocalKey key = Ok r ↔
        ∃ k, local_key_ok k ∧ key = local_key_text k ∧ local_key_value k = Some r) ∧
  (∀ r, parseIngressRemoteKey key = Ok r ↔
        ∃ k, ingress_key_ok k ∧ key = ingress_key_text k ∧ ingress_key_value k = Some r).
Proof.
  split_and!; [apply parseIngressLocalKey_returns|apply parseIngressRemoteKey_returns|..].
  - apply (parser_ok_Ok ingressLocalKeyRe _ _ _ _ ingressLocalKeyRe_spec parseIngressLocalKey_ok).
  - apply (parser_ok_Ok ingressRemoteKeyRe _ _ _ _ ingressRemoteKeyRe_spec parseIngressRemoteKey_ok).
Qed.

(** C32: Both CIDR parsers decide their grammars. An egress key is an optional
    protocol, a dotted address with a mask, and optional ports after the last
    ':'; an ingress key is an address with a mask and nothing else, and means TCP
    without ports. The address comes back as written. *)
Theorem cidr_keys_grammar key :
  returns (parseEgressCIDRKey key) ∧ returns (parseIngressCIDRKey key) ∧
  (∀ r, parseEgressCIDRKey key = Ok r ↔
        ∃ k, egress_cidr_key_ok k ∧ key = egress_cidr_key_text k ∧ egress_cidr_key_value k = Some r) ∧
  (∀ r, parseIngressCIDRKey key = Ok r ↔
        ∃ c, cidr_text_ok c ∧ key = cidr_render c ∧
             r = {| cidr_CIDR := key; cidr_Protocol := "TCP"; cidr_Ports := []; cidr_HasPortRange := false |}).
Proof.
  split_and!; [apply parseEgressCIDRKey_returns|apply parseIngressCIDRKey_returns|..].
  - apply (parser_ok_Ok egressCIDRKeyRe _ _ _ _ egressCIDRKeyRe_spec parseEgressCIDRKey_ok).
  - intros r. rewrite (parser_ok_Ok ingressCIDRKeyRe _ _ _ _ cidr_re_spec parseIngressCIDRKey_ok key r). naive_solver.
Qed.

(** Every port a key parser delivers is between 0 and the largest [int],
    a range always has its two ends (so the code that reads [Ports[0]] and
    [Ports[1]] does not panic), and the protocol is TCP or UDP. *)
Theorem parsed_keys_bounds key :
  (∀ r, parseEgressRemoteKey key = Ok r → ports_sound (remote_Protocol r) (remote_Ports r) (remote_HasPortRange r)) ∧
  (∀ r, parseIngressLocalKey key = Ok r → ports_sound (local_Protocol r) (local_Ports r) (local_HasPortRange r)) ∧
  (∀ r, parseEgressCIDRKey key = Ok r → ports_sound (cidr_Protocol r) (cidr_Ports r) (cidr_HasPortRange r)).
Proof.
  split_and!; intros r; [apply parseEgressRemoteKey_sound|apply parseIngressLocalKey_sound|apply parseEgressCIDRKey_sound].
Qed.

Lemma parsed_keys_bounds_witness :
  ports_sound "UDP" [8000; 9000]%Z true.
Proof.
  apply (proj1 (parsed_keys_bounds "udp://other-ns/*:8000-9000")
    {| remote_Namespace := "other-ns"; remote_Pod := "*"; remote_Identity := ""; remote_Protocol := "UDP";
       remote_Ports := [8000; 9000]%Z; remote_HasPortRange := true |}).
  vm_compute. reflexivity.
Defined.
