(* ===== verification/Metadata.v ===== *)
(** * metadata.go: the metadata every emitted object carries *)

From S2P Require Import Prelude GoStrings K8s ApiTypes.
Local Open Scope string_scope.
Local Open Scope list_scope.

Definition LabelManagedBy : string := "app.kubernetes.io/managed-by".
Definition LabelPackage : string := "bigbang.dev/package".
Definition LabelNetpolSource : string := "network-policies.bigbang.dev/source".
Definition LabelNetpolSourceValue : string := "bigbang-operator".
Definition FieldManager : string := "bigbang-operator".

(** [mergeMaps a b]: [b] wins; nil when both are empty. *)
Definition mergeMaps (a b : gomap string) : gomap string :=
  if (maplen a =? 0)%nat && (maplen b =? 0)%nat then None
  else Some (contents b ∪ contents a).

Definition cloneLabels (l : gomap string) : gomap string := Some (contents l).

Definition ownerOf (pkg : Package) : OwnerReference :=
  {| or_APIVersion := GroupVersion; or_Kind := "Package"; or_Name := pkg_Name pkg; or_UID := pkg_UID pkg;
     or_Controller := Some true; or_BlockOwnerDeletion := Some true |}.

(** The loop over the existing references: the first one with the owner's UID
    is replaced; without one the owner is appended. *)
Fixpoint replaceOwner (owner : OwnerReference) (refs : list OwnerReference) : list OwnerReference * bool :=
  match refs with
  | [] => ([], false)
  | r :: refs =>
      if String.eqb (or_UID r) (or_UID owner) then (owner :: refs, true)
      else let '(refs', replaced) := replaceOwner owner refs in (r :: refs', replaced)
  end.

Definition stampMetadata (pkg : Package) (obj : Object) : Object :=
  let m := o_Meta obj in
  let m := if String.eqb (om_Namespace m) "" then set_Namespace (pkg_Namespace pkg) m else m in
  let labels := contents (om_Labels m) in
  let labels := match labels !! LabelManagedBy with
                | Some _ => labels
                | None => <[LabelManagedBy := FieldManager]> labels
                end in
  let labels := <[LabelPackage := pkg_Name pkg]> labels in
  let m := set_Labels (Some labels) m in
  let owner := ownerOf pkg in
  let '(refs, replaced) := replaceOwner owner (om_OwnerReferences m) in
  let refs := if replaced then refs else refs ++ [owner] in
  set_Meta (set_OwnerReferences refs m) obj.

(** ** Lemmas *)

Lemma mergeMaps_contents a b : contents (mergeMaps a b) = contents b ∪ contents a.
Proof.
  unfold mergeMaps. destruct (Nat.eqb_spec (maplen a) 0) as [Ha%maplen_zero|]; [|done].
  destruct (Nat.eqb_spec (maplen b) 0) as [Hb%maplen_zero|]; [|done]. simpl. by rewrite Ha, Hb, map_empty_union.
Qed.

Lemma mergeMaps_lookup a b k :
  contents (mergeMaps a b) !! k = match contents b !! k with Some v => Some v | None => contents a !! k end.
Proof.
  rewrite mergeMaps_contents. destruct (contents b !! k) eqn:E.
  - by apply lookup_union_Some_l.
  - by apply lookup_union_r.
Qed.

Lemma cloneLabels_contents l : contents (cloneLabels l) = contents l.
Proof. done. Qed.

Lemma replaceOwner_elem owner refs : (replaceOwner owner refs).2 = true → owner ∈ (replaceOwner owner refs).1.
Proof.
  induction refs as [|r refs IH]; simpl; [done|].
  destruct (String.eqb _ _); [left|]. destruct (replaceOwner owner refs). simpl in *. right. auto.
Qed.

Definition stampOwner (owner : OwnerReference) (refs : list OwnerReference) : list OwnerReference :=
  let '(refs, replaced) := replaceOwner owner refs in if replaced then refs else refs ++ [owner].

Lemma stampOwner_elem owner refs : owner ∈ stampOwner owner refs.
Proof.
  unfold stampOwner. pose proof (replaceOwner_elem owner refs) as H.
  destruct (replaceOwner owner refs) as [refs' []]; simpl in H; [auto|]. set_solver.
Qed.

(** References to other objects are kept, in their order. *)
Lemma stampOwner_others owner refs :
  filter (λ r, or_UID r ≠ or_UID owner) (stampOwner owner refs) = filter (λ r, or_UID r ≠ or_UID owner) refs.
Proof.
  unfold stampOwner. induction refs as [|r refs IH]; simpl.
  - rewrite filter_cons_False; [done|naive_solver].
  - destruct (String.eqb_spec (or_UID r) (or_UID owner)) as [E|E].
    + rewrite !filter_cons_False by naive_solver. done.
    + destruct (replaceOwner owner refs) as [refs' []]; cbn [app];
        rewrite !(filter_cons_True _ r) by done; by rewrite IH.
Qed.

Lemma stampOwner_idemp owner refs : stampOwner owner (stampOwner owner refs) = stampOwner owner refs.
Proof.
  unfold stampOwner. induction refs as [|r refs IH]; simpl; [by rewrite String.eqb_refl|].
  destruct (String.eqb_spec (or_UID r) (or_UID owner)) as [E|E]; simpl; [by rewrite String.eqb_refl|].
  destruct (replaceOwner owner refs) as [refs' []]; simpl;
    (destruct (String.eqb_spec (or_UID r) (or_UID owner)); [done|]).
  - destruct (replaceOwner owner refs') as [refs'' []]; [by rewrite IH|].
    simpl. by rewrite IH.
  - destruct (replaceOwner owner (refs' ++ [owner])) as [refs'' []]; [by rewrite IH|].
    simpl. by rewrite IH.
Qed.

Lemma stampMetadata_refs pkg obj :
  o_OwnerReferences (stampMetadata pkg obj) = stampOwner (ownerOf pkg) (o_OwnerReferences obj).
Proof.
  unfold stampMetadata, stampOwner, o_OwnerReferences.
  destruct (String.eqb _ ""); simpl; destruct (replaceOwner _ _) as [? []]; done.
Qed.

Lemma stampMetadata_labels pkg obj :
  o_Labels (stampMetadata pkg obj) =
  Some (<[LabelPackage := pkg_Name pkg]>
    (match contents (o_Labels obj) !! LabelManagedBy with
     | Some _ => contents (o_Labels obj)
     | None => <[LabelManagedBy := FieldManager]> (contents (o_Labels obj))
     end)).
Proof.
  unfold stampMetadata, o_Labels.
  destruct (String.eqb _ ""); simpl; destruct (replaceOwner _ _) as [? []]; done.
Qed.

Lemma stampMetadata_namespace pkg obj :
  o_Namespace (stampMetadata pkg obj) = if String.eqb (o_Namespace obj) "" then pkg_Namespace pkg else o_Namespace obj.
Proof.
  unfold stampMetadata, o_Namespace.
  destruct (String.eqb _ ""); simpl; destruct (replaceOwner _ _) as [? []]; done.
Qed.

Lemma stampMetadata_frame pkg obj :
  o_Name (stampMetadata pkg obj) = o_Name obj ∧ o_Annotations (stampMetadata pkg obj) = o_Annotations obj ∧
  o_Body (stampMetadata pkg obj) = o_Body obj ∧ o_GVK (stampMetadata pkg obj) = o_GVK obj.
Proof.
  unfold stampMetadata, o_Name, o_Annotations.
  destruct (String.eqb _ ""); simpl; destruct (replaceOwner _ _) as [? []]; done.
Qed.

Lemma LabelPackage_not_managed : LabelPackage ≠ LabelManagedBy.
Proof. done. Qed.

Lemma stampMetadata_label_lookup pkg obj k :
  contents (o_Labels (stampMetadata pkg obj)) !! k =
  if decide (k = LabelPackage) then Some (pkg_Name pkg)
  else match contents (o_Labels obj) !! k with
       | Some v => Some v
       | None => if decide (k = LabelManagedBy) then Some FieldManager else None
       end.
Proof.
  rewrite stampMetadata_labels. simpl. destruct (decide (k = LabelPackage)) as [->|Hk].
  - apply lookup_insert_eq.
  - rewrite lookup_insert_ne by done. destruct (decide (k = LabelManagedBy)) as [->|Hm].
    + destruct (contents (o_Labels obj) !! LabelManagedBy) eqn:E; [done|]. apply lookup_insert_eq.
    + destruct (contents (o_Labels obj) !! LabelManagedBy); [by destruct (_ !! k)|].
      rewrite lookup_insert_ne by done. by destruct (_ !! k).
Qed.

(** ** The stamp every emitted object carries *)

Record stamped (pkg : Package) (o : Object) : Prop := {
  st_package : contents (o_Labels o) !! LabelPackage = Some (pkg_Name pkg);
  st_managed : is_Some (contents (o_Labels o) !! LabelManagedBy);
  st_owner : ownerOf pkg ∈ o_OwnerReferences o
}.

Lemma stampMetadata_stamped pkg obj : stamped pkg (stampMetadata pkg obj).
Proof.
  split.
  - rewrite stampMetadata_label_lookup. by destruct (decide _).
  - rewrite stampMetadata_label_lookup. destruct (decide (LabelManagedBy = LabelPackage)); [by eexists|].
    destruct (_ !! _); [by eexists|]. destruct (decide (LabelManagedBy = LabelManagedBy)); [by eexists|done].
  - rewrite stampMetadata_refs. apply stampOwner_elem.
Qed.
#[export] Hint Resolve stampMetadata_stamped : go.

(** What the generators hand over: the namespace is left to [stampMetadata]. *)
Definition unplaced (o : Object) : Prop := o_Namespace o = "".

(** A generator that stamps what it emits with the package's namespace. *)
Definition emits_for (pkg : Package) (o : Object) : Prop := stamped pkg o ∧ o_Namespace o = pkg_Namespace pkg.

Lemma stampMetadata_emits pkg obj : o_Namespace obj = "" → emits_for pkg (stampMetadata pkg obj).
Proof. intros E. split; [apply stampMetadata_stamped|]. rewrite stampMetadata_namespace, E. done. Qed.
#[export] Hint Resolve stampMetadata_emits : go.

(** C37: [stampMetadata] puts on an object exactly this: the package's namespace
    when it had none, the package label (over any user value), the managed-by
    label unless the user set one, every other user label as it was, the package
    as controller owner next to the references to other objects, which are kept
    in order; the spec, name, annotations and kind are untouched; and stamping
    twice is stamping once. *)
Theorem stampMetadata_correct pkg obj :
  let o := stampMetadata pkg obj in
  o_Namespace o = (if String.eqb (o_Namespace obj) "" then pkg_Namespace pkg else o_Namespace obj) ∧
  contents (o_Labels o) !! LabelPackage = Some (pkg_Name pkg) ∧
  contents (o_Labels o) !! LabelManagedBy =
    Some (default FieldManager (contents (o_Labels obj) !! LabelManagedBy)) ∧
  (∀ k, k ≠ LabelPackage → k ≠ LabelManagedBy →
     contents (o_Labels o) !! k = contents (o_Labels obj) !! k) ∧
  ownerOf pkg ∈ o_OwnerReferences o ∧
  filter (λ r, or_UID r ≠ pkg_UID pkg) (o_OwnerReferences o) =
    filter (λ r, or_UID r ≠ pkg_UID pkg) (o_OwnerReferences obj) ∧
  (o_Name o, o_Annotations o, o_Body o, o_GVK o) = (o_Name obj, o_Annotations obj, o_Body obj, o_GVK obj) ∧
  (o_OwnerReferences (stampMetadata pkg o) = o_OwnerReferences o ∧
   ∀ k, contents (o_Labels (stampMetadata pkg o)) !! k = contents (o_Labels o) !! k).
Proof.
  cbv zeta. destruct (stampMetadata_frame pkg obj) as (-> & -> & -> & ->).
  split_and!; [apply stampMetadata_namespace| | | | | |done| |].
  - by rewrite stampMetadata_label_lookup.
  - rewrite stampMetadata_label_lookup. destruct (decide _); [done|].
    destruct (contents (o_Labels obj) !! LabelManagedBy); [done|]. by destruct (decide _).
  - intros k Hp Hm. rewrite stampMetadata_label_lookup. destruct (decide _); [done|].
    destruct (contents (o_Labels obj) !! k); [done|]. by destruct (decide _).
  - rewrite stampMetadata_refs. apply stampOwner_elem.
  - rewrite stampMetadata_refs. apply (stampOwner_others (ownerOf pkg)).
  - by rewrite !stampMetadata_refs, stampOwner_idemp.
  - intros k. rewrite !stampMetadata_label_lookup. destruct (decide (k = LabelPackage)); [done|].
    destruct (contents (o_Labels obj) !! k); [done|]. by destruct (decide (k = LabelManagedBy)).
Qed.
