(* ===== verification/ShorthandValues.v ===== *)
(** * shorthand.go, second half: the values of shorthand maps

    The decoders of [true], [{enabled, podSelector, metadata, ...}] and literal
    rules, and the metadata a user adds to the generated objects. *)

From S2P Require Import Prelude GoStrings Json K8s ApiTypes Metadata.
Local Open Scope string_scope.
Local Open Scope list_scope.

Record shorthandMetadata := { sm_Labels : gomap string; sm_Annotations : gomap string }.

(** [Spec] is the [json.RawMessage] of a literal, as the document it holds:
    [None] when the member is absent. *)
Record literalTarget := {
  lt_Enabled : bool;
  lt_Metadata : option shorthandMetadata;
  lt_Spec : option json
}.
Record shorthandTarget := {
  st_Enabled : bool;
  st_PodSelector : gomap string;
  st_NamespaceSelector : gomap string;
  st_Metadata : option shorthandMetadata
}.
Record shorthandPeer := {
  K8s : gmap string shorthandTarget;
  sp_Definition : gmap string shorthandTarget;
  Cidr : gmap string shorthandTarget;
  Literal : gmap string literalTarget
}.
Record shorthandSource := {
  ss_PodSelector : gomap string;
  ss_Metadata : option shorthandMetadata;
  ss_To : option shorthandPeer;
  ss_From : option shorthandPeer
}.

(** ** flattenMatchLabels *)

(** The map of an [interface{}] that holds an object. *)
Definition object_map (ms : list (string * json)) : gmap string json :=
  foldl (λ m kv, <[kv.1 := kv.2]> m) ∅ ms.

(** The entries of a map whose value is a string. *)
Definition string_entries (m : gmap string json) : gmap string string :=
  omap (λ v, match v with JStr s => Some s | _ => None end) m.

Definition flattenMatchLabels (m : gomap json) : gomap string :=
  match m with
  | None => None
  | Some m =>
      match m !! "matchLabels" with
      | Some (JObj ms) => Some (string_entries (object_map ms))
      | _ => Some (string_entries m)
      end
  end.

(** ** Decoders *)

Definition decode_shorthandMetadata (j : json) : outcome shorthandMetadata :=
  ms ← struct_members j;
  labels ← dec_string_map (field "labels" ms);
  annotations ← dec_string_map (field "annotations" ms);
  Ok {| sm_Labels := labels; sm_Annotations := annotations |}.

Definition enabled_or_default (e : option bool) : bool :=
  match e with None => true | Some b => b end.

Definition literalTarget_UnmarshalJSON (j : json) : outcome literalTarget :=
  match j with
  | JBool b => Ok {| lt_Enabled := b; lt_Metadata := None; lt_Spec := None |}
  | _ =>
      ms ← struct_members j;
      enabled ← dec_ptr dec_bool (field "enabled" ms);
      metadata ← dec_ptr decode_shorthandMetadata (field "metadata" ms);
      Ok {| lt_Enabled := enabled_or_default enabled; lt_Metadata := metadata; lt_Spec := field "spec" ms |}
  end.

Definition shorthandTarget_UnmarshalJSON (j : json) : outcome shorthandTarget :=
  match j with
  | JBool b => Ok {| st_Enabled := b; st_PodSelector := None; st_NamespaceSelector := None; st_Metadata := None |}
  | _ =>
      ms ← struct_members j;
      enabled ← dec_ptr dec_bool (field "enabled" ms);
      podSelector ← dec_map dec_any (field "podSelector" ms);
      namespaceSelector ← dec_map dec_any (field "namespaceSelector" ms);
      metadata ← dec_ptr decode_shorthandMetadata (field "metadata" ms);
      Ok {| st_Enabled := enabled_or_default enabled;
            st_PodSelector := flattenMatchLabels podSelector;
            st_NamespaceSelector := flattenMatchLabels namespaceSelector;
            st_Metadata := metadata |}
  end.

Definition decode_shorthandPeer (j : json) : outcome shorthandPeer :=
  ms ← struct_members j;
  k8s ← dec_map shorthandTarget_UnmarshalJSON (field "k8s" ms);
  definition ← dec_map shorthandTarget_UnmarshalJSON (field "definition" ms);
  cidr ← dec_map shorthandTarget_UnmarshalJSON (field "cidr" ms);
  literal ← dec_map literalTarget_UnmarshalJSON (field "literal" ms);
  Ok {| K8s := contents k8s; sp_Definition := contents definition;
        Cidr := contents cidr; Literal := contents literal |}.

Definition shorthandSource_UnmarshalJSON (j : json) : outcome shorthandSource :=
  ms ← struct_members j;
  podSelector ← dec_map dec_any (field "podSelector" ms);
  metadata ← dec_ptr decode_shorthandMetadata (field "metadata" ms);
  to ← dec_ptr decode_shorthandPeer (field "to" ms);
  from ← dec_ptr decode_shorthandPeer (field "from" ms);
  Ok {| ss_PodSelector := flattenMatchLabels podSelector; ss_Metadata := metadata;
        ss_To := to; ss_From := from |}.

(** ** User metadata *)

Definition mergeShorthandMetadata (local remote : option shorthandMetadata) : option shorthandMetadata :=
  match local, remote with
  | None, None => None
  | _, _ =>
      let out := {| sm_Labels := None; sm_Annotations := None |} in
      let out := match local with
                 | Some l => {| sm_Labels := mergeMaps (sm_Labels out) (sm_Labels l);
                                sm_Annotations := mergeMaps (sm_Annotations out) (sm_Annotations l) |}
                 | None => out
                 end in
      let out := match remote with
                 | Some r => {| sm_Labels := mergeMaps (sm_Labels out) (sm_Labels r);
                                sm_Annotations := mergeMaps (sm_Annotations out) (sm_Annotations r) |}
                 | None => out
                 end in
      Some out
  end.

Definition applyShorthandMetadata (obj : Object) (meta : option shorthandMetadata) : Object :=
  match meta with
  | None => obj
  | Some meta =>
      let m := o_Meta obj in
      let m := if (0 <? maplen (sm_Labels meta))%nat
               then set_Labels (mergeMaps (sm_Labels meta) (om_Labels m)) m else m in
      let m := if (0 <? maplen (sm_Annotations meta))%nat
               then set_Annotations (mergeMaps (sm_Annotations meta) (om_Annotations m)) m else m in
      set_Meta m obj
  end.

(** ** Decoding always returns *)

Lemma dec_members_returns {A} (dec : json → outcome A) ms m :
  (∀ j, returns (dec j)) → returns (dec_members dec ms m).
Proof.
  intros Hdec. revert m. induction ms as [|[k v] ms IH]; intros m; simpl; [done|].
  apply bind_returns; [apply Hdec|]. intros x _. apply IH.
Qed.

Lemma dec_map_returns {A} (dec : json → outcome A) o :
  (∀ j, returns (dec j)) → returns (dec_map dec o).
Proof.
  intros Hdec. destruct o as [[]|]; try done. simpl.
  apply bind_returns; [by apply dec_members_returns|done].
Qed.

Lemma dec_ptr_returns {A} (dec : json → outcome A) o :
  (∀ j, returns (dec j)) → returns (dec_ptr dec o).
Proof.
  intros Hdec. destruct o as [j|]; [|done].
  assert (returns (x ← dec j; Ok (Some x))) as H by (apply bind_returns; [apply Hdec|done]).
  by destruct j.
Qed.

Lemma dec_val_returns {A} z (dec : json → outcome A) o :
  (∀ j, returns (dec j)) → returns (dec_val z dec o).
Proof. intros Hdec. destruct o as [[]|]; simpl; done. Qed.

Lemma struct_members_returns j : returns (struct_members j).
Proof. by destruct j. Qed.
Lemma dec_bool_returns j : returns (dec_bool j).
Proof. by destruct j. Qed.
Lemma dec_string_returns j : returns (dec_string j).
Proof. by destruct j. Qed.
Lemma dec_any_returns j : returns (dec_any j).
Proof. unfold dec_any. by destruct (any_ok j). Qed.
Lemma dec_int_returns j : returns (dec_int j).
Proof. destruct j; simpl; try done. by destruct (Atoi lit). Qed.
Lemma Unmarshal_returns {A} (dec : json → outcome A) raw :
  (∀ j, returns (dec j)) → returns (Unmarshal dec raw).
Proof. intros Hdec. unfold Unmarshal. by destruct (json_parse raw). Qed.
Lemma dec_string_map_returns o : returns (dec_string_map o).
Proof. apply dec_map_returns. intros j. apply dec_val_returns, dec_string_returns. Qed.
Lemma dec_slice_returns {A} (dec : json → outcome A) j :
  (∀ j, returns (dec j)) → returns (dec_slice dec j).
Proof. intros Hdec. destruct j; try done. by apply traverse_returns. Qed.

#[export] Hint Resolve dec_map_returns dec_ptr_returns dec_val_returns struct_members_returns
  dec_bool_returns dec_string_returns dec_any_returns dec_int_returns Unmarshal_returns
  dec_string_map_returns dec_slice_returns : go.

(** A chain of binds returns when each of its steps does. *)
Ltac returns_chain :=
  repeat match goal with
  | |- returns (_ ≫= _) => apply bind_returns; [eauto 6 with go|intros ? ?]
  | |- returns (let _ := _ in _) => cbv zeta
  | |- returns (if ?b then _ else _) => destruct b eqn:?
  | |- returns (match ?o with Some _ => _ | None => _ end) => destruct o eqn:?
  | |- returns (let '(_, _) := ?p in _) => destruct p as [? ?]
  end; eauto 6 with go.

Lemma decode_shorthandMetadata_returns j : returns (decode_shorthandMetadata j).
Proof. unfold decode_shorthandMetadata. returns_chain. Qed.
#[export] Hint Resolve decode_shorthandMetadata_returns : go.
Lemma literalTarget_returns j : returns (literalTarget_UnmarshalJSON j).
Proof. destruct j; simpl; returns_chain. Qed.
Lemma shorthandTarget_returns j : returns (shorthandTarget_UnmarshalJSON j).
Proof. destruct j; simpl; returns_chain. Qed.
#[export] Hint Resolve literalTarget_returns shorthandTarget_returns : go.
Lemma decode_shorthandPeer_returns j : returns (decode_shorthandPeer j).
Proof. unfold decode_shorthandPeer. returns_chain. Qed.
#[export] Hint Resolve decode_shorthandPeer_returns : go.
Lemma shorthandSource_returns j : returns (shorthandSource_UnmarshalJSON j).
Proof. unfold shorthandSource_UnmarshalJSON. returns_chain. Qed.
#[export] Hint Resolve shorthandSource_returns : go.

(** ** Metadata: lemmas *)

Lemma maplen_pos {A} (m : gomap A) : (0 <? maplen m)%nat = false ↔ contents m = ∅.
Proof. rewrite Nat.ltb_ge, <-maplen_zero. lia. Qed.

Definition user_labels (meta : option shorthandMetadata) : gmap string string :=
  match meta with Some m => contents (sm_Labels m) | None => ∅ end.
Definition user_annotations (meta : option shorthandMetadata) : gmap string string :=
  match meta with Some m => contents (sm_Annotations m) | None => ∅ end.

Lemma mergeMaps_nil_l b : contents (mergeMaps None b) = contents b.
Proof. by rewrite mergeMaps_contents, contents_nil, (right_id_L ∅ (∪)). Qed.

Lemma merge_user_labels l r :
  user_labels (mergeShorthandMetadata l r) = user_labels r ∪ user_labels l ∧
  user_annotations (mergeShorthandMetadata l r) = user_annotations r ∪ user_annotations l.
Proof.
  destruct l as [l|], r as [r|]; simpl; rewrite ?mergeMaps_contents, ?contents_nil;
    rewrite ?(right_id_L ∅ (∪)), ?(left_id_L ∅ (∪)); done.
Qed.

Lemma apply_labels obj meta :
  contents (o_Labels (applyShorthandMetadata obj meta)) = contents (o_Labels obj) ∪ user_labels meta ∧
  contents (o_Annotations (applyShorthandMetadata obj meta)) = contents (o_Annotations obj) ∪ user_annotations meta.
Proof.
  destruct meta as [m|]; simpl; [|by rewrite !(right_id_L ∅ (∪))].
  unfold o_Labels, o_Annotations.
  destruct (0 <? maplen (sm_Labels m))%nat eqn:El; destruct (0 <? maplen (sm_Annotations m))%nat eqn:Ea;
    simpl; rewrite ?mergeMaps_contents;
    repeat match goal with H : _ = false |- _ => apply maplen_pos in H; rewrite H end;
    rewrite ?(right_id_L ∅ (∪)); done.
Qed.

Lemma apply_frame obj meta :
  let o := applyShorthandMetadata obj meta in
  o_Name o = o_Name obj ∧ o_Namespace o = o_Namespace obj ∧ o_Body o = o_Body obj ∧
  o_OwnerReferences o = o_OwnerReferences obj ∧ o_GVK o = o_GVK obj.
Proof.
  destruct meta as [m|]; simpl; [|done]. unfold o_Name, o_Namespace, o_OwnerReferences.
  destruct (0 <? maplen (sm_Labels m))%nat; destruct (0 <? maplen (sm_Annotations m))%nat; done.
Qed.

(** User metadata never overrides what the generator sets: on an object to
    which the merged metadata of a local and a remote entry is applied, a label
    (or annotation) has the object's own value if it has one, else the remote
    entry's, else the local entry's; nothing else of the object changes. *)
Theorem shorthand_metadata_precedence obj local remote k :
  let o := applyShorthandMetadata obj (mergeShorthandMetadata local remote) in
  contents (o_Labels o) !! k =
    match contents (o_Labels obj) !! k, user_labels remote !! k, user_labels local !! k with
    | Some v, _, _ => Some v | None, Some v, _ => Some v | None, None, v => v end ∧
  contents (o_Annotations o) !! k =
    match contents (o_Annotations obj) !! k, user_annotations remote !! k, user_annotations local !! k with
    | Some v, _, _ => Some v | None, Some v, _ => Some v | None, None, v => v end ∧
  o_Name o = o_Name obj ∧ o_Namespace o = o_Namespace obj ∧ o_Body o = o_Body obj.
Proof.
  cbv zeta. destruct (apply_labels obj (mergeShorthandMetadata local remote)) as [-> ->].
  destruct (merge_user_labels local remote) as [-> ->].
  destruct (apply_frame obj (mergeShorthandMetadata local remote)) as (? & ? & ? & _).
  split_and!; [..|done|done|done]; rewrite !lookup_union;
    repeat match goal with |- context [?m !! k] => destruct (m !! k) end; done.
Qed.

(** The three shapes of a shorthand target: the documents [true] and
    [false] switch it on and off; an object is on unless its [enabled] is
    [false], so an empty object and [null] are on; anything else is an error. *)
Theorem shorthandTarget_shapes j :
  match j with
  | JBool b => shorthandTarget_UnmarshalJSON j =
      Ok {| st_Enabled := b; st_PodSelector := None; st_NamespaceSelector := None; st_Metadata := None |}
  | JNull => shorthandTarget_UnmarshalJSON j =
      Ok {| st_Enabled := true; st_PodSelector := None; st_NamespaceSelector := None; st_Metadata := None |}
  | JObj ms => ∀ t, shorthandTarget_UnmarshalJSON j = Ok t →
      (st_Enabled t = false ↔ field "enabled" ms = Some (JBool false)) ∧
      (st_PodSelector t = None ↔ field "podSelector" ms ∈ [None; Some JNull]) ∧
      (st_NamespaceSelector t = None ↔ field "namespaceSelector" ms ∈ [None; Some JNull])
  | _ => shorthandTarget_UnmarshalJSON j = Err JsonError
  end.
Proof.
  destruct j as [| | | | |ms]; try done. intros t H. simpl in H.
  assert (∀ o m, dec_map dec_any o = Ok m → flattenMatchLabels m = None ↔ o ∈ [None; Some JNull]) as Hsel.
  { intros o m Hm. rewrite !elem_of_cons, elem_of_nil.
    destruct o as [[| | | | |l]|]; simpl in Hm; simplify_eq; simpl; try tauto.
    destruct (dec_members dec_any l ∅) as [m'| | |]; simplify_eq/=. destruct (m' !! _) as [[]|]; naive_solver. }
  destruct (dec_ptr dec_bool (field "enabled" ms)) as [e| | |] eqn:He; try done. simpl in H.
  destruct (dec_map dec_any (field "podSelector" ms)) eqn:Hp; try done. simpl in H.
  destruct (dec_map dec_any (field "namespaceSelector" ms)) eqn:Hn; try done. simpl in H.
  destruct (dec_ptr decode_shorthandMetadata (field "metadata" ms)); simplify_eq/=.
  split_and!; [|by apply Hsel..].
  destruct (field "enabled" ms) as [[]|]; simplify_eq/=; naive_solver.
Qed.
