(* ===== verification/NetCIDR.v ===== *)
(** * The part of Go's [net] package the generator uses: ParseCIDR and Contains

    Addresses are lists of bytes.  [ParseCIDR] returns the 16-byte address and
    the masked network; a dotted address keeps a 4-byte mask. *)

From S2P Require Import Prelude GoStrings.
Local Open Scope string_scope.
Local Open Scope list_scope.

Definition v4InV6Prefix : list Z := [0; 0; 0; 0; 0; 0; 0; 0; 0; 0; 255; 255]%Z.

(** ** netip.ParseAddr *)

(** One field of a dotted address: no sign, no leading zero, at most 255. *)
Definition parse_octet (s : string) : option Z :=
  match s with
  | "" => None
  | String c rest =>
      if Ascii.eqb c "0" && negb (String.eqb rest "") then None
      else v ← digits_val 0 s; if (v <=? 255)%Z then Some v else None
  end.

Definition parseIPv4Fields (s : string) : option (list Z) :=
  match SplitByte s "." with
  | [a; b; c; d] =>
      a ← parse_octet a; b ← parse_octet b; c ← parse_octet c; d ← parse_octet d;
      Some [a; b; c; d]
  | _ => None
  end.

Definition hex_digit (c : ascii) : option Z :=
  if is_digit c then Some (digit_val c)
  else if in_range "a" "f" c then Some (Z.of_N (code c) - 87)%Z
  else if in_range "A" "F" c then Some (Z.of_N (code c) - 55)%Z
  else None.

(** The hexadecimal digits at the start of a field: how many, their value, the rest. *)
Fixpoint hex_run (s : string) (off acc : Z) : Z * Z * string :=
  match s with
  | String c s' =>
      match hex_digit c with
      | Some d => hex_run s' (off + 1)%Z (acc * 16 + d)%Z
      | None => (off, acc, s)
      end
  | "" => (off, acc, "")
  end.

(** The loop over the fields: [ip] holds the bytes read, [ell] the place of [::].
    Each iteration but the last reads two bytes, so eight are enough fuel. *)
Fixpoint parseIPv6Fields (fuel : nat) (s : string) (ip : list Z) (ell : option nat)
    : option (string * list Z * option nat) :=
  match fuel with
  | 0 => Some (s, ip, ell)
  | S fuel =>
      let '(off, acc, rest) := hex_run s 0 0 in
      if (off =? 0)%Z || (4 <? off)%Z then None
      else match rest with
      | "" => Some ("", ip ++ [acc / 256; acc mod 256]%Z, ell)
      | String c rest1 =>
          if Ascii.eqb c "." then
            match ell with
            | None => if (length ip =? 12)%nat then v ← parseIPv4Fields s; Some ("", ip ++ v, ell) else None
            | Some _ => if (16 <? length ip + 4)%nat then None else v ← parseIPv4Fields s; Some ("", ip ++ v, ell)
            end
          else if negb (Ascii.eqb c ":") then None
          else
            let ip := ip ++ [acc / 256; acc mod 256]%Z in
            match rest1 with
            | "" => None
            | String d rest2 =>
                if Ascii.eqb d ":" then
                  match ell with
                  | Some _ => None
                  | None => match rest2 with
                            | "" => Some ("", ip, Some (length ip))
                            | _ => parseIPv6Fields fuel rest2 ip (Some (length ip))
                            end
                  end
                else parseIPv6Fields fuel rest1 ip ell
            end
      end
  end.

Definition parseIPv6 (s : string) : option (list Z) :=
  let '(s, ell) :=
    if HasPrefix s "::" then (str_drop 2 s, Some 0) else (s, None) in
  if (match ell with Some _ => String.eqb s "" | None => false end) then Some (replicate 16 0%Z)
  else
    '(s, ip, ell) ← parseIPv6Fields 8 s [] ell;
    if negb (String.eqb s "") then None
    else if (length ip <? 16)%nat then
      match ell with
      | None => None
      | Some e => Some (take e ip ++ replicate (16 - length ip) 0%Z ++ drop e ip)
      end
    else match ell with Some _ => None | None => Some ip end.

(** The family of an address and its 16 bytes. The first '.' or ':' decides. *)
Definition ParseAddr (s : string) : option (bool * list Z) :=
  let dot := Index s "." in
  let colon := Index s ":" in
  if Contains s "%" then None
  else if (0 <=? dot)%Z && ((colon <? 0)%Z || (dot <? colon)%Z)
  then v ← parseIPv4Fields s; Some (true, v4InV6Prefix ++ v)
  else if (0 <=? colon)%Z then v ← parseIPv6 s; Some (false, v)
  else None.

(** ** Masks *)

Fixpoint mask_bytes (bytes : nat) (n : Z) : list Z :=
  match bytes with
  | 0 => []
  | S bytes =>
      if (8 <=? n)%Z then 255%Z :: mask_bytes bytes (n - 8)
      else (255 - Z.shiftr 255 n)%Z :: mask_bytes bytes 0
  end.
Definition CIDRMask (ones bits : Z) : list Z := mask_bytes (Z.to_nat (bits / 8)) ones.

Definition and_bytes (a m : list Z) : list Z := zip_with Z.land a m.

Record IPNet := { net_IP : list Z; net_Mask : list Z; net_Ones : Z }.

Definition bytes_eqb (a b : list Z) : bool := bool_decide (a = b).

(** [ip.To4()] of 16 or 4 bytes. *)
Definition To4 (ip : list Z) : option (list Z) :=
  if (length ip =? 4)%nat then Some ip
  else if (length ip =? 16)%nat && bytes_eqb (take 12 ip) v4InV6Prefix then Some (drop 12 ip)
  else None.

(** [ip.Mask(m)] of a 16-byte address. *)
Definition ip_Mask (ip mask : list Z) : list Z :=
  if (length mask =? 4)%nat && bytes_eqb (take 12 ip) v4InV6Prefix then and_bytes (drop 12 ip) mask
  else and_bytes ip mask.

(** ** ParseCIDR *)

(** [dtoi]: the digits of the mask, below 2^24. *)
Definition parse_mask (s : string) : option Z :=
  match s with
  | "" => None
  | _ => v ← digits_val 0 s; if (v <? 16777215)%Z then Some v else None
  end.

Definition ParseCIDR (s : string) : option (list Z * IPNet) :=
  let i := Index s "/" in
  if (i <? 0)%Z then None
  else
    '(is4, ip) ← ParseAddr (str_take (Z.to_nat i) s);
    n ← parse_mask (str_drop (Z.to_nat i + 1) s);
    let bits := if is4 : bool then 32%Z else 128%Z in
    if (bits <? n)%Z then None
    else let m := CIDRMask n bits in
         Some (ip, {| net_IP := ip_Mask ip m; net_Mask := m; net_Ones := n |}).

(** ** Contains *)

Definition networkNumberAndMask (n : IPNet) : option (list Z * list Z) :=
  match To4 (net_IP n) with
  | Some ip =>
      if (length (net_Mask n) =? 4)%nat then Some (ip, net_Mask n)
      else if (length (net_Mask n) =? 16)%nat then Some (ip, drop 12 (net_Mask n))
      else None
  | None =>
      if (length (net_IP n) =? 16)%nat && (length (net_Mask n) =? 16)%nat then Some (net_IP n, net_Mask n) else None
  end.

Definition net_Contains (n : IPNet) (ip : list Z) : bool :=
  match networkNumberAndMask n with
  | None => false
  | Some (nn, m) =>
      let ip := default ip (To4 ip) in
      if negb (length ip =? length nn)%nat then false
      else bytes_eqb (and_bytes nn m) (and_bytes ip m)
  end.

(** ** Lemmas: masks are prefixes *)

Lemma mask_bytes_length k n : length (mask_bytes k n) = k.
Proof. revert n. induction k as [|k IH]; intros n; simpl; [done|]. destruct (8 <=? n)%Z; simpl; by rewrite IH. Qed.

Lemma CIDRMask4_length n : length (CIDRMask n 32) = 4%nat.
Proof. apply mask_bytes_length. Qed.

(** A shorter mask is implied by a longer one: 33 x 33 cases. *)
Lemma mask4_prefix n m :
  (0 ≤ n)%Z → (n ≤ m)%Z → (m ≤ 32)%Z → and_bytes (CIDRMask n 32) (CIDRMask m 32) = CIDRMask n 32.
Proof.
  intros Hn Hnm Hm.
  assert (Forall (λ a, Forall (λ b, (b < a)%nat ∨
    and_bytes (CIDRMask (Z.of_nat a) 32) (CIDRMask (Z.of_nat b) 32) = CIDRMask (Z.of_nat a) 32) (seq 0 33)) (seq 0 33)) as H.
  { apply (bool_decide_unpack _). vm_compute. done. }
  rewrite Forall_forall in H. specialize (H (Z.to_nat n)). rewrite Forall_forall in H.
  destruct (H ltac:(apply elem_of_seq; lia) (Z.to_nat m) ltac:(apply elem_of_seq; lia)) as [?|E]; [lia|].
  by rewrite !Z2Nat.id in E by lia.
Qed.

Lemma and_bytes_assoc a b c : and_bytes (and_bytes a b) c = and_bytes a (and_bytes b c).
Proof.
  unfold and_bytes. revert b c. induction a as [|x a IH]; intros [|y b] [|z c]; simpl; try done.
  by rewrite <-Z.land_assoc, IH.
Qed.
Lemma and_bytes_comm a b : and_bytes a b = and_bytes b a.
Proof.
  unfold and_bytes. revert b. induction a as [|x a IH]; intros [|y b]; simpl; try done.
  by rewrite Z.land_comm, IH.
Qed.
Lemma and_bytes_diag a : and_bytes a a = a.
Proof. unfold and_bytes. induction a as [|x a IH]; [done|]. simpl. by rewrite Z.land_diag, IH. Qed.
Lemma and_bytes_length a b : length a = length b → length (and_bytes a b) = length a.
Proof. intros H. unfold and_bytes. rewrite length_zip_with_l_eq; done. Qed.

Lemma parse_octet_byte s v : parse_octet s = Some v → (0 ≤ v ≤ 255)%Z.
Proof.
  destruct s as [|c s]; [done|]. unfold parse_octet. destruct (_ && _); [done|].
  destruct (digits_val 0 (String c s)) as [z|] eqn:E; [|done]. simpl.
  destruct (Z.leb_spec z 255); [|done]. intros [= <-]. split; [|done].
  by eapply digits_val_nonneg.
Qed.

(** A dotted address and mask parse to a network on 4 bytes. *)
Record v4_net (ip : list Z) (n : IPNet) : Prop := {
  v4_addr : ∃ a, length a = 4%nat ∧ ip = v4InV6Prefix ++ a ∧ net_IP n = and_bytes a (net_Mask n);
  v4_bytes : Forall (λ x, 0 ≤ x ≤ 255)%Z ip;
  v4_mask : net_Mask n = CIDRMask (net_Ones n) 32;
  v4_ones : (0 ≤ net_Ones n ≤ 32)%Z
}.

Definition is_v4 (n : IPNet) : bool := (length (net_Mask n) =? 4)%nat.

Lemma parseIPv4Fields_bytes s v : parseIPv4Fields s = Some v → length v = 4%nat ∧ Forall (λ x, 0 ≤ x ≤ 255)%Z v.
Proof.
  unfold parseIPv4Fields. destruct (SplitByte s ".") as [|a [|b [|c [|d [|]]]]]; try done.
  destruct (parse_octet a) eqn:Ea, (parse_octet b) eqn:Eb, (parse_octet c) eqn:Ec, (parse_octet d) eqn:Ed; simpl; try done.
  intros [= <-]. split; [done|]. repeat constructor; eauto using parse_octet_byte; by eapply parse_octet_byte.
Qed.

Lemma parse_mask_nonneg s n : parse_mask s = Some n → (0 ≤ n)%Z.
Proof.
  destruct s as [|c s]; [done|]. unfold parse_mask.
  destruct (digits_val 0 (String c s)) as [z|] eqn:E; [|done]. simpl.
  destruct (z <? 16777215)%Z; [|done]. intros [= <-]. by eapply digits_val_nonneg.
Qed.

Lemma ParseCIDR_v4 s ip n : ParseCIDR s = Some (ip, n) → is_v4 n = true → v4_net ip n.
Proof.
  unfold ParseCIDR. destruct (Index s "/" <? 0)%Z; [done|].
  destruct (ParseAddr _) as [[is4 a]|] eqn:Ha; [|done]. simpl.
  destruct (parse_mask _) as [k|] eqn:Hk; [|done]. simpl.
  destruct is4.
  - destruct (Z.ltb_spec 32 k); [done|]. intros [= <- <-] _.
    unfold ParseAddr in Ha. destruct (Contains _ _); [done|].
    destruct (_ && _); [|by destruct (0 <=? _)%Z; [destruct (parseIPv6 _)|]; simplify_eq/=].
    destruct (parseIPv4Fields _) as [v|] eqn:Hv; [|done]. injection Ha as <-.
    apply parseIPv4Fields_bytes in Hv as [Hv Hbytes]. apply parse_mask_nonneg in Hk.
    split; [|by apply (Forall_app _ v4InV6Prefix); split; [repeat constructor; done|]|done|simpl; lia]. exists v. split_and!; [done..|]. simpl. unfold ip_Mask.
    by rewrite CIDRMask4_length.
  - destruct (Z.ltb_spec 128 k); [done|]. intros [= <- <-] H6. unfold is_v4 in H6. simpl in H6.
    unfold CIDRMask in H6. rewrite mask_bytes_length in H6. by vm_compute in H6.
Qed.

(** On 4-byte networks [Contains] compares masked addresses. *)
Lemma v4_contains ip n b :
  v4_net ip n → length b = 4%nat →
  net_Contains n b = bytes_eqb (and_bytes (net_IP n) (net_Mask n)) (and_bytes b (net_Mask n)) ∧
  net_Contains n (v4InV6Prefix ++ b) = net_Contains n b.
Proof.
  intros [(a & Ha & -> & Hip) _ Hm _] Hb.
  assert (length (net_Mask n) = 4%nat) as Hml by (rewrite Hm; apply CIDRMask4_length).
  assert (length (net_IP n) = 4%nat) as Hil by (rewrite Hip, and_bytes_length; lia).
  assert (∀ l : list Z, length l = 4%nat → To4 l = Some l) as H4 by (intros l Hl; unfold To4; by rewrite Hl).
  unfold net_Contains, networkNumberAndMask. rewrite (H4 (net_IP n) Hil), (H4 b Hb), Hml.
  assert (To4 (v4InV6Prefix ++ b) = Some b) as ->.
  { unfold To4. rewrite length_app, Hb. done. }
  change (default b (Some b)) with b. change (default (v4InV6Prefix ++ b) (Some b)) with b.
  change (4 =? 4)%nat with true. cbv iota beta. by rewrite Hb, Hil.
Qed.

Lemma v4_base_contains ip n : v4_net ip n → net_Contains n ip = true.
Proof.
  intros Hn. pose proof Hn as [(a & Ha & -> & Hip) _ Hm _].
  destruct (v4_contains _ n a Hn Ha) as [Hc ->]. rewrite Hc, Hip.
  apply bool_decide_eq_true. rewrite and_bytes_assoc. f_equal.
  apply and_bytes_diag.
Qed.

(** A network with a longer mask whose base address lies in another network is
    a subset of it. *)
Lemma v4_subset ip1 n1 ip2 n2 b :
  v4_net ip1 n1 → v4_net ip2 n2 → (net_Ones n1 ≤ net_Ones n2)%Z →
  net_Contains n1 ip2 = true → length b = 4%nat →
  net_Contains n2 b = true → net_Contains n1 b = true.
Proof.
  intros H1 H2 Hle Hbase Hb Hin. pose proof H2 as [(a2 & Ha2 & -> & Hip2) _ Hm2 Ho2]. pose proof H1 as [_ _ Hm1 Ho1].
  destruct (v4_contains _ n1 a2 H1 Ha2) as [Hc1 Hc1']. rewrite Hc1', Hc1 in Hbase.
  destruct (v4_contains _ n1 b H1 Hb) as [-> _].
  destruct (v4_contains _ n2 b H2 Hb) as [Hc2 _]. rewrite Hc2 in Hin.
  apply bool_decide_eq_true in Hbase, Hin. apply bool_decide_eq_true.
  rewrite Hip2, and_bytes_assoc, and_bytes_diag in Hin.
  rewrite Hbase, Hm1, <-(mask4_prefix (net_Ones n1) (net_Ones n2)) by lia.
  rewrite <-Hm1, <-Hm2, (and_bytes_comm (net_Mask n1)), <-!and_bytes_assoc. by rewrite Hin.
Qed.

(** ** Networks as sets of addresses *)

Definition address (b : list Z) : Prop := length b = 4%nat ∧ Forall (λ x, 0 ≤ x ≤ 255)%Z b.
(** Every IPv4 address of the one network is in the other. *)
Definition net_inside (n n' : IPNet) : Prop := ∀ b, address b → net_Contains n b = true → net_Contains n' b = true.

Definition xor_bytes (a c : list Z) : list Z := zip_with Z.lxor a c.
(** The bit that a mask of [n + 1] bits sees and one of [n] bits does not. *)
Definition next_bit (n : Z) : list Z := xor_bytes (CIDRMask (n + 1) 32) (CIDRMask n 32).

Lemma next_bit_seen n m :
  (0 ≤ n)%Z → (n < m)%Z → (m ≤ 32)%Z →
  address (next_bit n) ∧ and_bytes (next_bit n) (CIDRMask n 32) = replicate 4 0%Z ∧
  and_bytes (next_bit n) (CIDRMask m 32) ≠ replicate 4 0%Z.
Proof.
  intros Hn Hnm Hm.
  assert (Forall (λ a, Forall (λ b, (b ≤ a)%nat ∨
    (length (next_bit (Z.of_nat a)) = 4%nat ∧ Forall (λ x, 0 ≤ x ≤ 255)%Z (next_bit (Z.of_nat a))) ∧
    and_bytes (next_bit (Z.of_nat a)) (CIDRMask (Z.of_nat a) 32) = replicate 4 0%Z ∧
    and_bytes (next_bit (Z.of_nat a)) (CIDRMask (Z.of_nat b) 32) ≠ replicate 4 0%Z) (seq 0 33)) (seq 0 33)) as H.
  { apply (bool_decide_unpack _). vm_compute. done. }
  rewrite Forall_forall in H. specialize (H (Z.to_nat n)). rewrite Forall_forall in H.
  destruct (H ltac:(apply elem_of_seq; lia) (Z.to_nat m) ltac:(apply elem_of_seq; lia)) as [?|E]; [lia|].
  by rewrite !Z2Nat.id in E by lia.
Qed.

Lemma lxor_byte x y : (0 ≤ x ≤ 255)%Z → (0 ≤ y ≤ 255)%Z → (0 ≤ Z.lxor x y ≤ 255)%Z.
Proof.
  intros Hx Hy. assert (0 ≤ Z.lxor x y)%Z by (apply Z.lxor_nonneg; lia). split; [done|].
  destruct (decide (Z.lxor x y = 0)%Z) as [->|Hne]; [done|].
  assert (Z.lxor x y < 2 ^ 8)%Z; [|lia]. apply Z.log2_lt_pow2; [lia|].
  pose proof (Z.log2_lxor x y). pose proof (Z.log2_le_mono x 255). pose proof (Z.log2_le_mono y 255).
  change (Z.log2 255) with 7%Z in *. lia.
Qed.
Lemma xor_address a c : address a → address c → address (xor_bytes a c).
Proof.
  intros [Ha Hba] [Hc Hbc]. unfold xor_bytes. split; [rewrite length_zip_with; lia|].
  eapply Forall_zip_with_fst; [exact Hba|]. eapply Forall_impl; [exact Hbc|]. intros y Hy x Hx. by apply lxor_byte.
Qed.

Lemma and_xor_bytes a c m : and_bytes (xor_bytes a c) m = xor_bytes (and_bytes a m) (and_bytes c m).
Proof.
  unfold and_bytes, xor_bytes. revert c m. induction a as [|x a IH]; intros [|y c] [|z m]; simpl; try done.
  f_equal; [|apply IH]. apply Z.bits_inj'. intros i _. rewrite !Z.lxor_spec, !Z.land_spec, !Z.lxor_spec.
  by destruct (Z.testbit x i), (Z.testbit y i), (Z.testbit z i).
Qed.
Lemma xor_bytes_zero a n : length a = n → xor_bytes a (replicate n 0%Z) = a.
Proof. intros <-. unfold xor_bytes. induction a as [|x a IH]; [done|]. simpl. by rewrite Z.lxor_0_r, IH. Qed.
Lemma xor_bytes_cancel a c : length a = length c → xor_bytes a c = a → c = replicate (length c) 0%Z.
Proof.
  unfold xor_bytes. revert c. induction a as [|x a IH]; intros [|y c] Hl; simpl in *; try done.
  intros [= Hx Hac]. rewrite <-(IH c) by (done || lia). f_equal. apply (f_equal (Z.lxor x)) in Hx.
  by rewrite <-Z.lxor_assoc, !Z.lxor_nilpotent in Hx.
Qed.

(** A dotted network's own address. *)
Lemma v4_base ip n : v4_net ip n → ∃ a, address a ∧ ip = v4InV6Prefix ++ a ∧ net_IP n = and_bytes a (net_Mask n).
Proof.
  intros [(a & Ha & -> & Hip) Hb _ _]. exists a. split; [|done]. split; [done|]. by apply Forall_app in Hb as [_ ?].
Qed.
Lemma v4_contains_iff ip n b :
  v4_net ip n → length b = 4%nat → net_Contains n b = true ↔ and_bytes (net_IP n) (net_Mask n) = and_bytes b (net_Mask n).
Proof. intros Hn Hb. destruct (v4_contains ip n b Hn Hb) as [-> _]. apply bool_decide_eq_true. Qed.

(** A dotted network has no address of another form. *)
Lemma v4_contains_only ip n b : v4_net ip n → To4 b = None → net_Contains n b = false.
Proof.
  intros [(a & Ha & -> & Hip) _ Hm _] Hb.
  assert (length (net_Mask n) = 4%nat) as Hml by (rewrite Hm; apply CIDRMask4_length).
  assert (length (net_IP n) = 4%nat) as Hil by (rewrite Hip, and_bytes_length; lia).
  unfold net_Contains, networkNumberAndMask. assert (To4 (net_IP n) = Some (net_IP n)) as -> by (unfold To4; by rewrite Hil).
  rewrite Hml, Hb. cbn [Nat.eqb default from_option id]. unfold To4 in Hb. rewrite Hil.
  by destruct (Nat.eqb_spec (length b) 4).
Qed.

(** Networks one inside the other: what the two tests of the source decide. *)
Lemma net_inside_iff ip1 n1 ip2 n2 :
  v4_net ip1 n1 → v4_net ip2 n2 → net_inside n1 n2 ↔ (net_Ones n2 ≤ net_Ones n1)%Z ∧ net_Contains n2 ip1 = true.
Proof.
  intros H1 H2. split.
  - intros Hin. destruct (v4_base _ _ H1) as (a & Ha & -> & Hip). pose proof (v4_base_contains _ _ H1) as Hbase.
    destruct (v4_contains _ n1 a H1 (proj1 Ha)) as [_ E1]. destruct (v4_contains _ n2 a H2 (proj1 Ha)) as [_ E2].
    rewrite E1 in Hbase. rewrite E2. split; [|by apply Hin]. destruct (Z.le_gt_cases (net_Ones n2) (net_Ones n1)) as [|Hlt]; [done|exfalso].
    pose proof H1 as [_ _ Hm1 Ho1]. pose proof H2 as [_ _ Hm2 Ho2].
    destruct (next_bit_seen (net_Ones n1) (net_Ones n2)) as (Hc & Hunseen & Hseen); [lia..|].
    rewrite <-Hm1 in Hunseen. rewrite <-Hm2 in Hseen. pose proof (xor_address _ _ Ha Hc) as Hx.
    assert (net_Contains n1 (xor_bytes a (next_bit (net_Ones n1))) = true) as Hx1.
    { apply (v4_contains_iff _ _ _ H1 (proj1 Hx)). apply (v4_contains_iff _ _ _ H1 (proj1 Ha)) in Hbase. rewrite Hbase.
      rewrite and_xor_bytes, Hunseen, xor_bytes_zero; [done|]. rewrite and_bytes_length; [apply Ha|].
      rewrite Hm1, CIDRMask4_length. apply Ha. }
    apply Hin in Hx1; [|done]. apply Hin in Hbase; [|done].
    apply (v4_contains_iff _ _ _ H2 (proj1 Ha)) in Hbase. apply (v4_contains_iff _ _ _ H2 (proj1 Hx)) in Hx1.
    rewrite Hbase, and_xor_bytes in Hx1. symmetry in Hx1. apply Hseen.
    assert (length (net_Mask n2) = 4%nat) as Hml by (rewrite Hm2; apply CIDRMask4_length).
    apply xor_bytes_cancel in Hx1; [|rewrite !and_bytes_length; destruct Ha, Hc; lia].
    rewrite Hx1, and_bytes_length by (destruct Hc; lia). by rewrite (proj1 Hc).
  - intros [Hle Hc] b [Hb _]. by apply (v4_subset ip2 n2 ip1 n1).
Qed.
