(* ===== verification/NetpolCommon.v ===== *)
(** * networkpolicies.go: the helpers all NetworkPolicy generators share *)

From S2P Require Import Prelude GoStrings Json K8s ApiTypes External Names Metadata NetCIDR.
Local Open Scope string_scope.
Local Open Scope list_scope.

Definition defaultEgressExcludeCIDRs : list string := ["169.254.169.254/32"].

Definition excludeCIDRsFor (spec : option NetworkPolicies) : list string :=
  match spec with
  | None => defaultEgressExcludeCIDRs
  | Some np =>
      match NP_Egress np with
      | None => defaultEgressExcludeCIDRs
      | Some e => match Egress_ExcludeCIDRs e with
                  | None => defaultEgressExcludeCIDRs
                  | Some l => l
                  end
      end
  end.

(** The loop of [applyExcludeCIDRs]: the exclusions it keeps. *)
Fixpoint keepExclusions (cidr : string) (ruleNet : IPNet) (exclusions : list string) : list string :=
  match exclusions with
  | [] => []
  | ex :: rest =>
      if String.eqb ex cidr then keepExclusions cidr ruleNet rest
      else match ParseCIDR ex with
      | None => keepExclusions cidr ruleNet rest
      | Some (exIP, exNet) =>
          if (net_Ones exNet <? net_Ones ruleNet)%Z then keepExclusions cidr ruleNet rest
          else if negb (net_Contains ruleNet exIP) then keepExclusions cidr ruleNet rest
          else ex :: keepExclusions cidr ruleNet rest
      end
  end.

Definition applyExcludeCIDRs (cidr : string) (exclusions : list string) : option (list string) :=
  if (length exclusions =? 0)%nat then None
  else match ParseCIDR cidr with
  | None => None
  | Some (_, ruleNet) =>
      let out := keepExclusions cidr ruleNet exclusions in
      if (length out =? 0)%nat then None else Some out
  end.

Definition remoteNamespaceSelector (ns : string) (override : gomap string) : LabelSelector :=
  if (0 <? maplen override)%nat then {| MatchLabels := override; MatchExpressions := [] |}
  else if String.eqb ns "*" then emptySelector
  else {| MatchLabels := Some {["kubernetes.io/metadata.name" := ns]}; MatchExpressions := [] |}.

Definition remotePodSelector (pod : string) (override : gomap string) : LabelSelector :=
  if (0 <? maplen override)%nat then {| MatchLabels := override; MatchExpressions := [] |}
  else if String.eqb pod "" || String.eqb pod "*" then emptySelector
  else {| MatchLabels := Some {["app.kubernetes.io/name" := pod]}; MatchExpressions := [] |}.

Definition defaultNetpolLabels (direction : string) : gomap string :=
  Some (<["network-policies.bigbang.dev/direction" := direction]> {[LabelNetpolSource := LabelNetpolSourceValue]}).

(** [json.Marshal] of a map of raw documents: the members in key order; a
    document that is not JSON is an error, an empty one is [null]. *)
Definition raw_document (v : JSON) : outcome json :=
  if String.eqb (Raw v) "" then Ok JNull
  else match json_parse (Raw v) with Some j => Ok j | None => Err JsonError end.
Definition Marshal_raw_map (m : gmap string JSON) : outcome json :=
  ms ← traverse (λ k, match m !! k with
                      | Some v => j ← raw_document v; Ok (k, j)
                      | None => Ok (k, JNull)
                      end) (sortedKeys m);
  Ok (JObj ms).

Section NetpolCommon.
Context `{Ext}.

Definition buildNetpolPorts (protocol : string) (ports : list Z) (hasRange : bool) : list NetworkPolicyPort :=
  if (length ports =? 0)%nat then []
  else
    let proto := if String.eqb (ToUpper protocol) "UDP" then ProtocolUDP else ProtocolTCP in
    match hasRange, ports with
    | true, [a; b] => [{| npp_Protocol := Some proto; npp_Port := Some (FromInt a); npp_EndPort := Some (int32_wrap b) |}]
    | _, _ => (λ p, {| npp_Protocol := Some proto; npp_Port := Some (FromInt p); npp_EndPort := None |}) <$> ports
    end.

Definition buildAdditionalPolicy (pkg : Package) (spec : NetworkPolicies) (raw : AdditionalPolicy) : outcome Object :=
  let meta := newMeta (prependName (NP_PrependReleaseName spec) (pkg_Name pkg) (AdditionalPolicy_Name raw))
                (AdditionalPolicy_Labels raw) (AdditionalPolicy_Annotations raw) in
  if (0 <? size (AdditionalPolicy_Spec raw))%nat then
    b ← Marshal_raw_map (AdditionalPolicy_Spec raw);
    npSpec ← decode_NetworkPolicySpec b;
    Ok (newObject meta (NetworkPolicy npSpec))
  else Ok (newObject meta (NetworkPolicy emptyNetworkPolicySpec)).

(** ** Lemmas *)

Lemma raw_document_returns v : returns (raw_document v).
Proof. unfold raw_document. destruct (String.eqb _ _); [done|]. by destruct (json_parse _). Qed.

Lemma Marshal_raw_map_returns m : returns (Marshal_raw_map m).
Proof.
  unfold Marshal_raw_map. apply bind_returns; [|done].
  apply traverse_returns. intros k _. destruct (m !! k); [|done].
  apply bind_returns; [apply raw_document_returns|done].
Qed.

Lemma buildAdditionalPolicy_returns `{!ExtReturns} pkg spec raw : returns (buildAdditionalPolicy pkg spec raw).
Proof.
  unfold buildAdditionalPolicy. destruct (0 <? _)%nat; [|done].
  apply bind_returns; [apply Marshal_raw_map_returns|]. intros j _.
  apply bind_returns; [apply ret_NetworkPolicySpec|done].
Qed.

Lemma buildAdditionalPolicy_meta pkg spec raw o :
  buildAdditionalPolicy pkg spec raw = Ok o →
  o_Meta o = newMeta (prependName (NP_PrependReleaseName spec) (pkg_Name pkg) (AdditionalPolicy_Name raw))
               (AdditionalPolicy_Labels raw) (AdditionalPolicy_Annotations raw) ∧
  type_of (o_Body o) = TNetworkPolicy.
Proof.
  unfold buildAdditionalPolicy. destruct (0 <? _)%nat; [|by intros [= <-]].
  destruct (Marshal_raw_map _); simpl; [|done..]. destruct (decode_NetworkPolicySpec _); simpl; [|done..].
  by intros [= <-].
Qed.

End NetpolCommon.
#[export] Hint Resolve raw_document_returns Marshal_raw_map_returns buildAdditionalPolicy_returns : go.

(** ** The exclusions of an egress block *)

(** An exclusion is kept when it differs in text from the rule, parses, is not
    broader than the rule's network and has its address in it. *)
Definition kept (cidr : string) (ruleNet : IPNet) (ex : string) : bool :=
  negb (String.eqb ex cidr) &&
  match ParseCIDR ex with
  | None => false
  | Some (exIP, exNet) => negb (net_Ones exNet <? net_Ones ruleNet)%Z && net_Contains ruleNet exIP
  end.

Lemma keepExclusions_filter cidr ruleNet exs :
  keepExclusions cidr ruleNet exs = filter (λ ex, kept cidr ruleNet ex = true) exs.
Proof.
  induction exs as [|ex exs IH]; [done|].
  assert (keepExclusions cidr ruleNet (ex :: exs) =
    if kept cidr ruleNet ex then ex :: keepExclusions cidr ruleNet exs else keepExclusions cidr ruleNet exs) as ->.
  { unfold kept. simpl. destruct (String.eqb ex cidr); [done|].
    destruct (ParseCIDR ex) as [[exIP exNet]|]; [|done].
    destruct (net_Ones exNet <? net_Ones ruleNet)%Z; [done|]. by destruct (net_Contains ruleNet exIP). }
  rewrite filter_cons, IH. destruct (kept cidr ruleNet ex); by destruct (decide _).
Qed.

Lemma applyExcludeCIDRs_Some cidr exs out :
  applyExcludeCIDRs cidr exs = Some out →
  out ≠ [] ∧ ∃ ip ruleNet, ParseCIDR cidr = Some (ip, ruleNet) ∧ out = filter (λ ex, kept cidr ruleNet ex = true) exs.
Proof.
  unfold applyExcludeCIDRs. destruct (length exs =? 0)%nat; [done|].
  destruct (ParseCIDR cidr) as [[ip n]|]; [|done].
  destruct (Nat.eqb_spec (length (keepExclusions cidr n exs)) 0) as [|Hne]; [done|].
  intros [= <-]. split; [by intros E; rewrite E in Hne|]. exists ip, n. by rewrite keepExclusions_filter.
Qed.

(** C28: The exclusions of an IPv4 block, by the addresses they denote. What
    [applyExcludeCIDRs] writes is the configured list, in order, without the
    exclusions it drops: an exclusion that does not parse is dropped, so is an
    IPv6 one, and an IPv4 one is written exactly when every address of its
    network is an address of the block's network and its text is not the block's
    own. So the network itself in another spelling is written too (a finding). A
    block that does not parse and a list of which nothing is left get no
    exclusions at all. *)
Theorem applyExcludeCIDRs_contained cidr exs :
  (ParseCIDR cidr = None → applyExcludeCIDRs cidr exs = None) ∧
  applyExcludeCIDRs cidr exs ≠ Some [] ∧
  ∀ ip ruleNet, ParseCIDR cidr = Some (ip, ruleNet) → is_v4 ruleNet = true →
    ∃ written : string → bool,
      default [] (applyExcludeCIDRs cidr exs) = filter (λ ex, written ex = true) exs ∧
      (∀ ex, ParseCIDR ex = None → written ex = false) ∧
      (∀ ex exIP exNet, ParseCIDR ex = Some (exIP, exNet) → To4 exIP = None → written ex = false) ∧
      ∀ ex exIP exNet, ParseCIDR ex = Some (exIP, exNet) → is_v4 exNet = true →
        written ex = true ↔ net_inside exNet ruleNet ∧ ex ≠ cidr.
Proof.
  split; [|split].
  - unfold applyExcludeCIDRs. intros ->. by destruct (length exs =? 0)%nat.
  - intros E. by apply applyExcludeCIDRs_Some in E as [? _].
  - intros ip ruleNet Hrule Hv4. pose proof (ParseCIDR_v4 _ _ _ Hrule Hv4) as Hn. exists (kept cidr ruleNet). split_and!.
    + unfold applyExcludeCIDRs. rewrite Hrule. destruct exs as [|e exs]; [done|]. cbn [length Nat.eqb].
      rewrite <-keepExclusions_filter. by destruct (keepExclusions cidr ruleNet (e :: exs)).
    + intros ex Hex. unfold kept. rewrite Hex. apply andb_false_r.
    + intros ex exIP exNet Hex H6. unfold kept. rewrite Hex, (v4_contains_only ip), !andb_false_r; done.
    + intros ex exIP exNet Hex Hex4. rewrite (net_inside_iff exIP exNet ip ruleNet) by (by eapply ParseCIDR_v4 || done).
      unfold kept. rewrite Hex, !andb_true_iff, !negb_true_iff, String.eqb_neq, Z.ltb_ge. tauto.
Qed.

Definition net_10_8 : IPNet := {| net_IP := [10; 0; 0; 0]%Z; net_Mask := [255; 0; 0; 0]%Z; net_Ones := 8 |}.
Definition net_10_1_16 : IPNet := {| net_IP := [10; 1; 0; 0]%Z; net_Mask := [255; 255; 0; 0]%Z; net_Ones := 16 |}.

Lemma applyExcludeCIDRs_contained_witness :
  applyExcludeCIDRs "10.0.0.0/8" ["10.1.0.0/16"; "192.168.0.0/16"; "10.0.0.0/8"; "fd00::/8"; "all"] = Some ["10.1.0.0/16"] ∧
  net_inside net_10_1_16 net_10_8.
Proof.
  split; [vm_compute; reflexivity|].
  destruct (proj2 (proj2 (applyExcludeCIDRs_contained "10.0.0.0/8" ["10.1.0.0/16"])) (v4InV6Prefix ++ [10; 0; 0; 0]%Z) net_10_8
    eq_refl eq_refl) as (written & Hout & _ & _ & Hex).
  apply (proj1 (Hex "10.1.0.0/16" (v4InV6Prefix ++ [10; 1; 0; 0]%Z) net_10_1_16 eq_refl eq_refl)).
  assert (default [] (applyExcludeCIDRs "10.0.0.0/8" ["10.1.0.0/16"]) = ["10.1.0.0/16"]) as E by (vm_compute; reflexivity).
  rewrite E in Hout. destruct (written "10.1.0.0/16") eqn:Hw; [reflexivity|].
  rewrite filter_cons_False in Hout by congruence. discriminate Hout.
Defined.

(** An exclusion in the IPv4-mapped form of IPv6 is compared by its address and
    by its number of bits, though its mask counts 128: one that is far wider than
    the block is written, and the API server refuses the policy. *)
Lemma applyExcludeCIDRs_mapped :
  applyExcludeCIDRs "10.0.0.0/8" ["::ffff:10.0.0.0/9"] = Some ["::ffff:10.0.0.0/9"] ∧
  ∃ exIP exNet other, ParseCIDR "::ffff:10.0.0.0/9" = Some (exIP, exNet) ∧ net_Contains exNet other = true ∧
    net_Contains net_10_8 other = false.
Proof.
  split; [vm_compute; reflexivity|]. do 2 eexists. exists (replicate 15 0 ++ [1])%Z. split; [vm_compute; reflexivity|].
  by vm_compute.
Qed.

(** The comment asks that exclusions be strictly contained and that an
    exclusion identical to the rule be skipped; the code compares the texts
    only. Any exclusion that denotes the rule's own IPv4 network in another
    spelling is written as an exception to it, which leaves the rule no address
    (and is no strict subset, as the API server asks of an exception). *)
Theorem applyExcludeCIDRs_same_network cidr ip ruleNet ex exIP exNet
    (Hrule : ParseCIDR cidr = Some (ip, ruleNet)) (Hex : ParseCIDR ex = Some (exIP, exNet))
    (Hv4 : is_v4 ruleNet = true) (Hsame : exNet = ruleNet) (Htext : ex ≠ cidr) :
  applyExcludeCIDRs cidr [ex] = Some [ex].
Proof.
  assert (kept cidr ruleNet ex = true) as Hk.
  { unfold kept. rewrite Hex. apply andb_true_iff. split; [by apply negb_true_iff, String.eqb_neq|].
    subst exNet. rewrite Z.ltb_irrefl. simpl. eapply v4_base_contains. by eapply ParseCIDR_v4. }
  unfold applyExcludeCIDRs. rewrite Hrule. cbn [length Nat.eqb].
  rewrite keepExclusions_filter, filter_cons_True by done. done.
Qed.

Lemma applyExcludeCIDRs_same_network_witness :
  applyExcludeCIDRs "10.0.0.0/8" ["10.0.0.1/8"] = Some ["10.0.0.1/8"].
Proof.
  apply (applyExcludeCIDRs_same_network "10.0.0.0/8" (v4InV6Prefix ++ [10; 0; 0; 0]%Z) net_10_8
    "10.0.0.1/8" (v4InV6Prefix ++ [10; 0; 0; 1]%Z) net_10_8); (reflexivity || discriminate).
Defined.
