(* ===== verification/Definitions.v ===== *)
(** * definitions.go: named rules and their layering *)

From S2P Require Import Prelude GoStrings Json K8s ApiTypes External Names ShorthandKeys Metadata.
From S2P Require Import ShorthandValues NetpolCommon.
Local Open Scope string_scope.
Local Open Scope list_scope.

Definition matchLabels (k v : string) : LabelSelector :=
  {| MatchLabels := Some {[k := v]}; MatchExpressions := [] |}.

Record resolvedDefinition := {
  rd_peers : list NetworkPolicyPeer;
  rd_ports : list NetworkPolicyPort
}.

Definition ipBlockPeer (cidr : string) : NetworkPolicyPeer :=
  {| peer_PodSelector := None; peer_NamespaceSelector := None;
     peer_IPBlock := Some {| ipb_CIDR := cidr; ipb_Except := None |} |}.
Definition selectorPeer (ns pod : LabelSelector) : NetworkPolicyPeer :=
  {| peer_PodSelector := Some pod; peer_NamespaceSelector := Some ns; peer_IPBlock := None |}.

Definition builtInEgressDefinitions (kubeAPIPorts : list IntOrString) : gmap string resolvedDefinition :=
  let ports := (λ p, {| npp_Protocol := Some ProtocolTCP; npp_Port := Some p; npp_EndPort := None |}) <$> kubeAPIPorts in
  {["kubeAPI" := {| rd_peers := [ipBlockPeer "10.0.0.0/8"; ipBlockPeer "172.16.0.0/12"; ipBlockPeer "192.168.0.0/16"];
                    rd_ports := ports |}]}.

Definition builtInIngressDefinitions : gmap string resolvedDefinition :=
  <["gateway" := {| rd_peers := [selectorPeer (matchLabels "kubernetes.io/metadata.name" "istio-gateway")
                                              (matchLabels "istio" "ingressgateway")];
                    rd_ports := [] |}]>
  {["monitoring" := {| rd_peers := [selectorPeer (matchLabels "kubernetes.io/metadata.name" "monitoring")
                                                 (matchLabels "app.kubernetes.io/name" "prometheus")];
                       rd_ports := [] |}]}.

Record defsEnv := {
  kubeAPIPorts : list IntOrString;
  sharedEgress : gmap string NetworkPoliciesEgressDefinitionsValue;
  sharedIngress : gmap string NetworkPoliciesIngressDefinitionsValue;
  sharedErr : option error
}.

Record definitionIPBlock := { dib_CIDR : string; dib_Except : option (list string) }.
Record definitionPeer := {
  dp_IPBlock : option definitionIPBlock;
  dp_NamespaceSelector : gomap json;
  dp_PodSelector : gomap json
}.
Record definitionPort := {
  dpt_Port : option IntOrString;
  dpt_EndPort : option Z;
  dpt_Protocol : string
}.

(** ** Peers *)

(** Every value must be a document. The code visits the keys in no fixed order;
    which error it reports when two values are malformed is not fixed either. *)
Definition selectorFromTyped (m : gomap JSON) : outcome (gomap json) :=
  match m with
  | None => Ok None
  | Some m =>
      out ← traverse (λ '(k, v), match Unmarshal dec_any (Raw v) with
                                 | Err e => Err (Wrapf ("selector key " +:+ k) e)
                                 | o => val ← o; Ok (k, val)
                                 end) (map_to_list m);
      Ok (Some (list_to_map out))
  end.

Definition typedPeer (cidr : option string) (except : option (list string)) (ns pod : gomap JSON)
    : outcome definitionPeer :=
  let block :=
    match cidr, except with
    | None, None => None
    | _, _ => Some {| dib_CIDR := default "" cidr; dib_Except := except |}
    end in
  ns ← selectorFromTyped ns;
  pod ← selectorFromTyped pod;
  Ok {| dp_IPBlock := block; dp_NamespaceSelector := ns; dp_PodSelector := pod |}.

Definition typedPeer_of (e : DefinitionPeerElem) : outcome definitionPeer :=
  let '(cidr, except) :=
    match PeerElem_IPBlock e with
    | Some b => (IPBlockElem_CIDR b, IPBlockElem_Except b)
    | None => (None, None)
    end in
  typedPeer cidr except (PeerElem_NamespaceSelector e) (PeerElem_PodSelector e).

Definition buildPeer (p : definitionPeer) : NetworkPolicyPeer :=
  {| peer_IPBlock := (λ b, {| ipb_CIDR := dib_CIDR b; ipb_Except := dib_Except b |}) <$> dp_IPBlock p;
     peer_NamespaceSelector :=
       match dp_NamespaceSelector p with
       | Some _ => Some {| MatchLabels := flattenMatchLabels (dp_NamespaceSelector p); MatchExpressions := [] |}
       | None => None
       end;
     peer_PodSelector :=
       match dp_PodSelector p with
       | Some _ => Some {| MatchLabels := flattenMatchLabels (dp_PodSelector p); MatchExpressions := [] |}
       | None => None
       end |}.

Definition buildPort (p : definitionPort) : NetworkPolicyPort :=
  {| npp_Port := dpt_Port p; npp_EndPort := dpt_EndPort p;
     npp_Protocol := if String.eqb (dpt_Protocol p) "" then None else Some (dpt_Protocol p) |}.

Definition buildDefinition (peersRaw : list definitionPeer) (portsRaw : list definitionPort) : outcome resolvedDefinition :=
  Ok {| rd_peers := buildPeer <$> peersRaw; rd_ports := buildPort <$> portsRaw |}.

Section Definitions.
Context `{Ext}.

(** ** Ports: a JSON round trip *)

(** The members [json.Marshal] writes for a port, fields absent when nil. *)
Definition port_document (e : DefinitionPortElem) : outcome json :=
  port ← match PortElem_Port e with
         | Some p => j ← IntOrString_MarshalJSON p; Ok [("port", j)]
         | None => Ok []
         end;
  Ok (JObj (match PortElem_EndPort e with Some n => [("endPort", JNum (Itoa n))] | None => [] end ++ port ++
            match PortElem_Protocol e with Some p => [("protocol", JStr p)] | None => [] end)).
Definition decode_definitionPort (j : json) : outcome definitionPort :=
  ms ← struct_members j;
  endPort ← dec_ptr dec_int32 (field "endPort" ms);
  port ← dec_ptr IntOrString_UnmarshalJSON (field "port" ms);
  protocol ← dec_val "" dec_string (field "protocol" ms);
  Ok {| dpt_Port := port; dpt_EndPort := endPort; dpt_Protocol := protocol |}.

Definition parseDefinitionPorts (typed : list DefinitionPortElem) : outcome (list definitionPort) :=
  docs ← traverse port_document typed;
  traverse decode_definitionPort docs.

Definition parseEgressDefinition (raw : NetworkPoliciesEgressDefinitionsValue) : outcome resolvedDefinition :=
  peers ← traverse typedPeer_of (EgressDef_To raw);
  ports ← parseDefinitionPorts (EgressDef_Ports raw);
  buildDefinition peers ports.
Definition parseIngressDefinition (raw : NetworkPoliciesIngressDefinitionsValue) : outcome resolvedDefinition :=
  peers ← traverse typedPeer_of (IngressDef_From raw);
  ports ← parseDefinitionPorts (IngressDef_Ports raw);
  buildDefinition peers ports.

(** ** Resolution: built-in < shared < package-local *)

Definition localEgress (spec : NetworkPolicies) : gmap string NetworkPoliciesEgressDefinitionsValue :=
  match NP_Egress spec with Some e => Egress_Definitions e | None => ∅ end.
Definition localIngress (spec : NetworkPolicies) : gmap string NetworkPoliciesIngressDefinitionsValue :=
  match NP_Ingress spec with Some i => Ingress_Definitions i | None => ∅ end.

Definition resolveEgressDefinition (spec : NetworkPolicies) (name : string) (env : defsEnv) : outcome resolvedDefinition :=
  match localEgress spec !! name with
  | Some raw => wrap ("egress.definitions." +:+ name) (parseEgressDefinition raw)
  | None =>
      match sharedErr env with
      | Some err => Err (Wrapf ("egress definition " +:+ Quote name +:+ ": global config unreadable") err)
      | None =>
          match sharedEgress env !! name with
          | Some raw => wrap ("global egress definition " +:+ name) (parseEgressDefinition raw)
          | None =>
              match builtInEgressDefinitions (kubeAPIPorts env) !! name with
              | Some d => Ok d
              | None => Err (Errorf ("egress definition " +:+ Quote name +:+ " not found"))
              end
          end
      end
  end.

Definition resolveIngressDefinition (spec : NetworkPolicies) (name : string) (env : defsEnv) : outcome resolvedDefinition :=
  match localIngress spec !! name with
  | Some raw => wrap ("ingress.definitions." +:+ name) (parseIngressDefinition raw)
  | None =>
      match sharedErr env with
      | Some err => Err (Wrapf ("ingress definition " +:+ Quote name +:+ ": global config unreadable") err)
      | None =>
          match sharedIngress env !! name with
          | Some raw => wrap ("global ingress definition " +:+ name) (parseIngressDefinition raw)
          | None =>
              match builtInIngressDefinitions !! name with
              | Some d => Ok d
              | None => Err (Errorf ("ingress definition " +:+ Quote name +:+ " not found"))
              end
          end
      end
  end.

(** ** The policies of a definition rule *)

(** The source selector of an egress rule and the destination selector of an
    ingress rule, written the same way in every builder. *)
Definition srcSelector (localKey : string) (local : shorthandSource) : LabelSelector :=
  if (0 <? maplen (ss_PodSelector local))%nat
  then {| MatchLabels := ss_PodSelector local; MatchExpressions := [] |}
  else if String.eqb localKey "*" then emptySelector
  else matchLabels "app.kubernetes.io/name" localKey.
Definition dstSelector (parsedLocal : parsedLocalIngressKey) (local : shorthandSource) : LabelSelector :=
  if (0 <? maplen (ss_PodSelector local))%nat
  then {| MatchLabels := ss_PodSelector local; MatchExpressions := [] |}
  else matchLabels "app.kubernetes.io/name" (local_Pod parsedLocal).

Definition localNameOf (localKey : string) : string := if String.eqb localKey "*" then nameAnyPod else localKey.

Definition keyLocal : string := "generated.network-policies.bigbang.dev/local-key".
Definition keyRemote : string := "generated.network-policies.bigbang.dev/remote-key".
Definition keyFromDefinition : string := "generated.network-policies.bigbang.dev/from-definition".
Definition keyFromLiteral : string := "generated.network-policies.bigbang.dev/from-spec-literal".

(** The composite literals of the builders: one direction, one list of rules. *)
Definition egressNetpol (name : string) (npLabels annotations : gomap string) (sel : LabelSelector)
    (rules : list NetworkPolicyEgressRule) : Object :=
  newObject (newMeta name (cloneLabels npLabels) annotations)
    (NetworkPolicy {| nps_PodSelector := sel; nps_Ingress := []; nps_Egress := rules;
                      nps_PolicyTypes := [PolicyTypeEgress] |}).
Definition ingressNetpol (name : string) (npLabels annotations : gomap string) (sel : LabelSelector)
    (rules : list NetworkPolicyIngressRule) : Object :=
  newObject (newMeta name (cloneLabels npLabels) annotations)
    (NetworkPolicy {| nps_PodSelector := sel; nps_Ingress := rules; nps_Egress := [];
                      nps_PolicyTypes := [PolicyTypeIngress] |}).

Definition buildEgressDefinitionNetpol (pkg : Package) (prepend : bool) (npLabels : gomap string)
    (localKey : string) (local : shorthandSource) (defName : string) (def : resolvedDefinition) : Object :=
  let name := prependName prepend (pkg_Name pkg)
    ("allow-egress-from-" +:+ localNameOf localKey +:+ "-to-" +:+ ToLower defName) in
  egressNetpol name npLabels
    (Some (<[keyFromDefinition := defName]> {[keyLocal := localKey]}))
    (srcSelector localKey local)
    [{| er_To := rd_peers def; er_Ports := rd_ports def |}].

(** "-udp" after the pod's name, when the protocol is not the default. *)
Definition protoSuffix (parsedLocal : parsedLocalIngressKey) : string :=
  if negb (String.eqb (local_Protocol parsedLocal) "") && negb (String.eqb (local_Protocol parsedLocal) protoTCP)
  then "-" +:+ ToLower (local_Protocol parsedLocal) else "".
(** "-<protocol>-<ports>", when the key has ports. *)
Definition protoPortsSuffix (parsedLocal : parsedLocalIngressKey) : outcome string :=
  if (0 <? length (local_Ports parsedLocal))%nat then
    suffix ← namePortSuffix (local_Ports parsedLocal) (local_HasPortRange parsedLocal);
    Ok ("-" +:+ ToLower (local_Protocol parsedLocal) +:+ "-" +:+ suffix)
  else Ok "".

Definition buildIngressDefinitionNetpol (pkg : Package) (prepend : bool) (npLabels : gomap string)
    (parsedLocal : parsedLocalIngressKey) (local : shorthandSource) (defName : string) (def : resolvedDefinition)
    : outcome Object :=
  let ports :=
    if (0 <? length (local_Ports parsedLocal))%nat
    then buildNetpolPorts (local_Protocol parsedLocal) (local_Ports parsedLocal) (local_HasPortRange parsedLocal)
    else rd_ports def in
  suffix ← protoPortsSuffix parsedLocal;
  let name := "allow-ingress-to-" +:+ local_Pod parsedLocal +:+ protoSuffix parsedLocal +:+ suffix in
  let name := prependName prepend (pkg_Name pkg) (name +:+ "-from-" +:+ ToLower defName) in
  Ok (ingressNetpol name npLabels
    (Some (<[keyFromDefinition := defName]> {[keyLocal := local_Pod parsedLocal]}))
    (dstSelector parsedLocal local)
    [{| ir_From := rd_peers def; ir_Ports := ports |}]).

End Definitions.

(** ** Lemmas *)

Lemma selectorFromTyped_returns m : returns (selectorFromTyped m).
Proof.
  destruct m as [m|]; [|done]. simpl. apply bind_returns; [|done].
  apply traverse_returns. intros [k v] _.
  pose proof (Unmarshal_returns dec_any (Raw v) dec_any_returns) as Hr.
  by destruct (Unmarshal dec_any (Raw v)).
Qed.
#[export] Hint Resolve selectorFromTyped_returns : go.

Lemma typedPeer_returns e : returns (typedPeer_of e).
Proof.
  unfold typedPeer_of, typedPeer. destruct (PeerElem_IPBlock e); simpl; returns_chain.
Qed.
#[export] Hint Resolve typedPeer_returns : go.

(** *** The labels of a selector

    An authored selector is a map of raw documents.  The labels it asks for are
    the string members of its [matchLabels], when that is an object, and its own
    string members otherwise; of a member written twice the last one counts. *)
Definition authored (m : gmap string JSON) (k : string) : option json := raw ← m !! k; json_parse (Raw raw).
Definition last_member (ms : list (string * json)) (k : string) (j : json) : Prop :=
  ∃ ms1 ms2, ms = ms1 ++ (k, j) :: ms2 ∧ k ∉ ms2.*1.
Definition label_asked (m : gmap string JSON) (k v : string) : Prop :=
  match authored m "matchLabels" with
  | Some (JObj ms) => last_member ms k (JStr v)
  | _ => authored m k = Some (JStr v)
  end.

(** The selector of a peer: absent where it was absent, and otherwise of exactly
    the labels that were asked for, and of no expressions. *)
Definition selector_kept (written : gomap JSON) (sel : option LabelSelector) : Prop :=
  match written with
  | None => sel = None
  | Some m => ∃ labels, sel = Some {| MatchLabels := Some labels; MatchExpressions := [] |} ∧
                ∀ k v, labels !! k = Some v ↔ label_asked m k v
  end.

Lemma object_map_lookup ms k j : object_map ms !! k = Some j ↔ last_member ms k j.
Proof.
  unfold object_map, last_member. induction ms as [|[k' j'] ms IH] using rev_ind.
  { simpl. split; [done|]. by intros ([] & ms2 & E & _). }
  rewrite foldl_app. cbn [foldl fst snd]. destruct (decide (k' = k)) as [->|Hne].
  - rewrite lookup_insert_eq. split.
    + intros [= ->]. exists ms, []. split; [done|apply not_elem_of_nil].
    + intros (ms1 & ms2 & E & Hnot). destruct ms2 as [|[k2 j2] ms2 _] using rev_ind.
      { apply app_inj_tail in E as [_ [= ->]]. done. }
      rewrite app_comm_cons, app_assoc in E. apply app_inj_tail in E as [_ [= <- <-]].
      destruct Hnot. rewrite fmap_app. apply elem_of_app. right. by left.
  - rewrite lookup_insert_ne by done. rewrite IH. split; intros (ms1 & ms2 & E & Hnot).
    + exists ms1, (ms2 ++ [(k', j')]). subst. rewrite <-app_assoc. split; [done|].
      rewrite fmap_app, not_elem_of_app. split; [done|]. cbn. by intros ->%list_elem_of_singleton.
    + destruct ms2 as [|[k2 j2] ms2 _] using rev_ind; [by apply app_inj_tail in E as [_ [= -> _]]|].
      rewrite app_comm_cons, app_assoc in E. apply app_inj_tail in E as [-> [= <- <-]].
      exists ms1, ms2. split; [done|]. rewrite fmap_app, not_elem_of_app in Hnot. tauto.
Qed.

Lemma string_entries_lookup m k v : string_entries m !! k = Some v ↔ m !! k = Some (JStr v).
Proof.
  unfold string_entries. rewrite lookup_omap. destruct (m !! k) as [j|]; simpl; [|done]. destruct j; naive_solver.
Qed.

(** Decoding keeps every member of the selector. *)
Lemma selectorFromTyped_members m out :
  selectorFromTyped (Some m) = Ok out → ∃ docs, out = Some docs ∧ ∀ k, docs !! k = authored m k.
Proof.
  simpl. intros (l & Hl%traverse_Ok & [= <-])%bind_Ok. eexists. split; [done|]. intros k.
  assert (l.*1 = (map_to_list m).*1) as Hkeys.
  { clear -Hl. induction Hl as [|[k raw] y l1 l2 Hx _ IH]; [done|]. rewrite !fmap_cons, IH. f_equal.
    destruct (Unmarshal dec_any (Raw raw)); by simplify_eq/=. }
  assert (NoDup l.*1) as Hnd by (rewrite Hkeys; apply NoDup_fst_map_to_list).
  unfold authored. destruct (m !! k) as [raw|] eqn:Hk; simpl.
  - apply elem_of_map_to_list, list_elem_of_lookup in Hk as [i Hi].
    destruct (Forall2_lookup_l _ _ _ _ _ Hl Hi) as ([k' j] & Hj & Hdec). cbv beta iota in Hdec.
    unfold Unmarshal in Hdec. destruct (json_parse (Raw raw)) as [j'|]; [|done].
    unfold dec_any in Hdec. destruct (any_ok j'); simplify_eq/=.
    apply elem_of_list_to_map; [done|]. by eapply list_elem_of_lookup_2.
  - apply not_elem_of_list_to_map. rewrite Hkeys. intros ([k' raw] & -> & Hin)%list_elem_of_fmap.
    apply elem_of_map_to_list in Hin. simpl in Hk. congruence.
Qed.

Lemma selectorFromTyped_kept m out :
  selectorFromTyped m = Ok out →
  selector_kept m (match out with
                   | Some _ => Some {| MatchLabels := flattenMatchLabels out; MatchExpressions := [] |}
                   | None => None
                   end).
Proof.
  destruct m as [m|]; [|by intros [= <-]]. intros (docs & -> & Hdocs)%selectorFromTyped_members.
  unfold selector_kept, flattenMatchLabels, label_asked. rewrite <-Hdocs.
  destruct (docs !! "matchLabels") as [[| | | | |ms]|] eqn:E; (eexists; split; [reflexivity|]);
    intros k v; rewrite string_entries_lookup, ?object_map_lookup, <-?Hdocs; done.
Qed.

(** What a definition's peer becomes. *)
Definition peer_kept (e : DefinitionPeerElem) (p : NetworkPolicyPeer) : Prop :=
  selector_kept (PeerElem_NamespaceSelector e) (peer_NamespaceSelector p) ∧
  selector_kept (PeerElem_PodSelector e) (peer_PodSelector p) ∧
  peer_IPBlock p =
    (b ← PeerElem_IPBlock e;
     match IPBlockElem_CIDR b, IPBlockElem_Except b with
     | None, None => None
     | cidr, except => Some {| ipb_CIDR := default "" cidr; ipb_Except := except |}
     end).

Lemma typedPeer_kept e p : typedPeer_of e = Ok p → peer_kept e (buildPeer p).
Proof.
  unfold typedPeer_of, typedPeer.
  destruct (selectorFromTyped (PeerElem_NamespaceSelector e)) as [ns| | |] eqn:Hns;
    [|by destruct (PeerElem_IPBlock e)..].
  destruct (selectorFromTyped (PeerElem_PodSelector e)) as [pod| | |] eqn:Hpod;
    [|by destruct (PeerElem_IPBlock e)..].
  apply selectorFromTyped_kept in Hns, Hpod.
  intros Hp. assert (dp_NamespaceSelector p = ns ∧ dp_PodSelector p = pod) as [<- <-].
  { destruct (PeerElem_IPBlock e); simpl in Hp; by simplify_eq/=. }
  split_and!; unfold buildPeer; cbn [peer_NamespaceSelector peer_PodSelector peer_IPBlock]; [done..|].
  destruct (PeerElem_IPBlock e) as [[[] []]|]; by injection Hp as <-.
Qed.

Lemma peers_kept l ps :
  traverse typedPeer_of l = Ok ps → Forall2 peer_kept l (buildPeer <$> ps).
Proof.
  rewrite traverse_Ok. intros H. apply Forall2_fmap_r. eapply Forall2_impl; [done|].
  simpl. intros e p. apply typedPeer_kept.
Qed.

(** Look up member names that are literals. *)
Ltac field_names :=
  cbn [field];
  repeat match goal with
  | |- context [String.eqb (ToLower ?a) (ToLower ?b)] =>
      let r := eval vm_compute in (String.eqb (ToLower a) (ToLower b)) in
      change (String.eqb (ToLower a) (ToLower b)) with r
  end; cbv iota.

Section Ports.
Context `{Ext}.

Lemma port_document_returns `{!ExtReturns} e : returns (port_document e).
Proof.
  unfold port_document. apply bind_returns; [|done].
  destruct (PortElem_Port e); [|done]. apply bind_returns; [apply ret_IntOrString_MarshalJSON|done].
Qed.
Lemma dec_int32_returns j : returns (dec_int32 j).
Proof. unfold dec_int32. apply bind_returns; [apply dec_int_returns|]. intros z _. by destruct (_ && _). Qed.
Lemma decode_definitionPort_returns `{!ExtReturns} j : returns (decode_definitionPort j).
Proof.
  pose proof dec_int32_returns. pose proof ret_IntOrString_UnmarshalJSON.
  unfold decode_definitionPort. returns_chain.
Qed.
Lemma parseDefinitionPorts_returns `{!ExtReturns} l : returns (parseDefinitionPorts l).
Proof.
  unfold parseDefinitionPorts.
  apply bind_returns; [apply traverse_returns; intros; apply port_document_returns|]. intros docs _.
  apply traverse_returns. intros; apply decode_definitionPort_returns.
Qed.

Lemma parseEgressDefinition_returns `{!ExtReturns} raw : returns (parseEgressDefinition raw).
Proof.
  apply bind_returns; [apply traverse_returns; auto with go|]. intros ps _.
  apply bind_returns; [apply parseDefinitionPorts_returns|done].
Qed.
Lemma parseIngressDefinition_returns `{!ExtReturns} raw : returns (parseIngressDefinition raw).
Proof.
  apply bind_returns; [apply traverse_returns; auto with go|]. intros ps _.
  apply bind_returns; [apply parseDefinitionPorts_returns|done].
Qed.
Lemma resolveEgressDefinition_returns `{!ExtReturns} spec name env : returns (resolveEgressDefinition spec name env).
Proof.
  unfold resolveEgressDefinition.
  destruct (localEgress spec !! name); [apply wrap_returns, parseEgressDefinition_returns|].
  destruct (sharedErr env); [done|].
  destruct (sharedEgress env !! name); [apply wrap_returns, parseEgressDefinition_returns|].
  by destruct (_ !! name).
Qed.
Lemma resolveIngressDefinition_returns `{!ExtReturns} spec name env : returns (resolveIngressDefinition spec name env).
Proof.
  unfold resolveIngressDefinition.
  destruct (localIngress spec !! name); [apply wrap_returns, parseIngressDefinition_returns|].
  destruct (sharedErr env); [done|].
  destruct (sharedIngress env !! name); [apply wrap_returns, parseIngressDefinition_returns|].
  by destruct (_ !! name).
Qed.

(** A port as the API server stores it. *)
Definition port_stored (e : DefinitionPortElem) : Prop :=
  (∀ p, PortElem_Port e = Some p → canonical p) ∧
  (∀ n, PortElem_EndPort e = Some n → MinInt64 ≤ n ≤ MaxInt64)%Z.
Definition endPort_fits (e : DefinitionPortElem) : bool :=
  match PortElem_EndPort e with
  | Some n => ((-2147483648 <=? n) && (n <=? 2147483647))%Z
  | None => true
  end.
Definition typed_port (e : DefinitionPortElem) : definitionPort :=
  {| dpt_Port := PortElem_Port e; dpt_EndPort := PortElem_EndPort e; dpt_Protocol := default "" (PortElem_Protocol e) |}.

Lemma dec_int32_Itoa n : (MinInt64 ≤ n ≤ MaxInt64)%Z →
  dec_int32 (JNum (Itoa n)) = if ((-2147483648 <=? n) && (n <=? 2147483647))%Z then Ok n else Err JsonError.
Proof. intros Hn. unfold dec_int32, dec_int. by rewrite Atoi_Itoa_int64. Qed.

Lemma port_roundtrip `{!IntStrJsonLaws} e :
  port_stored e →
  ∃ doc, port_document e = Ok doc ∧
    decode_definitionPort doc = if endPort_fits e then Ok (typed_port e) else Err JsonError.
Proof.
  intros [Hp Hn]. unfold port_document, decode_definitionPort, endPort_fits, typed_port.
  destruct e as [endPort port protocol]; cbn [PortElem_EndPort PortElem_Port PortElem_Protocol] in *.
  assert (∃ jp, (match port with Some p => j ← IntOrString_MarshalJSON p; Ok [("port", j)] | None => Ok [] end)
    = Ok (match jp with Some j => [("port", j)] | None => [] end) ∧
    dec_ptr IntOrString_UnmarshalJSON jp = Ok port) as (jp & -> & Hjp).
  { destruct port as [p|]; [|by exists None].
    destruct (IntOrString_roundtrip p (Hp p eq_refl)) as (j & -> & Hj & Hu).
    exists (Some j). split; [done|]. simpl. destruct j; try done; by rewrite Hu. }
  eexists. split; [reflexivity|].
  cbn [struct_members mbind outcome_bind].
  destruct endPort as [n|], jp as [j|], protocol as [t|]; cbn [app]; field_names;
    rewrite Hjp; unfold dec_ptr at 1; rewrite ?dec_int32_Itoa by auto; try case_match; done.
Qed.

Lemma parse_ports_spec `{!IntStrJsonLaws} l :
  Forall port_stored l →
  parseDefinitionPorts l = if forallb endPort_fits l then Ok (typed_port <$> l) else Err JsonError.
Proof.
  intros Hl. unfold parseDefinitionPorts.
  assert (∃ docs, traverse port_document l = Ok docs ∧
    traverse decode_definitionPort docs = if forallb endPort_fits l then Ok (typed_port <$> l) else Err JsonError)
    as (docs & -> & H'); [|done].
  induction Hl as [|e l He Hl (docs & Hd & IH)]; [by exists []|].
  destruct (port_roundtrip e He) as (doc & Hdoc & Hdec).
  exists (doc :: docs). simpl. rewrite Hdoc, Hd. split; [done|]. rewrite Hdec.
  destruct (endPort_fits e); [|done]. simpl. rewrite IH. by destruct (forallb endPort_fits l).
Qed.
End Ports.
#[export] Hint Resolve resolveEgressDefinition_returns resolveIngressDefinition_returns : go.

Section Properties.
Context `{Ext}.

(** What a definition says, kept by its parser. *)
Definition definition_kept (peers : list DefinitionPeerElem) (ports : list DefinitionPortElem) (d : resolvedDefinition) : Prop :=
  Forall2 peer_kept peers (rd_peers d) ∧
  rd_ports d = (λ e, {| npp_Protocol := match PortElem_Protocol e with Some "" => None | p => p end;
                        npp_Port := PortElem_Port e; npp_EndPort := PortElem_EndPort e |}) <$> ports ∧
  Forall (λ e, endPort_fits e = true) ports.

Lemma built_definition_kept `{!IntStrJsonLaws} peers ports ps pts d :
  Forall port_stored ports → traverse typedPeer_of peers = Ok ps → parseDefinitionPorts ports = Ok pts →
  buildDefinition ps pts = Ok d → definition_kept peers ports d.
Proof.
  intros Hstored Hps Hpts [= <-]. rewrite (parse_ports_spec _ Hstored) in Hpts.
  destruct (forallb endPort_fits ports) eqn:Hf; [|done]. injection Hpts as <-. split_and!; cbn [rd_peers rd_ports].
  - by apply peers_kept.
  - rewrite <-list_fmap_compose. apply list_fmap_ext. intros _ [ep p pr] _. unfold buildPort, typed_port; simpl.
    destruct pr as [pr|]; simpl; [|done]. by destruct (String.eqb_spec pr "") as [->|]; [|destruct pr].
  - rewrite Forall_forall. intros e He. rewrite forallb_forall in Hf. apply Hf. by apply list_elem_of_In.
Qed.

(** C33: What parsing a definition keeps, in both directions. Its peers appear in
    order. A selector is absent exactly where the author left it out; otherwise
    its labels are exactly the string members the author wrote, with their values
    (those of [matchLabels] where it is an object), so an explicit empty selector
    stays one that matches all; its match expressions are dropped (a finding).
    Address blocks are copied. The JSON round trip of the ports gives every port
    back, an empty protocol as none, and a definition with an end port that is
    not a 32-bit integer is refused. *)
Theorem definitions_faithful `{!IntStrJsonLaws} (ports : list DefinitionPortElem) (Hstored : Forall port_stored ports) :
  (∀ raw d, EgressDef_Ports raw = ports → parseEgressDefinition raw = Ok d → definition_kept (EgressDef_To raw) ports d) ∧
  (∀ raw d, IngressDef_Ports raw = ports → parseIngressDefinition raw = Ok d → definition_kept (IngressDef_From raw) ports d).
Proof.
  split; intros raw d Hports (ps & Hps & (pts & Hpts & Hd)%bind_Ok)%bind_Ok; rewrite Hports in Hpts;
    by eapply built_definition_kept.
Qed.

(** A selector of match expressions alone becomes one that matches everything:
    the parser widens what the author restricted. *)
Lemma expressions_dropped m raw :
  m = {["matchExpressions" := raw]} → (∀ v, json_parse (Raw raw) ≠ Some (JStr v)) →
  ∀ sel, selector_kept (Some m) sel → sel = Some {| MatchLabels := Some ∅; MatchExpressions := [] |}.
Proof.
  intros -> Hraw sel (labels & -> & Hl). do 3 f_equal. apply map_eq. intros k. rewrite lookup_empty.
  destruct (labels !! k) as [v|] eqn:E; [exfalso|done]. apply Hl in E. unfold label_asked, authored in E.
  rewrite lookup_singleton_ne in E by done. simpl in E.
  destruct (decide (k = "matchExpressions")) as [->|Hne].
  - rewrite lookup_singleton_eq in E. by eapply Hraw.
  - by rewrite lookup_singleton_ne in E.
Qed.

(** C34: Layering of egress definitions. A package-local definition decides
    alone, whatever the shared pool and its error; when the shared pool could
    not be read nothing else is resolved, not even a built-in name; a shared
    definition comes before a built-in one; an unknown name is an error; and
    the call always returns. *)
Theorem resolveEgressDefinition_layers `{!ExtReturns} spec name env :
  returns (resolveEgressDefinition spec name env) ∧
  (∀ raw env', localEgress spec !! name = Some raw →
     resolveEgressDefinition spec name env = resolveEgressDefinition spec name env') ∧
  (localEgress spec !! name = None → is_Some (sharedErr env) → is_Err (resolveEgressDefinition spec name env)) ∧
  (∀ d, resolveEgressDefinition spec name env = Ok d →
     (∃ raw, localEgress spec !! name = Some raw ∧ parseEgressDefinition raw = Ok d) ∨
     (localEgress spec !! name = None ∧ sharedErr env = None ∧
      match sharedEgress env !! name with
      | Some raw => parseEgressDefinition raw = Ok d
      | None => builtInEgressDefinitions (kubeAPIPorts env) !! name = Some d
      end)).
Proof.
  split; [apply resolveEgressDefinition_returns|]. unfold resolveEgressDefinition.
  destruct (localEgress spec !! name) as [raw|].
  - split_and!; [done|done|]. intros d Hd. left. exists raw. by apply wrap_Ok in Hd.
  - split_and!; [done| |].
    + intros _ [e ->]. by eexists.
    + intros d Hd. right. destruct (sharedErr env); [done|]. split_and!; [done..|].
      destruct (sharedEgress env !! name); [by apply wrap_Ok in Hd|]. destruct (_ !! name); by simplify_eq.
Qed.
End Properties.

(** ** Witnesses *)

(** A peer in any namespace with two labels, on port 443. *)
Definition example_definition : NetworkPoliciesEgressDefinitionsValue :=
  {| EgressDef_To := [{| PeerElem_IPBlock := None; PeerElem_NamespaceSelector := Some ∅;
                         PeerElem_PodSelector := Some {["matchLabels" := demo_raw (JObj [("app", JStr "web"); ("tier", JStr "front")])]} |}];
     EgressDef_Ports := [{| PortElem_EndPort := None;
                            PortElem_Port := Some {| ios_Type := IntType; IntVal := 443; StrVal := "" |};
                            PortElem_Protocol := Some "TCP" |}] |}.
Definition example_resolved : resolvedDefinition :=
  {| rd_peers := [{| peer_PodSelector := Some {| MatchLabels := Some (<["app" := "web"]> {["tier" := "front"]}); MatchExpressions := [] |};
                     peer_NamespaceSelector := Some {| MatchLabels := Some ∅; MatchExpressions := [] |};
                     peer_IPBlock := None |}];
     rd_ports := [{| npp_Protocol := Some "TCP";
                     npp_Port := Some {| ios_Type := IntType; IntVal := 443; StrVal := "" |};
                     npp_EndPort := None |}] |}.

Lemma definitions_faithful_witness :
  parseEgressDefinition example_definition = Ok example_resolved ∧
  Forall2 peer_kept (EgressDef_To example_definition) (rd_peers example_resolved).
Proof.
  split; [vm_compute; reflexivity|].
  refine (proj1 (proj1 (definitions_faithful (EgressDef_Ports example_definition) _) example_definition example_resolved eq_refl _));
    [|vm_compute; reflexivity].
  apply Forall_cons. split; [split|by constructor].
  - intros p [= <-]. split; [reflexivity|simpl; lia].
  - intros n [= ].
Defined.

Definition example_env : defsEnv :=
  {| kubeAPIPorts := []; sharedEgress := ∅; sharedIngress := ∅; sharedErr := Some (LibError "yaml") |}.
Definition example_np : NetworkPolicies :=
  {| NP_Additional := []; NP_AdditionalPolicies := []; NP_DefaultsAsHooks := None; NP_Egress := None;
     NP_Enabled := true; NP_HbonePortInjection := None; NP_Ingress := None; NP_PrependReleaseName := false |}.

Lemma resolveEgressDefinition_layers_witness :
  is_Err (resolveEgressDefinition example_np "kubeAPI" example_env).
Proof.
  apply (proj1 (proj2 (proj2 (resolveEgressDefinition_layers example_np "kubeAPI" example_env)))).
  - reflexivity.
  - eexists. reflexivity.
Defined.
