(* ===== verification/NetpolDefaults.v ===== *)
(** * networkpolicies_defaults.go: the default NetworkPolicies *)

From S2P Require Import Prelude GoStrings K8s ApiTypes External Names Metadata ShorthandKeys.
From S2P Require Import ShorthandValues NetpolCommon Definitions.
Local Open Scope string_scope.
Local Open Scope list_scope.

(** ** Gates *)

Definition defaultEnabled (b : option bool) : bool :=
  match b with None => true | Some b => b end.

Definition egressDefaults (spec : NetworkPolicies) : option NetworkPoliciesEgressDefaults :=
  e ← NP_Egress spec; Egress_Defaults e.
Definition ingressDefaults (spec : NetworkPolicies) : option NetworkPoliciesIngressDefaults :=
  i ← NP_Ingress spec; Ingress_Defaults i.

Definition egressSideEnabled (spec : NetworkPolicies) : bool :=
  match egressDefaults spec with None => true | Some d => defaultEnabled (EgressDefaults_Enabled d) end.
Definition ingressSideEnabled (spec : NetworkPolicies) : bool :=
  match ingressDefaults spec with None => true | Some d => defaultEnabled (IngressDefaults_Enabled d) end.

(** The per-default getters: the side's gate first, then the switch. *)
Definition egressGate (get : NetworkPoliciesEgressDefaults → option EnabledSwitch) (spec : NetworkPolicies) : bool :=
  if negb (egressSideEnabled spec) then egressSideEnabled spec
  else match egressDefaults spec with
       | None => egressSideEnabled spec
       | Some d => match get d with
                   | None => egressSideEnabled spec
                   | Some s => defaultEnabled (Switch_Enabled s)
                   end
       end.
Definition ingressGate (get : NetworkPoliciesIngressDefaults → option EnabledSwitch) (spec : NetworkPolicies) : bool :=
  if negb (ingressSideEnabled spec) then ingressSideEnabled spec
  else match ingressDefaults spec with
       | None => ingressSideEnabled spec
       | Some d => match get d with
                   | None => ingressSideEnabled spec
                   | Some s => defaultEnabled (Switch_Enabled s)
                   end
       end.
Definition egressDenyAll : NetworkPolicies → bool := egressGate EgressDefaults_DenyAll.
Definition egressAllowInNS : NetworkPolicies → bool := egressGate EgressDefaults_AllowInNamespace.
Definition egressAllowKubeDNS : NetworkPolicies → bool := egressGate EgressDefaults_AllowKubeDNS.
Definition egressAllowIstiod : NetworkPolicies → bool := egressGate EgressDefaults_AllowIstiod.
Definition ingressDenyAll : NetworkPolicies → bool := ingressGate IngressDefaults_DenyAll.
Definition ingressAllowInNS : NetworkPolicies → bool := ingressGate IngressDefaults_AllowInNamespace.
Definition ingressAllowPromToSidecar : NetworkPolicies → bool :=
  ingressGate IngressDefaults_AllowPrometheusToIstioSidecar.

Definition istioAmbient (istio : option Istio) : bool :=
  match istio with
  | Some i => match Istio_Ambient i with Some a => Ambient_Enabled a | None => false end
  | None => false
  end.

(** ** The policies *)

Definition podPeer : NetworkPolicyPeer :=
  {| peer_PodSelector := Some emptySelector; peer_NamespaceSelector := None; peer_IPBlock := None |}.

Section Defaults.
Context `{Ext}.

Definition portOf (proto : string) (n : Z) : NetworkPolicyPort :=
  {| npp_Protocol := Some proto; npp_Port := Some (FromInt n); npp_EndPort := None |}.

Definition defaultEgressPolicies (pkg : Package) (spec : NetworkPolicies) (istio : option Istio) : list Object :=
  let npLabels := defaultNetpolLabels "egress" in
  let policy name rules :=
    egressNetpol (prependName (NP_PrependReleaseName spec) (pkg_Name pkg) name) npLabels None emptySelector rules in
  (if egressDenyAll spec then [policy "default-egress-deny-all" []] else []) ++
  (if egressAllowInNS spec
   then [policy "default-egress-allow-all-in-ns" [{| er_To := [podPeer]; er_Ports := [] |}]] else []) ++
  (if egressAllowKubeDNS spec
   then [policy "default-egress-allow-kube-dns"
           [{| er_To := [selectorPeer (matchLabels "kubernetes.io/metadata.name" "kube-system")
                                      (matchLabels "k8s-app" "kube-dns")];
               er_Ports := [portOf ProtocolUDP 53; portOf ProtocolTCP 53] |}]] else []) ++
  (if egressAllowIstiod spec && negb (istioAmbient istio)
   then [policy "default-egress-allow-istiod"
           [{| er_To := [selectorPeer (matchLabels "kubernetes.io/metadata.name" "istio-system")
                                      (matchLabels "app" "istiod")];
               er_Ports := [portOf ProtocolTCP 15012] |}]] else []).

Definition defaultIngressPolicies (pkg : Package) (spec : NetworkPolicies) (istio : option Istio) : list Object :=
  let npLabels := defaultNetpolLabels "ingress" in
  let ambient := istioAmbient istio in
  let policy name rules :=
    ingressNetpol (prependName (NP_PrependReleaseName spec) (pkg_Name pkg) name) npLabels None emptySelector rules in
  (if ingressDenyAll spec then [policy "default-ingress-deny-all" []] else []) ++
  (if ingressAllowInNS spec
   then [policy "default-ingress-allow-all-in-ns" [{| ir_From := [podPeer]; ir_Ports := [] |}]] else []) ++
  (if ingressAllowPromToSidecar spec && negb ambient
   then [policy "default-ingress-allow-prometheus-to-istio-sidecar"
           [{| ir_From := [selectorPeer (matchLabels "kubernetes.io/metadata.name" "monitoring")
                                        (matchLabels "app.kubernetes.io/name" "prometheus")];
               ir_Ports := [portOf ProtocolTCP 15020] |}]] else []) ++
  (if ambient && ingressSideEnabled spec
   then [policy "default-ingress-allow-ambient-kubelet"
           [{| ir_From := [ipBlockPeer "169.254.7.127/32"]; ir_Ports := [] |}]] else []).

End Defaults.

(** ** What the gates mean *)

(** The switch of one default as the author sees it: on, unless the side or the
    switch itself is explicitly off. *)
Definition off (b : option bool) : Prop := b = Some false.
Definition egress_off (get : NetworkPoliciesEgressDefaults → option EnabledSwitch) (spec : NetworkPolicies) : Prop :=
  ∃ d, egressDefaults spec = Some d ∧ (off (EgressDefaults_Enabled d) ∨ ∃ s, get d = Some s ∧ off (Switch_Enabled s)).
Definition ingress_off (get : NetworkPoliciesIngressDefaults → option EnabledSwitch) (spec : NetworkPolicies) : Prop :=
  ∃ d, ingressDefaults spec = Some d ∧ (off (IngressDefaults_Enabled d) ∨ ∃ s, get d = Some s ∧ off (Switch_Enabled s)).

Lemma defaultEnabled_off b : defaultEnabled b = false ↔ off b.
Proof. unfold off. destruct b as [[]|]; simpl; split; congruence. Qed.

Lemma egressGate_off get spec : egressGate get spec = false ↔ egress_off get spec.
Proof.
  unfold egressGate, egress_off, egressSideEnabled. destruct (egressDefaults spec) as [d|]; simpl.
  - destruct (defaultEnabled (EgressDefaults_Enabled d)) eqn:Ed; simpl.
    + destruct (get d) as [s|] eqn:Es.
      * rewrite defaultEnabled_off. split; [intros Ho; exists d; eauto|].
        intros (d' & [= <-] & [Ho%defaultEnabled_off|(s' & Hs' & Ho)]); [congruence|]. congruence.
      * split; [done|]. intros (d' & [= <-] & [Ho%defaultEnabled_off|(s' & Hs' & Ho)]); congruence.
    + split; [|done]. intros _. exists d. split; [done|]. left. by apply defaultEnabled_off.
  - split; [done|]. by intros (d & ? & _).
Qed.

Lemma ingressGate_off get spec : ingressGate get spec = false ↔ ingress_off get spec.
Proof.
  unfold ingressGate, ingress_off, ingressSideEnabled. destruct (ingressDefaults spec) as [d|]; simpl.
  - destruct (defaultEnabled (IngressDefaults_Enabled d)) eqn:Ed; simpl.
    + destruct (get d) as [s|] eqn:Es.
      * rewrite defaultEnabled_off. split; [intros Ho; exists d; eauto|].
        intros (d' & [= <-] & [Ho%defaultEnabled_off|(s' & Hs' & Ho)]); [congruence|]. congruence.
      * split; [done|]. intros (d' & [= <-] & [Ho%defaultEnabled_off|(s' & Hs' & Ho)]); congruence.
    + split; [|done]. intros _. exists d. split; [done|]. left. by apply defaultEnabled_off.
  - split; [done|]. by intros (d & ? & _).
Qed.

Lemma gated_elem {A} (b : bool) (x y : A) : x ∈ (if b then [y] else []) ↔ b = true ∧ x = y.
Proof. destruct b; rewrite ?elem_of_cons, ?elem_of_nil; naive_solver. Qed.

Lemma gate_not_off (b : bool) P : (b = false ↔ P) → (b = true ↔ ¬ P).
Proof. destruct b; intros [H1 H2]; split; intros H; try done; [intros HP; by apply H2 in HP|by destruct (H (H1 eq_refl))]. Qed.

(** Deny-all: a policy of one direction that selects every pod and has no rule. *)
Definition denies_all (types : list string) (o : Object) : Prop :=
  o_Body o = NetworkPolicy {| nps_PodSelector := emptySelector; nps_Ingress := []; nps_Egress := []; nps_PolicyTypes := types |}.

(** Secure by default. Every default policy selects every pod of the
    namespace; the two deny-all policies are emitted exactly unless the author
    switched the side or that default off; the sidecar-only policies (istiod,
    Prometheus) are never emitted in ambient mode, and the ambient kubelet
    exception only in ambient mode. *)
Theorem default_policies_correct `{Ext} pkg spec istio :
  let egress := defaultEgressPolicies pkg spec istio in
  let ingress := defaultIngressPolicies pkg spec istio in
  let named n o := o_Name o = prependName (NP_PrependReleaseName spec) (pkg_Name pkg) n in
  ((∃ o, o ∈ egress ∧ denies_all ["Egress"] o) ↔ ¬ egress_off EgressDefaults_DenyAll spec) ∧
  ((∃ o, o ∈ ingress ∧ denies_all ["Ingress"] o) ↔ ¬ ingress_off IngressDefaults_DenyAll spec) ∧
  ((∃ o, o ∈ egress ∧ named "default-egress-allow-istiod" o) ↔
     istioAmbient istio = false ∧ ¬ egress_off EgressDefaults_AllowIstiod spec) ∧
  ((∃ o, o ∈ ingress ∧ named "default-ingress-allow-prometheus-to-istio-sidecar" o) ↔
     istioAmbient istio = false ∧ ¬ ingress_off IngressDefaults_AllowPrometheusToIstioSidecar spec) ∧
  ((∃ o, o ∈ ingress ∧ named "default-ingress-allow-ambient-kubelet" o) ↔
     istioAmbient istio = true ∧ ingressSideEnabled spec = true) ∧
  Forall (λ o, ∃ sp, o_Body o = NetworkPolicy sp ∧ nps_PodSelector sp = emptySelector ∧
                     length (nps_PolicyTypes sp) = 1) (egress ++ ingress).
Proof.
  cbv zeta. unfold defaultEgressPolicies, defaultIngressPolicies. cbv zeta.
  rewrite <-!(gate_not_off _ _ (egressGate_off _ spec)), <-!(gate_not_off _ _ (ingressGate_off _ spec)).
  change (egressGate EgressDefaults_DenyAll) with egressDenyAll.
  change (egressGate EgressDefaults_AllowIstiod) with egressAllowIstiod.
  change (ingressGate IngressDefaults_DenyAll) with ingressDenyAll.
  change (ingressGate IngressDefaults_AllowPrometheusToIstioSidecar) with ingressAllowPromToSidecar.
  unfold denies_all. setoid_rewrite elem_of_app. setoid_rewrite elem_of_app. setoid_rewrite elem_of_app.
  setoid_rewrite gated_elem.
  split_and!.
  1-5: split; [intros (o & Hin & Hn)|intros Hg].
  all: try (repeat destruct Hin as [Hin|Hin]; destruct Hin as [Hg ->];
    try (apply prependName_inj in Hn); simplify_eq/=; try done; bool_inv; done).
  - eexists. split; [left; by split|done].
  - eexists. split; [left; by split|done].
  - destruct Hg as [Ha Hg]. eexists. split; [do 3 right; split; [by rewrite Ha, Hg|done]|done].
  - destruct Hg as [Ha Hg]. eexists. split; [do 2 right; left; split; [by rewrite Ha, Hg|done]|done].
  - destruct Hg as [Ha Hg]. eexists. split; [do 3 right; split; [by rewrite Ha, Hg|done]|done].
  - rewrite !Forall_app. split_and!; case_match; repeat constructor; by eexists.
Qed.
