(* ===== verification/NetpolShorthand.v ===== *)
(** * networkpolicies_shorthand.go: from shorthand to NetworkPolicies *)

From S2P Require Import Prelude GoStrings Regex Json K8s ApiTypes External Names ShorthandKeys Metadata.
From S2P Require Import ShorthandValues NetpolCommon Definitions.
Local Open Scope string_scope.
Local Open Scope list_scope.

(** ** Names: the segments the builders share *)

Definition remoteSegment (to from : string) (remote : parsedK8sRemote) : string :=
  (if String.eqb (remote_Namespace remote) "*" then to +:+ "any-ns" else to +:+ "ns-" +:+ remote_Namespace remote) +:+
  (if negb (String.eqb (remote_Pod remote) "") && negb (String.eqb (remote_Pod remote) "*")
   then "-pod-" +:+ remote_Pod remote else "-any-pod") +:+ from.

Definition cidrSegment (prefix cidr : string) : string :=
  if String.eqb cidr cidrAnywhere then prefix +:+ "anywhere" else prefix +:+ "cidr-" +:+ cidrNameSegment cidr.

(** "-<protocol>" when the key has ports. *)
Definition protoIfPorts (protocol : string) (ports : list Z) : string :=
  if (0 <? length ports)%nat then "-" +:+ ToLower protocol else "".

Definition annotate (localKey remoteKey : string) : gomap string :=
  Some (<[keyRemote := remoteKey]> {[keyLocal := localKey]}).

Definition literalRuleKeyRe : regex := name_re.

Definition newline : ascii := ascii_of_N 10.

Section NetpolShorthand.
Context `{Ext}.

Definition buildShorthandEgressNetpol (pkg : Package) (prepend : bool) (npLabels : gomap string)
    (localKey : string) (local : shorthandSource) (remoteKey : string) (remote : parsedK8sRemote)
    (target : shorthandTarget) : outcome Object :=
  let remoteNS := remoteNamespaceSelector (remote_Namespace remote) (st_NamespaceSelector target) in
  let remotePod := remotePodSelector (remote_Pod remote) (st_PodSelector target) in
  suffix ← namePortSuffix (remote_Ports remote) (remote_HasPortRange remote);
  let name := "allow-egress-from-" +:+ localNameOf localKey +:+
    remoteSegment "-to-" (protoIfPorts (remote_Protocol remote) (remote_Ports remote) +:+ "-" +:+ suffix) remote in
  let name := prependName prepend (pkg_Name pkg) name in
  let ports := buildNetpolPorts (remote_Protocol remote) (remote_Ports remote) (remote_HasPortRange remote) in
  Ok (egressNetpol name npLabels (annotate localKey remoteKey) (srcSelector localKey local)
        [{| er_To := [selectorPeer remoteNS remotePod]; er_Ports := ports |}]).

Definition buildShorthandIngressNetpol (pkg : Package) (prepend : bool) (npLabels : gomap string)
    (parsedLocal : parsedLocalIngressKey) (local : shorthandSource) (remoteKey : string)
    (remote : parsedK8sRemote) (target : shorthandTarget) : outcome Object :=
  let remoteNS := remoteNamespaceSelector (remote_Namespace remote) (st_NamespaceSelector target) in
  let remotePod := remotePodSelector (remote_Pod remote) (st_PodSelector target) in
  suffix ← namePortSuffix (local_Ports parsedLocal) (local_HasPortRange parsedLocal);
  let name := "allow-ingress-to-" +:+ local_Pod parsedLocal +:+ protoSuffix parsedLocal +:+
    protoIfPorts (local_Protocol parsedLocal) (local_Ports parsedLocal) +:+ "-" +:+ suffix +:+
    remoteSegment "-from-" "" remote in
  let name := prependName prepend (pkg_Name pkg) name in
  let ports := buildNetpolPorts (local_Protocol parsedLocal) (local_Ports parsedLocal) (local_HasPortRange parsedLocal) in
  Ok (ingressNetpol name npLabels (annotate (local_Pod parsedLocal) remoteKey) (dstSelector parsedLocal local)
        [{| ir_From := [selectorPeer remoteNS remotePod]; ir_Ports := ports |}]).

Definition buildEgressCIDRNetpol (pkg : Package) (spec : NetworkPolicies) (prepend : bool) (npLabels : gomap string)
    (localKey : string) (local : shorthandSource) (cidrKey : string) (cidr : parsedCIDR) : outcome Object :=
  suffix ← namePortSuffix (cidr_Ports cidr) (cidr_HasPortRange cidr);
  let name := "allow-egress-from-" +:+ localNameOf localKey +:+ cidrSegment "-to-" (cidr_CIDR cidr) +:+
    protoIfPorts (cidr_Protocol cidr) (cidr_Ports cidr) +:+ "-" +:+ suffix in
  let name := prependName prepend (pkg_Name pkg) name in
  let block := {| ipb_CIDR := cidr_CIDR cidr;
                  ipb_Except := applyExcludeCIDRs (cidr_CIDR cidr) (excludeCIDRsFor (Some spec)) |} in
  Ok (egressNetpol name npLabels (annotate localKey cidrKey) (srcSelector localKey local)
        [{| er_To := [{| peer_PodSelector := None; peer_NamespaceSelector := None; peer_IPBlock := Some block |}];
            er_Ports := buildNetpolPorts (cidr_Protocol cidr) (cidr_Ports cidr) (cidr_HasPortRange cidr) |}]).

Definition buildIngressCIDRNetpol (pkg : Package) (prepend : bool) (npLabels : gomap string)
    (parsedLocal : parsedLocalIngressKey) (local : shorthandSource) (cidrKey : string) (cidr : parsedCIDR)
    : outcome Object :=
  suffix ← protoPortsSuffix parsedLocal;
  let name := "allow-ingress-to-" +:+ local_Pod parsedLocal +:+ protoSuffix parsedLocal +:+ suffix +:+
    cidrSegment "-from-" (cidr_CIDR cidr) in
  let name := prependName prepend (pkg_Name pkg) name in
  Ok (ingressNetpol name npLabels (annotate (local_Pod parsedLocal) cidrKey) (dstSelector parsedLocal local)
        [{| ir_From := [ipBlockPeer (cidr_CIDR cidr)];
            ir_Ports := buildNetpolPorts (local_Protocol parsedLocal) (local_Ports parsedLocal) (local_HasPortRange parsedLocal) |}]).

(** The rules of a literal and their YAML rendering. *)
Definition decodeLiteralRules {T} (decode : json → outcome (list T)) (raw : option json) : outcome (list T * string) :=
  match raw with
  | None => Err (Errorf "literal rule has no spec")
  | Some doc =>
      rules ← wrap "spec must be a rule array" (decode doc);
      specYAML ← JSONToYAML (json_print doc);
      Ok (rules, TrimRightByte specYAML newline +:+ String newline "")
  end.

Definition literal_key_error (ruleKey : string) : error :=
  Errorf ("rule key " +:+ Quote ruleKey +:+ " cannot combine shorthand syntax with a spec value").

Definition buildEgressLiteralNetpol (pkg : Package) (prepend : bool) (npLabels : gomap string)
    (localKey : string) (local : shorthandSource) (ruleKey : string) (lit : literalTarget) : outcome Object :=
  if negb (MatchString literalRuleKeyRe ruleKey) then Err (literal_key_error ruleKey)
  else
    '(rules, specYAML) ← wrap ruleKey (decodeLiteralRules decode_EgressRules (lt_Spec lit));
    let name := "allow-egress-from-" +:+ localNameOf localKey +:+ "-to-" +:+ ToLower ruleKey in
    let name := prependName prepend (pkg_Name pkg) name in
    Ok (egressNetpol name npLabels (Some (<[keyFromLiteral := specYAML]> (contents (annotate localKey ruleKey))))
          (srcSelector localKey local) rules).

Definition buildIngressLiteralNetpol (pkg : Package) (prepend : bool) (npLabels : gomap string)
    (parsedLocal : parsedLocalIngressKey) (local : shorthandSource) (ruleKey : string) (lit : literalTarget)
    : outcome Object :=
  if negb (MatchString literalRuleKeyRe ruleKey) then Err (literal_key_error ruleKey)
  else
    '(rules, specYAML) ← wrap ruleKey (decodeLiteralRules decode_IngressRules (lt_Spec lit));
    let name := "allow-ingress-to-" +:+ local_Pod parsedLocal +:+ protoSuffix parsedLocal +:+
      "-from-" +:+ ToLower ruleKey in
    let name := prependName prepend (pkg_Name pkg) name in
    Ok (ingressNetpol name npLabels
          (Some (<[keyFromLiteral := specYAML]> (contents (annotate (local_Pod parsedLocal) ruleKey))))
          (dstSelector parsedLocal local) rules).

(** ** The loops

    [emit np local remote] is the end of every loop body: apply the user's
    metadata and append. *)
Definition emit (np : Object) (local remote : option shorthandMetadata) : list Object :=
  [applyShorthandMetadata np (mergeShorthandMetadata local remote)].

(** The four loops over the entries of one source, [to]. *)
Definition expandEgressSource (pkg : Package) (spec : NetworkPolicies) (env : defsEnv)
    (localKey : string) (local : shorthandSource) (to : shorthandPeer) : outcome (list Object) :=
  let prepend := NP_PrependReleaseName spec in
  let npLabels := defaultNetpolLabels "egress" in
  let at_ s := "networkPolicies.egress.from." +:+ localKey +:+ s in
  k8s ← for_sorted (K8s to) (λ remoteKey target,
    if negb (st_Enabled target) then Ok [] else
    remote ← wrap (at_ ".to.k8s") (parseEgressRemoteKey remoteKey);
    np ← buildShorthandEgressNetpol pkg prepend npLabels localKey local remoteKey remote target;
    Ok (emit np (ss_Metadata local) (st_Metadata target)));
  definition ← for_sorted (sp_Definition to) (λ defName target,
    if negb (st_Enabled target) then Ok [] else
    def ← wrap (at_ ".to.definition") (resolveEgressDefinition spec defName env);
    let np := buildEgressDefinitionNetpol pkg prepend npLabels localKey local defName def in
    Ok (emit np (ss_Metadata local) (st_Metadata target)));
  cidr ← for_sorted (Cidr to) (λ cidrKey target,
    if negb (st_Enabled target) then Ok [] else
    cidr ← wrap (at_ ".to.cidr") (parseEgressCIDRKey cidrKey);
    np ← buildEgressCIDRNetpol pkg spec prepend npLabels localKey local cidrKey cidr;
    Ok (emit np (ss_Metadata local) (st_Metadata target)));
  literal ← for_sorted (Literal to) (λ ruleKey lit,
    if negb (lt_Enabled lit) then Ok [] else
    np ← wrap (at_ ".to.literal") (buildEgressLiteralNetpol pkg prepend npLabels localKey local ruleKey lit);
    Ok (emit np (ss_Metadata local) (lt_Metadata lit)));
  Ok (k8s ++ definition ++ cidr ++ literal).

Definition expandShorthandEgress (pkg : Package) (spec : NetworkPolicies) (env : defsEnv) : outcome (list Object) :=
  match NP_Egress spec with
  | None => Panics
  | Some egress =>
  for_sorted (Egress_From egress) (λ localKey rawLocal,
    local ← wrap ("networkPolicies.egress.from." +:+ localKey) (Unmarshal shorthandSource_UnmarshalJSON (Raw rawLocal));
    match ss_To local with
    | None => Ok []
    | Some to => expandEgressSource pkg spec env localKey local to
    end)
  end.

(** The four loops over the entries of one destination, [from]. *)
Definition expandIngressDestination (pkg : Package) (spec : NetworkPolicies) (env : defsEnv) (localKey : string)
    (parsedLocal : parsedLocalIngressKey) (local : shorthandSource) (from : shorthandPeer) : outcome (list Object) :=
  let prepend := NP_PrependReleaseName spec in
  let npLabels := defaultNetpolLabels "ingress" in
  let at_ s := "networkPolicies.ingress.to." +:+ localKey +:+ s in
  k8s ← for_sorted (K8s from) (λ remoteKey target,
    if negb (st_Enabled target) then Ok [] else
    remote ← wrap (at_ ".from.k8s") (parseIngressRemoteKey remoteKey);
    np ← buildShorthandIngressNetpol pkg prepend npLabels parsedLocal local remoteKey remote target;
    Ok (emit np (ss_Metadata local) (st_Metadata target)));
  definition ← for_sorted (sp_Definition from) (λ defName target,
    if negb (st_Enabled target) then Ok [] else
    def ← wrap (at_ ".from.definition") (resolveIngressDefinition spec defName env);
    np ← buildIngressDefinitionNetpol pkg prepend npLabels parsedLocal local defName def;
    Ok (emit np (ss_Metadata local) (st_Metadata target)));
  cidr ← for_sorted (Cidr from) (λ cidrKey target,
    if negb (st_Enabled target) then Ok [] else
    cidr ← wrap (at_ ".from.cidr") (parseIngressCIDRKey cidrKey);
    np ← buildIngressCIDRNetpol pkg prepend npLabels parsedLocal local cidrKey cidr;
    Ok (emit np (ss_Metadata local) (st_Metadata target)));
  literal ← for_sorted (Literal from) (λ ruleKey lit,
    if negb (lt_Enabled lit) then Ok [] else
    np ← wrap (at_ ".from.literal") (buildIngressLiteralNetpol pkg prepend npLabels parsedLocal local ruleKey lit);
    Ok (emit np (ss_Metadata local) (lt_Metadata lit)));
  Ok (k8s ++ definition ++ cidr ++ literal).

Definition expandShorthandIngress (pkg : Package) (spec : NetworkPolicies) (env : defsEnv) : outcome (list Object) :=
  match NP_Ingress spec with
  | None => Panics
  | Some ingress =>
  for_sorted (Ingress_To ingress) (λ localKey rawLocal,
    local ← wrap ("networkPolicies.ingress.to." +:+ localKey) (Unmarshal shorthandSource_UnmarshalJSON (Raw rawLocal));
    match ss_From local with
    | None => Ok []
    | Some from =>
        parsedLocal ← wrap "networkPolicies.ingress.to" (parseIngressLocalKey localKey);
        expandIngressDestination pkg spec env localKey parsedLocal local from
    end)
  end.

End NetpolShorthand.

(** ** What the builders build *)

Definition source_label (o : Object) : Prop :=
  contents (o_Labels o) !! LabelNetpolSource = Some LabelNetpolSourceValue.

(** A policy of one direction, still without a namespace, that carries the
    operator's marker. *)
Definition egress_policy (o : Object) : Prop :=
  unplaced o ∧ source_label o ∧
  ∃ sp, o_Body o = NetworkPolicy sp ∧ nps_PolicyTypes sp = ["Egress"] ∧ nps_Ingress sp = [].
Definition ingress_policy (o : Object) : Prop :=
  unplaced o ∧ source_label o ∧
  ∃ sp, o_Body o = NetworkPolicy sp ∧ nps_PolicyTypes sp = ["Ingress"] ∧ nps_Egress sp = [].

Lemma defaultNetpolLabels_source d : contents (defaultNetpolLabels d) !! LabelNetpolSource = Some LabelNetpolSourceValue.
Proof. simpl. rewrite lookup_insert_ne by done. apply lookup_insert_eq. Qed.

Lemma egressNetpol_policy name d ann sel rules : egress_policy (egressNetpol name (defaultNetpolLabels d) ann sel rules).
Proof. split_and!; [done|apply (defaultNetpolLabels_source d)|by eexists]. Qed.
Lemma ingressNetpol_policy name d ann sel rules : ingress_policy (ingressNetpol name (defaultNetpolLabels d) ann sel rules).
Proof. split_and!; [done|apply (defaultNetpolLabels_source d)|by eexists]. Qed.

Lemma apply_source o meta : source_label o → source_label (applyShorthandMetadata o meta).
Proof.
  unfold source_label. destruct (apply_labels o meta) as [-> _]. intros E.
  by apply lookup_union_Some_l.
Qed.

Lemma emit_policies (P : Object → Prop) np local remote :
  (∀ meta, P (applyShorthandMetadata np meta)) → Forall P (emit np local remote).
Proof. intros HP. repeat constructor. apply HP. Qed.

Lemma egress_policy_apply o meta : egress_policy o → egress_policy (applyShorthandMetadata o meta).
Proof.
  intros (Hu & Hs & Hb). destruct (apply_frame o meta) as (_ & En & Eb & _).
  split_and!; [by unfold unplaced; rewrite En|by apply apply_source|by rewrite Eb].
Qed.
Lemma ingress_policy_apply o meta : ingress_policy o → ingress_policy (applyShorthandMetadata o meta).
Proof.
  intros (Hu & Hs & Hb). destruct (apply_frame o meta) as (_ & En & Eb & _).
  split_and!; [by unfold unplaced; rewrite En|by apply apply_source|by rewrite Eb].
Qed.
#[export] Hint Resolve egressNetpol_policy ingressNetpol_policy egress_policy_apply ingress_policy_apply : go.

Section Lemmas.
Context `{Ext}.

Lemma protoPortsSuffix_returns pl : (local_HasPortRange pl = true → length (local_Ports pl) = 2) → returns (protoPortsSuffix pl).
Proof.
  intros Hr. unfold protoPortsSuffix. destruct (0 <? _)%nat; [|done].
  destruct (namePortSuffix_returns (local_Ports pl) (local_HasPortRange pl) Hr) as [n ->]. done.
Qed.

Lemma decodeLiteralRules_returns `{!ExtReturns} {T} (decode : json → outcome (list T)) raw :
  (∀ j, returns (decode j)) → returns (decodeLiteralRules decode raw).
Proof.
  intros Hd. destruct raw as [doc|]; [|done]. simpl.
  apply bind_returns; [by apply wrap_returns|]. intros rules _.
  apply bind_returns; [apply ret_JSONToYAML|done].
Qed.

Lemma buildEgressLiteralNetpol_returns `{!ExtReturns} pkg prepend npLabels localKey local ruleKey lit :
  returns (buildEgressLiteralNetpol pkg prepend npLabels localKey local ruleKey lit).
Proof.
  unfold buildEgressLiteralNetpol. destruct (negb _); [done|]. apply bind_returns; [|by intros []].
  apply wrap_returns, decodeLiteralRules_returns. intros j. apply ret_EgressRules.
Qed.
Lemma buildIngressLiteralNetpol_returns `{!ExtReturns} pkg prepend npLabels pl local ruleKey lit :
  returns (buildIngressLiteralNetpol pkg prepend npLabels pl local ruleKey lit).
Proof.
  unfold buildIngressLiteralNetpol. destruct (negb _); [done|]. apply bind_returns; [|by intros []].
  apply wrap_returns, decodeLiteralRules_returns. intros j. apply ret_IngressRules.
Qed.

Lemma expandShorthandEgress_returns `{!ExtReturns} pkg spec env :
  is_Some (NP_Egress spec) → returns (expandShorthandEgress pkg spec env).
Proof.
  intros [egress He]. unfold expandShorthandEgress. rewrite He. apply for_sorted_returns. intros localKey raw _.
  apply bind_returns; [apply wrap_returns; auto with go|]. intros local _.
  destruct (ss_To local) as [to|]; [|done]. unfold expandEgressSource.
  apply bind_returns; [apply for_sorted_returns|intros ? _].
  { intros key t _. destruct (negb _); [done|].
    apply bind_returns; [apply wrap_returns; auto with go|]. intros remote Hr%wrap_Ok.
    apply parseEgressRemoteKey_sound in Hr as (_ & _ & Hr). unfold buildShorthandEgressNetpol.
    by destruct (namePortSuffix_returns (remote_Ports remote) (remote_HasPortRange remote) Hr) as [n ->]. }
  apply bind_returns; [apply for_sorted_returns|intros ? _].
  { intros key t _. destruct (negb _); [done|].
    apply bind_returns; [apply wrap_returns; auto with go|done]. }
  apply bind_returns; [apply for_sorted_returns|intros ? _].
  { intros key t _. destruct (negb _); [done|].
    apply bind_returns; [apply wrap_returns; auto with go|]. intros c Hr%wrap_Ok.
    apply parseEgressCIDRKey_sound in Hr as (_ & _ & Hr). unfold buildEgressCIDRNetpol.
    by destruct (namePortSuffix_returns (cidr_Ports c) (cidr_HasPortRange c) Hr) as [n ->]. }
  apply bind_returns; [apply for_sorted_returns|done].
  intros key lit _. destruct (negb _); [done|].
  apply bind_returns; [apply wrap_returns, buildEgressLiteralNetpol_returns|done].
Qed.

Lemma expandShorthandIngress_returns `{!ExtReturns} pkg spec env :
  is_Some (NP_Ingress spec) → returns (expandShorthandIngress pkg spec env).
Proof.
  intros [ingress Hi]. unfold expandShorthandIngress. rewrite Hi. apply for_sorted_returns. intros localKey raw _.
  apply bind_returns; [apply wrap_returns; auto with go|]. intros local _.
  destruct (ss_From local) as [from|]; [|done].
  apply bind_returns; [apply wrap_returns; auto with go|]. intros pl Hpl%wrap_Ok.
  apply parseIngressLocalKey_sound in Hpl as (_ & _ & Hr).
  destruct (namePortSuffix_returns (local_Ports pl) (local_HasPortRange pl) Hr) as [suffix Hsuffix].
  unfold expandIngressDestination.
  apply bind_returns; [apply for_sorted_returns|intros ? _].
  { intros key t _. destruct (negb _); [done|].
    apply bind_returns; [apply wrap_returns; auto with go|]. intros remote _.
    unfold buildShorthandIngressNetpol. by rewrite Hsuffix. }
  apply bind_returns; [apply for_sorted_returns|intros ? _].
  { intros key t _. destruct (negb _); [done|].
    apply bind_returns; [apply wrap_returns; auto with go|]. intros def _.
    apply bind_returns; [|done]. apply bind_returns; [by apply protoPortsSuffix_returns|done]. }
  apply bind_returns; [apply for_sorted_returns|intros ? _].
  { intros key t _. destruct (negb _); [done|].
    apply bind_returns; [apply wrap_returns; auto with go|]. intros c _.
    apply bind_returns; [|done]. apply bind_returns; [by apply protoPortsSuffix_returns|done]. }
  apply bind_returns; [apply for_sorted_returns|done].
  intros key lit _. destruct (negb _); [done|].
  apply bind_returns; [apply wrap_returns, buildIngressLiteralNetpol_returns|done].
Qed.

(** Every policy of an expansion has one direction only. *)
Ltac built_policy := repeat intro; bind_inv; auto with go.

Lemma buildShorthandEgressNetpol_policy pkg p d lk local rk remote t o :
  buildShorthandEgressNetpol pkg p (defaultNetpolLabels d) lk local rk remote t = Ok o → egress_policy o.
Proof. unfold buildShorthandEgressNetpol. built_policy. Qed.
Lemma buildEgressDefinitionNetpol_policy pkg p d lk local n def :
  egress_policy (buildEgressDefinitionNetpol pkg p (defaultNetpolLabels d) lk local n def).
Proof. unfold buildEgressDefinitionNetpol. built_policy. Qed.
Lemma buildEgressCIDRNetpol_policy pkg spec p d lk local ck c o :
  buildEgressCIDRNetpol pkg spec p (defaultNetpolLabels d) lk local ck c = Ok o → egress_policy o.
Proof. unfold buildEgressCIDRNetpol. built_policy. Qed.
Lemma buildEgressLiteralNetpol_policy pkg p d lk local rk lit o :
  buildEgressLiteralNetpol pkg p (defaultNetpolLabels d) lk local rk lit = Ok o → egress_policy o.
Proof. unfold buildEgressLiteralNetpol. built_policy. Qed.
Lemma buildShorthandIngressNetpol_policy pkg p d pl local rk remote t o :
  buildShorthandIngressNetpol pkg p (defaultNetpolLabels d) pl local rk remote t = Ok o → ingress_policy o.
Proof. unfold buildShorthandIngressNetpol. built_policy. Qed.
Lemma buildIngressDefinitionNetpol_policy pkg p d pl local n def o :
  buildIngressDefinitionNetpol pkg p (defaultNetpolLabels d) pl local n def = Ok o → ingress_policy o.
Proof. unfold buildIngressDefinitionNetpol. built_policy. Qed.
Lemma buildIngressCIDRNetpol_policy pkg p d pl local ck c o :
  buildIngressCIDRNetpol pkg p (defaultNetpolLabels d) pl local ck c = Ok o → ingress_policy o.
Proof. unfold buildIngressCIDRNetpol. built_policy. Qed.
Lemma buildIngressLiteralNetpol_policy pkg p d pl local rk lit o :
  buildIngressLiteralNetpol pkg p (defaultNetpolLabels d) pl local rk lit = Ok o → ingress_policy o.
Proof. unfold buildIngressLiteralNetpol. built_policy. Qed.

Hint Resolve buildShorthandEgressNetpol_policy buildEgressDefinitionNetpol_policy buildEgressCIDRNetpol_policy buildEgressLiteralNetpol_policy
  buildShorthandIngressNetpol_policy buildIngressDefinitionNetpol_policy buildIngressCIDRNetpol_policy
  buildIngressLiteralNetpol_policy : go.

(** A loop over the entries of one kind emits policies when its builder does. *)
Lemma entries_policies {V} (P : Object → Prop) (entries : gmap string V) (body : string → V → outcome (list Object)) out :
  for_sorted entries body = Ok out →
  (∀ key v ys, body key v = Ok ys → ys = [] ∨ ∃ np l r, ys = emit np l r ∧ P np) →
  (∀ np meta, P np → P (applyShorthandMetadata np meta)) → Forall P out.
Proof.
  intros Hout Hbody HP. eapply for_sorted_Forall; [done|]. intros key v ys _ Hys.
  destruct (Hbody key v ys Hys) as [->|(np & l & r & -> & Hnp)]; [constructor|].
  apply emit_policies. auto.
Qed.

Lemma expandShorthandEgress_policies pkg spec env out :
  expandShorthandEgress pkg spec env = Ok out → Forall egress_policy out.
Proof.
  unfold expandShorthandEgress, expandEgressSource. destruct (NP_Egress spec); [|done]. intros Hout.
  eapply for_sorted_Forall; [done|]. clear Hout. intros localKey raw out' _ Hout.
  cbv beta zeta in Hout. bind_inv; [|constructor].
  rewrite !Forall_app; split_and!; (eapply entries_policies; [eassumption| |auto with go]);
    intros key v ys Hys; cbv beta in Hys; bind_inv; first [by left|right; do 3 eexists; split; [reflexivity|]; eauto with go].
Qed.

Lemma expandShorthandIngress_policies pkg spec env out :
  expandShorthandIngress pkg spec env = Ok out → Forall ingress_policy out.
Proof.
  unfold expandShorthandIngress, expandIngressDestination. destruct (NP_Ingress spec); [|done]. intros Hout.
  eapply for_sorted_Forall; [done|]. clear Hout. intros localKey raw out' _ Hout.
  cbv beta zeta in Hout. bind_inv; [|constructor].
  rewrite !Forall_app; split_and!; (eapply entries_policies; [eassumption| |auto with go]);
    intros key v ys Hys; cbv beta in Hys; bind_inv; first [by left|right; do 3 eexists; split; [reflexivity|]; eauto with go].
Qed.
End Lemmas.

(** ** What a port list allows

    The documented meaning of the ports of a NetworkPolicy rule: none allow every
    port; otherwise the protocol must match and the port equal [port], or lie
    between [port] and [endPort]. *)
Definition port_allows (e : NetworkPolicyPort) (proto : string) (p : Z) : Prop :=
  default "TCP" (npp_Protocol e) = proto ∧
  match npp_Port e with
  | None => True
  | Some q => ios_Type q = IntType ∧
              match npp_EndPort e with None => p = IntVal q | Some b => IntVal q ≤ p ≤ b end%Z
  end.
Definition ports_allow (l : list NetworkPolicyPort) (proto : string) (p : Z) : Prop :=
  l = [] ∨ ∃ e, e ∈ l ∧ port_allows e proto p.

(** What a key's port specification says. *)
Definition spec_allows (protocol : string) (ports : list Z) (range : bool) (proto : string) (p : Z) : Prop :=
  ports = [] ∨
  (proto = protocol ∧
   match range, ports with
   | true, [a; b] => a ≤ p ≤ b
   | _, _ => p ∈ ports
   end%Z).

Section PortMeaning.
Context `{Ext}.

(** The ports of a generated rule mean what the key says: no ports allow
    all, a range allows exactly the ports between its ends, a list exactly its
    members, over the key's protocol only; for ports that fit the API's 32-bit
    integers. *)
Lemma buildNetpolPorts_allow `{!IntStrLaws} protocol ports range proto p
    (Hsound : ports_sound protocol ports range) (Hsmall : Forall (λ q, q < 2147483648)%Z ports) :
  ports_allow (buildNetpolPorts protocol ports range) proto p ↔ spec_allows protocol ports range proto p.
Proof.
  destruct Hsound as (Hproto & Hp & Hr). unfold buildNetpolPorts, ports_allow, spec_allows.
  assert ((if String.eqb (ToUpper protocol) "UDP" then ProtocolUDP else ProtocolTCP) = protocol) as ->
    by by destruct Hproto as [-> | ->].
  assert (∀ q, q ∈ ports → FromInt q = {| ios_Type := IntType; IntVal := q; StrVal := "" |}) as Hfrom.
  { rewrite Forall_forall in Hp, Hsmall. intros q Hq. apply FromInt_value.
    specialize (Hp q Hq). specialize (Hsmall q Hq). unfold in_int64_nonneg in Hp. lia. }
  destruct ports as [|a ports]; [simpl; naive_solver|]. cbn [length Nat.eqb].
  assert (∀ l : list Z, (∀ q, q ∈ l → FromInt q = {| ios_Type := IntType; IntVal := q; StrVal := "" |}) →
    (∃ e, e ∈ (λ q, {| npp_Protocol := Some protocol; npp_Port := Some (FromInt q); npp_EndPort := None |}) <$> l ∧
      port_allows e proto p) ↔ proto = protocol ∧ p ∈ l) as Hlist.
  { intros l Hl. split.
    - intros (e & (q & -> & Hq)%list_elem_of_fmap & Hpr & Hport). simpl in *. rewrite (Hl q Hq) in Hport.
      simpl in Hport. destruct Hport as [_ ->]. done.
    - intros [-> Hq]. eexists. split; [by apply list_elem_of_fmap_2|]. split; [done|]. simpl. by rewrite (Hl p Hq). }
  destruct range.
  - destruct ports as [|b [|]]; [by specialize (Hr eq_refl)| |by specialize (Hr eq_refl)].
    rewrite int32_wrap_id.
    2: { rewrite Forall_forall in Hp, Hsmall. specialize (Hp b ltac:(set_solver)). specialize (Hsmall b ltac:(set_solver)).
         unfold in_int64_nonneg in Hp. lia. }
    split.
    + intros [?|(e & ->%list_elem_of_singleton & Hpr & Hport)]; [done|]. right. simpl in *.
      rewrite (Hfrom a) in Hport by set_solver. by destruct Hport.
    + intros [?|[-> Hab]]; [done|]. right. eexists. split; [by left|]. split; [done|]. simpl.
      by rewrite (Hfrom a) by set_solver.
  - rewrite <-(Hlist (a :: ports) Hfrom). split; intros [?|?]; (done || by right).
Qed.

(** C40: Nothing bounds a port above: the grammar accepts numbers up to 64 bits
    and the end of a range is cut to 32 bits. The rule of a range that the key
    ends at 2^32 + x allows the ports up to x only, though the key says all the
    ports from its begin on. *)
Theorem buildNetpolPorts_truncates `{!IntStrLaws} a x p
    (Ha : (0 ≤ a < 2147483648)%Z) (Hx : (0 ≤ x < 2147483648)%Z) :
  (ports_allow (buildNetpolPorts "TCP" [a; 4294967296 + x]%Z true) "TCP" p ↔ (a ≤ p ≤ x)%Z) ∧
  (spec_allows "TCP" [a; 4294967296 + x]%Z true "TCP" p ↔ (a ≤ p ≤ 4294967296 + x)%Z).
Proof.
  assert (int32_wrap (4294967296 + x) = x) as Hw.
  { unfold int32_wrap. replace (4294967296 + x + 2147483648)%Z with (x + 2147483648 + 1 * 4294967296)%Z by lia.
    rewrite Z.mod_add, Z.mod_small by lia. lia. }
  split; [|unfold spec_allows; naive_solver]. unfold buildNetpolPorts, ports_allow. simpl. rewrite Hw. split.
  - intros [?|(e & ->%list_elem_of_singleton & _ & Hport)]; [done|]. simpl in Hport.
    rewrite FromInt_value in Hport by lia. by destruct Hport.
  - intros Hp. right. eexists. split; [by left|]. split; [done|]. simpl. by rewrite FromInt_value by lia.
Qed.
End PortMeaning.

Lemma buildNetpolPorts_truncates_witness :
  (∃ r, parseEgressRemoteKey "ns:80-4294967376" = Ok r ∧ remote_Ports r = [80; 4294967296 + 80]%Z) ∧
  (ports_allow (buildNetpolPorts "TCP" [80; 4294967296 + 80]%Z true) "TCP" 443 ↔ (80 ≤ 443 ≤ 80)%Z) ∧
  (spec_allows "TCP" [80; 4294967296 + 80]%Z true "TCP" 443 ↔ (80 ≤ 443 ≤ 4294967296 + 80)%Z).
Proof.
  split; [eexists; split; vm_compute; reflexivity|]. apply buildNetpolPorts_truncates; lia.
Defined.

(** Names do not determine rules. The name of an egress rule joins its
    namespace and pod with '-', which both may contain, so two different keys
    under one source can be given the same name, with different rules: the
    object applied last replaces the other. *)
Theorem egress_names_collide :
  ∃ (k1 k2 : string) (r1 r2 : parsedK8sRemote) (o1 o2 : Object),
    let build k r := buildShorthandEgressNetpol (demo_package demo_spec) false (defaultNetpolLabels "egress") "web"
      {| ss_PodSelector := None; ss_Metadata := None; ss_To := None; ss_From := None |} k r
      {| st_Enabled := true; st_PodSelector := None; st_NamespaceSelector := None; st_Metadata := None |} in
    parseEgressRemoteKey k1 = Ok r1 ∧ parseEgressRemoteKey k2 = Ok r2 ∧
    build k1 r1 = Ok o1 ∧ build k2 r2 = Ok o2 ∧
    o_Name o1 = o_Name o2 ∧ o_Body o1 ≠ o_Body o2.
Proof.
  set (build := λ k r, buildShorthandEgressNetpol (demo_package demo_spec) false (defaultNetpolLabels "egress") "web"
    {| ss_PodSelector := None; ss_Metadata := None; ss_To := None; ss_From := None |} k r
    {| st_Enabled := true; st_PodSelector := None; st_NamespaceSelector := None; st_Metadata := None |}).
  set (k1 := "a-pod-b"). set (k2 := "a/b-any-pod").
  set (d := newObject (newMeta "" None None) (NetworkPolicy emptyNetworkPolicySpec)).
  set (r0 := {| remote_Namespace := ""; remote_Pod := ""; remote_Identity := ""; remote_Protocol := ""; remote_Ports := []; remote_HasPortRange := false |}).
  set (r1 := ok_value r0 (parseEgressRemoteKey k1)). set (r2 := ok_value r0 (parseEgressRemoteKey k2)).
  exists k1, k2, r1, r2, (ok_value d (build k1 r1)), (ok_value d (build k2 r2)). cbv zeta.
  split_and!; [apply ok_by_compute; vm_compute; reflexivity..|vm_compute; reflexivity|].
  intros E. apply (f_equal (λ b, match b with
    | NetworkPolicy {| nps_Egress := [{| er_To := [{| peer_PodSelector := Some sel |}] |}] |} => maplen (MatchLabels sel)
    | _ => 0
    end)) in E.
  vm_compute in E. discriminate E.
Qed.
