(* ===== verification/NetpolFlows.v ===== *)
(** * What the generated network policies allow

    A semantics of NetworkPolicies, after the Kubernetes API documentation:
    which pods a policy selects and which connections its rules admit.  Against
    it the expansion of the shorthand is a refinement: the union of the
    generated policies admits exactly the connections that the entries of the
    spec ask for. *)

From S2P Require Import Prelude GoStrings Json K8s ApiTypes External Names ShorthandKeys Metadata.
From S2P Require Import ShorthandValues NetCIDR NetpolCommon Definitions NetpolShorthand.
Local Open Scope string_scope.
Local Open Scope list_scope.

(** ** The semantics of a policy *)

(** The other end of a connection: a pod, or an address outside the cluster
    when the labels are empty. *)
Record endpoint := {
  ep_Namespace : string;
  ep_NamespaceLabels : gmap string string;
  ep_Labels : gmap string string;
  ep_IP : list Z
}.

Definition expression_holds (labels : gmap string string) (e : LabelSelectorRequirement) : Prop :=
  let v := labels !! lsr_Key e in
  if String.eqb (lsr_Operator e) "In" then ∃ x, v = Some x ∧ x ∈ lsr_Values e
  else if String.eqb (lsr_Operator e) "NotIn" then ∀ x, v = Some x → x ∉ lsr_Values e
  else if String.eqb (lsr_Operator e) "Exists" then is_Some v
  else if String.eqb (lsr_Operator e) "DoesNotExist" then v = None
  else False.
Definition selects (sel : LabelSelector) (labels : gmap string string) : Prop :=
  contents (MatchLabels sel) ⊆ labels ∧ Forall (expression_holds labels) (MatchExpressions sel).

Definition in_cidr (cidr : string) (ip : list Z) : Prop :=
  ∃ base n, ParseCIDR cidr = Some (base, n) ∧ net_Contains n ip = true.

(** A peer of a rule, in a policy of namespace [ns]. *)
Definition peer_matches (ns : string) (peer : NetworkPolicyPeer) (q : endpoint) : Prop :=
  match peer_IPBlock peer with
  | Some b => in_cidr (ipb_CIDR b) (ep_IP q) ∧ ∀ ex, ex ∈ default [] (ipb_Except b) → ¬ in_cidr ex (ep_IP q)
  | None =>
      match peer_NamespaceSelector peer with
      | Some sel => selects sel (ep_NamespaceLabels q)
      | None => ep_Namespace q = ns
      end ∧
      match peer_PodSelector peer with Some sel => selects sel (ep_Labels q) | None => True end
  end.
(** No peers: everything matches. *)
Definition peers_match (ns : string) (peers : list NetworkPolicyPeer) (q : endpoint) : Prop :=
  peers = [] ∨ ∃ peer, peer ∈ peers ∧ peer_matches ns peer q.

(** The directions a policy governs: those it lists.  The API server fills in a
    list that is absent: Ingress always, and Egress when there are egress rules. *)
Definition policyTypes_of (sp : NetworkPolicySpec) : list string :=
  match nps_PolicyTypes sp with
  | [] => PolicyTypeIngress :: match nps_Egress sp with [] => [] | _ => [PolicyTypeEgress] end
  | types => types
  end.

(** A connection between a pod of the policy's namespace with labels [pod] and
    [q], on a port of a protocol. *)
Definition allows_egress (ns : string) (o : Object) (pod : gmap string string) (q : endpoint) (proto : string) (p : Z) : Prop :=
  ∃ sp r, o_Body o = NetworkPolicy sp ∧ selects (nps_PodSelector sp) pod ∧ PolicyTypeEgress ∈ policyTypes_of sp ∧
    r ∈ nps_Egress sp ∧ peers_match ns (er_To r) q ∧ ports_allow (er_Ports r) proto p.
Definition allows_ingress (ns : string) (o : Object) (pod : gmap string string) (q : endpoint) (proto : string) (p : Z) : Prop :=
  ∃ sp r, o_Body o = NetworkPolicy sp ∧ selects (nps_PodSelector sp) pod ∧ PolicyTypeIngress ∈ policyTypes_of sp ∧
    r ∈ nps_Ingress sp ∧ peers_match ns (ir_From r) q ∧ ports_allow (ir_Ports r) proto p.

(** ** What the API server stores

    A NetworkPolicy is stored with its absent fields filled in: the protocol of
    a port (TCP) and the policy types. *)
Definition defaultPort (e : NetworkPolicyPort) : NetworkPolicyPort :=
  {| npp_Protocol := Some (default ProtocolTCP (npp_Protocol e)); npp_Port := npp_Port e; npp_EndPort := npp_EndPort e |}.
Definition defaultNetworkPolicy (sp : NetworkPolicySpec) : NetworkPolicySpec :=
  {| nps_PodSelector := nps_PodSelector sp;
     nps_Ingress := (λ r, {| ir_Ports := defaultPort <$> ir_Ports r; ir_From := ir_From r |}) <$> nps_Ingress sp;
     nps_Egress := (λ r, {| er_Ports := defaultPort <$> er_Ports r; er_To := er_To r |}) <$> nps_Egress sp;
     nps_PolicyTypes := policyTypes_of sp |}.

Lemma policyTypes_of_default sp : policyTypes_of (defaultNetworkPolicy sp) = policyTypes_of sp.
Proof. unfold policyTypes_of at 1, defaultNetworkPolicy. simpl. unfold policyTypes_of. by destruct (nps_PolicyTypes sp). Qed.
Lemma defaultPort_allows e proto p : port_allows (defaultPort e) proto p ↔ port_allows e proto p.
Proof. done. Qed.
Lemma default_ports_allow l proto p : ports_allow (defaultPort <$> l) proto p ↔ ports_allow l proto p.
Proof.
  unfold ports_allow. setoid_rewrite list_elem_of_fmap. destruct l as [|e l]; [naive_solver|]. split.
  - intros [?|(x & (e' & -> & He) & Hx)]; [done|]. right. by exists e'.
  - intros [?|(x & Hx & Ha)]; [done|]. right. exists (defaultPort x). split; [by exists x|done].
Qed.

(** Filling in decides nothing: the policy allows what it allowed as sent. *)
Section Defaulted.
Context (ns : string) (o o' : Object) (pod : gmap string string) (q : endpoint) (proto : string) (p : Z) (sp : NetworkPolicySpec).
Context (Hsent : o_Body o = NetworkPolicy sp) (Hkept : o_Body o' = NetworkPolicy (defaultNetworkPolicy sp)).

Lemma default_allows_egress : allows_egress ns o' pod q proto p ↔ allows_egress ns o pod q proto p.
Proof.
  unfold allows_egress. rewrite Hsent, Hkept. split.
  - intros (sp' & r & [= <-] & Hs & Ht & (r0 & -> & Hr)%list_elem_of_fmap & Hp & Ha). exists sp, r0.
    rewrite policyTypes_of_default in Ht. cbn in Ha. rewrite default_ports_allow in Ha. by split_and!.
  - intros (sp' & r & [= <-] & Hs & Ht & Hr & Hp & Ha). do 2 eexists. split_and!; [reflexivity|exact Hs| | | |].
    + by rewrite policyTypes_of_default.
    + by apply list_elem_of_fmap_2.
    + exact Hp.
    + by apply default_ports_allow.
Qed.
Lemma default_allows_ingress : allows_ingress ns o' pod q proto p ↔ allows_ingress ns o pod q proto p.
Proof.
  unfold allows_ingress. rewrite Hsent, Hkept. split.
  - intros (sp' & r & [= <-] & Hs & Ht & (r0 & -> & Hr)%list_elem_of_fmap & Hp & Ha). exists sp, r0.
    rewrite policyTypes_of_default in Ht. cbn in Ha. rewrite default_ports_allow in Ha. by split_and!.
  - intros (sp' & r & [= <-] & Hs & Ht & Hr & Hp & Ha). do 2 eexists. split_and!; [reflexivity|exact Hs| | | |].
    + by rewrite policyTypes_of_default.
    + by apply list_elem_of_fmap_2.
    + exact Hp.
    + by apply default_ports_allow.
Qed.
End Defaulted.

(** ** What the spec asks for *)

(** An override of labels, when it is not empty, or else a condition. *)
Definition labels_or (override : gomap string) (labels : gmap string string) (P : Prop) : Prop :=
  if (0 <? maplen override)%nat then contents override ⊆ labels else P.

(** The pods a source key names: all of them, or those of the application. *)
Definition source_wanted (localKey : string) (local : shorthandSource) (pod : gmap string string) : Prop :=
  labels_or (ss_PodSelector local) pod (localKey = "*" ∨ pod !! "app.kubernetes.io/name" = Some localKey).
Definition dest_wanted (parsedLocal : parsedLocalIngressKey) (local : shorthandSource) (pod : gmap string string) : Prop :=
  labels_or (ss_PodSelector local) pod (pod !! "app.kubernetes.io/name" = Some (local_Pod parsedLocal)).

(** The pods a [k8s] key names: of all namespaces or one, all of them or those
    of one application. *)
Definition remote_wanted (remote : parsedK8sRemote) (target : shorthandTarget) (q : endpoint) : Prop :=
  labels_or (st_NamespaceSelector target) (ep_NamespaceLabels q)
    (remote_Namespace remote = "*" ∨ ep_NamespaceLabels q !! "kubernetes.io/metadata.name" = Some (remote_Namespace remote)) ∧
  labels_or (st_PodSelector target) (ep_Labels q)
    (remote_Pod remote = "" ∨ remote_Pod remote = "*" ∨ ep_Labels q !! "app.kubernetes.io/name" = Some (remote_Pod remote)).

(** The addresses a [cidr] key of an egress source names: those of the block
    that are in none of the exclusions that apply to it. *)
Definition block_wanted (exclusions : list string) (cidr : string) (ip : list Z) : Prop :=
  ∃ base n, ParseCIDR cidr = Some (base, n) ∧ net_Contains n ip = true ∧
    ∀ ex, ex ∈ exclusions → kept cidr n ex = true → ¬ in_cidr ex ip.

(** An enabled entry of a kind for which [W] holds. *)
Definition some_entry {V} (entries : gmap string V) (enabled : V → bool) (W : string → V → Prop) : Prop :=
  ∃ key v, entries !! key = Some v ∧ enabled v = true ∧ W key v.

Section Wanted.
Context `{Ext} (pkg : Package) (spec : NetworkPolicies) (env : defsEnv).
Context (q : endpoint) (proto : string) (p : Z).
Notation ns := (pkg_Namespace pkg).

(** What the entries of an egress source say of [q] and a port. *)
Definition k8s_egress_wanted (key : string) (target : shorthandTarget) : Prop :=
  ∃ remote, parseEgressRemoteKey key = Ok remote ∧ remote_wanted remote target q ∧
    spec_allows (remote_Protocol remote) (remote_Ports remote) (remote_HasPortRange remote) proto p.
Definition definition_egress_wanted (key : string) (target : shorthandTarget) : Prop :=
  ∃ def, resolveEgressDefinition spec key env = Ok def ∧ peers_match ns (rd_peers def) q ∧ ports_allow (rd_ports def) proto p.
Definition cidr_egress_wanted (key : string) (target : shorthandTarget) : Prop :=
  ∃ cidr, parseEgressCIDRKey key = Ok cidr ∧ block_wanted (excludeCIDRsFor (Some spec)) (cidr_CIDR cidr) (ep_IP q) ∧
    spec_allows (cidr_Protocol cidr) (cidr_Ports cidr) (cidr_HasPortRange cidr) proto p.
Definition literal_egress_wanted (key : string) (lit : literalTarget) : Prop :=
  ∃ doc rules r, lt_Spec lit = Some doc ∧ decode_EgressRules doc = Ok rules ∧ r ∈ rules ∧
    peers_match ns (er_To r) q ∧ ports_allow (er_Ports r) proto p.
Definition egress_wanted (to : shorthandPeer) : Prop :=
  some_entry (K8s to) st_Enabled k8s_egress_wanted ∨ some_entry (sp_Definition to) st_Enabled definition_egress_wanted ∨
  some_entry (Cidr to) st_Enabled cidr_egress_wanted ∨ some_entry (Literal to) lt_Enabled literal_egress_wanted.

(** Of an ingress destination: the ports are those of the destination key; a
    definition has its own ports where the key has none. *)
Context (parsedLocal : parsedLocalIngressKey).
Notation local_allows :=
  (spec_allows (local_Protocol parsedLocal) (local_Ports parsedLocal) (local_HasPortRange parsedLocal) proto p).

Definition k8s_ingress_wanted (key : string) (target : shorthandTarget) : Prop :=
  ∃ remote, parseIngressRemoteKey key = Ok remote ∧ remote_wanted remote target q ∧ local_allows.
Definition definition_ingress_wanted (key : string) (target : shorthandTarget) : Prop :=
  ∃ def, resolveIngressDefinition spec key env = Ok def ∧ peers_match ns (rd_peers def) q ∧
    if decide (local_Ports parsedLocal = []) then ports_allow (rd_ports def) proto p else local_allows.
Definition cidr_ingress_wanted (key : string) (target : shorthandTarget) : Prop :=
  ∃ cidr, parseIngressCIDRKey key = Ok cidr ∧ in_cidr (cidr_CIDR cidr) (ep_IP q) ∧ local_allows.
Definition literal_ingress_wanted (key : string) (lit : literalTarget) : Prop :=
  ∃ doc rules r, lt_Spec lit = Some doc ∧ decode_IngressRules doc = Ok rules ∧ r ∈ rules ∧
    peers_match ns (ir_From r) q ∧ ports_allow (ir_Ports r) proto p.
Definition ingress_wanted (from : shorthandPeer) : Prop :=
  some_entry (K8s from) st_Enabled k8s_ingress_wanted ∨ some_entry (sp_Definition from) st_Enabled definition_ingress_wanted ∨
  some_entry (Cidr from) st_Enabled cidr_ingress_wanted ∨ some_entry (Literal from) lt_Enabled literal_ingress_wanted.
End Wanted.

(** ** Selectors *)

Lemma selects_labels m labels : selects {| MatchLabels := m; MatchExpressions := [] |} labels ↔ contents m ⊆ labels.
Proof. unfold selects. simpl. split; [by intros [? _]|by split]. Qed.
Lemma selects_empty labels : selects emptySelector labels.
Proof. apply selects_labels. apply map_empty_subseteq. Qed.
Lemma selects_one k v labels : selects (matchLabels k v) labels ↔ labels !! k = Some v.
Proof. etrans; [apply selects_labels|]. apply map_singleton_subseteq_l. Qed.

(** A selector built from an override, or else from a default. *)
Lemma selects_override override (sel : LabelSelector) labels (P : Prop) :
  (selects sel labels ↔ P) →
  selects (if (0 <? maplen override)%nat then {| MatchLabels := override; MatchExpressions := [] |} else sel) labels ↔
  labels_or override labels P.
Proof. intros HP. unfold labels_or. destruct (0 <? _)%nat; [apply selects_labels|done]. Qed.

Lemma srcSelector_wanted localKey local pod : selects (srcSelector localKey local) pod ↔ source_wanted localKey local pod.
Proof.
  unfold srcSelector, source_wanted. apply selects_override. destruct (String.eqb_spec localKey "*") as [->|Hne].
  - split; [by left|intros _; apply selects_empty].
  - rewrite selects_one. naive_solver.
Qed.
Lemma dstSelector_wanted pl local pod : selects (dstSelector pl local) pod ↔ dest_wanted pl local pod.
Proof. unfold dstSelector, dest_wanted. apply selects_override, selects_one. Qed.

Lemma single_peer ns peer q : peers_match ns [peer] q ↔ peer_matches ns peer q.
Proof.
  unfold peers_match. split; [by intros [?|(x & ->%list_elem_of_singleton & ?)]|].
  intros ?. right. exists peer. by split; [left|].
Qed.

Lemma remote_wanted_peer ns remote target q :
  peers_match ns [selectorPeer (remoteNamespaceSelector (remote_Namespace remote) (st_NamespaceSelector target))
                               (remotePodSelector (remote_Pod remote) (st_PodSelector target))] q ↔
  remote_wanted remote target q.
Proof.
  rewrite single_peer.
  unfold peer_matches, remote_wanted, remoteNamespaceSelector, remotePodSelector.
  cbn [selectorPeer peer_IPBlock peer_NamespaceSelector peer_PodSelector]. f_equiv.
  - apply selects_override. destruct (String.eqb_spec (remote_Namespace remote) "*").
    + split; [by left|intros _; apply selects_empty].
    + etrans; [apply selects_one|]. naive_solver.
  - apply selects_override. destruct (String.eqb_spec (remote_Pod remote) ""); cbn [orb].
    { split; [by left|intros _; apply selects_empty]. }
    destruct (String.eqb_spec (remote_Pod remote) "*").
    + split; [by right; left|intros _; apply selects_empty].
    + etrans; [apply selects_one|]. naive_solver.
Qed.

Lemma applyExcludeCIDRs_elem cidr exs ex :
  ex ∈ default [] (applyExcludeCIDRs cidr exs) ↔
  ex ∈ exs ∧ ∃ base n, ParseCIDR cidr = Some (base, n) ∧ kept cidr n ex = true.
Proof.
  destruct (applyExcludeCIDRs cidr exs) as [out|] eqn:E; simpl.
  - apply applyExcludeCIDRs_Some in E as (_ & ip & n & -> & ->). rewrite list_elem_of_filter.
    split; [intros [? ?]; eauto|]. by intros (? & ? & ? & [= <- <-] & ?).
  - split; [by intros ?%elem_of_nil|]. intros (Hin & base & n & Hc & Hk). exfalso.
    unfold applyExcludeCIDRs in E. rewrite Hc, keepExclusions_filter in E.
    destruct exs as [|e exs]; [by apply elem_of_nil in Hin|]. cbn [length Nat.eqb] in E.
    assert (ex ∈ filter (λ ex, kept cidr n ex = true) (e :: exs)) as Hf by by apply list_elem_of_filter.
    destruct (filter _ _); [by apply elem_of_nil in Hf|done].
Qed.

Lemma block_wanted_peer ns exs cidr q :
  peers_match ns [{| peer_PodSelector := None; peer_NamespaceSelector := None;
                     peer_IPBlock := Some {| ipb_CIDR := cidr; ipb_Except := applyExcludeCIDRs cidr exs |} |}] q ↔
  block_wanted exs cidr (ep_IP q).
Proof.
  rewrite single_peer. unfold peer_matches, block_wanted, in_cidr. cbn [peer_IPBlock ipb_CIDR ipb_Except]. split.
  - intros [(base & n & Hc & Hin) Hex]. exists base, n. split_and!; [done..|]. intros ex He Hk.
    apply Hex, applyExcludeCIDRs_elem. eauto.
  - intros (base & n & Hc & Hin & Hex). split; [eauto|].
    intros ex (He & base' & n' & Hc' & Hk)%applyExcludeCIDRs_elem. apply Hex; [done|congruence].
Qed.

(** ** Policies *)

Section Allows.
Context (ns : string) (pod : gmap string string) (q : endpoint) (proto : string) (p : Z).

Lemma allows_egress_body o o' : o_Body o = o_Body o' → allows_egress ns o pod q proto p ↔ allows_egress ns o' pod q proto p.
Proof. intros E. unfold allows_egress. by rewrite E. Qed.
Lemma allows_ingress_body o o' : o_Body o = o_Body o' → allows_ingress ns o pod q proto p ↔ allows_ingress ns o' pod q proto p.
Proof. intros E. unfold allows_ingress. by rewrite E. Qed.

Lemma egressNetpol_allows name l a sel rules :
  allows_egress ns (egressNetpol name l a sel rules) pod q proto p ↔
  selects sel pod ∧ ∃ r, r ∈ rules ∧ peers_match ns (er_To r) q ∧ ports_allow (er_Ports r) proto p.
Proof.
  split.
  - intros (sp & r & [= <-] & Hs & _ & Hr & Hrest). eauto.
  - intros (Hs & r & Hr & Hrest). do 2 eexists. split_and!; [done|done|by left|done|apply Hrest..].
Qed.
Lemma ingressNetpol_allows name l a sel rules :
  allows_ingress ns (ingressNetpol name l a sel rules) pod q proto p ↔
  selects sel pod ∧ ∃ r, r ∈ rules ∧ peers_match ns (ir_From r) q ∧ ports_allow (ir_Ports r) proto p.
Proof.
  split.
  - intros (sp & r & [= <-] & Hs & _ & Hr & Hrest). eauto.
  - intros (Hs & r & Hr & Hrest). do 2 eexists. split_and!; [done|done|by left|done|apply Hrest..].
Qed.

Lemma one_rule {A} (r : A) (P : A → Prop) : (∃ x, x ∈ [r] ∧ P x) ↔ P r.
Proof. split; [by intros (x & ->%list_elem_of_singleton & ?)|]. intros ?. exists r. by split; [left|]. Qed.
End Allows.

(** A loop that emits one object for each enabled entry, of which [F] holds
    where both [S] and the entry's [W] do. *)
Lemma entries_refine {V} (entries : gmap string V) (enabled : V → bool) (m : string → V → outcome Object)
    (l : option shorthandMetadata) (r : V → option shorthandMetadata) (body : string → V → outcome (list Object)) out
    (F : Object → Prop) (S : Prop) (W : string → V → Prop) :
  for_sorted entries body = Ok out →
  (∀ key v, body key v = if negb (enabled v) then Ok [] else np ← m key v; Ok (emit np l (r v))) →
  (∀ o meta, F (applyShorthandMetadata o meta) ↔ F o) →
  (∀ key v np, entries !! key = Some v → enabled v = true → m key v = Ok np → F np ↔ S ∧ W key v) →
  (∃ o, o ∈ out ∧ F o) ↔ S ∧ some_entry entries enabled W.
Proof.
  unfold some_entry. intros Hout Hbody HF HW. split.
  - intros (o & (k & v & ys & Hk & Hys & Ho)%(for_sorted_elem _ _ _ _ Hout) & Hf). rewrite Hbody in Hys.
    destruct (enabled v) eqn:He; simpl in Hys; [|injection Hys as <-; by apply elem_of_nil in Ho].
    apply bind_Ok in Hys as (np & Hnp & [= <-]). apply list_elem_of_singleton in Ho as ->.
    apply HF, (HW k v np Hk He Hnp) in Hf as [? ?]. eauto 10.
  - intros (HS & k & v & Hk & He & Hw). destruct (for_sorted_body _ _ _ _ _ Hout Hk) as [ys Hys].
    pose proof Hys as Hys'. rewrite Hbody, He in Hys. simpl in Hys. apply bind_Ok in Hys as (np & Hnp & [= <-]).
    eexists. split; [apply (for_sorted_elem _ _ _ _ Hout); exists k, v; eexists; split_and!; [done|exact Hys'|by left]|].
    apply HF. by apply (HW k v np).
Qed.

(** Each object of such a loop is that of one enabled entry. *)
Lemma entries_each {V} (entries : gmap string V) (enabled : V → bool) (m : string → V → outcome Object)
    (l : option shorthandMetadata) (r : V → option shorthandMetadata) (body : string → V → outcome (list Object)) out o :
  for_sorted entries body = Ok out →
  (∀ key v, body key v = if negb (enabled v) then Ok [] else np ← m key v; Ok (emit np l (r v))) → o ∈ out →
  ∃ key v np meta, entries !! key = Some v ∧ enabled v = true ∧ m key v = Ok np ∧ o = applyShorthandMetadata np meta.
Proof.
  intros Hout Hbody (k & v & ys & Hk & Hys & Ho)%(for_sorted_elem _ _ _ _ Hout). rewrite Hbody in Hys.
  destruct (enabled v) eqn:He; simpl in Hys; [|injection Hys as <-; by apply elem_of_nil in Ho].
  apply bind_Ok in Hys as (np & Hnp & [= <-]). apply list_elem_of_singleton in Ho as ->. by exists k, v, np, (mergeShorthandMetadata l (r v)).
Qed.

Lemma bind_assoc {A B C} (m : outcome A) (f : A → outcome B) (g : B → outcome C) :
  ((m ≫= f) ≫= g) = (m ≫= λ a, f a ≫= g).
Proof. by destruct m. Qed.

Lemma exists_elem_app {A} (F : A → Prop) l1 l2 : (∃ o, o ∈ l1 ++ l2 ∧ F o) ↔ (∃ o, o ∈ l1 ∧ F o) ∨ (∃ o, o ∈ l2 ∧ F o).
Proof. setoid_rewrite elem_of_app. naive_solver. Qed.

(** Ports that fit the API's 32-bit integers. *)
Definition ports_fit (ports : list Z) : Prop := Forall (λ q, q < 2147483648)%Z ports.

Section Flows.
Context `{Ext} `{!IntStrLaws} (pkg : Package) (spec : NetworkPolicies) (env : defsEnv).
Context (pod : gmap string string) (q : endpoint) (proto : string) (p : Z).
Notation ns := (pkg_Namespace pkg).
Notation prepend := (NP_PrependReleaseName spec).
Notation egress_allowed := (λ o, allows_egress ns o pod q proto p).
Notation ingress_allowed := (λ o, allows_ingress ns o pod q proto p).

Ltac built_egress := bind_inv; rewrite egressNetpol_allows, one_rule; cbn [er_To er_Ports].
Ltac built_ingress := bind_inv; rewrite ingressNetpol_allows, one_rule; cbn [ir_From ir_Ports].

Lemma k8s_egress_flows np lbl lk local key remote target :
  ports_sound (remote_Protocol remote) (remote_Ports remote) (remote_HasPortRange remote) → ports_fit (remote_Ports remote) →
  buildShorthandEgressNetpol pkg prepend lbl lk local key remote target = Ok np →
  egress_allowed np ↔ source_wanted lk local pod ∧ remote_wanted remote target q ∧
    spec_allows (remote_Protocol remote) (remote_Ports remote) (remote_HasPortRange remote) proto p.
Proof.
  intros Hs Hf Hb. unfold buildShorthandEgressNetpol in Hb. built_egress.
  by rewrite srcSelector_wanted, remote_wanted_peer, buildNetpolPorts_allow.
Qed.

Lemma cidr_egress_flows np lbl lk local key cidr :
  ports_sound (cidr_Protocol cidr) (cidr_Ports cidr) (cidr_HasPortRange cidr) → ports_fit (cidr_Ports cidr) →
  buildEgressCIDRNetpol pkg spec prepend lbl lk local key cidr = Ok np →
  egress_allowed np ↔ source_wanted lk local pod ∧ block_wanted (excludeCIDRsFor (Some spec)) (cidr_CIDR cidr) (ep_IP q) ∧
    spec_allows (cidr_Protocol cidr) (cidr_Ports cidr) (cidr_HasPortRange cidr) proto p.
Proof.
  intros Hs Hf Hb. unfold buildEgressCIDRNetpol in Hb. built_egress.
  by rewrite srcSelector_wanted, block_wanted_peer, buildNetpolPorts_allow.
Qed.

Lemma definition_egress_flows lbl lk local name def :
  egress_allowed (buildEgressDefinitionNetpol pkg prepend lbl lk local name def) ↔
  source_wanted lk local pod ∧ peers_match ns (rd_peers def) q ∧ ports_allow (rd_ports def) proto p.
Proof. unfold buildEgressDefinitionNetpol. rewrite egressNetpol_allows, one_rule. cbn [er_To er_Ports]. by rewrite srcSelector_wanted. Qed.

(** The rules of a literal entry, as decoded. *)
Lemma decodeLiteralRules_rules {T} (decode : json → outcome (list T)) raw rules yaml :
  decodeLiteralRules decode raw = Ok (rules, yaml) → ∃ doc, raw = Some doc ∧ decode doc = Ok rules.
Proof.
  destruct raw as [doc|]; [|done]. simpl. intros (rs & Hrs%wrap_Ok & Hx)%bind_Ok.
  apply bind_Ok in Hx as (y & _ & [= <- _]). by exists doc.
Qed.

Lemma literal_egress_flows np lbl lk local key lit :
  buildEgressLiteralNetpol pkg prepend lbl lk local key lit = Ok np →
  egress_allowed np ↔ source_wanted lk local pod ∧ literal_egress_wanted pkg q proto p key lit.
Proof.
  unfold buildEgressLiteralNetpol. destruct (negb _); [done|]. intros ([rules yaml] & Hd%wrap_Ok & [= <-])%bind_Ok.
  apply decodeLiteralRules_rules in Hd as (doc & Hdoc & Hdec). rewrite egressNetpol_allows, srcSelector_wanted.
  split; [intros [Hs (r & Hr & Hx)]; split; [done|by exists doc, rules, r]|].
  intros [Hs (doc' & rules' & r & E1 & E2 & Hr & Hx)]. split; [done|]. exists r. split; [|done]. congruence.
Qed.

Lemma k8s_ingress_flows np lbl pl local key remote target :
  ports_sound (local_Protocol pl) (local_Ports pl) (local_HasPortRange pl) → ports_fit (local_Ports pl) →
  buildShorthandIngressNetpol pkg prepend lbl pl local key remote target = Ok np →
  ingress_allowed np ↔ dest_wanted pl local pod ∧ remote_wanted remote target q ∧
    spec_allows (local_Protocol pl) (local_Ports pl) (local_HasPortRange pl) proto p.
Proof.
  intros Hs Hf Hb. unfold buildShorthandIngressNetpol in Hb. built_ingress.
  by rewrite dstSelector_wanted, remote_wanted_peer, buildNetpolPorts_allow.
Qed.

Lemma cidr_ingress_flows np lbl pl local key cidr :
  ports_sound (local_Protocol pl) (local_Ports pl) (local_HasPortRange pl) → ports_fit (local_Ports pl) →
  buildIngressCIDRNetpol pkg prepend lbl pl local key cidr = Ok np →
  ingress_allowed np ↔ dest_wanted pl local pod ∧ in_cidr (cidr_CIDR cidr) (ep_IP q) ∧
    spec_allows (local_Protocol pl) (local_Ports pl) (local_HasPortRange pl) proto p.
Proof.
  intros Hs Hf Hb. unfold buildIngressCIDRNetpol in Hb. built_ingress.
  rewrite dstSelector_wanted, single_peer, buildNetpolPorts_allow by done. f_equiv. f_equiv.
  unfold peer_matches. simpl. split; [by intros [? _]|]. intros ?. split; [done|]. by intros ex ?%elem_of_nil.
Qed.

Lemma definition_ingress_flows np lbl pl local name def :
  ports_sound (local_Protocol pl) (local_Ports pl) (local_HasPortRange pl) → ports_fit (local_Ports pl) →
  buildIngressDefinitionNetpol pkg prepend lbl pl local name def = Ok np →
  ingress_allowed np ↔ dest_wanted pl local pod ∧ peers_match ns (rd_peers def) q ∧
    (if decide (local_Ports pl = []) then ports_allow (rd_ports def) proto p
     else spec_allows (local_Protocol pl) (local_Ports pl) (local_HasPortRange pl) proto p).
Proof.
  intros Hs Hf Hb. unfold buildIngressDefinitionNetpol in Hb. built_ingress.
  rewrite dstSelector_wanted. f_equiv. f_equiv. destruct (decide _) as [->|Hne]; [done|].
  destruct (local_Ports pl) as [|z l] eqn:E; [done|]. cbn [length Nat.ltb Nat.leb]. by apply buildNetpolPorts_allow.
Qed.

Lemma literal_ingress_flows np lbl pl local key lit :
  buildIngressLiteralNetpol pkg prepend lbl pl local key lit = Ok np →
  ingress_allowed np ↔ dest_wanted pl local pod ∧ literal_ingress_wanted pkg q proto p key lit.
Proof.
  unfold buildIngressLiteralNetpol. destruct (negb _); [done|]. intros ([rules yaml] & Hd%wrap_Ok & [= <-])%bind_Ok.
  apply decodeLiteralRules_rules in Hd as (doc & Hdoc & Hdec). rewrite ingressNetpol_allows, dstSelector_wanted.
  split; [intros [Hs (r & Hr & Hx)]; split; [done|by exists doc, rules, r]|].
  intros [Hs (doc' & rules' & r & E1 & E2 & Hr & Hx)]. split; [done|]. exists r. split; [|done]. congruence.
Qed.

Lemma egress_allowed_apply o meta : egress_allowed (applyShorthandMetadata o meta) ↔ egress_allowed o.
Proof. apply allows_egress_body. by destruct (apply_frame o meta) as (_ & _ & -> & _). Qed.
Lemma ingress_allowed_apply o meta : ingress_allowed (applyShorthandMetadata o meta) ↔ ingress_allowed o.
Proof. apply allows_ingress_body. by destruct (apply_frame o meta) as (_ & _ & -> & _). Qed.

(** The entries of one source whose ports fit. *)
Definition egress_ports_fit (to : shorthandPeer) : Prop :=
  (∀ key target remote, K8s to !! key = Some target → st_Enabled target = true →
     parseEgressRemoteKey key = Ok remote → ports_fit (remote_Ports remote)) ∧
  (∀ key target cidr, Cidr to !! key = Some target → st_Enabled target = true →
     parseEgressCIDRKey key = Ok cidr → ports_fit (cidr_Ports cidr)).

(** *** The loops over one egress source *)
Section EgressSource.
Context (lk : string) (local : shorthandSource) (to : shorthandPeer).
Notation at_ := (λ s, "networkPolicies.egress.from." +:+ lk +:+ s).
Notation lbl := (defaultNetpolLabels "egress").
Notation S := (source_wanted lk local pod).

Lemma k8s_egress_loop out :
  egress_ports_fit to →
  for_sorted (K8s to) (λ remoteKey target,
    if negb (st_Enabled target) then Ok [] else
    remote ← wrap (at_ ".to.k8s") (parseEgressRemoteKey remoteKey);
    np ← buildShorthandEgressNetpol pkg prepend lbl lk local remoteKey remote target;
    Ok (emit np (ss_Metadata local) (st_Metadata target))) = Ok out →
  (∃ o, o ∈ out ∧ egress_allowed o) ↔ S ∧ some_entry (K8s to) st_Enabled (k8s_egress_wanted q proto p).
Proof.
  intros [Hf _] Hout. apply (entries_refine _ st_Enabled (λ key t, remote ← wrap (at_ ".to.k8s") (parseEgressRemoteKey key);
    buildShorthandEgressNetpol pkg prepend lbl lk local key remote t) (ss_Metadata local) st_Metadata _ _ _ _ _ Hout).
  - intros. by rewrite bind_assoc.
  - apply egress_allowed_apply.
  - intros key t np Hk He (remote & Hp%wrap_Ok & Hb)%bind_Ok. unfold k8s_egress_wanted. rewrite Hp.
    etrans; [eapply k8s_egress_flows; [by eapply parseEgressRemoteKey_sound|by eapply Hf|done]|]. naive_solver.
Qed.

Lemma definition_egress_loop out :
  for_sorted (sp_Definition to) (λ defName target,
    if negb (st_Enabled target) then Ok [] else
    def ← wrap (at_ ".to.definition") (resolveEgressDefinition spec defName env);
    Ok (emit (buildEgressDefinitionNetpol pkg prepend lbl lk local defName def)
          (ss_Metadata local) (st_Metadata target))) = Ok out →
  (∃ o, o ∈ out ∧ egress_allowed o) ↔ S ∧ some_entry (sp_Definition to) st_Enabled (definition_egress_wanted pkg spec env q proto p).
Proof.
  intros Hout. apply (entries_refine _ st_Enabled (λ key t, def ← wrap (at_ ".to.definition") (resolveEgressDefinition spec key env);
    Ok (buildEgressDefinitionNetpol pkg prepend lbl lk local key def)) (ss_Metadata local) st_Metadata _ _ _ _ _ Hout).
  - intros. by rewrite bind_assoc.
  - apply egress_allowed_apply.
  - intros key t np Hk He (def & Hp%wrap_Ok & [= <-])%bind_Ok. unfold definition_egress_wanted.
    rewrite Hp, definition_egress_flows. naive_solver.
Qed.

Lemma cidr_egress_loop out :
  egress_ports_fit to →
  for_sorted (Cidr to) (λ cidrKey target,
    if negb (st_Enabled target) then Ok [] else
    cidr ← wrap (at_ ".to.cidr") (parseEgressCIDRKey cidrKey);
    np ← buildEgressCIDRNetpol pkg spec prepend lbl lk local cidrKey cidr;
    Ok (emit np (ss_Metadata local) (st_Metadata target))) = Ok out →
  (∃ o, o ∈ out ∧ egress_allowed o) ↔ S ∧ some_entry (Cidr to) st_Enabled (cidr_egress_wanted spec q proto p).
Proof.
  intros [_ Hf] Hout. apply (entries_refine _ st_Enabled (λ key t, cidr ← wrap (at_ ".to.cidr") (parseEgressCIDRKey key);
    buildEgressCIDRNetpol pkg spec prepend lbl lk local key cidr) (ss_Metadata local) st_Metadata _ _ _ _ _ Hout).
  - intros. by rewrite bind_assoc.
  - apply egress_allowed_apply.
  - intros key t np Hk He (c & Hp%wrap_Ok & Hb)%bind_Ok. unfold cidr_egress_wanted. rewrite Hp.
    etrans; [eapply cidr_egress_flows; [by eapply parseEgressCIDRKey_sound|by eapply Hf|done]|]. naive_solver.
Qed.

Lemma literal_egress_loop out :
  for_sorted (Literal to) (λ ruleKey lit,
    if negb (lt_Enabled lit) then Ok [] else
    np ← wrap (at_ ".to.literal") (buildEgressLiteralNetpol pkg prepend lbl lk local ruleKey lit);
    Ok (emit np (ss_Metadata local) (lt_Metadata lit))) = Ok out →
  (∃ o, o ∈ out ∧ egress_allowed o) ↔ S ∧ some_entry (Literal to) lt_Enabled (literal_egress_wanted pkg q proto p).
Proof.
  intros Hout. apply (entries_refine _ lt_Enabled (λ key lit, wrap (at_ ".to.literal")
    (buildEgressLiteralNetpol pkg prepend lbl lk local key lit)) (ss_Metadata local) lt_Metadata _ _ _ _ _ Hout); [done| |].
  - apply egress_allowed_apply.
  - intros key lit np Hk He Hb%wrap_Ok. by eapply literal_egress_flows.
Qed.

Lemma egress_source_flows out :
  egress_ports_fit to → expandEgressSource pkg spec env lk local to = Ok out →
  (∃ o, o ∈ out ∧ egress_allowed o) ↔ S ∧ egress_wanted pkg spec env q proto p to.
Proof.
  intros Hfit Hout. unfold expandEgressSource in Hout. cbv zeta in Hout.
  apply bind_Ok in Hout as (k8s & H1 & Hout). apply bind_Ok in Hout as (definition & H2 & Hout).
  apply bind_Ok in Hout as (cidr & H3 & Hout). apply bind_Ok in Hout as (literal & H4 & Hout). injection Hout as <-.
  rewrite !exists_elem_app, (k8s_egress_loop _ Hfit H1), (definition_egress_loop _ H2),
    (cidr_egress_loop _ Hfit H3), (literal_egress_loop _ H4). unfold egress_wanted. tauto.
Qed.
End EgressSource.

(** *** The loops over one ingress destination *)
Section IngressDestination.
Context (lk : string) (pl : parsedLocalIngressKey) (local : shorthandSource) (from : shorthandPeer).
Notation at_ := (λ s, "networkPolicies.ingress.to." +:+ lk +:+ s).
Context (Hsound : ports_sound (local_Protocol pl) (local_Ports pl) (local_HasPortRange pl)) (Hfit : ports_fit (local_Ports pl)).
Notation lbl := (defaultNetpolLabels "ingress").
Notation S := (dest_wanted pl local pod).

Lemma k8s_ingress_loop out :
  for_sorted (K8s from) (λ remoteKey target,
    if negb (st_Enabled target) then Ok [] else
    remote ← wrap (at_ ".from.k8s") (parseIngressRemoteKey remoteKey);
    np ← buildShorthandIngressNetpol pkg prepend lbl pl local remoteKey remote target;
    Ok (emit np (ss_Metadata local) (st_Metadata target))) = Ok out →
  (∃ o, o ∈ out ∧ ingress_allowed o) ↔ S ∧ some_entry (K8s from) st_Enabled (k8s_ingress_wanted q proto p pl).
Proof.
  intros Hout. apply (entries_refine _ st_Enabled (λ key t, remote ← wrap (at_ ".from.k8s") (parseIngressRemoteKey key);
    buildShorthandIngressNetpol pkg prepend lbl pl local key remote t) (ss_Metadata local) st_Metadata _ _ _ _ _ Hout).
  - intros. by rewrite bind_assoc.
  - apply ingress_allowed_apply.
  - intros key t np Hk He (remote & Hp%wrap_Ok & Hb)%bind_Ok. unfold k8s_ingress_wanted. rewrite Hp.
    etrans; [by eapply k8s_ingress_flows|]. naive_solver.
Qed.

Lemma definition_ingress_loop out :
  for_sorted (sp_Definition from) (λ defName target,
    if negb (st_Enabled target) then Ok [] else
    def ← wrap (at_ ".from.definition") (resolveIngressDefinition spec defName env);
    np ← buildIngressDefinitionNetpol pkg prepend lbl pl local defName def;
    Ok (emit np (ss_Metadata local) (st_Metadata target))) = Ok out →
  (∃ o, o ∈ out ∧ ingress_allowed o) ↔ S ∧ some_entry (sp_Definition from) st_Enabled (definition_ingress_wanted pkg spec env q proto p pl).
Proof.
  intros Hout. apply (entries_refine _ st_Enabled (λ key t, def ← wrap (at_ ".from.definition") (resolveIngressDefinition spec key env);
    buildIngressDefinitionNetpol pkg prepend lbl pl local key def) (ss_Metadata local) st_Metadata _ _ _ _ _ Hout).
  - intros. by rewrite bind_assoc.
  - apply ingress_allowed_apply.
  - intros key t np Hk He (def & Hp%wrap_Ok & Hb)%bind_Ok. unfold definition_ingress_wanted. rewrite Hp.
    etrans; [by eapply definition_ingress_flows|]. naive_solver.
Qed.

Lemma cidr_ingress_loop out :
  for_sorted (Cidr from) (λ cidrKey target,
    if negb (st_Enabled target) then Ok [] else
    cidr ← wrap (at_ ".from.cidr") (parseIngressCIDRKey cidrKey);
    np ← buildIngressCIDRNetpol pkg prepend lbl pl local cidrKey cidr;
    Ok (emit np (ss_Metadata local) (st_Metadata target))) = Ok out →
  (∃ o, o ∈ out ∧ ingress_allowed o) ↔ S ∧ some_entry (Cidr from) st_Enabled (cidr_ingress_wanted q proto p pl).
Proof.
  intros Hout. apply (entries_refine _ st_Enabled (λ key t, cidr ← wrap (at_ ".from.cidr") (parseIngressCIDRKey key);
    buildIngressCIDRNetpol pkg prepend lbl pl local key cidr) (ss_Metadata local) st_Metadata _ _ _ _ _ Hout).
  - intros. by rewrite bind_assoc.
  - apply ingress_allowed_apply.
  - intros key t np Hk He (c & Hp%wrap_Ok & Hb)%bind_Ok. unfold cidr_ingress_wanted. rewrite Hp.
    etrans; [by eapply cidr_ingress_flows|]. naive_solver.
Qed.

Lemma literal_ingress_loop out :
  for_sorted (Literal from) (λ ruleKey lit,
    if negb (lt_Enabled lit) then Ok [] else
    np ← wrap (at_ ".from.literal") (buildIngressLiteralNetpol pkg prepend lbl pl local ruleKey lit);
    Ok (emit np (ss_Metadata local) (lt_Metadata lit))) = Ok out →
  (∃ o, o ∈ out ∧ ingress_allowed o) ↔ S ∧ some_entry (Literal from) lt_Enabled (literal_ingress_wanted pkg q proto p).
Proof.
  intros Hout. apply (entries_refine _ lt_Enabled (λ key lit, wrap (at_ ".from.literal")
    (buildIngressLiteralNetpol pkg prepend lbl pl local key lit)) (ss_Metadata local) lt_Metadata _ _ _ _ _ Hout); [done| |].
  - apply ingress_allowed_apply.
  - intros key lit np Hk He Hb%wrap_Ok. by eapply literal_ingress_flows.
Qed.

Lemma ingress_destination_flows out :
  expandIngressDestination pkg spec env lk pl local from = Ok out →
  (∃ o, o ∈ out ∧ ingress_allowed o) ↔ S ∧ ingress_wanted pkg spec env q proto p pl from.
Proof.
  intros Hout. unfold expandIngressDestination in Hout. cbv zeta in Hout.
  apply bind_Ok in Hout as (k8s & H1 & Hout). apply bind_Ok in Hout as (definition & H2 & Hout).
  apply bind_Ok in Hout as (cidr & H3 & Hout). apply bind_Ok in Hout as (literal & H4 & Hout). injection Hout as <-.
  rewrite !exists_elem_app, (k8s_ingress_loop _ H1), (definition_ingress_loop _ H2),
    (cidr_ingress_loop _ H3), (literal_ingress_loop _ H4). unfold ingress_wanted. tauto.
Qed.
End IngressDestination.
End Flows.


(** ** The refinement theorems *)

Section Refinement.
Context `{Ext} `{!IntStrLaws} (pkg : Package) (spec : NetworkPolicies) (env : defsEnv).
Notation ns := (pkg_Namespace pkg).

(** The keys whose ports fit the API's 32-bit integers. *)
Definition egress_fits (egress : NetworkPoliciesEgress) : Prop :=
  ∀ localKey raw local to, Egress_From egress !! localKey = Some raw →
    Unmarshal shorthandSource_UnmarshalJSON (Raw raw) = Ok local → ss_To local = Some to → egress_ports_fit to.
Definition ingress_fits (ingress : NetworkPoliciesIngress) : Prop :=
  ∀ localKey parsedLocal, is_Some (Ingress_To ingress !! localKey) →
    parseIngressLocalKey localKey = Ok parsedLocal → ports_fit (local_Ports parsedLocal).

(** Some source names the pod, and an entry of it the endpoint and the port;
    the same of destinations. *)
Definition shorthand_egress_wanted (egress : NetworkPoliciesEgress) (pod : gmap string string) (q : endpoint) (proto : string) (p : Z) : Prop :=
  ∃ localKey raw local to, Egress_From egress !! localKey = Some raw ∧
    Unmarshal shorthandSource_UnmarshalJSON (Raw raw) = Ok local ∧ ss_To local = Some to ∧
    source_wanted localKey local pod ∧ egress_wanted pkg spec env q proto p to.
Definition shorthand_ingress_wanted (ingress : NetworkPoliciesIngress) (pod : gmap string string) (q : endpoint) (proto : string) (p : Z) : Prop :=
  ∃ localKey raw local from parsedLocal, Ingress_To ingress !! localKey = Some raw ∧
    Unmarshal shorthandSource_UnmarshalJSON (Raw raw) = Ok local ∧ ss_From local = Some from ∧
    parseIngressLocalKey localKey = Ok parsedLocal ∧
    dest_wanted parsedLocal local pod ∧ ingress_wanted pkg spec env q proto p parsedLocal from.

(** The egress policies admit what the sources name. *)
Lemma expandShorthandEgress_flows egress out pod q proto p
    (Hegress : NP_Egress spec = Some egress) (Hout : expandShorthandEgress pkg spec env = Ok out)
    (Hfit : egress_fits egress) :
  (∃ o, o ∈ out ∧ allows_egress ns o pod q proto p) ↔ shorthand_egress_wanted egress pod q proto p.
Proof.
  unfold shorthand_egress_wanted. unfold expandShorthandEgress in Hout. rewrite Hegress in Hout. split.
  - intros (o & (lk & raw & ys & Hraw & Hys & Ho)%(for_sorted_elem _ _ _ _ Hout) & Ha). bind_inv.
    + eexists lk, raw, _, _. do 3 (split; [done|]).
      by eapply egress_source_flows; [eapply Hfit| |exists o].
    + by apply elem_of_nil in Ho.
  - intros (lk & raw & local & to & Hraw & Hdec & Hto & Hw).
    destruct (for_sorted_body _ _ _ _ _ Hout Hraw) as [ys Hys]. pose proof Hys as Hsource.
    cbv beta in Hsource. rewrite Hdec in Hsource. simpl in Hsource. rewrite Hto in Hsource.
    destruct (proj2 (egress_source_flows pkg spec env pod q proto p lk local to ys (Hfit lk raw local to Hraw Hdec Hto) Hsource) Hw)
      as (o & Ho & Ha).
    exists o. split; [|done]. apply (for_sorted_elem _ _ _ _ Hout). by exists lk, raw, ys.
Qed.

(** The ingress policies admit what the destinations name. *)
Lemma expandShorthandIngress_flows ingress out pod q proto p
    (Hingress : NP_Ingress spec = Some ingress) (Hout : expandShorthandIngress pkg spec env = Ok out)
    (Hfit : ingress_fits ingress) :
  (∃ o, o ∈ out ∧ allows_ingress ns o pod q proto p) ↔ shorthand_ingress_wanted ingress pod q proto p.
Proof.
  unfold shorthand_ingress_wanted. unfold expandShorthandIngress in Hout. rewrite Hingress in Hout. split.
  - intros (o & (lk & raw & ys & Hraw & Hys & Ho)%(for_sorted_elem _ _ _ _ Hout) & Ha). bind_inv.
    + eexists lk, raw, _, _, _. do 4 (split; [done|]).
      by eapply ingress_destination_flows; [eapply parseIngressLocalKey_sound|eapply Hfit; [eexists|]| |exists o].
    + by apply elem_of_nil in Ho.
  - intros (lk & raw & local & from & pl & Hraw & Hdec & Hfrom & Hpl & Hw).
    destruct (for_sorted_body _ _ _ _ _ Hout Hraw) as [ys Hys]. pose proof Hys as Hsource.
    cbv beta in Hsource. rewrite Hdec in Hsource. simpl in Hsource. rewrite Hfrom, Hpl in Hsource. simpl in Hsource.
    destruct (proj2 (ingress_destination_flows pkg spec env pod q proto p lk pl local from
      (parseIngressLocalKey_sound _ _ Hpl) (Hfit lk pl (mk_is_Some _ _ Hraw) Hpl) ys Hsource) Hw) as (o & Ho & Ha).
    exists o. split; [|done]. apply (for_sorted_elem _ _ _ _ Hout). by exists lk, raw, ys.
Qed.

(** C8: The egress shorthand means what it says. When the expansion succeeds, its
    policies restrict egress only, and together they admit exactly the
    connections the spec asks for: a pod may reach an endpoint on a port if and
    only if some source key names the pod and an enabled entry of that source (a
    pod key, a definition, a CIDR with its exclusions or a literal rule) names
    the endpoint and the port. Nothing more is opened and no entry is lost, for
    keys whose ports fit the API's 32-bit integers. *)
Theorem expandShorthandEgress_refines egress out
    (Hegress : NP_Egress spec = Some egress) (Hout : expandShorthandEgress pkg spec env = Ok out)
    (Hfit : egress_fits egress) :
  Forall egress_policy out ∧
  ∀ pod q proto p,
    (∃ o, o ∈ out ∧ allows_egress ns o pod q proto p) ↔ shorthand_egress_wanted egress pod q proto p.
Proof. split; [by eapply expandShorthandEgress_policies|]. intros. by apply expandShorthandEgress_flows. Qed.

(** C7: The ingress shorthand means what it says. When the expansion succeeds,
    its policies restrict ingress only, and together they admit exactly the
    connections the spec asks for: an endpoint may reach a pod on a port if and
    only if some destination key names the pod, an enabled entry of that
    destination (a pod key, a definition, a CIDR or a literal rule) names the
    endpoint, and the port is one of the destination key, of the definition
    where the key has none, or of the literal rule. *)
Theorem expandShorthandIngress_refines ingress out
    (Hingress : NP_Ingress spec = Some ingress) (Hout : expandShorthandIngress pkg spec env = Ok out)
    (Hfit : ingress_fits ingress) :
  Forall ingress_policy out ∧
  ∀ pod q proto p,
    (∃ o, o ∈ out ∧ allows_ingress ns o pod q proto p) ↔ shorthand_ingress_wanted ingress pod q proto p.
Proof. split; [by eapply expandShorthandIngress_policies|]. intros. by apply expandShorthandIngress_flows. Qed.
End Refinement.

(** ** Concrete policies *)

(** [from: {web: {to: {k8s: {"ns/pod:443": true}, cidr: {"10.0.0.0/8": true}}}}] *)
Definition example_source : json :=
  JObj [("to", JObj [("k8s", JObj [("ns/pod:443", JBool true)]); ("cidr", JObj [("10.0.0.0/8", JBool true)])])].
Definition example_egress : NetworkPoliciesEgress :=
  {| Egress_Defaults := None; Egress_Definitions := ∅; Egress_ExcludeCIDRs := Some ["10.1.0.0/16"];
     Egress_From := {["web" := demo_raw example_source]} |}.
(** [to: {"api:8080": {from: {definition: {gateway: true}}}}] *)
Definition example_dest : json :=
  JObj [("from", JObj [("definition", JObj [("gateway", JBool true)])])].
Definition example_ingress : NetworkPoliciesIngress :=
  {| Ingress_Defaults := None; Ingress_Definitions := ∅; Ingress_To := {["api:8080" := demo_raw example_dest]} |}.
Definition example_spec : NetworkPolicies :=
  {| NP_Additional := []; NP_AdditionalPolicies := []; NP_DefaultsAsHooks := None; NP_Egress := Some example_egress;
     NP_Enabled := true; NP_HbonePortInjection := None; NP_Ingress := Some example_ingress; NP_PrependReleaseName := false |}.
Definition no_defs : defsEnv :=
  {| kubeAPIPorts := []; sharedEgress := ∅; sharedIngress := ∅; sharedErr := None |}.

Definition app (name : string) : gmap string string := {["app.kubernetes.io/name" := name]}.
Definition in_namespace (name : string) : gmap string string := {["kubernetes.io/metadata.name" := name]}.
Definition example_pod : endpoint :=
  {| ep_Namespace := "ns"; ep_NamespaceLabels := in_namespace "ns"; ep_Labels := app "pod"; ep_IP := [] |}.
Definition example_gateway_pod : endpoint :=
  {| ep_Namespace := "istio-gateway"; ep_NamespaceLabels := in_namespace "istio-gateway";
     ep_Labels := {["istio" := "ingressgateway"]}; ep_IP := [] |}.

Lemma only_key {V} (m : gmap string V) k v k' v' : map_to_list m = [(k, v)] → m !! k' = Some v' → k' = k.
Proof. intros E Hk. apply elem_of_map_to_list in Hk. rewrite E in Hk. by apply list_elem_of_singleton in Hk as [= -> _]. Qed.

Definition example_egress_out : list Object :=
  ok_value [] (expandShorthandEgress (demo_package demo_spec) example_spec no_defs).
Definition example_ingress_out : list Object :=
  ok_value [] (expandShorthandIngress (demo_package demo_spec) example_spec no_defs).
Lemma example_egress_run : expandShorthandEgress (demo_package demo_spec) example_spec no_defs = Ok example_egress_out.
Proof. apply ok_by_compute. vm_compute. reflexivity. Qed.
Lemma example_ingress_run : expandShorthandIngress (demo_package demo_spec) example_spec no_defs = Ok example_ingress_out.
Proof. apply ok_by_compute. vm_compute. reflexivity. Qed.

Lemma example_egress_fit localKey raw local to :
  Egress_From example_egress !! localKey = Some raw →
  Unmarshal shorthandSource_UnmarshalJSON (Raw raw) = Ok local → ss_To local = Some to → egress_ports_fit to.
Proof.
  intros Hk Hdec Hto. cbn [example_egress Egress_From] in Hk.
  apply lookup_singleton_Some in Hk as [<- <-]. vm_compute in Hdec. injection Hdec as <-.
  injection Hto as <-. split; intros key t r Hk _ Hr; (eapply only_key in Hk; [|vm_compute; reflexivity]); subst key;
    vm_compute in Hr; injection Hr as <-; repeat constructor.
Qed.

Lemma example_ingress_fit localKey pl :
  is_Some (Ingress_To example_ingress !! localKey) → parseIngressLocalKey localKey = Ok pl → ports_fit (local_Ports pl).
Proof.
  intros [raw Hk] Hpl. cbn [example_ingress Ingress_To] in Hk.
  apply lookup_singleton_Some in Hk as [<- _]. vm_compute in Hpl. injection Hpl as <-. repeat constructor.
Qed.

Lemma example_egress_wanted :
  ∃ localKey raw local to, Egress_From example_egress !! localKey = Some raw ∧
    Unmarshal shorthandSource_UnmarshalJSON (Raw raw) = Ok local ∧ ss_To local = Some to ∧
    source_wanted localKey local (app "web") ∧
    egress_wanted (demo_package demo_spec) example_spec no_defs example_pod "TCP" 443%Z to.
Proof.
  exists "web", (demo_raw example_source). do 2 eexists. split; [reflexivity|]. split; [vm_compute; reflexivity|].
  split; [reflexivity|]. split; [right; reflexivity|]. left.
  eexists "ns/pod:443", _. split; [vm_compute; reflexivity|]. split; [reflexivity|].
  eexists. split; [vm_compute; reflexivity|]. split; [split; [right; reflexivity|right; right; reflexivity]|].
  right. split; [reflexivity|]. left.
Qed.

Lemma example_ingress_wanted :
  ∃ localKey raw local from parsedLocal, Ingress_To example_ingress !! localKey = Some raw ∧
    Unmarshal shorthandSource_UnmarshalJSON (Raw raw) = Ok local ∧ ss_From local = Some from ∧
    parseIngressLocalKey localKey = Ok parsedLocal ∧ dest_wanted parsedLocal local (app "api") ∧
    ingress_wanted (demo_package demo_spec) example_spec no_defs example_gateway_pod "TCP" 8080%Z parsedLocal from.
Proof.
  exists "api:8080", (demo_raw example_dest). do 3 eexists. split; [reflexivity|]. split; [vm_compute; reflexivity|].
  split; [reflexivity|]. split; [vm_compute; reflexivity|]. split; [reflexivity|]. right. left.
  eexists "gateway", _. split; [vm_compute; reflexivity|]. split; [reflexivity|].
  exists {| rd_peers := [selectorPeer (matchLabels "kubernetes.io/metadata.name" "istio-gateway") (matchLabels "istio" "ingressgateway")];
            rd_ports := [] |}. split; [vm_compute; reflexivity|]. split.
  - right. eexists. split; [left|]. split; [|]; apply selects_one; reflexivity.
  - right. split; [reflexivity|left].
Qed.

Lemma expandShorthandEgress_refines_witness :
  (o_Name <$> example_egress_out) =
    ["allow-egress-from-web-to-ns-ns-pod-pod-tcp-port-443"; "allow-egress-from-web-to-cidr-10-0-0-0-8-any-port"] ∧
  ∃ o, o ∈ example_egress_out ∧ allows_egress "apps" o (app "web") example_pod "TCP" 443%Z.
Proof.
  split; [vm_compute; reflexivity|].
  exact (proj2 (proj2 (expandShorthandEgress_refines (demo_package demo_spec) example_spec no_defs example_egress
    example_egress_out eq_refl example_egress_run example_egress_fit) _ _ _ _) example_egress_wanted).
Defined.

Lemma expandShorthandIngress_refines_witness :
  (o_Name <$> example_ingress_out) = ["allow-ingress-to-api-tcp-port-8080-from-gateway"] ∧
  ∃ o, o ∈ example_ingress_out ∧ allows_ingress "apps" o (app "api") example_gateway_pod "TCP" 8080%Z.
Proof.
  split; [vm_compute; reflexivity|].
  exact (proj2 (proj2 (expandShorthandIngress_refines (demo_package demo_spec) example_spec no_defs example_ingress
    example_ingress_out eq_refl example_ingress_run example_ingress_fit) _ _ _ _) example_ingress_wanted).
Defined.
