(* ===== verification/Netpols.v ===== *)
(** * networkpolicies.go and hbone.go: all NetworkPolicies of a package *)

From S2P Require Import Prelude GoStrings Json K8s ApiTypes External Names ShorthandKeys Metadata.
From S2P Require Import ShorthandValues NetpolCommon Definitions NetpolDefaults NetpolShorthand.
Local Open Scope string_scope.
Local Open Scope list_scope.

Section Netpols.
Context `{Ext}.

Definition generateNetworkPolicies (pkg : Package) (spec : NetworkPolicies) (istio : option Istio) (env : defsEnv)
    : outcome (list Object) :=
  let egressDefaults := defaultEgressPolicies pkg spec istio in
  let ingressDefaults := defaultIngressPolicies pkg spec istio in
  egress ← match NP_Egress spec with Some _ => expandShorthandEgress pkg spec env | None => Ok [] end;
  ingress ← match NP_Ingress spec with Some _ => expandShorthandIngress pkg spec env | None => Ok [] end;
  additional ← traverse (buildAdditionalPolicy pkg spec) (NP_AdditionalPolicies spec);
  legacy ← traverse (buildAdditionalPolicy pkg spec) (NP_Additional spec);
  Ok (egressDefaults ++ ingressDefaults ++ egress ++ ingress ++ additional ++ legacy).

(** ** hbone.go *)

Definition hbonePort : Z := 15008.
Definition hboneLabel : string := "ambient.istio.network-policies.bigbang.dev/hbone-injected".
Definition hboneLabelValue : string := "true".

Definition hboneEnabled (spec : option NetworkPolicies) (istio : option Istio) : bool :=
  if istioAmbient istio then true
  else match spec with
       | None => false
       | Some np => match NP_HbonePortInjection np with None => false | Some h => Hbone_Enabled h end
       end.

Definition peerHasK8sSelector (peers : list NetworkPolicyPeer) : bool :=
  existsb (λ p, match peer_NamespaceSelector p, peer_PodSelector p with None, None => false | _, _ => true end) peers.

Definition isHbonePort (p : NetworkPolicyPort) : bool :=
  match npp_Protocol p, npp_Port p with
  | Some proto, Some port =>
      String.eqb proto ProtocolTCP && bool_decide (ios_Type port = IntType) && (IntValue port =? hbonePort)%Z
  | _, _ => false
  end.

Definition newHbonePort : NetworkPolicyPort :=
  {| npp_Protocol := Some ProtocolTCP; npp_Port := Some (FromInt hbonePort); npp_EndPort := None |}.

(** The ports after the call, and whether it added one. *)
Definition injectIntoPorts (ports : list NetworkPolicyPort) (eligible : bool) : list NetworkPolicyPort * bool :=
  if negb eligible || (length ports =? 0)%nat then (ports, false)
  else if existsb isHbonePort ports then (ports, false)
  else (ports ++ [newHbonePort], true).

Definition injectEgress (r : NetworkPolicyEgressRule) : NetworkPolicyEgressRule * bool :=
  let '(ports, added) := injectIntoPorts (er_Ports r) (peerHasK8sSelector (er_To r)) in
  ({| er_Ports := ports; er_To := er_To r |}, added).
Definition injectIngress (r : NetworkPolicyIngressRule) : NetworkPolicyIngressRule * bool :=
  let '(ports, added) := injectIntoPorts (ir_Ports r) (peerHasK8sSelector (ir_From r)) in
  ({| ir_Ports := ports; ir_From := ir_From r |}, added).

(** The loop body of [injectHBonePorts], on one object. *)
Definition injectHBone (o : Object) : Object :=
  match o_Body o with
  | NetworkPolicy sp =>
      let egress := injectEgress <$> nps_Egress sp in
      let ingress := injectIngress <$> nps_Ingress sp in
      let mutated := existsb snd egress || existsb snd ingress in
      let sp := {| nps_PodSelector := nps_PodSelector sp; nps_Ingress := ingress.*1; nps_Egress := egress.*1;
                   nps_PolicyTypes := nps_PolicyTypes sp |} in
      let o := set_Body (NetworkPolicy sp) o in
      if mutated then
        set_Meta (set_Labels (Some (<[hboneLabel := hboneLabelValue]> (contents (o_Labels o)))) (o_Meta o)) o
      else o
  | _ => o
  end.
Definition injectHBonePorts (objs : list Object) : list Object := injectHBone <$> objs.

(** ** Generation: lemmas *)

Definition netpol_object (o : Object) : Prop := unplaced o ∧ type_of (o_Body o) = TNetworkPolicy.

Lemma egress_policy_object o : egress_policy o → netpol_object o.
Proof. intros (Hu & _ & sp & Hb & _). split; [done|]. by rewrite Hb. Qed.
Lemma ingress_policy_object o : ingress_policy o → netpol_object o.
Proof. intros (Hu & _ & sp & Hb & _). split; [done|]. by rewrite Hb. Qed.

Lemma default_policies_objects pkg spec istio :
  Forall egress_policy (defaultEgressPolicies pkg spec istio) ∧
  Forall ingress_policy (defaultIngressPolicies pkg spec istio).
Proof.
  unfold defaultEgressPolicies, defaultIngressPolicies. cbv zeta.
  rewrite !Forall_app. split_and!;
    match goal with |- Forall _ (if ?b then _ else _) => destruct b; [|constructor] end;
    apply Forall_singleton; auto with go.
Qed.

Lemma generateNetworkPolicies_returns `{!ExtReturns} pkg spec istio env :
  returns (generateNetworkPolicies pkg spec istio env).
Proof.
  unfold generateNetworkPolicies. cbv zeta.
  apply bind_returns.
  { destruct (NP_Egress spec) eqn:E; [|done]. apply expandShorthandEgress_returns. by rewrite E. }
  intros ? _. apply bind_returns.
  { destruct (NP_Ingress spec) eqn:E; [|done]. apply expandShorthandIngress_returns. by rewrite E. }
  intros ? _. apply bind_returns; [apply traverse_returns; auto with go|].
  intros ? _. apply bind_returns; [apply traverse_returns; auto with go|done].
Qed.

Lemma additional_objects pkg spec l out :
  traverse (buildAdditionalPolicy pkg spec) l = Ok out → Forall netpol_object out.
Proof.
  rewrite traverse_Ok. intros Hall. apply Forall_forall. intros o [i Hi]%list_elem_of_lookup.
  destruct (Forall2_lookup_r _ _ _ _ _ Hall Hi) as (raw & _ & Hraw).
  apply buildAdditionalPolicy_meta in Hraw as [Hm Ht]. split; [|done]. unfold unplaced, o_Namespace. by rewrite Hm.
Qed.

Lemma generateNetworkPolicies_objects pkg spec istio env out :
  generateNetworkPolicies pkg spec istio env = Ok out → Forall netpol_object out.
Proof.
  unfold generateNetworkPolicies. cbv zeta. intros Hout.
  destruct (default_policies_objects pkg spec istio) as [Hed Hid].
  apply bind_Ok in Hout as (eg & Heg & Hout). apply bind_Ok in Hout as (ing & Hing & Hout).
  apply bind_Ok in Hout as (ad & Had & Hout). apply bind_Ok in Hout as (leg & Hleg & [= <-]).
  rewrite !Forall_app. split_and!.
  - eapply Forall_impl; [done|]. apply egress_policy_object.
  - eapply Forall_impl; [done|]. apply ingress_policy_object.
  - destruct (NP_Egress spec); [|injection Heg as <-; constructor].
    eapply Forall_impl; [by eapply expandShorthandEgress_policies|]. apply egress_policy_object.
  - destruct (NP_Ingress spec); [|injection Hing as <-; constructor].
    eapply Forall_impl; [by eapply expandShorthandIngress_policies|]. apply ingress_policy_object.
  - by eapply additional_objects.
  - by eapply additional_objects.
Qed.

(** ** HBONE: lemmas *)

Lemma hbone_port_found `{!IntStrLaws} : isHbonePort newHbonePort = true.
Proof. unfold isHbonePort. simpl. rewrite FromInt_value by (unfold hbonePort; lia). by rewrite IntValue_int. Qed.

Lemma injectIntoPorts_idemp `{!IntStrLaws} ports eligible :
  injectIntoPorts (injectIntoPorts ports eligible).1 eligible = ((injectIntoPorts ports eligible).1, false).
Proof.
  unfold injectIntoPorts at 2 3. destruct eligible; simpl; [|done].
  destruct (Nat.eqb_spec (length ports) 0) as [E|E]; simpl.
  { unfold injectIntoPorts. by rewrite E. }
  destruct (existsb isHbonePort ports) eqn:Hex; simpl; unfold injectIntoPorts; simpl.
  - destruct (Nat.eqb_spec (length ports) 0); [done|]. by rewrite Hex.
  - rewrite existsb_app. cbn [existsb]. rewrite hbone_port_found. simpl. rewrite orb_true_r. by case_match.
Qed.

(** What an injection does to one port list. *)
Lemma injectIntoPorts_spec ports eligible :
  let '(out, added) := injectIntoPorts ports eligible in
  (added = true ↔ eligible = true ∧ ports ≠ [] ∧ Forall (λ p, isHbonePort p = false) ports) ∧
  out = ports ++ (if added then [newHbonePort] else []).
Proof.
  unfold injectIntoPorts. destruct eligible; simpl; [|rewrite app_nil_r; split; [split; [done|by intros [? _]]|done]].
  destruct (Nat.eqb_spec (length ports) 0) as [E|E]; simpl.
  { rewrite app_nil_r. destruct ports; [|done]. split; [split; [done|by intros (_ & ? & _)]|done]. }
  assert (existsb isHbonePort ports = false ↔ Forall (λ p, isHbonePort p = false) ports) as Hex.
  { rewrite <-not_true_iff_false, existsb_exists, Forall_forall. split.
    - intros Hn x Hx. destruct (isHbonePort x) eqn:Hi; [|done]. destruct Hn. exists x. by rewrite <-list_elem_of_In.
    - intros Hall (x & Hx%list_elem_of_In & Ht). rewrite (Hall x Hx) in Ht. done. }
  destruct (existsb isHbonePort ports); simpl; split.
  - split; [done|]. intros (_ & _ & Hall%Hex). done.
  - by rewrite app_nil_r.
  - split; [|done]. intros _. split_and!; [done|by intros ->|by apply Hex].
  - done.
Qed.
Lemma injectEgress_idemp `{!IntStrLaws} r : injectEgress (injectEgress r).1 = ((injectEgress r).1, false).
Proof.
  destruct r as [ports to]. unfold injectEgress. cbn [er_Ports er_To].
  pose proof (injectIntoPorts_idemp ports (peerHasK8sSelector to)) as Hi.
  destruct (injectIntoPorts ports (peerHasK8sSelector to)) as [ports' added]. simpl in *. by rewrite Hi.
Qed.
Lemma injectIngress_idemp `{!IntStrLaws} r : injectIngress (injectIngress r).1 = ((injectIngress r).1, false).
Proof.
  destruct r as [ports from]. unfold injectIngress. cbn [ir_Ports ir_From].
  pose proof (injectIntoPorts_idemp ports (peerHasK8sSelector from)) as Hi.
  destruct (injectIntoPorts ports (peerHasK8sSelector from)) as [ports' added]. simpl in *. by rewrite Hi.
Qed.

Lemma map_idemp {A} (f : A → A * bool) l :
  (∀ x, f (f x).1 = ((f x).1, false)) →
  (f <$> (f <$> l).*1).*1 = (f <$> l).*1 ∧ existsb snd (f <$> (f <$> l).*1) = false.
Proof. intros Hf. induction l as [|x l [IH1 IH2]]; [done|]. rewrite !fmap_cons. split.
  - f_equal; [by rewrite Hf|done].
  - cbn [existsb]. by rewrite Hf, IH2.
Qed.

Lemma injectHBone_idemp `{!IntStrLaws} o : injectHBone (injectHBone o) = injectHBone o.
Proof.
  destruct o as [gvk m b]. destruct b as [sp| | | | |]; try done.
  unfold injectHBone at 2 3. simpl.
  destruct (map_idemp injectEgress (nps_Egress sp) injectEgress_idemp) as [He Hef].
  destruct (map_idemp injectIngress (nps_Ingress sp) injectIngress_idemp) as [Hi Hif].
  destruct (existsb snd (injectEgress <$> nps_Egress sp) || existsb snd (injectIngress <$> nps_Ingress sp));
    unfold injectHBone; simpl; by rewrite He, Hi, Hef, Hif.
Qed.

Lemma injectHBone_frame o :
  o_Name (injectHBone o) = o_Name o ∧ o_Namespace (injectHBone o) = o_Namespace o ∧
  o_OwnerReferences (injectHBone o) = o_OwnerReferences o ∧
  type_of (o_Body (injectHBone o)) = type_of (o_Body o) ∧
  (∀ k, k ≠ hboneLabel → contents (o_Labels (injectHBone o)) !! k = contents (o_Labels o) !! k).
Proof.
  unfold injectHBone. destruct (o_Body o) eqn:E; rewrite ?E; [|done..].
  cbv zeta. destruct (existsb _ _ || existsb _ _); [|by simpl].
  split_and!; [done..|]. intros k Hk. simpl. by rewrite lookup_insert_ne.
Qed.

(** The rule an injection makes of a rule. *)
Definition hbone_ports (ports : list NetworkPolicyPort) (peers : list NetworkPolicyPeer) : list NetworkPolicyPort :=
  if peerHasK8sSelector peers && negb (bool_decide (ports = [])) && negb (existsb isHbonePort ports)
  then ports ++ [newHbonePort] else ports.

Lemma injectIntoPorts_hbone ports peers : (injectIntoPorts ports (peerHasK8sSelector peers)).1 = hbone_ports ports peers.
Proof.
  unfold injectIntoPorts, hbone_ports. destruct (peerHasK8sSelector peers); simpl; [|done].
  destruct ports; [done|]. simpl. by destruct (_ || _).
Qed.

(** C38: HBONE injection. Each rule of a NetworkPolicy with ports and a
    Kubernetes peer gains TCP 15008 at the end unless it had it; rules without
    ports, rules for address blocks only, peers, selectors, and objects of other
    kinds are left as they were; labels change only by the audit label, which is
    set when some rule changed; and injecting twice is injecting once. *)
Theorem injectHBonePorts_correct `{!IntStrLaws} objs :
  injectHBonePorts (injectHBonePorts objs) = injectHBonePorts objs ∧
  Forall2 (λ o o',
    (∀ k, k ≠ hboneLabel → contents (o_Labels o') !! k = contents (o_Labels o) !! k) ∧
    (type_of (o_Body o) ≠ TNetworkPolicy → o' = o) ∧
    ∀ sp, o_Body o = NetworkPolicy sp → ∃ sp', o_Body o' = NetworkPolicy sp' ∧
      nps_PodSelector sp' = nps_PodSelector sp ∧ nps_PolicyTypes sp' = nps_PolicyTypes sp ∧
      nps_Egress sp' = (λ r, {| er_Ports := hbone_ports (er_Ports r) (er_To r); er_To := er_To r |}) <$> nps_Egress sp ∧
      nps_Ingress sp' = (λ r, {| ir_Ports := hbone_ports (ir_Ports r) (ir_From r); ir_From := ir_From r |}) <$> nps_Ingress sp ∧
      (sp' ≠ sp → contents (o_Labels o') !! hboneLabel = Some "true"))
    objs (injectHBonePorts objs).
Proof.
  split.
  { unfold injectHBonePorts. rewrite <-list_fmap_compose. apply list_fmap_ext. intros _ o _. apply injectHBone_idemp. }
  unfold injectHBonePorts. apply Forall2_fmap_r, Forall_Forall2_diag, Forall_true. intros o.
  destruct (injectHBone_frame o) as (_ & _ & _ & _ & Hl). split_and!; [done| |].
  { unfold injectHBone. by destruct (o_Body o). }
  intros sp Hsp. unfold injectHBone. rewrite Hsp. cbv zeta.
  assert ((injectEgress <$> nps_Egress sp).*1 =
    (λ r, {| er_Ports := hbone_ports (er_Ports r) (er_To r); er_To := er_To r |}) <$> nps_Egress sp) as He.
  { rewrite <-list_fmap_compose. apply list_fmap_ext. intros _ r _. unfold compose, injectEgress.
    rewrite <-injectIntoPorts_hbone. by destruct (injectIntoPorts _ _). }
  assert ((injectIngress <$> nps_Ingress sp).*1 =
    (λ r, {| ir_Ports := hbone_ports (ir_Ports r) (ir_From r); ir_From := ir_From r |}) <$> nps_Ingress sp) as Hi.
  { rewrite <-list_fmap_compose. apply list_fmap_ext. intros _ r _. unfold compose, injectIngress.
    rewrite <-injectIntoPorts_hbone. by destruct (injectIntoPorts _ _). }
  assert (∀ A (f : A → A * bool) l, (∀ x, (f x).2 = false → (f x).1 = x) → existsb snd (f <$> l) = false → (f <$> l).*1 = l) as Hsame.
  { intros A f l Hf. induction l as [|x l IH]; [done|]. rewrite !fmap_cons. cbn [existsb].
    intros [Hx Hx']%orb_false_iff. f_equal; auto. }
  destruct (existsb snd (injectEgress <$> nps_Egress sp) || existsb snd (injectIngress <$> nps_Ingress sp)) eqn:Hm.
  - eexists. split; [reflexivity|]. cbn. rewrite He, Hi. split_and!; try done. intros _. apply lookup_insert_eq.
  - eexists. split; [reflexivity|]. cbn. rewrite He, Hi. split_and!; try done. intros Hne. destruct Hne.
    apply orb_false_iff in Hm as [Hme Hmi].
    assert ((injectEgress <$> nps_Egress sp).*1 = nps_Egress sp) as Hes.
    { apply Hsame; [|done]. intros [ports to]. unfold injectEgress, injectIntoPorts. cbn. by repeat case_match; simplify_eq/=. }
    assert ((injectIngress <$> nps_Ingress sp).*1 = nps_Ingress sp) as His.
    { apply Hsame; [|done]. intros [ports from]. unfold injectIngress, injectIntoPorts. cbn. by repeat case_match; simplify_eq/=. }
    rewrite <-He, <-Hi, Hes, His. by destruct sp.
Qed.
End Netpols.

Lemma injectHBonePorts_correct_witness :
  injectHBonePorts (injectHBonePorts (defaultEgressPolicies (demo_package demo_spec) example_np None)) =
  injectHBonePorts (defaultEgressPolicies (demo_package demo_spec) example_np None).
Proof. exact (proj1 (injectHBonePorts_correct (defaultEgressPolicies (demo_package demo_spec) example_np None))). Defined.
