(* ===== verification/Istio.v ===== *)
(** * istio.go: PeerAuthentication, Sidecar and custom ServiceEntries *)

From S2P Require Import Prelude GoStrings Json K8s ApiTypes External Names Metadata ShorthandValues.
From S2P Require Import NetpolCommon.
Local Open Scope string_scope.
Local Open Scope list_scope.

(** ["custom[<i>]"], the place an error names. *)
Definition customAt (i : nat) : string := "custom[" +:+ Itoa (Z.of_nat i) +:+ "]".

(** A loop over a slice with the index of each element. *)
Fixpoint traverse_from {A B} (f : nat → A → outcome B) (i : nat) (l : list A) : outcome (list B) :=
  match l with
  | [] => Ok []
  | x :: l => y ← f i x; ys ← traverse_from f (S i) l; Ok (y :: ys)
  end.
Definition traverse_i {A B} (f : nat → A → outcome B) (l : list A) : outcome (list B) := traverse_from f 0 l.

Definition mTLSMode (spec : option Istio) : MutualTLS_Mode :=
  match spec with
  | None => MutualTLS_STRICT
  | Some i =>
      match Istio_Mtls i with
      | None => MutualTLS_STRICT
      | Some m =>
          if String.eqb (Mtls_Mode m) "" then MutualTLS_STRICT
          else
            let mode := ToUpper (Mtls_Mode m) in
            if String.eqb mode "STRICT" then MutualTLS_STRICT
            else if String.eqb mode "PERMISSIVE" then MutualTLS_PERMISSIVE
            else if String.eqb mode "DISABLE" then MutualTLS_DISABLE
            else if String.eqb mode "UNSET" then MutualTLS_UNSET
            else MutualTLS_STRICT
      end
  end.

Definition sidecarResource (pkg : Package) (spec : option Istio) : option Object :=
  match spec with
  | None => None
  | Some i =>
      match Istio_Sidecar i with
      | None => None
      | Some sc =>
          if negb (Sidecar_Enabled sc) then None
          else if (match Istio_Ambient i with Some a => Ambient_Enabled a | None => false end) then None
          else
            let mode := if String.eqb (ToUpper (Sidecar_OutboundTrafficPolicyMode sc)) "ALLOW_ANY"
                        then OutboundTrafficPolicy_ALLOW_ANY else OutboundTrafficPolicy_REGISTRY_ONLY in
            Some (newObject (newMeta (prependName (Istio_PrependReleaseName i) (pkg_Name pkg) "sidecar") None None)
                    (Sidecar mode))
      end
  end.

Section Istio.
Context `{Ext}.

Definition customServiceEntry (i : nat) (elem : ServiceEntryCustomElem) : outcome Object :=
  let name := ServiceEntryCustom_Name elem in
  if String.eqb name "" then Err (Errorf (customAt i +:+ ": name is required"))
  else
    let meta := newMeta name (ServiceEntryCustom_Labels elem) (ServiceEntryCustom_Annotations elem) in
    if (0 <? size (ServiceEntryCustom_Spec elem))%nat then
      wrap (customAt i +:+ " " +:+ Quote name)
        (b ← Marshal_raw_map (ServiceEntryCustom_Spec elem);
         _ ← decode_ServiceEntry b;
         Ok (newObject meta (ServiceEntry (ServiceEntry_decoded b))))
    else Ok (newObject meta (ServiceEntry zeroServiceEntry)).

Definition generateCustomServiceEntries (spec : option Istio) : outcome (list Object) :=
  match spec with
  | None => Ok []
  | Some i =>
      match Istio_ServiceEntries i with
      | None => Ok []
      | Some ses => traverse_i customServiceEntry (ServiceEntries_Custom ses)
      end
  end.

Definition generateIstio (pkg : Package) (spec : Istio) : outcome (list Object) :=
  let mode := mTLSMode (Some spec) in
  let peerAuth := newObject
    (newMeta (prependName (Istio_PrependReleaseName spec) (pkg_Name pkg) "default-peer-auth") None None)
    (PeerAuthentication mode) in
  let sidecar := match sidecarResource pkg (Some spec) with Some sc => [sc] | None => [] end in
  ses ← wrap "istio.serviceEntries" (generateCustomServiceEntries (Some spec));
  Ok ([peerAuth] ++ sidecar ++ ses).

(** ** Lemmas *)

Lemma traverse_from_returns {A B} (f : nat → A → outcome B) i l :
  (∀ i x, returns (f i x)) → returns (traverse_from f i l).
Proof.
  intros Hf. revert i. induction l as [|x l IH]; intros i; simpl; [done|].
  apply bind_returns; [done|]. intros y _. apply bind_returns; [apply IH|done].
Qed.

Lemma traverse_from_Forall {A B} (P : B → Prop) (f : nat → A → outcome B) i l out :
  traverse_from f i l = Ok out → (∀ i x y, f i x = Ok y → P y) → Forall P out.
Proof.
  revert i out. induction l as [|x l IH]; intros i out; simpl; [by intros [= <-]|].
  intros (y & Hy & Hout)%bind_Ok HP. apply bind_Ok in Hout as (ys & Hys & [= <-]).
  constructor; [by eapply HP|by eapply IH].
Qed.

Lemma customServiceEntry_returns `{!ExtReturns} i elem : returns (customServiceEntry i elem).
Proof.
  unfold customServiceEntry. destruct (String.eqb _ ""); [done|]. cbv zeta. destruct (0 <? _)%nat; [|done].
  apply wrap_returns. apply bind_returns; [auto with go|]. intros b _.
  apply bind_returns; [apply ret_ServiceEntry|done].
Qed.

Lemma generateIstio_returns `{!ExtReturns} pkg spec : returns (generateIstio pkg spec).
Proof.
  unfold generateIstio. apply bind_returns; [|done]. apply wrap_returns.
  unfold generateCustomServiceEntries. destruct (Istio_ServiceEntries spec); [|done].
  apply traverse_from_returns. intros; apply customServiceEntry_returns.
Qed.

(** What the istio pass hands over. *)
Definition istio_object (o : Object) : Prop :=
  unplaced o ∧ type_of (o_Body o) ∈ [TPeerAuthentication; TSidecar; TServiceEntry].

Lemma customServiceEntry_object i elem o :
  customServiceEntry i elem = Ok o → unplaced o ∧ type_of (o_Body o) = TServiceEntry.
Proof.
  unfold customServiceEntry. destruct (String.eqb _ ""); [done|]. cbv zeta. destruct (0 <? _)%nat; [|by intros [= <-]].
  intros (b & _ & (u & _ & [= <-])%bind_Ok)%wrap_Ok%bind_Ok. done.
Qed.

Lemma sidecarResource_object pkg spec o :
  sidecarResource pkg spec = Some o → unplaced o ∧ type_of (o_Body o) = TSidecar.
Proof.
  unfold sidecarResource. destruct spec as [i|]; [|done]. destruct (Istio_Sidecar i); [|done].
  destruct (negb _); [done|].
  destruct (Istio_Ambient i) as [[[]]|]; simpl; intros Ho; by inversion Ho.
Qed.

Lemma custom_istio_objects spec ses :
  generateCustomServiceEntries (Some spec) = Ok ses → Forall istio_object ses.
Proof.
  unfold generateCustomServiceEntries. intros Hses.
  destruct (Istio_ServiceEntries spec); [|injection Hses as <-; constructor].
  eapply traverse_from_Forall; [done|]. intros ? x y [Hu Ht]%customServiceEntry_object. split; [done|].
  rewrite Ht. set_solver.
Qed.

Lemma generateIstio_objects pkg spec out : generateIstio pkg spec = Ok out → Forall istio_object out.
Proof.
  unfold generateIstio. destruct (sidecarResource pkg (Some spec)) as [sc|] eqn:E;
    intros (ses & Hses%wrap_Ok & Ho)%bind_Ok; injection Ho as <-;
    (apply Forall_cons; split; [split; [done|simpl; set_solver]|]).
  - apply sidecarResource_object in E as [Hu Ht]. apply Forall_cons. split; [|by eapply custom_istio_objects].
    split; [done|]. rewrite Ht. set_solver.
  - by eapply custom_istio_objects.
Qed.

Lemma sidecar_on pkg spec :
  is_Some (sidecarResource pkg (Some spec)) ↔
  ∃ sc, Istio_Sidecar spec = Some sc ∧ Sidecar_Enabled sc = true ∧
        match Istio_Ambient spec with Some a => Ambient_Enabled a = false | None => True end.
Proof.
  unfold sidecarResource. destruct (Istio_Sidecar spec) as [sc|].
  - destruct (Sidecar_Enabled sc) eqn:He; simpl.
    + destruct (Istio_Ambient spec) as [[[]]|]; simpl;
        first [split; [by intros []|by intros (? & _ & _ & ?)]|split; [intros _; by exists sc|by eexists]].
    + split; [by intros []|]. intros (sc' & [= <-] & ? & _). congruence.
  - split; [by intros []|]. by intros (? & ? & _).
Qed.

Lemma sidecarResource_mode pkg spec o :
  sidecarResource pkg spec = Some o →
  ∃ mode, o_Body o = Sidecar mode ∧
    (mode = OutboundTrafficPolicy_ALLOW_ANY →
     ∃ i sc, spec = Some i ∧ Istio_Sidecar i = Some sc ∧ ToUpper (Sidecar_OutboundTrafficPolicyMode sc) = "ALLOW_ANY").
Proof.
  unfold sidecarResource. destruct spec as [i|]; [|done]. destruct (Istio_Sidecar i) as [sc|] eqn:Hsc; [|done].
  destruct (negb _); [done|]. destruct (match Istio_Ambient i with Some a => Ambient_Enabled a | None => false end); [done|].
  intros [= <-]. eexists. split; [reflexivity|].
  destruct (String.eqb_spec (ToUpper (Sidecar_OutboundTrafficPolicyMode sc)) "ALLOW_ANY"); [|done].
  intros _. by exists i, sc.
Qed.

(** The mesh settings fall back to the strict ones. The mTLS mode is STRICT
    unless the author named another mode (in any case), so an absent or unknown
    mode never weakens it; a Sidecar is emitted exactly when it is switched on
    and ambient mode is off, with REGISTRY_ONLY unless ALLOW_ANY is named. *)
Theorem generateIstio_secure pkg spec out (Hout : generateIstio pkg spec = Ok out) :
  (∃ o rest, out = o :: rest ∧ o_Body o = PeerAuthentication (mTLSMode (Some spec))) ∧
  (mTLSMode (Some spec) ≠ MutualTLS_STRICT →
     ∃ m, Istio_Mtls spec = Some m ∧ ToUpper (Mtls_Mode m) ∈ ["PERMISSIVE"; "DISABLE"; "UNSET"]) ∧
  ((∃ o mode, o ∈ out ∧ o_Body o = Sidecar mode) ↔
     ∃ sc, Istio_Sidecar spec = Some sc ∧ Sidecar_Enabled sc = true ∧
           match Istio_Ambient spec with Some a => Ambient_Enabled a = false | None => True end) ∧
  (∀ o, o ∈ out → o_Body o = Sidecar OutboundTrafficPolicy_ALLOW_ANY →
     ∃ sc, Istio_Sidecar spec = Some sc ∧ ToUpper (Sidecar_OutboundTrafficPolicyMode sc) = "ALLOW_ANY").
Proof.
  unfold generateIstio in Hout. apply bind_Ok in Hout as (ses & Hses%wrap_Ok & Hout%(inj Ok)). subst out.
  assert (Forall (λ o, type_of (o_Body o) = TServiceEntry) ses) as Hse.
  { unfold generateCustomServiceEntries in Hses. destruct (Istio_ServiceEntries spec); [|injection Hses as <-; constructor].
    eapply traverse_from_Forall; [done|]. by intros ? x y [_ Ht]%customServiceEntry_object. }
  rewrite Forall_forall in Hse. cbn [app]. split_and!.
  - eexists _, _. split; reflexivity.
  - unfold mTLSMode. destruct (Istio_Mtls spec) as [m|]; [|done]. intros Hne. exists m. split; [done|].
    destruct (String.eqb (Mtls_Mode m) ""); [done|]. cbv zeta in Hne.
    destruct (String.eqb_spec (ToUpper (Mtls_Mode m)) "STRICT"); [done|].
    destruct (String.eqb_spec (ToUpper (Mtls_Mode m)) "PERMISSIVE") as [->|]; [set_solver|].
    destruct (String.eqb_spec (ToUpper (Mtls_Mode m)) "DISABLE") as [->|]; [set_solver|].
    destruct (String.eqb_spec (ToUpper (Mtls_Mode m)) "UNSET") as [->|]; [set_solver|done].
  - rewrite <-(sidecar_on pkg). split.
    + intros (o & mode & Hin & Hb). apply elem_of_cons in Hin as [->|Hin]; [done|].
      destruct (sidecarResource pkg (Some spec)) as [sc|]; [by eexists|]. specialize (Hse o Hin). by rewrite Hb in Hse.
    + intros [sc Hsc]. exists sc. rewrite Hsc. destruct (sidecarResource_mode pkg (Some spec) sc Hsc) as (mode & Hb & _).
      exists mode. split; [set_solver|done].
  - intros o Hin Hb. apply elem_of_cons in Hin as [->|Hin]; [done|]. apply elem_of_app in Hin as [Hin|Hin].
    + destruct (sidecarResource pkg (Some spec)) as [sc|] eqn:Hsc; [|by apply elem_of_nil in Hin].
      apply list_elem_of_singleton in Hin as ->. destruct (sidecarResource_mode pkg (Some spec) sc Hsc) as (mode & Hb' & Hm).
      rewrite Hb in Hb'. injection Hb' as <-. destruct (Hm eq_refl) as (i & s & [= <-] & Hs & Hu). by exists s.
    + specialize (Hse o Hin). by rewrite Hb in Hse.
Qed.
End Istio.

Definition example_istio : Istio :=
  {| Istio_Ambient := None; Istio_AuthorizationPolicies := None; Istio_Enabled := true;
     Istio_Mtls := Some {| Mtls_Mode := "strictt" |}; Istio_PrependReleaseName := false; Istio_ServiceEntries := None;
     Istio_Sidecar := Some {| Sidecar_Enabled := true; Sidecar_OutboundTrafficPolicyMode := "" |} |}.
Definition example_istio_objects : list Object :=
  match generateIstio (demo_package demo_spec) example_istio with Ok out => out | _ => [] end.

Lemma generateIstio_secure_witness :
  ∃ o rest, example_istio_objects = o :: rest ∧ o_Body o = PeerAuthentication MutualTLS_STRICT.
Proof.
  apply (generateIstio_secure (demo_package demo_spec) example_istio example_istio_objects).
  vm_compute. reflexivity.
Defined.
