(* ===== verification/Confined.v ===== *)
(** * Statements that stay outside a part of the memory

    [wp] says what holds after a statement that does not panic; [owned] that a
    place holds a value whose memory is outside of a protected set of blocks, so
    that what is reached through it may be written to without touching them. *)

From S2P Require Import Prelude Names Memory Ownership GoTypes DeepCopy CopyTemplate.
Local Open Scope string_scope.
Local Open Scope list_scope.

(** ** Weakest preconditions *)

(** The statement does not panic, and if it does not report an error either, [Q]
    holds of its result. *)
Definition wp {A} (m : M A) (Q : A → memory → Prop) (h : memory) : Prop :=
  match m h with Ok (a, h') => Q a h' | Err _ => True | Panics | Diverges => False end.

Lemma wp_ret {A} (a : A) Q h : Q a h → wp (mret a) Q h.
Proof. done. Qed.
Lemma wp_then {A B} (m : M A) (f : A → M B) Q h : wp m (λ a h', wp (f a) Q h') h → wp (m ≫= f) Q h.
Proof. unfold wp, mbind, M_bind. by destruct (m h) as [[a h']| | |]. Qed.
Lemma wp_bind_assoc {A B C} (m : M A) (f : A → M B) (g : B → M C) Q h :
  wp (m ≫= f) (λ b h', wp (g b) Q h') h → wp (a ← m; b ← f a; g b) Q h.
Proof. unfold wp, mbind, M_bind. destruct (m h) as [[a h']| | |]; try done. by destruct (f a h') as [[b h'']| | |]. Qed.
Lemma wp_post {A} (m : M A) (Q R : A → memory → Prop) h : wp m Q h → (∀ a h', Q a h' → R a h') → wp m R h.
Proof. unfold wp. destruct (m h) as [[a h']| | |]; auto. Qed.
Lemma wp_load r Q h v : read h r = Some v → Q v h → wp (load r) Q h.
Proof. intros Hr. unfold wp. by rewrite (run_load _ _ _ Hr). Qed.
Lemma wp_store r x Q h h' : write h r x = Some h' → Q () h' → wp (store r x) Q h.
Proof. intros Hw. unfold wp. by rewrite (run_store _ _ _ _ Hw). Qed.
Lemma wp_assign out in_ Q h v h' : read h in_ = Some v → write h out v = Some h' → Q () h' → wp (assign out in_) Q h.
Proof. intros Hr Hw. unfold wp. by rewrite (run_assign _ _ _ _ _ Hr Hw). Qed.
Lemma wp_alloc b Q h : (∀ l, l ∉ dom h → Q l (<[l := b]> h)) → wp (alloc b) Q h.
Proof. intros HQ. unfold wp. destruct (run_alloc b h) as (l & -> & Hl & _). by apply HQ. Qed.
Lemma wp_new_var v Q h : (∀ l, l ∉ dom h → Q (var_ref l) (<[l := Cells [v]]> h)) → wp (new_var v) Q h.
Proof. intros HQ. apply wp_then, wp_alloc. intros l Hl. by apply wp_ret, HQ. Qed.
Lemma wp_wrap {A} s (m : M A) Q h : wp m Q h → wp (λ h, wrap s (m h)) Q h.
Proof. unfold wp, wrap. by destruct (m h) as [[a h']| | |]. Qed.

#[export] Hint Resolve wp_ret : go.

Lemma read_var h l v : h !! l = Some (Cells [v]) → read h (var_ref l) = Some v.
Proof. unfold read. simpl. by intros ->. Qed.
Lemma write_var h l v x : h !! l = Some (Cells [v]) → write h (var_ref l) x = Some (<[l := Cells [x]]> h).
Proof. unfold write. simpl. by intros ->. Qed.
Lemma fresh_sub (h : memory) l b : l ∉ dom h → h ⊆ <[l := b]> h.
Proof. intros Hl. apply insert_subseteq. by apply not_elem_of_dom. Qed.

(** ** Owned values *)

Fixpoint field_type (f : string) (ts : list (string * gotype)) : option gotype :=
  match ts with [] => None | (g, t) :: ts => if String.eqb f g then Some t else field_type f ts end.

Lemma typed_field h f t ts fs :
  field_type f ts = Some t → all2 (λ '(f, t) '(g, x), f = g ∧ well_typed t h x) ts fs →
  ∃ x, field_of f fs = Some x ∧ well_typed t h x ∧
    footprint t h x ⊆ ⋃ (zip_with (λ '(_, t) '(_, x), footprint t h x) ts fs).
Proof.
  revert fs. induction ts as [|[g u] ts IH]; intros [|[k y] fs]; simpl; try done.
  intros Hf [[<- Hy] Hfs]. destruct (String.eqb f g); [injection Hf as ->; exists y; set_solver|].
  destruct (IH fs Hf Hfs) as (x & Hx & Hw & Hs). exists x. set_solver.
Qed.

Section Owned.
Context (K : gset loc).

(** A value outside of the protected blocks, and a place that holds one. *)
Definition apart (t : gotype) (h : memory) (v : val) : Prop := well_typed t h v ∧ footprint t h v ## K.
Definition owned (t : gotype) (h : memory) (r : ref) : Prop := ∃ v, read h r = Some v ∧ apart t h v.

Lemma apart_mono t h h' v : h ⊆ h' → apart t h v → apart t h' v.
Proof. intros Hs [Hw Hf]. destruct (kept_sub t h h' v Hw Hs) as (_ & Hf' & Hw'). split; [by apply Hw'|by rewrite Hf']. Qed.
Lemma owned_mono t h h' r : h ⊆ h' → owned t h r → owned t h' r.
Proof. intros Hs (v & Hr & Hv). exists v. split; [by eapply read_mono|by eapply apart_mono]. Qed.

Lemma owned_field f t ts h r : owned (TStruct ts) h r → field_type f ts = Some t → owned t h (field_ref f r).
Proof.
  intros (v & Hr & (fs & -> & Hfs) & Hd) Hf. destruct (typed_field h f t ts fs Hf Hfs) as (x & Hx & Hw & Hs).
  exists x. split; [by rewrite (read_field _ _ _ _ Hr)|]. split; [done|]. simpl in Hd. set_solver.
Qed.

Lemma owned_new t h l v : apart t h v → l ∉ dom h → owned t (<[l := Cells [v]]> h) (var_ref l).
Proof.
  intros Hv Hl. exists v. split; [by apply read_var, lookup_insert_eq|].
  eapply apart_mono; [by apply fresh_sub|done].
Qed.

Lemma apart_elem t h b off n i x :
  apart (TSlice t) h (VSlice b off n) → window h b off n !! i = Some x → apart t h x.
Proof.
  intros [[?|(b' & off' & n' & vs & [= <- <- <-] & _ & _ & Hall)] Hd] Hx; [done|]. rewrite all_Forall, Forall_lookup in Hall.
  split; [by eapply Hall|]. simpl in Hd. apply list_elem_of_lookup_2 in Hx.
  intros l Hl Hk. apply (Hd l); [|done]. apply elem_of_union_r. by eapply elem_of_fmap_union.
Qed.

Lemma owned_elem t h r b off n i :
  read h r = Some (VSlice b off n) → (i < n)%nat → owned (TSlice t) h r → owned t h (Ref b (off + i) []).
Proof.
  intros Hr Hi (v & Hr' & Hv). rewrite Hr in Hr'. injection Hr' as <-. pose proof Hv as Hv'.
  destruct Hv' as [[?|(b' & off' & n' & vs & [= <- <- <-] & Hb & Hlen & _)] _]; [done|].
  destruct (lookup_lt_is_Some_2 vs (off + i)) as [x Hx]; [lia|]. exists x.
  split; [unfold read; simpl; by rewrite Hb, Hx|]. eapply apart_elem; [exact Hv|].
  unfold window. rewrite Hb. rewrite lookup_take_lt by done. rewrite lookup_drop. exact Hx.
Qed.

Lemma apart_entry t h b m key x :
  apart (TMap t) h (VMap b) → h !! b = Some (Table m) → m !! key = Some x → apart t h x.
Proof.
  intros [[?|(b' & m' & [= <-] & Hb & Hall)] Hd] Hm Hx; [done|]. rewrite Hb in Hm. injection Hm as ->.
  assert (x ∈ (map_to_list m).*2) as Hin by (apply list_elem_of_fmap; exists (key, x); split; [done|by apply elem_of_map_to_list]).
  rewrite all_Forall, Forall_forall in Hall. split; [by apply Hall|]. simpl in Hd. rewrite Hb in Hd.
  intros l Hl Hk. apply (Hd l); [|done]. apply elem_of_union_r. by eapply elem_of_fmap_union.
Qed.

(** *** Reading them *)

Lemma wp_load_owned t r Q h :
  owned t h r → (∀ v, read h r = Some v → apart t h v → Q v h) → wp (load r) Q h.
Proof. intros (v & Hr & Hv) HQ. eapply wp_load; [exact Hr|by apply HQ]. Qed.

Lemma wp_deref t r Q h :
  owned (TPtr t) h r → read h r ≠ Some VNil → (∀ r', owned t h r' → Q r' h) → wp (deref r) Q h.
Proof.
  intros (v & Hr & [Hw Hd]) Hn HQ. destruct Hw as [->|(r' & x & -> & Hx & Hw)]; [done|]. unfold wp.
  rewrite (run_deref _ _ _ Hr). apply HQ. exists x. split; [done|]. split; [done|]. simpl in Hd. rewrite Hx in Hd. set_solver.
Qed.

Lemma wp_len t r Q h :
  owned (TSlice t) h r → (∀ n, (∀ i, (i < n)%nat → ∃ b off, read h r = Some (VSlice b off n)) → Q n h) → wp (len r) Q h.
Proof.
  intros (v & Hr & [Hw Hd]) HQ. apply wp_then. eapply wp_load; [exact Hr|].
  destruct Hw as [->|(b & off & n & vs & -> & _)]; apply wp_ret, HQ; intros i Hi; [lia|eauto].
Qed.

Lemma wp_elem t r b off n i Q h :
  owned (TSlice t) h r → read h r = Some (VSlice b off n) → (i < n)%nat → (∀ e, owned t h e → Q e h) → wp (elem r i) Q h.
Proof.
  intros Ho Hr Hi HQ. unfold wp. rewrite (run_elem _ _ _ _ _ _ Hr Hi). by apply HQ, (owned_elem t h r b off n i).
Qed.
End Owned.
