(* ===== verification/Sharing.v ===== *)
(** * Generation shares memory with the package

    Three kinds of objects take over the label maps of the package: the custom
    AuthorizationPolicies (authorizationpolicies.go), the custom ServiceEntries
    (istio.go) and the additional NetworkPolicies (networkpolicies.go); all
    others clone or merge theirs.  The HBONE pass (hbone.go) and stampMetadata
    (metadata.go) write into the labels of the objects: so generation writes into
    the package it is given.  The package the reconciler is given is a deep copy
    of the one in the cache, and that one stays as it is. *)

From S2P Require Import Prelude GoStrings Names Metadata Netpols Istio.
From S2P Require Import Memory Ownership GoTypes DeepCopy CopyTemplate Copies Confined.
Local Open Scope string_scope.
Local Open Scope list_scope.

(** ** The labels part of stampMetadata *)

Definition go_string (s : string) : val := VPrim (PString s).
(** [_, ok := labels[key]] *)
Definition has_key (r : ref) (key : string) : M bool :=
  v ← load r;
  match v with
  | VMap l => λ h, match h !! l with Some (Table m) => Ok (bool_decide (is_Some (m !! key)), h) | _ => Panics end
  | VNil => mret false
  | _ => panic
  end.
(** [labels] is a variable that holds the map of the object, or a new one. *)
Definition stampLabels (pkgName : string) (obj : ref) : M unit :=
  labels ← (v ← load (field_ref "Labels" obj); new_var v);
  v ← load labels;
  (if is_nil v then make_map labels else mret ()) ;;
  ok ← has_key labels LabelManagedBy;
  (if ok : bool then mret () else set_key labels LabelManagedBy (go_string FieldManager)) ;;
  set_key labels LabelPackage (go_string pkgName) ;;
  assign (field_ref "Labels" obj) labels.

(** The label that injectHBonePorts puts on a policy it changes. *)
Definition markHBone (np : ref) : M unit :=
  v ← load (field_ref "Labels" np);
  (if is_nil v then make_map (field_ref "Labels" np) else mret ()) ;;
  set_key (field_ref "Labels" np) hboneLabel (go_string hboneLabelValue).

(** ** The objects that share *)

Definition fail {A} (err : error) : M A := λ _, Err err.
Definition at_key {A} (prefix : string) (m : M A) : M A := λ h, wrap prefix (m h).
Definition bool_at (r : ref) : M bool := v ← load r; match v with VPrim (PBool b) => mret b | _ => panic end.
Definition string_at (r : ref) : M string := v ← load r; match v with VPrim (PString s) => mret s | _ => panic end.
(** [m[key]] and the sorted keys of [m], for the map [m] at a place *)
Definition entry (t : gotype) (m : ref) (key : string) : M val :=
  v ← load m;
  match v with
  | VMap l => λ h, match h !! l with Some (Table es) => Ok (default (zero t) (es !! key), h) | _ => Panics end
  | VNil => mret (zero t)
  | _ => panic
  end.
Definition keys (m : ref) : M (list string) :=
  v ← load m;
  match v with
  | VMap l => λ h, match h !! l with Some (Table es) => Ok (sortedKeys es, h) | _ => Panics end
  | VNil => mret []
  | _ => panic
  end.
(** A loop that appends to a list of objects. *)
Fixpoint each {A} (f : A → M (list ref)) (l : list A) : M (list ref) :=
  match l with [] => mret [] | a :: l => objs ← f a; rest ← each f l; mret (objs ++ rest) end.

Section Customs.
Context `{ExternalTypes}.
(** Why the spec at a place cannot be encoded and decoded; the decoded spec has
    memory of its own. *)
Context (spec_error : memory → ref → option error).

(** Whether HBONE injection is on and changes the rules of a policy. *)
Context (injected : memory → ref → bool).

Definition spec_check (spec : ref) : M (option error) := λ h, Ok (spec_error h spec, h).

(** buildRawAuthzPolicy, buildAdditionalAuthzPolicy and the literals of the other
    two: the metadata of the object, whose maps are those of the element. *)
Definition buildPolicy (name : string) (elem : ref) : M ref :=
  labels ← load (field_ref "Labels" elem);
  annotations ← load (field_ref "Annotations" elem);
  ap ← new_var (VStruct [("Name", go_string name); ("Labels", labels); ("Annotations", annotations)]);
  err ← spec_check (field_ref "Spec" elem);
  match err with Some err => fail err | None => mret ap end.

(** The body of the loops over [custom], the same for policies and ServiceEntries. *)
Definition customPolicy (custom : ref) (i : nat) : M (list ref) :=
  elem ← (e ← elem custom i; v ← load e; new_var v);
  name ← string_at (field_ref "Name" elem);
  if String.eqb name "" then fail (Errorf (customAt i +:+ ": name is required"))
  else ap ← at_key (customAt i +:+ " " +:+ Quote name) (buildPolicy name elem); mret [ap].

Definition additionalName (key : string) (name : ref) : M string :=
  v ← load name;
  if is_nil v then mret key
  else n ← (r ← deref name; string_at r); mret (if negb (String.eqb n "") then n else key).
Definition additionalPolicy (additional : ref) (key : string) : M (list ref) :=
  elem ← (v ← entry IstioAuthorizationPoliciesAdditionalPoliciesValue_type additional key; new_var v);
  enabled ← bool_at (field_ref "Enabled" elem);
  if negb enabled then mret []
  else
    name ← additionalName key (field_ref "Name" elem);
    ap ← at_key ("additionalPolicies." +:+ key) (buildPolicy name elem);
    mret [ap].

(** generateCustomAuthzPolicies, for the pointer at [istio] *)
Definition customPolicies (istio : ref) : M (list ref) :=
  v ← load istio;
  if is_nil v then mret []
  else
    istio ← deref istio;
    enabled ← bool_at (field_ref "Enabled" istio);
    if negb enabled then mret []
    else
      v ← load (field_ref "AuthorizationPolicies" istio);
      if is_nil v then mret []
      else
        apSpec ← deref (field_ref "AuthorizationPolicies" istio);
        n ← len (field_ref "Custom" apSpec);
        custom ← each (customPolicy (field_ref "Custom" apSpec)) (seq 0 n);
        ks ← keys (field_ref "AdditionalPolicies" apSpec);
        additional ← each (additionalPolicy (field_ref "AdditionalPolicies" apSpec)) ks;
        mret (custom ++ additional).

(** generateCustomServiceEntries, which Generate reaches with an enabled [istio] only *)
Definition customServiceEntries (istio : ref) : M (list ref) :=
  v ← load istio;
  if is_nil v then mret []
  else
    istio ← deref istio;
    enabled ← bool_at (field_ref "Enabled" istio);
    if negb enabled then mret []
    else
      v ← load (field_ref "ServiceEntries" istio);
      if is_nil v then mret []
      else
        entries ← deref (field_ref "ServiceEntries" istio);
        n ← len (field_ref "Custom" entries);
        each (customPolicy (field_ref "Custom" entries)) (seq 0 n).

(** buildAdditionalPolicy for the element at an index, and the two loops of
    generateNetworkPolicies over such elements *)
Definition additionalNetpol (pkgName : string) (spec policies : ref) (i : nat) : M (list ref) :=
  raw ← (e ← elem policies i; v ← load e; new_var v);
  prepend ← bool_at (field_ref "PrependReleaseName" spec);
  name ← string_at (field_ref "Name" raw);
  np ← buildPolicy (prependName prepend pkgName name) raw;
  mret [np].
Definition additionalNetpols (pkgName : string) (np : ref) : M (list ref) :=
  v ← load np;
  if is_nil v then mret []
  else
    spec ← deref np;
    enabled ← bool_at (field_ref "Enabled" spec);
    if negb enabled then mret []
    else
      n ← len (field_ref "AdditionalPolicies" spec);
      policies ← each (additionalNetpol pkgName spec (field_ref "AdditionalPolicies" spec)) (seq 0 n);
      n ← len (field_ref "Additional" spec);
      legacy ← each (additionalNetpol pkgName spec (field_ref "Additional" spec)) (seq 0 n);
      mret (policies ++ legacy).

Definition hboneMark (np : ref) : M unit :=
  b ← (λ h, Ok (injected h np, h)); if b : bool then markHBone np else mret ().

(** Generate, as far as these objects go: it makes them, marks the policies that
    the injection changes, and then stamps each. *)
Definition generateCustoms (pkgName : string) (pkg : ref) : M unit :=
  entries ← customServiceEntries (field_ref "Istio" (field_ref "Spec" pkg));
  netpols ← additionalNetpols pkgName (field_ref "NetworkPolicies" (field_ref "Spec" pkg));
  aps ← customPolicies (field_ref "Istio" (field_ref "Spec" pkg));
  body (hboneMark <$> netpols) ;;
  body (stampLabels pkgName <$> (entries ++ netpols ++ aps)).
End Customs.

Lemma package_methods `{ExternalTypes} `{ExternalMethods} `{MapOrder} : (Package_type, Package_DeepCopyInto, Package_DeepCopy) ∈ struct_methods.
Proof. apply (list_elem_of_lookup_2 _ 47). reflexivity. Qed.

(** ** They write outside of what the package does not own *)

Section Confinement.
Context (K : gset loc).

Definition label_map (h : memory) (x : val) : Prop :=
  x = VNil ∨ ∃ b m, x = VMap b ∧ b ∉ K ∧ h !! b = Some (Table m).
(** An object: a variable outside of the protected blocks, as its labels are. *)
Definition object_ok (h : memory) (o : ref) : Prop :=
  ∃ l fs x, o = var_ref l ∧ l ∉ K ∧ h !! l = Some (Cells [VStruct fs]) ∧ field_of "Labels" fs = Some x ∧ label_map h x.
(** A step that leaves the protected blocks alone, and the objects such. *)
Record keeps (h h' : memory) : Prop := {
  keeps_dom : dom h ⊆ dom h';
  keeps_blocks l : l ∈ K → h' !! l = h !! l;
  keeps_objects o : object_ok h o → object_ok h' o
}.

Lemma label_map_sub h h' x : h ⊆ h' → label_map h x → label_map h' x.
Proof. intros Hs [->|(b & m & -> & Hb & Hm)]; [by left|right]. exists b, m. split_and!; [done..|]. by eapply lookup_weaken. Qed.
Lemma object_ok_sub h h' o : h ⊆ h' → object_ok h o → object_ok h' o.
Proof.
  intros Hs (l & fs & x & -> & Hl & Hh & Hx & Hm). exists l, fs, x. split_and!; try done; [by eapply lookup_weaken|by eapply label_map_sub].
Qed.
Lemma objects_sub h h' objs : h ⊆ h' → Forall (object_ok h) objs → Forall (object_ok h') objs.
Proof. intros Hs Ho. eapply Forall_impl; [exact Ho|]. intros o. by apply object_ok_sub. Qed.

Lemma keeps_trans h1 h2 h3 : keeps h1 h2 → keeps h2 h3 → keeps h1 h3.
Proof. intros [Hd Hb Ho] [Hd' Hb' Ho']. split; [set_solver|intros l Hl; by rewrite Hb', Hb|auto]. Qed.

Lemma keeps_fresh h l b : K ⊆ dom h → l ∉ dom h → keeps h (<[l := b]> h).
Proof.
  intros HK Hl. split; [rewrite dom_insert_L; set_solver| |intros o; by apply object_ok_sub, fresh_sub].
  intros k Hk. apply lookup_insert_ne. intros ->. set_solver.
Qed.

(** Replacing a table by another, or a variable that is not an object. *)
Lemma keeps_replace h l b b' :
  h !! l = Some b → l ∉ K → (∀ fs, b ≠ Cells [VStruct fs]) → (∀ m, b = Table m → ∃ m', b' = Table m') → keeps h (<[l := b']> h).
Proof.
  intros Hb Hl Hs Ht. split.
  - rewrite dom_insert_L. set_solver.
  - intros k Hk. apply lookup_insert_ne. by intros ->.
  - intros o (k & fs & x & -> & Hk & Hh & Hx & Hm). assert (k ≠ l) as Hne by (intros ->; rewrite Hb in Hh; injection Hh as ->; by apply (Hs fs)).
    exists k, fs, x. split_and!; try done; [by rewrite lookup_insert_ne|]. destruct Hm as [->|(c & m & -> & Hc & Hm)]; [by left|right].
    destruct (decide (c = l)) as [->|]; [|exists c, m; by rewrite lookup_insert_ne]. rewrite Hb in Hm. injection Hm as ->.
    destruct (Ht m eq_refl) as [m' ->]. exists l, m'. by rewrite lookup_insert_eq.
Qed.

(** Setting the labels of an object. *)
Lemma keeps_labels h l fs x y :
  h !! l = Some (Cells [VStruct fs]) → l ∉ K → field_of "Labels" fs = Some x → label_map h y →
  ∃ h', write h (field_ref "Labels" (var_ref l)) y = Some h' ∧ keeps h h'.
Proof.
  intros Hl HK Hx Hy. rewrite (write_field h (var_ref l) "Labels" y fs) by (by apply read_var || by eexists).
  erewrite write_var by done. eexists. split; [done|]. split.
  - rewrite dom_insert_L. set_solver.
  - intros k Hk. apply lookup_insert_ne. by intros ->.
  - assert (∀ z, label_map h z → label_map (<[l := Cells [VStruct (set_field "Labels" y fs)]]> h) z) as Hmap.
    { intros z [->|(b & m & -> & Hb & Hm)]; [by left|right]. exists b, m. split_and!; try done.
      rewrite lookup_insert_ne; [done|]. intros ->. by rewrite Hl in Hm. }
    intros o (k & gs & z & -> & Hk & Hh & Hz & Hm). destruct (decide (k = l)) as [->|Hne].
    + exists l, (set_field "Labels" y fs), y. rewrite lookup_insert_eq. split_and!; try done; [by eapply field_of_set|by apply Hmap].
    + exists k, gs, z. rewrite lookup_insert_ne by done. split_and!; try done. by apply Hmap.
Qed.

(** A variable with the labels of the object, once there is a map. *)
Definition labels_var (h : memory) (l b : loc) : Prop :=
  ∃ m, h !! l = Some (Cells [VMap b]) ∧ h !! b = Some (Table m) ∧ b ∉ K.

Lemma wp_set_label h l b key x Q :
  labels_var h l b → (∀ h', keeps h h' → labels_var h' l b → Q () h') → wp (set_key (var_ref l) key x) Q h.
Proof.
  intros (m & Hl & Hb & HK) HQ. unfold wp. rewrite (run_set_key _ _ _ _ _ _ (read_var _ _ _ Hl) Hb). apply HQ.
  - eapply keeps_replace; [exact Hb|done|done|by eauto].
  - exists (<[key := x]> m). rewrite lookup_insert_eq, lookup_insert_ne; [done|]. intros ->. by rewrite Hl in Hb.
Qed.

Lemma wp_labels_map h l x Q :
  K ⊆ dom h → l ∉ K → h !! l = Some (Cells [x]) → label_map h x →
  (∀ h' b, keeps h h' → labels_var h' l b → Q () h') → wp (if is_nil x then make_map (var_ref l) else mret ()) Q h.
Proof.
  intros HK Hl Hh [->|(b & m & -> & Hb & Hm)] HQ; simpl; [|apply wp_ret, (HQ h b); [by split|by exists m]].
  apply wp_then, wp_alloc. intros b Hb. assert (b ≠ l) as Hne by (intros ->; by apply Hb, (elem_of_dom_2 _ _ _ Hh)).
  assert (<[b := Table ∅]> h !! l = Some (Cells [VNil])) as Hh' by by rewrite lookup_insert_ne.
  eapply wp_store; [by eapply write_var|]. apply (HQ _ b).
  - eapply keeps_trans; [by apply keeps_fresh|]. eapply keeps_replace; [exact Hh'|done|done|done].
  - exists ∅. rewrite lookup_insert_eq, lookup_insert_ne by done. rewrite lookup_insert_eq. split; [done|]. split; [done|]. set_solver.
Qed.

Lemma wp_stampLabels name o h Q :
  K ⊆ dom h → object_ok h o → (∀ h', keeps h h' → Q () h') → wp (stampLabels name o) Q h.
Proof.
  intros HK Hok HQ. pose proof Hok as (lo & fs & x & -> & Hlo & Hh & Hx & Hm). unfold stampLabels.
  apply wp_then, wp_then. eapply wp_load; [by rewrite (read_field _ _ _ _ (read_var _ _ _ Hh))|].
  apply wp_new_var. intros l Hl. pose proof (keeps_fresh h l (Cells [x]) HK Hl) as K1.
  apply wp_then. eapply wp_load; [by apply read_var, lookup_insert_eq|].
  apply wp_then, wp_labels_map; [rewrite dom_insert_L; set_solver|set_solver|by rewrite lookup_insert_eq| |].
  { eapply label_map_sub; [by apply fresh_sub|done]. }
  intros h2 b K2 Hv. apply wp_then. pose proof (keeps_trans _ _ _ K1 K2) as K12. clear K1 K2.
  assert (wp (has_key (var_ref l) LabelManagedBy) (λ ok h', h' = h2) h2) as Hhas.
  { destruct Hv as (m & Hv & Hb & _). apply wp_then. eapply wp_load; [by eapply read_var|]. unfold wp. by rewrite Hb. }
  eapply wp_post; [exact Hhas|]. intros ok h2' ->. apply wp_then.
  assert (∀ h3, keeps h h3 → labels_var h3 l b →
    wp (set_key (var_ref l) LabelPackage (go_string name) ;; assign (field_ref "Labels" (var_ref lo)) (var_ref l)) Q h3) as Hrest.
  { intros h3 K3 Hv3. apply wp_then. eapply wp_set_label; [exact Hv3|]. intros h4 K4 (m4 & Hl4 & Hb4 & HbK).
    pose proof (keeps_trans _ _ _ K3 K4) as K34. destruct (keeps_objects _ _ K34 _ Hok) as (l' & gs & y & [= <-] & _ & Hh4 & Hy & _).
    destruct (keeps_labels h4 lo gs y (VMap b) Hh4 Hlo Hy) as (h5 & Hw & K5); [by right; exists b, m4|].
    eapply wp_assign; [by eapply read_var|exact Hw|]. apply HQ. by eapply keeps_trans. }
  destruct ok; [by apply wp_ret, Hrest|]. eapply wp_set_label; [exact Hv|]. intros h3 K3 Hv3. apply Hrest; [by eapply keeps_trans|done].
Qed.

(** The labels of an object are set in place. *)
Lemma wp_set_object_label o h b key x Q :
  read h (field_ref "Labels" o) = Some (VMap b) → object_ok h o → (∀ h', keeps h h' → Q () h') →
  wp (set_key (field_ref "Labels" o) key x) Q h.
Proof.
  intros Hr (l & fs & y & -> & Hl & Hh & Hy & Hm) HQ. rewrite (read_field _ _ _ _ (read_var _ _ _ Hh)), Hy in Hr.
  injection Hr as ->. destruct Hm as [?|(b' & m & [= <-] & HK & Hb)]; [done|]. unfold wp.
  erewrite run_set_key; [|by rewrite (read_field _ _ _ _ (read_var _ _ _ Hh))|exact Hb].
  apply HQ. eapply keeps_replace; [exact Hb|done|done|by eauto].
Qed.

Lemma wp_markHBone o h Q :
  K ⊆ dom h → object_ok h o → (∀ h', keeps h h' → Q () h') → wp (markHBone o) Q h.
Proof.
  intros HK Hok HQ. pose proof Hok as (l & fs & x & -> & Hl & Hh & Hx & Hm). unfold markHBone.
  assert (read h (field_ref "Labels" (var_ref l)) = Some x) as Hr by by rewrite (read_field _ _ _ _ (read_var _ _ _ Hh)).
  apply wp_then. eapply wp_load; [exact Hr|]. apply wp_then. destruct Hm as [->|(b & m & -> & Hb & Hm)]; simpl.
  - apply wp_then, wp_alloc. intros b Hb. pose proof (keeps_fresh h b (Table ∅) HK Hb) as K1.
    assert (l ≠ b) as Hne by (intros ->; by apply Hb, (elem_of_dom_2 _ _ _ Hh)).
    assert (<[b := Table ∅]> h !! l = Some (Cells [VStruct fs])) as Hh1 by by rewrite lookup_insert_ne.
    destruct (keeps_labels _ l fs VNil (VMap b) Hh1 Hl Hx) as (h2 & Hw & K2).
    { right. exists b, ∅. rewrite lookup_insert_eq. split_and!; [done|set_solver|done]. }
    eapply wp_store; [exact Hw|]. pose proof (keeps_trans _ _ _ K1 K2) as K12.
    eapply (wp_set_object_label (var_ref l) h2 b); [by eapply read_write_same|by apply (keeps_objects _ _ K12)|].
    intros h3 K3. apply HQ. by eapply keeps_trans.
  - apply wp_ret. eapply (wp_set_object_label (var_ref l) h b); [exact Hr|exact Hok|exact HQ].
Qed.

(** A statement for each of some objects. *)
Lemma wp_for_all (f : ref → M unit) objs h :
  (∀ o h1, K ⊆ dom h1 → object_ok h1 o → wp (f o) (λ _ h', keeps h1 h') h1) →
  K ⊆ dom h → Forall (object_ok h) objs → wp (body (f <$> objs)) (λ _ h', keeps h h') h.
Proof.
  intros Hf. revert h. induction objs as [|o objs IH]; intros h HK Hobjs; simpl; [by apply wp_ret|].
  apply Forall_cons in Hobjs as [Ho Hobjs]. apply wp_then. eapply wp_post; [by apply Hf|]. intros [] h1 K1.
  eapply wp_post; [apply IH|].
  - pose proof (keeps_dom _ _ K1). set_solver.
  - eapply Forall_impl; [exact Hobjs|]. intros o'. by apply keeps_objects.
  - intros u h2 K2. by eapply keeps_trans.
Qed.

(** *** Making the objects *)

Context `{ExternalTypes} (spec_error : memory → ref → option error).
(** What making objects does: it only allocates. *)
Definition grows (h : memory) (objs : list ref) (h' : memory) : Prop := h ⊆ h' ∧ Forall (object_ok h') objs.

(** A field of an owned struct is owned. *)
Ltac owned_by H := eapply owned_field; [exact H|reflexivity].

Lemma owned_labels h r x : owned K (TMap TString) h r → read h r = Some x → label_map h x.
Proof.
  intros (v & Hr & [Hw Hd]) Hx. rewrite Hr in Hx. injection Hx as ->. destruct Hw as [->|(b & m & -> & Hb & _)]; [by left|right].
  exists b, m. split_and!; try done. simpl in Hd. set_solver.
Qed.

Lemma wp_string_at h r Q : owned K TString h r → (∀ s, Q s h) → wp (string_at r) Q h.
Proof.
  intros Ho HQ. apply wp_then. eapply wp_load_owned; [exact Ho|]. intros v _ [(p & -> & Hp) _].
  destruct p; try done. by apply wp_ret.
Qed.
Lemma wp_bool_at h r Q : owned K TBool h r → (∀ b, Q b h) → wp (bool_at r) Q h.
Proof.
  intros Ho HQ. apply wp_then. eapply wp_load_owned; [exact Ho|]. intros v _ [(p & -> & Hp) _].
  destruct p; try done. by apply wp_ret.
Qed.

Lemma wp_hboneMark injected o h :
  K ⊆ dom h → object_ok h o → wp (hboneMark injected o) (λ _ h', keeps h h') h.
Proof.
  intros HK Ho. apply wp_then. unfold wp at 1. destruct (injected h o); [by apply wp_markHBone|by apply wp_ret].
Qed.

Lemma wp_buildPolicy ts h name elem :
  K ⊆ dom h → owned K (TStruct ts) h elem → field_type "Labels" ts = Some (TMap TString) →
  field_type "Annotations" ts = Some (TMap TString) →
  wp (buildPolicy spec_error name elem) (λ ap h', grows h [ap] h') h.
Proof.
  intros HK Ho Hl Ha. apply wp_then. eapply wp_load_owned; [by eapply owned_field|]. intros x Hx _.
  pose proof (owned_labels _ _ _ (owned_field K _ _ _ _ _ Ho Hl) Hx) as Hm.
  apply wp_then. eapply wp_load_owned; [by eapply owned_field|]. intros a _ _.
  apply wp_then, wp_new_var. intros l Hfresh. apply wp_then. unfold wp, spec_check.
  destruct (spec_error _ _); [done|]. simpl. split; [by apply fresh_sub|]. constructor; [|done].
  eexists l, _, x. rewrite lookup_insert_eq. split_and!; [done|set_solver|done|done|].
  eapply label_map_sub; [by apply fresh_sub|done].
Qed.

Lemma wp_one prefix name elem h :
  wp (buildPolicy spec_error name elem) (λ ap h', grows h [ap] h') h →
  wp (ap ← at_key prefix (buildPolicy spec_error name elem); mret [ap]) (grows h) h.
Proof. intros Hb. apply wp_then, wp_wrap. eapply wp_post; [exact Hb|]. intros ap h' Hap. by apply wp_ret. Qed.

(** An element with a name, labels and annotations. *)
Definition named_type (ts : list (string * gotype)) : Prop :=
  field_type "Name" ts = Some TString ∧ field_type "Labels" ts = Some (TMap TString) ∧
  field_type "Annotations" ts = Some (TMap TString).

Lemma wp_customPolicy ts h r b off n i :
  named_type ts → K ⊆ dom h → owned K (TSlice (TStruct ts)) h r → read h r = Some (VSlice b off n) → (i < n)%nat →
  wp (customPolicy spec_error r i) (grows h) h.
Proof.
  intros (Tn & Tl & Ta) HK Ho Hr Hi. apply wp_then, wp_then. eapply wp_elem; [exact Ho|exact Hr|exact Hi|]. intros e He.
  apply wp_then. eapply (wp_load_owned K); [exact He|]. intros v _ Hv. apply wp_new_var. intros l Hl.
  pose proof (owned_new K _ _ _ _ Hv Hl) as Hel. pose proof (fresh_sub h l (Cells [v]) Hl) as Hs.
  apply wp_then, wp_string_at; [by eapply owned_field|]. intros name. destruct (String.eqb name ""); [done|].
  eapply wp_post; [eapply wp_one, wp_buildPolicy; [rewrite dom_insert_L; set_solver|exact Hel|done|done]|].
  intros objs h' [Hs' Hobjs]. split; [by etrans|done].
Qed.

Lemma wp_additionalNetpol name h spec r b off n i :
  K ⊆ dom h → owned K NetworkPolicies_type h spec → owned K (TSlice AdditionalPolicy_type) h r →
  read h r = Some (VSlice b off n) → (i < n)%nat → wp (additionalNetpol spec_error name spec r i) (grows h) h.
Proof.
  intros HK Hspec Ho Hr Hi. apply wp_then, wp_then. eapply wp_elem; [exact Ho|exact Hr|exact Hi|]. intros e He.
  apply wp_then. eapply (wp_load_owned K); [exact He|]. intros v _ Hv. apply wp_new_var. intros l Hl.
  pose proof (owned_new K _ _ _ _ Hv Hl) as Hel. pose proof (fresh_sub h l (Cells [v]) Hl) as Hs.
  apply wp_then, wp_bool_at; [owned_by (owned_mono K _ _ _ _ Hs Hspec)|]. intros prepend.
  apply wp_then, wp_string_at; [owned_by Hel|]. intros raw.
  apply wp_then. eapply wp_post; [eapply wp_buildPolicy; [rewrite dom_insert_L; set_solver|exact Hel|done|done]|].
  intros np h' [Hs' Hobjs]. apply wp_ret. split; [by etrans|done].
Qed.

Lemma wp_additionalName h key r Q : owned K (TPtr TString) h r → (∀ s, Q s h) → wp (additionalName key r) Q h.
Proof.
  intros Ho HQ. apply wp_then. eapply wp_load_owned; [exact Ho|]. intros v Hv _. destruct (is_nil v) eqn:Hn; [by apply wp_ret|].
  apply wp_then, wp_then. eapply wp_deref; [exact Ho|by intros Hr; rewrite Hr in Hv; injection Hv as <-|].
  intros r' Hr'. apply wp_string_at; [done|]. intros s. by apply wp_ret.
Qed.

Lemma apart_zero h : apart K IstioAuthorizationPoliciesAdditionalPoliciesValue_type h
  (zero IstioAuthorizationPoliciesAdditionalPoliciesValue_type).
Proof.
  split; [apply well_typedb_sound; reflexivity|]. vm_compute. set_solver.
Qed.

Lemma wp_additionalPolicy h r key :
  K ⊆ dom h → owned K IstioAuthorizationPoliciesAdditionalPolicies_type h r →
  wp (additionalPolicy spec_error r key) (grows h) h.
Proof.
  intros HK Ho. apply wp_then, wp_then.
  assert (wp (entry IstioAuthorizationPoliciesAdditionalPoliciesValue_type r key)
    (λ v h', h' = h ∧ apart K IstioAuthorizationPoliciesAdditionalPoliciesValue_type h v) h) as Hentry.
  { apply wp_then. eapply wp_load_owned; [exact Ho|]. intros v _ Hv. pose proof Hv as [[->|(b & m & -> & Hb & _)] _].
    - apply wp_ret. split; [done|apply apart_zero].
    - unfold wp. rewrite Hb. split; [done|]. destruct (m !! key) as [x|] eqn:Hx; [by eapply apart_entry|apply apart_zero]. }
  eapply wp_post; [exact Hentry|]. intros v h' [-> Hv]. apply wp_new_var. intros l Hl.
  pose proof (owned_new K _ _ _ _ Hv Hl) as Hel. pose proof (fresh_sub h l (Cells [v]) Hl) as Hs.
  apply wp_then, wp_bool_at; [owned_by Hel|]. intros enabled. destruct (negb enabled); [by apply wp_ret; split|].
  apply wp_then, wp_additionalName; [owned_by Hel|]. intros name.
  eapply wp_post; [eapply wp_one, wp_buildPolicy; [rewrite dom_insert_L; set_solver|exact Hel|done|done]|].
  intros objs h' [Hs' Hobjs]. split; [by etrans|done].
Qed.

Lemma wp_each {A} (f : A → M (list ref)) l h :
  (∀ a h1, a ∈ l → h ⊆ h1 → wp (f a) (grows h1) h1) → wp (each f l) (grows h) h.
Proof.
  intros Hf. assert (∀ h1, h ⊆ h1 → wp (each f l) (grows h1) h1) as Hall; [|by apply Hall].
  induction l as [|a l IH]; intros h1 Hs; simpl; [by apply wp_ret; split|].
  apply wp_then. eapply wp_post; [apply Hf; [by left|done]|]. intros objs h2 [Hs2 Hobjs].
  apply wp_then. eapply wp_post; [apply IH; [intros; apply Hf; [by right|done]|by etrans]|]. intros rest h3 [Hs3 Hrest].
  apply wp_ret. split; [by etrans|]. apply Forall_app. split; [by eapply objects_sub|done].
Qed.

(** A loop over the elements of a slice. *)
Lemma wp_each_elem t (f : nat → M (list ref)) r h Q :
  owned K (TSlice t) h r → K ⊆ dom h →
  (∀ i b off n h1, h ⊆ h1 → K ⊆ dom h1 → owned K (TSlice t) h1 r → read h1 r = Some (VSlice b off n) → (i < n)%nat →
     wp (f i) (grows h1) h1) →
  (∀ objs h', grows h objs h' → Q objs h') → wp (n ← len r; each f (seq 0 n)) Q h.
Proof.
  intros Ho HK Hf HQ. apply wp_then. eapply wp_len; [exact Ho|]. intros n Hn. eapply wp_post; [apply wp_each|exact HQ].
  intros i h1 Hi%elem_of_seq Hs. destruct (Hn i) as (b & off & Hr); [lia|]. pose proof (subseteq_dom _ _ Hs).
  eapply Hf; [done|set_solver|by eapply owned_mono|by eapply read_mono|lia].
Qed.

Lemma wp_keys h r Q : owned K IstioAuthorizationPoliciesAdditionalPolicies_type h r → (∀ ks, Q ks h) → wp (keys r) Q h.
Proof.
  intros Ho HQ. apply wp_then. eapply wp_load_owned; [exact Ho|]. intros v _ [[->|(b & m & -> & Hb & _)] _]; [by apply wp_ret|].
  unfold wp. by rewrite Hb.
Qed.

Lemma wp_policies_of h apSpec :
  K ⊆ dom h → owned K IstioAuthorizationPolicies_type h apSpec →
  wp (n ← len (field_ref "Custom" apSpec);
      custom ← each (customPolicy spec_error (field_ref "Custom" apSpec)) (seq 0 n);
      ks ← keys (field_ref "AdditionalPolicies" apSpec);
      additional ← each (additionalPolicy spec_error (field_ref "AdditionalPolicies" apSpec)) ks;
      mret (custom ++ additional)) (grows h) h.
Proof.
  intros HK Ho. pose proof (owned_field K "Custom" _ _ _ _ Ho eq_refl) as Hc.
  pose proof (owned_field K "AdditionalPolicies" _ _ _ _ Ho eq_refl) as Ha.
  apply (wp_bind_assoc (len (field_ref "Custom" apSpec))). eapply wp_each_elem; [exact Hc|done| |].
  { intros i b off n h1 _ HK1 Ho1 Hr1 Hi. eapply wp_customPolicy; [|exact HK1|exact Ho1|exact Hr1|exact Hi]. done. }
  intros custom h1 [Hs1 Hcustom]. apply wp_then, wp_keys; [by eapply owned_mono|]. intros ks. apply wp_then.
  eapply wp_post; [apply wp_each|].
  { intros key h2 _ Hs. apply wp_additionalPolicy; [|by eapply owned_mono, owned_mono].
    pose proof (subseteq_dom _ _ Hs1). pose proof (subseteq_dom _ _ Hs). set_solver. }
  intros additional h2 [Hs2 Hadd]. apply wp_ret. split; [by etrans|]. apply Forall_app. split; [by eapply objects_sub|done].
Qed.

Lemma wp_customPolicies h istio :
  K ⊆ dom h → owned K (TPtr Istio_type) h istio → wp (customPolicies spec_error istio) (grows h) h.
Proof.
  intros HK Ho. apply wp_then. eapply wp_load_owned; [exact Ho|]. intros v Hv _. destruct (is_nil v) eqn:Hn; [by apply wp_ret; split|].
  apply wp_then. eapply wp_deref; [exact Ho|by intros Hr; rewrite Hr in Hv; injection Hv as <-|]. intros i Hi.
  apply wp_then, wp_bool_at; [owned_by Hi|]. intros enabled. destruct (negb enabled); [by apply wp_ret; split|].
  pose proof (owned_field K "AuthorizationPolicies" _ _ _ _ Hi eq_refl) as Hap.
  apply wp_then. eapply wp_load_owned; [exact Hap|]. intros a Haval _. destruct (is_nil a) eqn:Han; [by apply wp_ret; split|].
  apply wp_then. eapply wp_deref; [exact Hap|by intros Hr; rewrite Hr in Haval; injection Haval as <-|].
  intros apSpec. by apply wp_policies_of.
Qed.

Lemma wp_customServiceEntries h istio :
  K ⊆ dom h → owned K (TPtr Istio_type) h istio → wp (customServiceEntries spec_error istio) (grows h) h.
Proof.
  intros HK Ho. apply wp_then. eapply wp_load_owned; [exact Ho|]. intros v Hv _. destruct (is_nil v) eqn:Hn; [by apply wp_ret; split|].
  apply wp_then. eapply wp_deref; [exact Ho|by intros Hr; rewrite Hr in Hv; injection Hv as <-|]. intros i Hi.
  apply wp_then, wp_bool_at; [owned_by Hi|]. intros enabled. destruct (negb enabled); [by apply wp_ret; split|].
  pose proof (owned_field K "ServiceEntries" _ _ _ _ Hi eq_refl) as Hap.
  apply wp_then. eapply wp_load_owned; [exact Hap|]. intros a Haval _. destruct (is_nil a) eqn:Han; [by apply wp_ret; split|].
  apply wp_then. eapply wp_deref; [exact Hap|by intros Hr; rewrite Hr in Haval; injection Haval as <-|]. intros es Hes.
  eapply wp_each_elem; [exact (owned_field K "Custom" _ _ _ _ Hes eq_refl)|done| |done].
  intros j b off n h1 _ HK1 Ho1 Hr1 Hj. eapply wp_customPolicy; [|exact HK1|exact Ho1|exact Hr1|exact Hj]. done.
Qed.

Lemma wp_additionalNetpols name h np :
  K ⊆ dom h → owned K (TPtr NetworkPolicies_type) h np → wp (additionalNetpols spec_error name np) (grows h) h.
Proof.
  intros HK Ho. apply wp_then. eapply wp_load_owned; [exact Ho|]. intros v Hv _. destruct (is_nil v) eqn:Hn; [by apply wp_ret; split|].
  apply wp_then. eapply wp_deref; [exact Ho|by intros Hr; rewrite Hr in Hv; injection Hv as <-|]. intros spec Hspec.
  apply wp_then, wp_bool_at; [owned_by Hspec|]. intros enabled. destruct (negb enabled); [by apply wp_ret; split|].
  assert (∀ f h1 Q, h ⊆ h1 → owned K (TSlice AdditionalPolicy_type) h (field_ref f spec) →
    (∀ objs h', grows h1 objs h' → Q objs h') →
    wp (n ← len (field_ref f spec); each (additionalNetpol spec_error name spec (field_ref f spec)) (seq 0 n)) Q h1) as Hloop.
  { intros f h1 Q Hs Hf HQ. pose proof (subseteq_dom _ _ Hs).
    eapply wp_each_elem; [by eapply owned_mono|set_solver| |exact HQ]. intros j b off n h2 Hs2 HK2 Ho2 Hr2 Hj.
    eapply wp_additionalNetpol; [done| |exact Ho2|exact Hr2|exact Hj]. by eapply owned_mono, owned_mono. }
  apply (wp_bind_assoc (len (field_ref "AdditionalPolicies" spec))), Hloop; [done|owned_by Hspec|]. intros policies h1 [Hs1 Hp].
  apply (wp_bind_assoc (len (field_ref "Additional" spec))), Hloop; [done|owned_by Hspec|]. intros legacy h2 [Hs2 Hl].
  apply wp_ret. split; [by etrans|]. apply Forall_app. split; [by eapply objects_sub|done].
Qed.

Lemma wp_generateCustoms injected name h pkg :
  K ⊆ dom h → owned K Package_type h pkg →
  wp (generateCustoms spec_error injected name pkg) (λ _ h', ∀ l, l ∈ K → h' !! l = h !! l) h.
Proof.
  intros HK Ho. pose proof (owned_field K "Spec" _ _ _ _ Ho eq_refl) as Hspec.
  pose proof (owned_field K "Istio" _ _ _ _ Hspec eq_refl) as Histio.
  pose proof (owned_field K "NetworkPolicies" _ _ _ _ Hspec eq_refl) as Hnp.
  apply wp_then. eapply wp_post; [by apply wp_customServiceEntries|]. intros entries h1 [Hs1 Hentries].
  pose proof (subseteq_dom _ _ Hs1). apply wp_then.
  eapply wp_post; [apply wp_additionalNetpols; [set_solver|by eapply owned_mono]|]. intros netpols h2 [Hs2 Hnetpols].
  pose proof (subseteq_dom _ _ Hs2). apply wp_then.
  eapply wp_post; [apply wp_customPolicies; [set_solver|by eapply owned_mono, owned_mono]|]. intros aps h3 [Hs3 Haps].
  pose proof (subseteq_dom _ _ Hs3). apply (objects_sub _ _ _ Hs3) in Hnetpols.
  assert (h ⊆ h3) as Hsub by (by do 2 (etrans; [eassumption|])).
  assert (Forall (object_ok h3) (entries ++ netpols ++ aps)) as Hall
    by (rewrite !Forall_app; split_and!; [apply (objects_sub h1); [by etrans|done]|done|done]).
  apply wp_then. eapply wp_post; [apply wp_for_all; [intros o h'; apply wp_hboneMark|set_solver|done]|]. intros [] h4 K4.
  pose proof (keeps_dom _ _ K4). eapply wp_post; [apply wp_for_all|].
  - intros o h' HK' Ho'. by apply wp_stampLabels.
  - set_solver.
  - eapply Forall_impl; [exact Hall|]. intros o. by apply keeps_objects.
  - intros u h5 K5 l Hl. rewrite (keeps_blocks _ _ K5 l Hl), (keeps_blocks _ _ K4 l Hl).
    assert (l ∈ dom h) as [b Hb]%elem_of_dom by set_solver. rewrite Hb. by eapply lookup_weaken.
Qed.
End Confinement.

Section CacheSafe.
Context `{ExternalTypes} `{ExternalMethods} `{MapOrder} `{!ExternalCopies} (spec_error : memory → ref → option error)
  (injected : memory → ref → bool).

(** C13: Generation does not reach the cache. For every well-typed package at [r], in
    every memory, the deep copy that the reconciler works on is made without a
    panic, and making from it the objects that take over its label maps (custom
    AuthorizationPolicies and ServiceEntries, additional NetworkPolicies),
    marking those that HBONE injection changes and stamping all, which writes
    into those maps, does not panic and leaves every block that was in use
    before the copy as it was, the package at [r] with its contents among them,
    whatever the specs decode to and whichever policies the injection changes. *)
Theorem generation_spares_cache pkgName h r v (Hr : read h r = Some v) (Hv : well_typed Package_type h v) :
  ∃ h1 copy, Package_DeepCopy (VPtr r) h = Ok (VPtr copy, h1) ∧
    match generateCustoms spec_error injected pkgName copy h1 with
    | Ok (_, h2) => (∀ l, l ∈ dom h → h2 !! l = h !! l) ∧ read h2 r = Some v ∧
                    contents Package_type h2 v = contents Package_type h v
    | Err _ => True
    | Panics | Diverges => False
    end.
Proof.
  destruct (struct_method_copies _ _ _ package_methods) as [_ Hc].
  destruct (Hc h r v Hr Hv) as (h1 & copy & v' & Hrun & Hs & _ & Hread & [_ Hw Hf]). exists h1, copy. split; [done|].
  apply (wp_post _ (λ _ h2, ∀ l, l ∈ dom h → h2 !! l = h1 !! l)).
  { apply wp_generateCustoms; [by apply subseteq_dom|]. by exists v'. }
  intros u h2 Hsame. assert (∀ l, l ∈ dom h → h2 !! l = h !! l) as Hold.
  { intros l Hl. rewrite (Hsame l Hl). apply elem_of_dom in Hl as [b Hb]. rewrite Hb. by eapply lookup_weaken. }
  split; [done|]. split; [rewrite <-Hr; apply read_other, Hold; by eapply read_dom|].
  apply (frame Package_type h h2 v). intros l Hl. by apply Hold, (footprint_allocated _ h v Hv).
Qed.
End CacheSafe.


(** ** A package in the cache with a custom policy and an additional one *)

#[local] Existing Instance demo_external_types.
#[local] Existing Instance demo_external_methods.
#[local] Existing Instance demo_order.

(** [pkg.Spec.Istio.AuthorizationPolicies] *)
Definition authz_of (pkg : ref) : M ref :=
  istio ← deref (field_ref "Istio" (field_ref "Spec" pkg)); deref (field_ref "AuthorizationPolicies" istio).
Definition cached_package : M ref :=
  pkg ← new_var (zero Package_type);
  set_new (field_ref "Istio" (field_ref "Spec" pkg)) Istio_type ;;
  istio ← deref (field_ref "Istio" (field_ref "Spec" pkg));
  set_new (field_ref "AuthorizationPolicies" istio) IstioAuthorizationPolicies_type ;;
  store (field_ref "Enabled" istio) (VPrim (PBool true)) ;;
  ap ← authz_of pkg;
  set_make_slice (field_ref "Custom" ap) IstioAuthorizationPoliciesCustomElem_type 1 ;;
  e ← elem (field_ref "Custom" ap) 0;
  store (field_ref "Name" e) (go_string "allow-metrics") ;;
  make_map (field_ref "Labels" e) ;;
  set_key (field_ref "Labels" e) "team" (go_string "observability") ;;
  set_new (field_ref "NetworkPolicies" (field_ref "Spec" pkg)) NetworkPolicies_type ;;
  np ← deref (field_ref "NetworkPolicies" (field_ref "Spec" pkg));
  store (field_ref "Enabled" np) (VPrim (PBool true)) ;;
  set_make_slice (field_ref "AdditionalPolicies" np) AdditionalPolicy_type 1 ;;
  e ← elem (field_ref "AdditionalPolicies" np) 0;
  store (field_ref "Name" e) (go_string "allow-scrape") ;;
  make_map (field_ref "Labels" e) ;;
  mret pkg.

Definition result {A} (d : A) (m : outcome (A * memory)) : A * memory := match m with Ok r => r | _ => (d, ∅) end.
Definition cache : ref * memory := result (var_ref 1) (cached_package ∅).
Definition reconciled : val * memory := result VNil (Package_DeepCopy (VPtr cache.1) cache.2).
Definition package_ref : ref := match reconciled.1 with VPtr r => r | _ => var_ref 1 end.
Definition stamped_memory : memory := (result () (generateCustoms (λ _ _, None) (λ _ _, true) "app" package_ref reconciled.2)).2.
Definition package_contents (h : memory) (r : ref) : option tree := contents Package_type h <$> read h r.


(** The package label in the labels of an element of the spec: the first custom
    policy, and the first additional NetworkPolicy. *)
Definition label_in (h : memory) (key : string) (labels : M val) : option val :=
  match labels h with
  | Ok (VMap l, _) => match h !! l with Some (Table m) => m !! key | _ => None end
  | _ => None
  end.
Definition spec_label (h : memory) (pkg : ref) : option val :=
  label_in h LabelPackage (ap ← authz_of pkg; e ← elem (field_ref "Custom" ap) 0; load (field_ref "Labels" e)).
Definition netpol_label (h : memory) (key : string) (pkg : ref) : option val :=
  label_in h key (np ← deref (field_ref "NetworkPolicies" (field_ref "Spec" pkg));
                  e ← elem (field_ref "AdditionalPolicies" np) 0; load (field_ref "Labels" e)).

(** Generation is not a pure function of the package: the labels appear in the
    spec it was given.  The spec in the cache does not get them. *)
Lemma stamping_writes_into_the_package :
  generateCustoms (λ _ _, None) (λ _ _, true) "app" package_ref reconciled.2 = Ok ((), stamped_memory) ∧
  spec_label reconciled.2 package_ref = None ∧
  spec_label stamped_memory package_ref = Some (go_string "app") ∧
  spec_label stamped_memory cache.1 = None ∧
  netpol_label stamped_memory LabelPackage package_ref = Some (go_string "app") ∧
  netpol_label stamped_memory hboneLabel package_ref = Some (go_string hboneLabelValue) ∧
  netpol_label stamped_memory LabelPackage cache.1 = None ∧ netpol_label stamped_memory hboneLabel cache.1 = None.
Proof. split_and!; vm_compute; reflexivity. Qed.

Definition cached_value : val := default VNil (read cache.2 cache.1).
Lemma cached_read : read cache.2 cache.1 = Some cached_value.
Proof. vm_compute. reflexivity. Qed.
Lemma cached_typed : well_typed Package_type cache.2 cached_value.
Proof. apply well_typedb_sound. vm_compute. reflexivity. Qed.

Lemma DeepCopy_copies_witness :
  ∃ h' r' v', Package_DeepCopy (VPtr cache.1) cache.2 = Ok (VPtr r', h') ∧ cache.2 ⊆ h' ∧
    read h' r' = Some v' ∧ copied Package_type cache.2 cached_value h' v'.
Proof.
  pose proof (@DeepCopy_copies _ _ _ demo_external_copies) as [Hall _]. rewrite Forall_forall in Hall.
  destruct (Hall _ package_methods) as (_ & Hnew & _).
  destruct (Hnew _ _ _ cached_read cached_typed) as (h' & r' & v' & Hrun & Hs & _ & Hread & Hc).
  exists h', r', v'. split; [exact Hrun|]. split; [exact Hs|]. split; [exact Hread|exact Hc].
Defined.

(** What was in use before the copy is untouched by the stamping. *)
Lemma stamped_outside l : l ∈ dom cache.2 → stamped_memory !! l = reconciled.2 !! l.
Proof.
  intros Hl. assert (forallb (λ l, bool_decide (l ∈ [1;2;3;4;5;6;7;8]%positive)) (elements (dom cache.2)) = true) as Hdom
    by (vm_compute; reflexivity).
  rewrite forallb_forall in Hdom. specialize (Hdom l (proj1 (list_elem_of_In _ _) (proj2 (elem_of_elements _ _) Hl))).
  apply bool_decide_eq_true_1 in Hdom.
  do 8 (apply elem_of_cons in Hdom as [->|Hdom]; [vm_compute; reflexivity|]). exfalso. by apply elem_of_nil in Hdom.
Qed.

Lemma DeepCopy_isolates_witness :
  spec_label stamped_memory package_ref = Some (go_string "app") ∧
  package_contents stamped_memory cache.1 = package_contents cache.2 cache.1.
Proof.
  split; [vm_compute; reflexivity|].
  destruct (@DeepCopy_isolates _ _ _ demo_external_copies Package_type Package_DeepCopyInto Package_DeepCopy cache.2 cache.1
    cached_value package_methods cached_read cached_typed) as (h' & r' & v' & Hrun & _ & _ & Horig & _).
  assert (h' = reconciled.2) as -> by (unfold reconciled; rewrite Hrun; reflexivity).
  destruct (Horig stamped_memory stamped_outside) as [Hr Hc].
  unfold package_contents. rewrite Hr, cached_read. exact (f_equal Some Hc).
Defined.

Lemma generation_spares_cache_witness :
  ∃ h1 copy, Package_DeepCopy (VPtr cache.1) cache.2 = Ok (VPtr copy, h1) ∧
    match generateCustoms (λ _ _, None) (λ _ _, true) "app" copy h1 with
    | Ok (_, h2) => read h2 cache.1 = Some cached_value
    | _ => False
    end.
Proof.
  destruct (@generation_spares_cache _ _ _ demo_external_copies (λ _ _, None) (λ _ _, true) "app" cache.2 cache.1 cached_value
    cached_read cached_typed) as (h1 & copy & Hrun & Hgen).
  exists h1, copy. split; [exact Hrun|]. assert ((VPtr copy, h1) = reconciled) as Heq by (unfold reconciled; rewrite Hrun; reflexivity).
  assert (copy = package_ref) as -> by (unfold package_ref; rewrite <-Heq; reflexivity).
  assert (h1 = reconciled.2) as -> by (rewrite <-Heq; reflexivity).
  rewrite (proj1 stamping_writes_into_the_package) in *. exact (proj1 (proj2 Hgen)).
Defined.
