(* ===== verification/RouteDecode.v ===== *)
(** * routes.go, first part: decoding and validating routes *)

From S2P Require Import Prelude GoStrings Json K8s ApiTypes External Names Metadata ShorthandValues.
From S2P Require Import NetpolCommon.
Local Open Scope string_scope.
Local Open Scope list_scope.

(** ** Small helpers of routes.go *)

Definition hasWildcardHost (hosts : list string) : bool := existsb (λ h, Contains h "*") hosts.

Definition inboundWorkloadPort (r : InboundRoute) : option IntOrString :=
  match Inbound_ContainerPort r with Some p => Some p | None => Inbound_Port r end.

Definition parseLocation (s : string) : ServiceEntry_Location :=
  if String.eqb (ToUpper s) "MESH_INTERNAL" then MESH_INTERNAL else MESH_EXTERNAL.

Definition parseResolution (s : string) : ServiceEntry_Resolution :=
  let u := ToUpper s in
  if String.eqb u "STATIC" then Resolution_STATIC
  else if String.eqb u "DNS_ROUND_ROBIN" then Resolution_DNS_ROUND_ROBIN
  else if String.eqb u "NONE" then Resolution_NONE
  else Resolution_DNS.

Definition serviceLeaf (s : string) : string :=
  let i := Index s "." in
  if (0 <? i)%Z then str_take (Z.to_nat i) s else s.

Section RouteDecode.
Context `{Ext}.

Definition portNumber (p : option IntOrString) : Z :=
  match p with
  | None => 0%Z
  | Some p => if decide (ios_Type p = IntType) then uint32_wrap (IntValue p) else 0%Z
  end.

(** The namespace and name of a gateway reference; [None] is [ok = false]. *)
Definition splitGateway (s : string) : option (string * string) :=
  let i := Index s "/" in
  if (i <=? 0)%Z || (i =? Z.of_nat (len s) - 1)%Z then None
  else
    let ns := str_take (Z.to_nat i) s in
    let name := str_drop (Z.to_nat i + 1) s in
    if negb (length (IsDNS1123Label ns) =? 0)%nat || negb (length (IsDNS1123Subdomain name) =? 0)%nat then None
    else Some (ns, name).

(** ** Decoding *)

(** An element of [[]apiextensionsv1.JSON]: [null] leaves it without bytes. *)
Definition dec_JSON (j : json) : outcome JSON :=
  match j with JNull => Ok {| Raw := "" |} | _ => Ok {| Raw := json_print j |} end.

Definition dec_passthrough (j : json) : outcome RoutePassthrough :=
  ms ← struct_members j;
  enabled ← dec_val false dec_bool (field "enabled" ms);
  gatewayPort ← dec_ptr dec_int (field "gatewayPort" ms);
  Ok {| Passthrough_Enabled := enabled; Passthrough_GatewayPort := gatewayPort |}.

Definition dec_InboundRoute (j : json) : outcome InboundRoute :=
  ms ← struct_members j;
  enabled ← dec_val false dec_bool (field "enabled" ms);
  gateways ← dec_ptr dec_strings (field "gateways" ms);
  hosts ← dec_val [] dec_strings (field "hosts" ms);
  service ← dec_val "" dec_string (field "service" ms);
  port ← dec_ptr IntOrString_UnmarshalJSON (field "port" ms);
  containerPort ← dec_ptr IntOrString_UnmarshalJSON (field "containerPort" ms);
  selector ← dec_string_map (field "selector" ms);
  http ← dec_val [] (dec_slice dec_JSON) (field "http" ms);
  passthrough ← dec_ptr dec_passthrough (field "passthrough" ms);
  resolution ← dec_val "" dec_string (field "resolution" ms);
  labels ← dec_string_map (field "labels" ms);
  annotations ← dec_string_map (field "annotations" ms);
  Ok {| Inbound_Enabled := enabled; Inbound_Gateways := gateways; Inbound_Hosts := hosts;
        Inbound_Service := service; Inbound_Port := port; Inbound_ContainerPort := containerPort;
        Inbound_Selector := selector; Inbound_Http := http; Inbound_Passthrough := passthrough;
        Inbound_Resolution := resolution; Inbound_Labels := labels; Inbound_Annotations := annotations |}.

Definition dec_OutboundRoutePort (j : json) : outcome OutboundRoutePort :=
  ms ← struct_members j;
  number ← dec_val 0%Z dec_uint32 (field "number" ms);
  name ← dec_val "" dec_string (field "name" ms);
  protocol ← dec_val "" dec_string (field "protocol" ms);
  Ok {| OutPort_Number := number; OutPort_Name := name; OutPort_Protocol := protocol |}.

Definition dec_RouteMetadata (j : json) : outcome RouteMetadata :=
  ms ← struct_members j;
  labels ← dec_string_map (field "labels" ms);
  annotations ← dec_string_map (field "annotations" ms);
  Ok {| RouteMetadata_Labels := labels; RouteMetadata_Annotations := annotations |}.

Definition dec_OutboundRoute (j : json) : outcome OutboundRoute :=
  ms ← struct_members j;
  enabled ← dec_val false dec_bool (field "enabled" ms);
  hosts ← dec_val [] dec_strings (field "hosts" ms);
  location ← dec_val "" dec_string (field "location" ms);
  resolution ← dec_val "" dec_string (field "resolution" ms);
  ports ← dec_val [] (dec_slice dec_OutboundRoutePort) (field "ports" ms);
  metadata ← dec_ptr dec_RouteMetadata (field "metadata" ms);
  Ok {| Outbound_Enabled := enabled; Outbound_Hosts := hosts; Outbound_Location := location;
        Outbound_Resolution := resolution; Outbound_Ports := ports; Outbound_Metadata := metadata |}.

(** [json.Marshal] of the raw value, then [json.Unmarshal] into the struct. *)
Definition decodeInbound (j : JSON) : outcome InboundRoute := b ← raw_document j; dec_InboundRoute b.
Definition decodeOutbound (j : JSON) : outcome OutboundRoute := b ← raw_document j; dec_OutboundRoute b.

(** ** Validation: [None] is a nil error *)

Definition validateInbound (name : string) (r : InboundRoute) : option error :=
  let at_ msg := Some (Errorf ("routes.inbound." +:+ name +:+ ": " +:+ msg)) in
  let gateways := default [] (Inbound_Gateways r) in
  if (length gateways =? 0)%nat then at_ "gateways[] must be non-empty when enabled"
  else match find (λ gw, negb (bool_decide (is_Some (splitGateway gw)))) gateways with
  | Some gw => at_ ("gateway " +:+ Quote gw +:+ " must be <namespace>/<name>")
  | None =>
      if String.eqb (Inbound_Service r) "" then at_ "service is required when enabled"
      else match Inbound_Port r with
           | None => at_ "port is required when enabled"
           | Some _ => None
           end
  end.

Definition validateOutbound (name : string) (r : OutboundRoute) : option error :=
  if (length (Outbound_Hosts r) =? 0)%nat
  then Some (Errorf ("routes.outbound." +:+ name +:+ ": hosts[] must be non-empty when enabled"))
  else None.

(** ** Lemmas *)

Lemma dec_strings_returns j : returns (dec_strings j).
Proof. apply dec_slice_returns. intros v. apply dec_val_returns, dec_string_returns. Qed.
Lemma dec_uint32_returns j : returns (dec_uint32 j).
Proof. destruct j; try done. simpl. destruct (str_forall _ _); [|done]. destruct (digits_val 0 lit); [|done]. by case_match. Qed.
Lemma dec_JSON_returns j : returns (dec_JSON j).
Proof. by destruct j. Qed.
Hint Resolve dec_strings_returns dec_uint32_returns dec_JSON_returns : go.
Lemma dec_passthrough_returns j : returns (dec_passthrough j).
Proof. unfold dec_passthrough. returns_chain. Qed.
Lemma dec_OutboundRoutePort_returns j : returns (dec_OutboundRoutePort j).
Proof. unfold dec_OutboundRoutePort. returns_chain. Qed.
Lemma dec_RouteMetadata_returns j : returns (dec_RouteMetadata j).
Proof. unfold dec_RouteMetadata. returns_chain. Qed.
Hint Resolve dec_passthrough_returns dec_OutboundRoutePort_returns dec_RouteMetadata_returns : go.

Lemma decodeInbound_returns `{!ExtReturns} j : returns (decodeInbound j).
Proof.
  pose proof ret_IntOrString_UnmarshalJSON.
  apply bind_returns; [auto with go|]. intros b _. unfold dec_InboundRoute. returns_chain.
Qed.
Lemma decodeOutbound_returns j : returns (decodeOutbound j).
Proof. apply bind_returns; [auto with go|]. intros b _. unfold dec_OutboundRoute. returns_chain. Qed.

(** What a valid inbound route has. *)
Record valid_inbound (r : InboundRoute) : Prop := {
  vi_gateways : Forall (λ gw, is_Some (splitGateway gw)) (default [] (Inbound_Gateways r));
  vi_nonempty : default [] (Inbound_Gateways r) ≠ [];
  vi_service : Inbound_Service r ≠ "";
  vi_port : is_Some (Inbound_Port r)
}.

Lemma validateInbound_spec name r : validateInbound name r = None ↔ valid_inbound r.
Proof.
  unfold validateInbound. cbv zeta. destruct (default [] (Inbound_Gateways r)) as [|g gs] eqn:Eg.
  { split; [done|]. intros [_ Hne _ _]. by rewrite Eg in Hne. }
  cbn [length Nat.eqb]. destruct (find _ (g :: gs)) as [bad|] eqn:Hf.
  - split; [done|]. intros [Hg _ _ _]. rewrite Eg, Forall_forall in Hg.
    apply find_some in Hf as [Hin Hbad]. apply negb_true_iff, bool_decide_eq_false in Hbad.
    destruct Hbad. apply Hg. by apply list_elem_of_In.
  - assert (Forall (λ gw, is_Some (splitGateway gw)) (g :: gs)) as Hg.
    { apply Forall_forall. intros gw Hgw. apply list_elem_of_In in Hgw.
      pose proof (find_none _ _ Hf gw Hgw) as Hn. apply negb_false_iff, bool_decide_eq_true in Hn. done. }
    destruct (String.eqb_spec (Inbound_Service r) ""); [split; [done|]; by intros [_ _ ? _]|].
    destruct (Inbound_Port r) as [p|] eqn:Ep.
    + split; [|done]. intros _. split; rewrite ?Eg, ?Ep; [done|done|done|by eexists].
    + split; [done|]. intros [_ _ _ [? ?]]. congruence.
Qed.

Lemma str_split_at s i :
  (0 ≤ i)%Z → Index s "/" = i → s = str_take (Z.to_nat i) s +:+ String "/" (str_drop (Z.to_nat i + 1) s) ∧
    lacks "/" (str_take (Z.to_nat i) s).
Proof.
  revert i. induction s as [|c s IH]; intros i Hi; [cbn; lia|].
  cbn [Index HasPrefix]. destruct (Ascii.eqb_spec c "/") as [->|Hc].
  - rewrite andb_true_r. intros <-. by destruct s.
  - simpl. destruct (Z.ltb_spec (Index s "/") 0); [lia|]. intros <-.
    destruct (IH (Index s "/") ltac:(lia) eq_refl) as [E Hl].
    rewrite Z2Nat.inj_add by lia. change (Z.to_nat 1) with 1%nat. rewrite !(Nat.add_1_r (Z.to_nat _)).
    cbn [str_take str_drop]. split; [rewrite str_app_cons; cbn [Nat.add str_drop]; by f_equal|].
    apply lacks_cons; [done|done].
Qed.

(** [splitGateway] takes apart exactly what it would be put together from. *)
Lemma splitGateway_spec `{!DNSLaws} s ns name :
  splitGateway s = Some (ns, name) ↔
  s = ns +:+ String "/" name ∧ IsDNS1123Label ns = [] ∧ IsDNS1123Subdomain name = [].
Proof.
  unfold splitGateway. split.
  - destruct (Z.leb_spec (Index s "/") 0); [done|]. destruct (Z.eqb_spec (Index s "/") (Z.of_nat (len s) - 1)); [done|].
    simpl. destruct (Nat.eqb_spec (length (IsDNS1123Label (str_take (Z.to_nat (Index s "/")) s))) 0) as [E1|]; [|done].
    destruct (Nat.eqb_spec (length (IsDNS1123Subdomain (str_drop (Z.to_nat (Index s "/") + 1) s))) 0) as [E2|]; [|done].
    simpl. intros [= <- <-]. destruct (str_split_at s (Index s "/")) as [E _]; [lia|done|].
    split_and!; [done|by apply nil_length_inv|by apply nil_length_inv].
  - intros (-> & Hns & Hname).
    destruct (label_chars ns Hns) as [Hne Hchars]. destruct (subdomain_chars name Hname) as [Hne' _].
    change (String "/" name) with ("/" +:+ name).
    rewrite (Index_found ns "/" name "/" "") by (done || by apply (class_lacks is_dns_char)).
    assert (0 < len ns)%nat by (destruct ns; [done|unfold len; simpl; lia]).
    assert (0 < len name)%nat by (destruct name; [done|unfold len; simpl; lia]).
    rewrite !len_app. change (len "/") with 1%nat.
    destruct (Z.leb_spec (Z.of_nat (len ns)) 0); [lia|].
    destruct (Z.eqb_spec (Z.of_nat (len ns)) (Z.of_nat (len ns + (1 + len name)) - 1)); [lia|].
    rewrite Nat2Z.id, str_take_app. change 1 with (len "/"). rewrite str_drop_app_plus, Hns, Hname. done.
Qed.

Lemma portNumber_range p : (0 ≤ portNumber p < 4294967296)%Z.
Proof.
  unfold portNumber. destruct p as [p|]; [|lia]. destruct (decide _); [|lia].
  unfold uint32_wrap. apply Z.mod_pos_bound. lia.
Qed.

(** A gateway reference is taken apart into exactly the namespace and name
    it is put together from: [splitGateway] succeeds on the texts "ns/name" with
    a valid label and a valid subdomain, and on nothing else. *)
Theorem splitGateway_roundtrip `{!DNSLaws} s ns name :
  splitGateway s = Some (ns, name) ↔
  s = ns +:+ String "/" name ∧ IsDNS1123Label ns = [] ∧ IsDNS1123Subdomain name = [].
Proof. apply splitGateway_spec. Qed.
End RouteDecode.
#[export] Hint Resolve decodeInbound_returns decodeOutbound_returns : go.

Lemma splitGateway_roundtrip_witness : splitGateway "istio-gateway/public" = Some ("istio-gateway", "public").
Proof. apply splitGateway_roundtrip. split; [reflexivity|split; vm_compute; reflexivity]. Defined.

