(* ===== verification/IngressConfig.v ===== *)
(** * ingressconfig.go and globalconfig.go: shared configuration, and the
    inbound routes resolved against it *)

From S2P Require Import Prelude GoStrings Json K8s ApiTypes External Names Metadata ShorthandValues.
From S2P Require Import NetpolCommon RouteDecode.
Local Open Scope string_scope.
Local Open Scope list_scope.

Definition GlobalConfigEgressKey : string := "egressDefinitions".
Definition GlobalConfigIngressKey : string := "ingressDefinitions".

Record GatewayDefinition := { gd_PodSelector : option LabelSelector; gd_ServiceAccountName : string }.
Record IngressConfig := {
  ic_Routes : option RouteDefaults;                  (* Routes.Defaults *)
  ic_Gateways : gmap string GatewayDefinition
}.
Record resolvedGateway := { rg_namespace : string; rg_name : string; rg_definition : GatewayDefinition }.
Record resolvedInbound := { ri_name : string; ri_route : InboundRoute; ri_gateways : list resolvedGateway }.

(** The generator's input (generator.go). The scheme is what [ObjectKinds]
    answers for each Go type. *)
Record Input := {
  in_Package : option Package;
  in_Scheme : option (ObjectType → outcome (list GroupVersionKind));
  in_KubeAPIPorts : list IntOrString;
  in_SharedEgressDefinitions : gmap string NetworkPoliciesEgressDefinitionsValue;
  in_SharedIngressDefinitions : gmap string NetworkPoliciesIngressDefinitionsValue;
  in_SharedDefinitionsError : option error;
  in_SharedIngressConfig : option IngressConfig;
  in_SharedIngressConfigError : option error
}.

Definition defaultGateways (defaults : option RouteDefaults) : option (list string) :=
  d ← defaults; i ← RouteDefaults_Inbound d; InboundDefaults_Gateways i.

Definition set_Gateways (g : option (list string)) (r : InboundRoute) : InboundRoute :=
  {| Inbound_Enabled := Inbound_Enabled r; Inbound_Gateways := g; Inbound_Hosts := Inbound_Hosts r;
     Inbound_Service := Inbound_Service r; Inbound_Port := Inbound_Port r; Inbound_ContainerPort := Inbound_ContainerPort r;
     Inbound_Selector := Inbound_Selector r; Inbound_Http := Inbound_Http r; Inbound_Passthrough := Inbound_Passthrough r;
     Inbound_Resolution := Inbound_Resolution r; Inbound_Labels := Inbound_Labels r; Inbound_Annotations := Inbound_Annotations r |}.
Definition set_Selector (s : gomap string) (r : InboundRoute) : InboundRoute :=
  {| Inbound_Enabled := Inbound_Enabled r; Inbound_Gateways := Inbound_Gateways r; Inbound_Hosts := Inbound_Hosts r;
     Inbound_Service := Inbound_Service r; Inbound_Port := Inbound_Port r; Inbound_ContainerPort := Inbound_ContainerPort r;
     Inbound_Selector := s; Inbound_Http := Inbound_Http r; Inbound_Passthrough := Inbound_Passthrough r;
     Inbound_Resolution := Inbound_Resolution r; Inbound_Labels := Inbound_Labels r; Inbound_Annotations := Inbound_Annotations r |}.

Section IngressConfig.
Context `{Ext}.

(** ** globalconfig.go *)

Definition ParseSharedEgressDefinitions (data : string) : outcome (gomap NetworkPoliciesEgressDefinitionsValue) :=
  if String.eqb (TrimSpace data) "" then Ok None
  else wrap GlobalConfigEgressKey (UnmarshalStrict_egressDefinitions data).
Definition ParseSharedIngressDefinitions (data : string) : outcome (gomap NetworkPoliciesIngressDefinitionsValue) :=
  if String.eqb (TrimSpace data) "" then Ok None
  else wrap GlobalConfigIngressKey (UnmarshalStrict_ingressDefinitions data).

(** ** ingressconfig.go *)

(** The loop body over the configured gateways. *)
Definition checkGateway (ref : string) (def : GatewayDefinition) : outcome unit :=
  match splitGateway ref with
  | None => Err (Errorf ("gateways." +:+ ref +:+ ": reference must be <namespace>/<name>"))
  | Some _ =>
      match gd_PodSelector def with
      | None => Err (Errorf ("gateways." +:+ ref +:+ ": podSelector is required"))
      | Some sel =>
          _ ← wrap ("gateways." +:+ ref +:+ ".podSelector") (LabelSelectorAsSelector sel);
          let errs := IsDNS1123Subdomain (gd_ServiceAccountName def) in
          if (length errs =? 0)%nat then Ok tt
          else Err (Errorf ("gateways." +:+ ref +:+ ".serviceAccountName: " +:+ Join errs ", "))
      end
  end.

Definition ParseIngressConfig (routes gateways : string) : outcome IngressConfig :=
  routes ← wrap "routes" (UnmarshalStrict_routes routes);
  gateways ← wrap "gateways" (UnmarshalStrict_gateways gateways);
  let cfg := {| ic_Routes := routes;
                ic_Gateways := (λ '(sel, sa), {| gd_PodSelector := sel; gd_ServiceAccountName := sa |}) <$> gateways |} in
  _ ← for_sorted (ic_Gateways cfg) (λ ref def, _ ← checkGateway ref def; Ok ([] : list unit));
  Ok cfg.

(** The gateway a reference denotes: the configured one, or the conventional one. *)
Definition resolveGateway (cfg : option IngressConfig) (ref : string) : resolvedGateway :=
  let '(ns, gw) := default ("", "") (splitGateway ref) in
  let def := {| gd_PodSelector := Some {| MatchLabels := Some {["app.kubernetes.io/name" := gw]}; MatchExpressions := [] |};
                gd_ServiceAccountName := gw +:+ "-ingressgateway-service-account" |} in
  let def := match cfg with
             | Some c => match ic_Gateways c !! ref with Some configured => configured | None => def end
             | None => def
             end in
  {| rg_namespace := ns; rg_name := gw; rg_definition := def |}.

(** Route, then package, then global defaults; only nil falls through. *)
Definition effectiveGateways (spec : Routes) (cfg : option IngressConfig) (r : InboundRoute) : option (list string) :=
  match Inbound_Gateways r with
  | Some g => Some g
  | None =>
      match defaultGateways (Routes_Defaults spec) with
      | Some g => Some g
      | None => match cfg with Some c => defaultGateways (ic_Routes c) | None => None end
      end
  end.

(** The defaults filled in before validation. *)
Definition withDefaults (spec : Routes) (cfg : option IngressConfig) (name : string) (route : InboundRoute) : InboundRoute :=
  let route := set_Gateways (effectiveGateways spec cfg route) route in
  if (maplen (Inbound_Selector route) =? 0)%nat
  then set_Selector (Some {["app.kubernetes.io/name" := name]}) route else route.

(** The rest of the loop body: validate, then resolve every reference. *)
Definition finishInbound (cfg : option IngressConfig) (name : string) (route : InboundRoute) : outcome (list resolvedInbound) :=
  match validateInbound name route with
  | Some e => Err e
  | None => Ok [{| ri_name := name; ri_route := route;
                   ri_gateways := resolveGateway cfg <$> default [] (Inbound_Gateways route) |}]
  end.

(** The loop body of [resolveInboundRoutes]. *)
Definition resolveInbound (spec : Routes) (cfg : option IngressConfig) (cfgErr : option error)
    (name : string) (raw : JSON) : outcome (list resolvedInbound) :=
  route ← wrap ("routes.inbound." +:+ name) (decodeInbound raw);
  if negb (Inbound_Enabled route) then Ok []
  else match cfgErr with
  | Some e => Err (Wrapf ("routes.inbound." +:+ name +:+ ": global config unreadable") e)
  | None => finishInbound cfg name (withDefaults spec cfg name route)
  end.

Definition resolveInboundRoutes (inp : Input) : outcome (list resolvedInbound) :=
  match in_Package inp with
  | None => Panics
  | Some pkg =>
      match Spec_Routes (pkg_Spec pkg) with
      | None => Ok []
      | Some spec =>
          for_sorted (Routes_Inbound spec)
            (resolveInbound spec (in_SharedIngressConfig inp) (in_SharedIngressConfigError inp))
      end
  end.

(** ** Lemmas *)

Lemma checkGateway_Ok ref def :
  checkGateway ref def = Ok tt →
  is_Some (splitGateway ref) ∧ is_Some (gd_PodSelector def) ∧ IsDNS1123Subdomain (gd_ServiceAccountName def) = [].
Proof.
  unfold checkGateway. destruct (splitGateway ref); [|done]. destruct (gd_PodSelector def); [|done].
  intros (_ & _ & Hc)%bind_Ok. cbv zeta in Hc.
  destruct (Nat.eqb_spec (length (IsDNS1123Subdomain (gd_ServiceAccountName def))) 0); [|done].
  split_and!; [by eexists..|by apply nil_length_inv].
Qed.

(** Every gateway of a configuration is complete. *)
Definition complete_config (cfg : IngressConfig) : Prop :=
  map_Forall (λ ref def, is_Some (splitGateway ref) ∧ is_Some (gd_PodSelector def) ∧
                         IsDNS1123Subdomain (gd_ServiceAccountName def) = []) (ic_Gateways cfg).

Lemma ParseIngressConfig_complete routes gateways cfg :
  ParseIngressConfig routes gateways = Ok cfg → complete_config cfg.
Proof.
  unfold ParseIngressConfig. intros (r & _ & Hg)%bind_Ok. apply bind_Ok in Hg as (g & _ & Hcheck).
  apply bind_Ok in Hcheck as (u & Hcheck & Hcfg%(inj Ok)). subst cfg. intros ref def Hdef.
  destruct (for_sorted_body _ _ _ _ _ Hcheck Hdef) as [x Hx]. apply bind_Ok in Hx as ([] & Hx & _).
  by apply checkGateway_Ok.
Qed.

(** What every resolved route is. *)
Record resolved_ok (r : resolvedInbound) : Prop := {
  ro_enabled : Inbound_Enabled (ri_route r) = true;
  ro_valid : valid_inbound (ri_route r);
  ro_selector : contents (Inbound_Selector (ri_route r)) ≠ ∅;
  ro_gateways : Forall2 (λ ref g, splitGateway ref = Some (rg_namespace g, rg_name g))
                  (default [] (Inbound_Gateways (ri_route r))) (ri_gateways r)
}.

Lemma resolveGateway_split cfg ref :
  is_Some (splitGateway ref) →
  splitGateway ref = Some (rg_namespace (resolveGateway cfg ref), rg_name (resolveGateway cfg ref)).
Proof. intros [[ns gw] E]. unfold resolveGateway. by rewrite E. Qed.

Lemma resolveInbound_ok spec cfg cfgErr name raw out :
  resolveInbound spec cfg cfgErr name raw = Ok out → Forall resolved_ok out.
Proof.
  unfold resolveInbound. intros (route & _ & Hout)%bind_Ok. destruct (Inbound_Enabled route) eqn:He; simpl in Hout.
  2: { injection Hout as <-. constructor. }
  destruct cfgErr; [done|]. unfold finishInbound in Hout.
  destruct (validateInbound name (withDefaults spec cfg name route)) eqn:Hv; [done|].
  apply (inj Ok) in Hout as <-.
  apply validateInbound_spec in Hv. apply Forall_singleton. split; cbn [ri_route ri_gateways].
  - unfold withDefaults. cbv zeta. destruct (_ =? 0)%nat; exact He.
  - done.
  - unfold withDefaults. cbv zeta.
    destruct (Nat.eqb_spec (maplen (Inbound_Selector (set_Gateways (effectiveGateways spec cfg route) route))) 0) as [_|Hn].
    + simpl. apply map_non_empty_singleton.
    + intros Hem. by apply maplen_zero in Hem.
  - apply Forall2_fmap_r, Forall_Forall2_diag. eapply Forall_impl; [apply Hv|].
    intros ref. apply resolveGateway_split.
Qed.

Lemma resolveInboundRoutes_ok inp out : resolveInboundRoutes inp = Ok out → Forall resolved_ok out.
Proof.
  unfold resolveInboundRoutes. destruct (in_Package inp) as [pkg|]; [|done].
  destruct (Spec_Routes (pkg_Spec pkg)) as [spec|]; [|intros [= <-]; constructor].
  intros Hout. eapply for_sorted_Forall; [done|]. intros k v ys _. apply resolveInbound_ok.
Qed.

Lemma resolveInboundRoutes_returns `{!ExtReturns} inp : is_Some (in_Package inp) → returns (resolveInboundRoutes inp).
Proof.
  intros [pkg Hp]. unfold resolveInboundRoutes. rewrite Hp.
  destruct (Spec_Routes (pkg_Spec pkg)) as [spec|]; [|done].
  apply for_sorted_returns. intros name raw _. unfold resolveInbound.
  apply bind_returns; [apply wrap_returns; auto with go|]. intros route _. destruct (negb _); [done|].
  destruct (in_SharedIngressConfigError inp); [done|]. unfold finishInbound. by destruct (validateInbound _ _).
Qed.
End IngressConfig.

Section Properties.
Context `{Ext}.

(** Each gateway of a resolved route selects pods. *)
Definition gateways_select (r : resolvedInbound) : Prop :=
  Forall (λ g, is_Some (gd_PodSelector (rg_definition g))) (ri_gateways r).

Lemma resolveGateway_selects cfg ref :
  (∀ c, cfg = Some c → complete_config c) → is_Some (gd_PodSelector (rg_definition (resolveGateway cfg ref))).
Proof.
  intros Hcfg. unfold resolveGateway. destruct (default _ _) as [ns gw]. simpl.
  destruct cfg as [c|]; [|by eexists]. destruct (ic_Gateways c !! ref) as [def|] eqn:E; [|by eexists].
  by destruct (Hcfg c eq_refl ref def E) as (_ & ? & _).
Qed.

(** C24: What reaches the route builders is complete. With a shared
    configuration that the parser accepted (or none), every resolved inbound
    route is enabled, has a service, a port and a non-empty selector, and one
    gateway per reference; each gateway carries the namespace and name of its
    reference and a pod selector, so no generated rule opens a whole namespace. *)
Theorem resolveInboundRoutes_complete inp out
    (Hcfg : ∀ c, in_SharedIngressConfig inp = Some c → ∃ routes gateways, ParseIngressConfig routes gateways = Ok c)
    (Hout : resolveInboundRoutes inp = Ok out) :
  Forall (λ r, resolved_ok r ∧ gateways_select r) out.
Proof.
  unfold resolveInboundRoutes in Hout. destruct (in_Package inp) as [pkg|]; [|done].
  destruct (Spec_Routes (pkg_Spec pkg)) as [spec|]; [|injection Hout as <-; constructor].
  eapply for_sorted_Forall; [done|]. intros name raw ys _ Hys.
  pose proof (resolveInbound_ok _ _ _ _ _ _ Hys) as Hok. rewrite Forall_forall in Hok.
  apply Forall_forall. intros r Hr. split; [by apply Hok|].
  unfold resolveInbound in Hys. apply bind_Ok in Hys as (route & _ & Hys).
  destruct (negb _); [injection Hys as <-; by apply elem_of_nil in Hr|].
  destruct (in_SharedIngressConfigError inp); [done|]. unfold finishInbound in Hys.
  destruct (validateInbound _ _); [done|]. apply (inj Ok) in Hys as <-. apply list_elem_of_singleton in Hr as ->.
  unfold gateways_select; cbn [ri_gateways]. apply Forall_fmap, Forall_true. intros ref. simpl.
  apply resolveGateway_selects. intros c Hc. destruct (Hcfg c Hc) as (rs & gs & Hp). by eapply ParseIngressConfig_complete.
Qed.

Lemma withDefaults_gateways spec cfg name route :
  Inbound_Gateways (withDefaults spec cfg name route) = effectiveGateways spec cfg route.
Proof. unfold withDefaults. cbv zeta. by destruct (_ =? 0)%nat. Qed.

Lemma finishInbound_gateways cfg name route :
  match Inbound_Gateways route with
  | None | Some [] => is_Err (finishInbound cfg name route)
  | Some g => ∀ r, finishInbound cfg name route = Ok r →
      ∃ r', r = [r'] ∧ ri_name r' = name ∧ ri_gateways r' = resolveGateway cfg <$> g
  end.
Proof.
  unfold finishInbound, validateInbound.
  destruct (Inbound_Gateways route) as [[|g gs]|]; simpl; [by eexists| |by eexists].
  intros r. destruct (negb _); [done|]. destruct (find _ gs); [done|].
  destruct (String.eqb _ _); [done|]. destruct (Inbound_Port route); [|done].
  intros Hr%(inj Ok). subst r. eexists. split; [reflexivity|]. done.
Qed.

(** The gateways of an enabled route come from the route, else the package,
    else the global configuration; only an absent list falls through, so an
    explicitly empty list at any layer is an error even when a later layer has
    gateways; an unreadable configuration fails every enabled route and no
    disabled one. *)
Theorem resolveInbound_layers spec cfg cfgErr name raw route (Hdec : decodeInbound raw = Ok route) :
  (Inbound_Enabled route = false → resolveInbound spec cfg cfgErr name raw = Ok []) ∧
  (Inbound_Enabled route = true → is_Some cfgErr → is_Err (resolveInbound spec cfg cfgErr name raw)) ∧
  (Inbound_Enabled route = true →
   match Inbound_Gateways route, defaultGateways (Routes_Defaults spec), c ← cfg; defaultGateways (ic_Routes c) with
   | Some [], _, _ | None, Some [], _ | None, None, Some [] | None, None, None =>
       is_Err (resolveInbound spec cfg cfgErr name raw)
   | Some g, _, _ | None, Some g, _ | None, None, Some g =>
       ∀ r, resolveInbound spec cfg cfgErr name raw = Ok r →
         ∃ r', r = [r'] ∧ ri_name r' = name ∧ ri_gateways r' = resolveGateway cfg <$> g
   end).
Proof.
  unfold resolveInbound. rewrite Hdec. simpl.
  split; [by intros ->|]. split; [intros -> [e ->]; by eexists|]. intros ->. simpl.
  pose proof (finishInbound_gateways cfg name (withDefaults spec cfg name route)) as Hfin.
  rewrite withDefaults_gateways in Hfin. unfold effectiveGateways in Hfin.
  destruct (Inbound_Gateways route) as [[|]|];
    [|intros r Hr; destruct cfgErr; [done|by apply Hfin]|destruct (defaultGateways (Routes_Defaults spec)) as [[|]|];
      [|intros r Hr; destruct cfgErr; [done|by apply Hfin]|destruct cfg as [c|]; simpl;
        [destruct (defaultGateways (ic_Routes c)) as [[|]|]; [|intros r Hr; destruct cfgErr; [done|by apply Hfin]|]|]]];
    (destruct cfgErr; [by eexists|exact Hfin]).
Qed.
End Properties.

(** [web: {enabled: true, gateways: ["istio-gateway/public"], service: web, port: 80, hosts: ["w.example.com"]}] *)
Definition example_route : json :=
  JObj [("enabled", JBool true); ("gateways", JArr [JStr "istio-gateway/public"]);
        ("service", JStr "web"); ("port", JNum "80"); ("hosts", JArr [JStr "w.example.com"])].
Definition example_routes : Routes :=
  {| Routes_Defaults := None; Routes_Inbound := {["web" := demo_raw example_route]};
     Routes_Outbound := ∅; Routes_PrependReleaseName := false |}.
Definition example_input (spec : PackageSpec) : Input :=
  {| in_Package := Some (demo_package spec); in_Scheme := Some (λ _, Ok [noGVK]); in_KubeAPIPorts := [];
     in_SharedEgressDefinitions := ∅; in_SharedIngressDefinitions := ∅; in_SharedDefinitionsError := None;
     in_SharedIngressConfig := None; in_SharedIngressConfigError := None |}.
Definition example_routes_spec : PackageSpec :=
  {| Spec_Istio := None; Spec_NetworkPolicies := None; Spec_Routes := Some example_routes |}.
Definition example_resolved_routes : list resolvedInbound :=
  match resolveInboundRoutes (example_input example_routes_spec) with Ok l => l | _ => [] end.

Lemma resolveInboundRoutes_complete_witness :
  length example_resolved_routes = 1 ∧ Forall (λ r, resolved_ok r ∧ gateways_select r) example_resolved_routes.
Proof.
  split; [vm_compute; reflexivity|].
  apply (resolveInboundRoutes_complete (example_input example_routes_spec)).
  - intros c [=].
  - vm_compute. reflexivity.
Defined.

Definition example_decoded_route : InboundRoute :=
  match decodeInbound (demo_raw example_route) with Ok r => r | _ => {| Inbound_Enabled := false; Inbound_Gateways := None;
    Inbound_Hosts := []; Inbound_Service := ""; Inbound_Port := None; Inbound_ContainerPort := None; Inbound_Selector := None;
    Inbound_Http := []; Inbound_Passthrough := None; Inbound_Resolution := ""; Inbound_Labels := None; Inbound_Annotations := None |} end.
Lemma resolveInbound_layers_witness :
  is_Err (resolveInbound example_routes None (Some JsonError) "web" (demo_raw example_route)).
Proof.
  assert (decodeInbound (demo_raw example_route) = Ok example_decoded_route) as E by (vm_compute; reflexivity).
  apply (proj1 (proj2 (resolveInbound_layers example_routes None (Some JsonError) "web" (demo_raw example_route)
    example_decoded_route E))).
  - vm_compute. reflexivity.
  - eexists. reflexivity.
Defined.
