(* ===== verification/Routes.v ===== *)
(** * routes.go, second part: the resources of a route *)

From S2P Require Import Prelude GoStrings Json K8s ApiTypes External Names Metadata ShorthandValues.
From S2P Require Import NetpolCommon Definitions NetpolShorthand Istio RouteDecode IngressConfig.
Local Open Scope string_scope.
Local Open Scope list_scope.

Section Routes.
Context `{Ext}.

(** The loop over the raw HTTP routes; the error names the index. *)
Definition httpRoute (i : nat) (raw : JSON) : outcome HTTPRoute :=
  wrap ("http[" +:+ Itoa (Z.of_nat i) +:+ "]")
    (Unmarshal (λ doc, _ ← decode_HTTPRoute doc; Ok (HTTPRoute_decoded doc)) (Raw raw)).

Definition buildHTTPRoutes (r : InboundRoute) : outcome (list HTTPRoute) :=
  if (0 <? length (Inbound_Http r))%nat then traverse_i httpRoute (Inbound_Http r)
  else
    let dest := {| dest_Host := Inbound_Service r;
                   dest_Port := match inboundWorkloadPort r with
                                | Some p => Some (portNumber (Some p))
                                | None => None
                                end |} in
    Ok [HTTPRoute_route [dest]].

Definition buildVirtualService (pkg : Package) (prepend : bool) (name : string) (r : InboundRoute) : outcome Object :=
  let meta := newMeta (prependName prepend (pkg_Name pkg) name)
                (mergeMaps (Inbound_Labels r) None) (mergeMaps (Inbound_Annotations r) None) in
  let vs http tls := newObject meta (VirtualService
    {| vs_Hosts := Inbound_Hosts r; vs_Gateways := default [] (Inbound_Gateways r); vs_Http := http; vs_Tls := tls |}) in
  match Inbound_Passthrough r with
  | Some {| Passthrough_Enabled := true; Passthrough_GatewayPort := gatewayPort |} =>
      let gwPort := match gatewayPort with Some p => uint32_wrap p | None => 8443%Z end in
      let dest := {| dest_Host := Inbound_Service r;
                     dest_Port := match Inbound_Port r with Some p => Some (portNumber (Some p)) | None => None end |} in
      Ok (vs [] [{| tls_Match := [{| tls_Port := gwPort; tls_SniHosts := Inbound_Hosts r |}]; tls_Route := [dest] |}])
  | _ =>
      httpRoutes ← wrap ("routes.inbound." +:+ name +:+ ".http") (buildHTTPRoutes r);
      Ok (vs httpRoutes [])
  end.

Definition buildInboundServiceEntry (pkg : Package) (prepend : bool) (name : string) (r : InboundRoute) : Object :=
  let resolution :=
    if String.eqb (Inbound_Resolution r) "" && hasWildcardHost (Inbound_Hosts r) then "NONE" else Inbound_Resolution r in
  newObject
    (newMeta (prependName prepend (pkg_Name pkg) (name +:+ "-internal"))
       (mergeMaps (Inbound_Labels r) None) (mergeMaps (Inbound_Annotations r) None))
    (ServiceEntry (ServiceEntry_fields
       {| se_Hosts := Inbound_Hosts r; se_Location := MESH_EXTERNAL; se_Resolution := parseResolution resolution;
          se_Ports := [{| sp_Number := 443; sp_Name := "https"; sp_Protocol := "HTTPS" |}] |})).

(** One policy per gateway. *)
Definition inboundNetpol (pkg : Package) (prepend : bool) (r : InboundRoute) (gw : resolvedGateway) : Object :=
  let n := portNumber (inboundWorkloadPort r) in
  let name := "allow-ingress-to-" +:+ serviceLeaf (Inbound_Service r) +:+ "-" +:+ Itoa n +:+
    "-from-ns-" +:+ rg_namespace gw +:+ "-pod-" +:+ rg_name gw in
  newObject
    (newMeta (prependName prepend (pkg_Name pkg) name)
       (mergeMaps (Inbound_Labels r) (defaultNetpolLabels "ingress")) (mergeMaps (Inbound_Annotations r) None))
    (NetworkPolicy
       {| nps_PodSelector := {| MatchLabels := Inbound_Selector r; MatchExpressions := [] |};
          nps_PolicyTypes := [PolicyTypeIngress]; nps_Egress := [];
          nps_Ingress :=
            [{| ir_From := [{| peer_NamespaceSelector := Some (matchLabels "kubernetes.io/metadata.name" (rg_namespace gw));
                               peer_PodSelector := gd_PodSelector (rg_definition gw); peer_IPBlock := None |}];
                ir_Ports := [{| npp_Protocol := Some ProtocolTCP; npp_Port := Some (FromInt n); npp_EndPort := None |}] |}] |}).

Definition buildInboundNetpols (pkg : Package) (prepend : bool) (r : InboundRoute) (gateways : list resolvedGateway) : list Object :=
  inboundNetpol pkg prepend r <$> gateways.

Definition buildOutboundServiceEntry (pkg : Package) (prepend : bool) (name : string) (r : OutboundRoute) : Object :=
  let ports :=
    if (length (Outbound_Ports r) =? 0)%nat
    then [{| OutPort_Number := 443; OutPort_Name := "https"; OutPort_Protocol := "HTTPS" |}] else Outbound_Ports r in
  let sePorts := (λ p, {| sp_Number := OutPort_Number p; sp_Name := OutPort_Name p; sp_Protocol := OutPort_Protocol p |}) <$> ports in
  let '(labels, annotations) :=
    match Outbound_Metadata r with
    | Some m => (RouteMetadata_Labels m, RouteMetadata_Annotations m)
    | None => (None, None)
    end in
  let loc := parseLocation (Outbound_Location r) in
  let suffix := match loc with MESH_INTERNAL => "-internal" | MESH_EXTERNAL => "-external" end in
  newObject
    (newMeta (prependName prepend (pkg_Name pkg) (name +:+ suffix)) (mergeMaps labels None) (mergeMaps annotations None))
    (ServiceEntry (ServiceEntry_fields
       {| se_Hosts := Outbound_Hosts r; se_Location := loc; se_Resolution := parseResolution (Outbound_Resolution r);
          se_Ports := sePorts |})).

(** The two loop bodies of [generateRoutes]. *)
Definition inboundResources (pkg : Package) (prepend netpolsEnabled : bool) (resolved : resolvedInbound) : outcome (list Object) :=
  let name := ri_name resolved in
  let route := ri_route resolved in
  vs ← buildVirtualService pkg prepend name route;
  Ok ([vs; buildInboundServiceEntry pkg prepend name route] ++
      if netpolsEnabled : bool then buildInboundNetpols pkg prepend route (ri_gateways resolved) else []).
Definition outboundResources (pkg : Package) (prepend : bool) (name : string) (raw : JSON) : outcome (list Object) :=
  route ← wrap ("routes.outbound." +:+ name) (decodeOutbound raw);
  if negb (Outbound_Enabled route) then Ok []
  else match validateOutbound name route with
  | Some e => Err e
  | None => Ok [buildOutboundServiceEntry pkg prepend name route]
  end.

Definition netpolsEnabled (pkg : Package) : bool :=
  match Spec_NetworkPolicies (pkg_Spec pkg) with Some np => NP_Enabled np | None => false end.

Definition generateRoutes (pkg : Package) (spec : option Routes) (inbound : list resolvedInbound) : outcome (list Object) :=
  match spec with
  | None => Ok []
  | Some spec =>
      let prepend := Routes_PrependReleaseName spec in
      ins ← collect (inboundResources pkg prepend (netpolsEnabled pkg)) inbound;
      outs ← for_sorted (Routes_Outbound spec) (outboundResources pkg prepend);
      Ok (ins ++ outs)
  end.

(** ** Lemmas *)

Lemma buildHTTPRoutes_returns `{!ExtReturns} r : returns (buildHTTPRoutes r).
Proof.
  unfold buildHTTPRoutes. destruct (0 <? _)%nat; [|done]. apply traverse_from_returns. intros i raw.
  apply wrap_returns, Unmarshal_returns. intros j. apply bind_returns; [apply ret_HTTPRoute|done].
Qed.
Lemma buildVirtualService_returns `{!ExtReturns} pkg prepend name r : returns (buildVirtualService pkg prepend name r).
Proof.
  unfold buildVirtualService. cbv zeta.
  destruct (Inbound_Passthrough r) as [[[] gp]|]; try done;
    (apply bind_returns; [apply wrap_returns, buildHTTPRoutes_returns|done]).
Qed.
Lemma generateRoutes_returns `{!ExtReturns} pkg spec inbound : returns (generateRoutes pkg spec inbound).
Proof.
  destruct spec as [spec|]; [|done]. simpl. apply bind_returns.
  { apply collect_returns. intros r _. apply bind_returns; [apply buildVirtualService_returns|done]. }
  intros ins _. apply bind_returns; [|done]. apply for_sorted_returns. intros name raw _.
  apply bind_returns; [apply wrap_returns; auto with go|]. intros route _. destruct (negb _); [done|].
  by destruct (validateOutbound _ _).
Qed.

Definition route_object (o : Object) : Prop :=
  unplaced o ∧ type_of (o_Body o) ∈ [TVirtualService; TServiceEntry; TNetworkPolicy].

Lemma buildVirtualService_object pkg prepend name r o :
  buildVirtualService pkg prepend name r = Ok o → unplaced o ∧ type_of (o_Body o) = TVirtualService.
Proof.
  unfold buildVirtualService. cbv zeta.
  destruct (Inbound_Passthrough r) as [[[] gp]|]; try (by intros [= <-]);
    (intros (h & _ & Ho)%bind_Ok; by injection Ho as <-).
Qed.

Lemma generateRoutes_objects pkg spec inbound out :
  generateRoutes pkg spec inbound = Ok out → Forall route_object out.
Proof.
  destruct spec as [spec|]; [|intros [= <-]; constructor]. simpl.
  intros (ins & Hins & Hout)%bind_Ok. apply bind_Ok in Hout as (outs & Houts & Hout). injection Hout as <-.
  apply Forall_app. split.
  - eapply collect_Forall; [done|]. intros r ys _ Hys. apply bind_Ok in Hys as (vs & [Hu Ht]%buildVirtualService_object & Hys%(inj Ok)).
    subst ys. apply Forall_cons. split; [split; [done|rewrite Ht; set_solver]|].
    apply Forall_cons. split; [split; [done|simpl; set_solver]|].
    destruct (netpolsEnabled pkg); [|constructor]. apply Forall_fmap, Forall_true. intros gw.
    split; [done|simpl; set_solver].
  - eapply for_sorted_Forall; [done|]. intros name raw ys _ Hys. unfold outboundResources in Hys.
    apply bind_Ok in Hys as (route & _ & Hys). destruct (negb _); [injection Hys as <-; constructor|].
    destruct (validateOutbound _ _); [done|]. injection Hys as <-. apply Forall_singleton.
    unfold buildOutboundServiceEntry. destruct (Outbound_Metadata route); split; try done; simpl; set_solver.
Qed.

(** The objects of each loop that are NetworkPolicies. *)
Lemma inboundResources_netpols pkg prepend enabled r ys o :
  inboundResources pkg prepend enabled r = Ok ys →
  o ∈ ys ∧ type_of (o_Body o) = TNetworkPolicy ↔
  enabled = true ∧ ∃ gw, gw ∈ ri_gateways r ∧ o = inboundNetpol pkg prepend (ri_route r) gw.
Proof.
  unfold inboundResources. intros (vs & [_ Ht]%buildVirtualService_object & Hys%(inj Ok))%bind_Ok. subst ys.
  cbn [app]. rewrite !elem_of_cons. split.
  - intros [[->|[->|Ho]] Hb]; [congruence|done|].
    destruct enabled; [|by apply elem_of_nil in Ho]. split; [done|].
    apply list_elem_of_fmap in Ho as (gw & -> & Hgw). eauto.
  - intros [-> (gw & Hgw & ->)]. split; [|done]. do 2 right. by apply list_elem_of_fmap_2.
Qed.

Lemma outboundResources_netpols pkg prepend name raw ys o :
  outboundResources pkg prepend name raw = Ok ys → o ∈ ys → type_of (o_Body o) = TServiceEntry.
Proof.
  unfold outboundResources. intros (route & _ & Hys)%bind_Ok. destruct (negb _); [injection Hys as <-; by intros ?%elem_of_nil|].
  destruct (validateOutbound _ _); [done|]. injection Hys as <-. intros ->%list_elem_of_singleton.
  unfold buildOutboundServiceEntry. by destruct (Outbound_Metadata route).
Qed.

(** The NetworkPolicies among a package's route objects. *)
Lemma generateRoutes_netpols pkg spec inbound out o :
  generateRoutes pkg (Some spec) inbound = Ok out →
  o ∈ out ∧ type_of (o_Body o) = TNetworkPolicy ↔
  netpolsEnabled pkg = true ∧ ∃ r gw, r ∈ inbound ∧ gw ∈ ri_gateways r ∧
    o = inboundNetpol pkg (Routes_PrependReleaseName spec) (ri_route r) gw.
Proof.
  intros Hout. unfold generateRoutes in Hout. apply bind_Ok in Hout as (ins & Hins & Hout).
  apply bind_Ok in Hout as (outs & Houts & Hout%(inj Ok)). subst out. rewrite elem_of_app. split.
  - intros [[Ho|Ho] Hb].
    + apply (collect_elem_of _ _ _ _ Hins) in Ho as (r & ys & Hr & Hys & Ho).
      destruct (proj1 (inboundResources_netpols _ _ _ _ _ _ Hys) (conj Ho Hb)) as (He & gw & Hgw & ->). eauto 8.
    + apply (for_sorted_elem _ _ _ _ Houts) in Ho as (name & raw & ys & _ & Hys & Ho).
      pose proof (outboundResources_netpols _ _ _ _ _ _ Hys Ho). congruence.
  - intros [He (r & gw & Hr & Hgw & ->)]. split; [|done]. left. apply (collect_elem_of _ _ _ _ Hins).
    apply collect_Ok in Hins as (yss & Hall & _). apply list_elem_of_lookup in Hr as [i Hi].
    destruct (Forall2_lookup_l _ _ _ _ _ Hall Hi) as (ys & _ & Hys). exists r, ys. split_and!; [by eapply list_elem_of_lookup_2|done|].
    apply (inboundResources_netpols _ _ _ _ _ _ Hys). eauto.
Qed.

(** C23: Least privilege of inbound routes. The NetworkPolicies among a
    package's route objects are one per route and gateway, and only when network
    policies are enabled; each selects the route's pods and admits, from the
    gateway's pods in the gateway's namespace, TCP to the workload port and to no
    other port (a named port, which has no number, admits port 0 only). *)
Theorem generateRoutes_least_privilege `{!IntStrLaws} pkg spec inbound out
    (Hout : generateRoutes pkg (Some spec) inbound = Ok out) :
  (∀ o, o ∈ out ∧ type_of (o_Body o) = TNetworkPolicy ↔
     netpolsEnabled pkg = true ∧ ∃ r gw, r ∈ inbound ∧ gw ∈ ri_gateways r ∧
       o = inboundNetpol pkg (Routes_PrependReleaseName spec) (ri_route r) gw) ∧
  (∀ prepend r gw, (portNumber (inboundWorkloadPort r) < 2147483648)%Z →
     ∃ sp rule peer, o_Body (inboundNetpol pkg prepend r gw) = NetworkPolicy sp ∧
       nps_PodSelector sp = {| MatchLabels := Inbound_Selector r; MatchExpressions := [] |} ∧
       nps_PolicyTypes sp = ["Ingress"] ∧ nps_Ingress sp = [rule] ∧ ir_From rule = [peer] ∧
       peer_NamespaceSelector peer = Some (matchLabels "kubernetes.io/metadata.name" (rg_namespace gw)) ∧
       peer_PodSelector peer = gd_PodSelector (rg_definition gw) ∧
       ∀ proto q, ports_allow (ir_Ports rule) proto q ↔ proto = "TCP" ∧ q = portNumber (inboundWorkloadPort r)).
Proof.
  split.
  - intros o. by apply generateRoutes_netpols.
  - intros prepend r gw Hn. do 3 eexists. split_and!; [reflexivity..|]. intros proto q. unfold ports_allow. cbn [ir_Ports].
    pose proof (portNumber_range (inboundWorkloadPort r)) as Hr.
    rewrite FromInt_value by lia. split.
    + intros [?|(e & ->%list_elem_of_singleton & Hp & _ & Hq)]; [done|]. by simpl in *.
    + intros [-> ->]. right. eexists. split; [by left|]. done.
Qed.

(** A VirtualService routes either TLS or HTTP, never both: with
    passthrough on it has one TLS route matching the route's hosts on the gateway
    port (8443 unless given) and no HTTP route, whatever [http] holds; otherwise
    it has no TLS route and at least one HTTP route, as many as the author wrote
    or the default one; hosts and gateways are the route's. *)
Theorem buildVirtualService_exclusive pkg prepend name r o
    (Hvs : buildVirtualService pkg prepend name r = Ok o) :
  ∃ vs, o_Body o = VirtualService vs ∧ vs_Hosts vs = Inbound_Hosts r ∧
    vs_Gateways vs = default [] (Inbound_Gateways r) ∧
    match Inbound_Passthrough r with
    | Some {| Passthrough_Enabled := true; Passthrough_GatewayPort := gp |} =>
        vs_Http vs = [] ∧ ∃ t m, vs_Tls vs = [t] ∧ tls_Match t = [m] ∧ tls_SniHosts m = Inbound_Hosts r ∧
          tls_Port m = match gp with Some p => uint32_wrap p | None => 8443%Z end ∧
          dest_Host <$> tls_Route t = [Inbound_Service r]
    | _ => vs_Tls vs = [] ∧ length (vs_Http vs) = (if (0 <? length (Inbound_Http r))%nat then length (Inbound_Http r) else 1)
    end.
Proof.
  assert (∀ h, buildHTTPRoutes r = Ok h → length h = (if (0 <? length (Inbound_Http r))%nat then length (Inbound_Http r) else 1)) as Hlen.
  { unfold buildHTTPRoutes. intros h. destruct (0 <? length (Inbound_Http r))%nat; [|by intros [= <-]].
    unfold traverse_i. generalize 0. revert h. induction (Inbound_Http r) as [|x l IH]; intros h k; simpl; [by intros [= <-]|].
    intros (y & _ & Hh)%bind_Ok. apply bind_Ok in Hh as (ys & Hys & [= <-]). simpl. f_equal. by eapply IH. }
  unfold buildVirtualService in Hvs. cbv zeta in Hvs.
  destruct (Inbound_Passthrough r) as [[[] gp]|].
  - injection Hvs as <-. eexists. split_and!; [reflexivity..|]. do 2 eexists. split_and!; reflexivity.
  - apply bind_Ok in Hvs as (h & Hh%wrap_Ok%Hlen & Ho). injection Ho as <-. eexists. split_and!; [reflexivity..|done].
  - apply bind_Ok in Hvs as (h & Hh%wrap_Ok%Hlen & Ho). injection Ho as <-. eexists. split_and!; [reflexivity..|done].
Qed.
End Routes.

Definition example_netpol_routes : PackageSpec :=
  {| Spec_Istio := None; Spec_NetworkPolicies := Some example_np; Spec_Routes := Some example_routes |}.
Definition example_route_objects : list Object :=
  match generateRoutes (demo_package example_netpol_routes) (Some example_routes) example_resolved_routes with
  | Ok l => l | _ => [] end.

Lemma generateRoutes_least_privilege_witness :
  o_Name <$> example_route_objects = ["web"; "web-internal"; "allow-ingress-to-web-80-from-ns-istio-gateway-pod-public"] ∧
  ∀ o, o ∈ example_route_objects ∧ type_of (o_Body o) = TNetworkPolicy →
    netpolsEnabled (demo_package example_netpol_routes) = true.
Proof.
  split; [vm_compute; reflexivity|]. intros o Ho.
  assert (generateRoutes (demo_package example_netpol_routes) (Some example_routes) example_resolved_routes
    = Ok example_route_objects) as E by (vm_compute; reflexivity).
  exact (proj1 (proj1 (proj1 (generateRoutes_least_privilege (demo_package example_netpol_routes) example_routes
    example_resolved_routes example_route_objects E) o) Ho)).
Defined.

Lemma buildVirtualService_exclusive_witness :
  match buildVirtualService (demo_package demo_spec) false "web" example_decoded_route with
  | Ok o => ∃ vs, o_Body o = VirtualService vs ∧ vs_Tls vs = [] ∧ length (vs_Http vs) = 1
  | _ => False
  end.
Proof.
  destruct (buildVirtualService (demo_package demo_spec) false "web" example_decoded_route) as [o| | |] eqn:E;
    try (vm_compute in E; discriminate E).
  destruct (buildVirtualService_exclusive (demo_package demo_spec) false "web" example_decoded_route o E) as (vs & Hb & _ & _ & Hp).
  exists vs. split; [exact Hb|]. exact Hp.
Defined.
