(* ===== verification/Authz.v ===== *)
(** * authorizationpolicies.go: AuthorizationPolicies *)

From S2P Require Import Prelude GoStrings Json K8s ApiTypes External Names ShorthandKeys Metadata.
From S2P Require Import ShorthandValues NetpolCommon Definitions NetpolDefaults NetpolShorthand Istio.
From S2P Require Import RouteDecode IngressConfig.
Local Open Scope string_scope.
Local Open Scope list_scope.

(** ** Gates *)

Definition istioAuthz (istio : option Istio) : option IstioAuthorizationPolicies :=
  i ← istio; Istio_AuthorizationPolicies i.

Definition authzEnabled (istio : option Istio) : bool :=
  match istio with
  | None => false
  | Some i =>
      if (match Istio_Ambient i with Some a => Ambient_Enabled a | None => false end) then true
      else match Istio_AuthorizationPolicies i with Some ap => Authz_Enabled ap | None => false end
  end.

Definition generateFromNetpol (istio : option Istio) : bool :=
  match istioAuthz istio with
  | None => true
  | Some ap => match Authz_GenerateFromNetpol ap with None => true | Some b => b end
  end.

Definition authzDefaultsEnabled (istio : option Istio) : bool :=
  match istioAuthz istio with
  | None => true
  | Some ap => match Authz_Defaults ap with None => true | Some d => defaultEnabled (AuthzDefaults_Enabled d) end
  end.

Definition authzGate (get : AuthzDefaults → option EnabledSwitch) (istio : option Istio) : bool :=
  if negb (authzDefaultsEnabled istio) then false
  else match istioAuthz istio with
       | None => true
       | Some ap =>
           match Authz_Defaults ap with
           | None => true
           | Some d => match get d with None => true | Some s => defaultEnabled (Switch_Enabled s) end
           end
       end.
Definition authzAllowNothing : option Istio → bool := authzGate AuthzDefaults_DenyAll.
Definition authzAllowAllInNS : option Istio → bool := authzGate AuthzDefaults_AllowInNamespace.

(** ** Objects *)

Definition authzObject (meta : ObjectMeta) (selector : option (gomap string)) (rules : list Rule) : Object :=
  newObject meta (AuthorizationPolicy (AuthorizationPolicy_fields
    {| ap_Selector := selector; ap_Action := ALLOW; ap_Rules := rules |})).

Definition generateDefaultAuthzPolicies (pkg : Package) (istio : option Istio) (npSpec : option NetworkPolicies) : list Object :=
  if negb (authzEnabled istio) then []
  else if (match npSpec with Some np => negb (ingressSideEnabled np) | None => false end) then []
  else
    let prepend := match istio with Some i => Istio_PrependReleaseName i | None => false end in
    let named n := newMeta (prependName prepend (pkg_Name pkg) n) None None in
    (if authzAllowNothing istio
     then [newObject (named "default-authz-allow-nothing") (AuthorizationPolicy zeroAuthorizationPolicy)] else []) ++
    (if authzAllowAllInNS istio
     then [authzObject (named "default-authz-allow-all-in-ns") None
             [{| rule_From := [{| src_Principals := []; src_Namespaces := [pkg_Namespace pkg]; src_IpBlocks := [] |}];
                 rule_To := [] |}]] else []).

(** *** The ports of an operation

    [for p := a; p <= b; p++ { ports = append(ports, strconv.Itoa(p)) }], where
    [p++] wraps around. The fuel bounds the iterations looked at. *)
Fixpoint port_loop (fuel : nat) (p b : Z) : option (list string) :=
  match fuel with
  | 0 => None
  | S fuel => if (p <=? b)%Z then l ← port_loop fuel (int64_wrap (p + 1)) b; Some (Itoa p :: l) else Some []
  end.

(** The loop's result; one that is still running after as many iterations as
    there are numbers from [a] to [b], and one more, never stops. *)
Definition portRange (a b : Z) : outcome (list string) :=
  match port_loop (S (Z.to_nat (b - a + 1))) a b with Some l => Ok l | None => Diverges end.

Definition operationPorts (local : parsedLocalIngressKey) : outcome (list Operation) :=
  if (0 <? length (local_Ports local))%nat then
    ports ← match local_HasPortRange local, local_Ports local with
            | true, [a; b] => portRange a b
            | _, _ => Ok (Itoa <$> local_Ports local)
            end;
    Ok [{| op_Ports := ports |}]
  else Ok [].

Definition authzSelector (local : parsedLocalIngressKey) (srcEntry : shorthandSource) : gomap string :=
  if (0 <? maplen (ss_PodSelector srcEntry))%nat then ss_PodSelector srcEntry
  else Some {["app.kubernetes.io/name" := local_Pod local]}.

Definition apFromCIDR : string := "generated.authorization-policies.bigbang.dev/from-cidr".
Definition apCIDR : string := "generated.authorization-policies.bigbang.dev/cidr".
Definition apFromSpiffe : string := "generated.authorization-policies.bigbang.dev/from-spiffe".
Definition apIdentity : string := "generated.authorization-policies.bigbang.dev/identity".
Definition apFromNamespace : string := "generated.authorization-policies.bigbang.dev/from-namespace".
Definition apPod : string := "generated.authorization-policies.bigbang.dev/pod".

Definition buildAuthzFromCIDR (pkg : Package) (prepend : bool) (local : parsedLocalIngressKey)
    (srcEntry : shorthandSource) (cidrKey : string) (cidr : parsedCIDR) : outcome Object :=
  suffix ← protoPortsSuffix local;
  let name := "allow-ingress-to-" +:+ local_Pod local +:+ protoSuffix local +:+ suffix +:+
    cidrSegment "-from-" (cidr_CIDR cidr) in
  to ← operationPorts local;
  Ok (authzObject
        (newMeta (prependName prepend (pkg_Name pkg) name) None (Some (<[apCIDR := cidr_CIDR cidr]> {[apFromCIDR := cidrKey]})))
        (Some (authzSelector local srcEntry))
        [{| rule_From := [{| src_Principals := []; src_Namespaces := []; src_IpBlocks := [cidr_CIDR cidr] |}]; rule_To := to |}]).

(** The end of the name and the annotations, by what the remote key names. *)
Definition authzRemote (remoteKey : string) (remote : parsedK8sRemote) : string * gmap string string :=
  if negb (String.eqb (remote_Identity remote) "") then
    ("-from-ns-" +:+ remote_Namespace remote +:+ "-with-identity-" +:+ remote_Identity remote,
     <[apIdentity := remote_Identity remote]> {[apFromSpiffe := remoteKey]})
  else if String.eqb (remote_Namespace remote) "*" then
    ("-from-ns-any", {[apFromNamespace := remoteKey]})
  else
    ("-from-ns-" +:+ remote_Namespace remote,
     if negb (String.eqb (remote_Pod remote) "")
     then <[apPod := remote_Pod remote]> {[apFromNamespace := remoteKey]} else {[apFromNamespace := remoteKey]}).

Definition spiffe (ns sa : string) : string := "cluster.local/ns/" +:+ ns +:+ "/sa/" +:+ sa.

Definition authzSource (remote : parsedK8sRemote) : Source :=
  if negb (String.eqb (remote_Identity remote) "")
  then {| src_Principals := [spiffe (remote_Namespace remote) (remote_Identity remote)]; src_Namespaces := []; src_IpBlocks := [] |}
  else {| src_Principals := []; src_Namespaces := [remote_Namespace remote]; src_IpBlocks := [] |}.

Definition buildAuthzFromShorthand (pkg : Package) (prepend : bool) (local : parsedLocalIngressKey)
    (srcEntry : shorthandSource) (remoteKey : string) (remote : parsedK8sRemote) : outcome Object :=
  suffix ← namePortSuffix (local_Ports local) (local_HasPortRange local);
  let netpolName := "allow-ingress-to-" +:+ local_Pod local +:+ protoSuffix local +:+
    protoIfPorts (local_Protocol local) (local_Ports local) +:+ "-" +:+ suffix in
  let '(remoteName, annotations) := authzRemote remoteKey remote in
  to ← operationPorts local;
  Ok (authzObject
        (newMeta (prependName prepend (pkg_Name pkg) (netpolName +:+ remoteName)) None (Some annotations))
        (Some (authzSelector local srcEntry))
        [{| rule_From := [authzSource remote]; rule_To := to |}]).

(** The loop body over one destination. *)
Definition authzFromLocal (pkg : Package) (prepend : bool) (localKey : string) (rawLocal : JSON) : outcome (list Object) :=
  local ← wrap ("authz from ingress.to." +:+ localKey) (Unmarshal shorthandSource_UnmarshalJSON (Raw rawLocal));
  match ss_From local with
  | None => Ok []
  | Some from =>
      parsedLocal ← wrap "authz ingress.to" (parseIngressLocalKey localKey);
      k8s ← for_sorted (K8s from) (λ remoteKey target,
        if negb (st_Enabled target) then Ok [] else
        remote ← wrap ("authz ingress.to." +:+ localKey +:+ ".from.k8s") (parseIngressRemoteKey remoteKey);
        ap ← buildAuthzFromShorthand pkg prepend parsedLocal local remoteKey remote;
        Ok (emit ap (ss_Metadata local) (st_Metadata target)));
      cidr ← for_sorted (Cidr from) (λ cidrKey target,
        if negb (st_Enabled target) then Ok [] else
        cidr ← wrap ("authz ingress.to." +:+ localKey +:+ ".from.cidr") (parseIngressCIDRKey cidrKey);
        ap ← buildAuthzFromCIDR pkg prepend parsedLocal local cidrKey cidr;
        Ok (emit ap (ss_Metadata local) (st_Metadata target)));
      Ok (k8s ++ cidr)
  end.

Definition generateAuthzFromIngressShorthand (pkg : Package) (npSpec : option NetworkPolicies) (istio : option Istio)
    : outcome (list Object) :=
  if negb (authzEnabled istio) || negb (generateFromNetpol istio) then Ok []
  else match npSpec with
  | None => Ok []
  | Some np =>
      match NP_Ingress np with
      | None => Ok []
      | Some ingress => for_sorted (Ingress_To ingress) (authzFromLocal pkg (NP_PrependReleaseName np))
      end
  end.

(** *** Policies of routes *)

(** The namespaces each gateway name is used in. *)
Definition gatewayNamespaces (inbound : list resolvedInbound) : gmap string (gset string) :=
  foldl (λ m gw, <[rg_name gw := {[rg_namespace gw]} ∪ default ∅ (m !! rg_name gw)]> m) ∅
    (r ← inbound; ri_gateways r).

Section Authz.
Context `{Ext}.

Definition buildAuthzFromRoute (pkg : Package) (prepend : bool) (route : InboundRoute) (gw : resolvedGateway)
    (suffix : string) : Object :=
  let apName := prependName prepend (pkg_Name pkg) (serviceLeaf (Inbound_Service route) +:+ "-" +:+ suffix +:+ "-authz-policy") in
  let to := match inboundWorkloadPort route with
            | Some p => let n := portNumber (Some p) in
                        if negb (n =? 0)%Z then [{| op_Ports := [Itoa n] |}] else []
            | None => []
            end in
  authzObject (newMeta apName (mergeMaps (Inbound_Labels route) None) (mergeMaps (Inbound_Annotations route) None))
    (Some (Inbound_Selector route))
    [{| rule_From := [{| src_Principals := [spiffe (rg_namespace gw) (gd_ServiceAccountName (rg_definition gw))];
                         src_Namespaces := []; src_IpBlocks := [] |}];
        rule_To := to |}].

Definition routeSuffix (namespaces : gmap string (gset string)) (gw : resolvedGateway) : string :=
  if (1 <? size (default ∅ (namespaces !! rg_name gw)))%nat
  then rg_namespace gw +:+ "-" +:+ rg_name gw else rg_name gw.

Definition generateAuthzFromRoutes (pkg : Package) (routes : option Routes) (istio : option Istio)
    (inbound : list resolvedInbound) : list Object :=
  match routes with
  | None => []
  | Some routes =>
      if negb (authzEnabled istio) then []
      else
        let namespaces := gatewayNamespaces inbound in
        resolved ← inbound;
        gw ← ri_gateways resolved;
        [buildAuthzFromRoute pkg (Routes_PrependReleaseName routes) (ri_route resolved) gw (routeSuffix namespaces gw)]
  end.

(** *** Custom policies *)

Definition buildRawAuthzPolicy (name : string) (labels annotations : gomap string) (rawSpec : gmap string JSON) : outcome Object :=
  let meta := newMeta name labels annotations in
  if (size rawSpec =? 0)%nat then Ok (newObject meta (AuthorizationPolicy zeroAuthorizationPolicy))
  else
    b ← Marshal_raw_map rawSpec;
    _ ← decode_AuthorizationPolicy b;
    Ok (newObject meta (AuthorizationPolicy (AuthorizationPolicy_decoded b))).

(** [json.Marshal] of the typed spec: members absent when nil or empty. *)
Definition additional_document (spec : AuthzAdditionalSpec) : outcome json :=
  rules ← traverse (λ m, match m with Some m => Marshal_raw_map m | None => Ok JNull end) (AuthzAdditionalSpec_Rules spec);
  selector ← (if (size (AuthzAdditionalSpec_Selector spec) =? 0)%nat then Ok []
              else j ← Marshal_raw_map (AuthzAdditionalSpec_Selector spec); Ok [("selector", j)]);
  Ok (JObj (match AuthzAdditionalSpec_Action spec with Some a => [("action", JStr a)] | None => [] end ++
            (if (length rules =? 0)%nat then [] else [("rules", JArr rules)]) ++ selector)).

Definition buildAdditionalAuthzPolicy (name : string) (labels annotations : gomap string) (spec : AuthzAdditionalSpec) : outcome Object :=
  b ← additional_document spec;
  _ ← decode_AuthorizationPolicy b;
  Ok (newObject (newMeta name labels annotations) (AuthorizationPolicy (AuthorizationPolicy_decoded b))).

Definition customAuthz (i : nat) (elem : AuthzCustomElem) : outcome Object :=
  let name := AuthzCustom_Name elem in
  if String.eqb name "" then Err (Errorf (customAt i +:+ ": name is required"))
  else wrap (customAt i +:+ " " +:+ Quote name)
         (buildRawAuthzPolicy name (AuthzCustom_Labels elem) (AuthzCustom_Annotations elem) (AuthzCustom_Spec elem)).

Definition additionalAuthz (key : string) (elem : AuthzAdditionalPolicy) : outcome (list Object) :=
  if negb (AuthzAdditional_Enabled elem) then Ok []
  else
    let name := match AuthzAdditional_Name elem with
                | Some n => if negb (String.eqb n "") then n else key
                | None => key
                end in
    ap ← wrap ("additionalPolicies." +:+ key)
           (buildAdditionalAuthzPolicy name (AuthzAdditional_Labels elem) (AuthzAdditional_Annotations elem) (AuthzAdditional_Spec elem));
    Ok [ap].

Definition generateCustomAuthzPolicies (istio : option Istio) : outcome (list Object) :=
  match istio with
  | None => Ok []
  | Some i =>
      if negb (Istio_Enabled i) then Ok []
      else match Istio_AuthorizationPolicies i with
      | None => Ok []
      | Some apSpec =>
          custom ← traverse_i customAuthz (Authz_Custom apSpec);
          additional ← for_sorted (Authz_AdditionalPolicies apSpec) additionalAuthz;
          Ok (custom ++ additional)
      end
  end.
End Authz.

(** ** The port loop *)

Lemma port_loop_spec fuel a b :
  (MinInt64 ≤ a)%Z → (b < MaxInt64)%Z → (Z.to_nat (b - a + 1) < fuel)%nat →
  port_loop fuel a b = Some (Itoa <$> seqZ a (b - a + 1)).
Proof.
  revert a. induction fuel as [|fuel IH]; intros a Ha Hb Hf; [lia|]. simpl.
  destruct (Z.leb_spec a b) as [Hab|Hab].
  - rewrite int64_wrap_id by lia. rewrite IH by lia. rewrite (seqZ_cons a) by lia.
    replace (b - (a + 1) + 1)%Z with (Z.pred (b - a + 1)) by lia. by rewrite <-Z.add_1_r.
  - by rewrite seqZ_nil by lia.
Qed.

Lemma portRange_Ok a b :
  (MinInt64 ≤ a)%Z → (b < MaxInt64)%Z → portRange a b = Ok (Itoa <$> seqZ a (b - a + 1)).
Proof. intros Ha Hb. unfold portRange. by rewrite port_loop_spec by lia. Qed.

(** A range up to the largest [int] runs for ever: the counter wraps around
    instead of passing its bound. *)
Lemma port_loop_forever fuel a : (MinInt64 ≤ a ≤ MaxInt64)%Z → port_loop fuel a MaxInt64 = None.
Proof.
  revert a. induction fuel as [|fuel IH]; intros a Ha; [done|]. simpl.
  destruct (Z.leb_spec a MaxInt64); [|lia]. rewrite IH; [done|].
  unfold int64_wrap, MinInt64, MaxInt64.
  pose proof (Z.mod_pos_bound (a + 1 + 9223372036854775808) 18446744073709551616 ltac:(lia)). lia.
Qed.

Lemma operationPorts_returns local :
  Forall (λ p, 0 ≤ p < MaxInt64)%Z (local_Ports local) → is_Ok (operationPorts local).
Proof.
  intros Hp. unfold operationPorts. destruct (0 <? length (local_Ports local))%nat; [|by eexists].
  destruct (local_HasPortRange local); [|by eexists].
  destruct (local_Ports local) as [|a [|b [|]]]; try by eexists.
  inversion Hp as [|? ? Ha Hp']; inversion Hp' as [|? ? Hb _]; subst.
  rewrite portRange_Ok by (unfold MinInt64; lia). by eexists.
Qed.

(** C36: The port loop of an AuthorizationPolicy. For a range that ends below the
    largest [int] it stops and lists exactly the ports from the first to the last,
    in order (none when the range is inverted); for a range that ends at the
    largest [int], which the key grammar accepts, it never stops, however long it
    runs. *)
Theorem port_loop_termination a b (Ha : (MinInt64 ≤ a ≤ MaxInt64)%Z) (Hb : (MinInt64 ≤ b ≤ MaxInt64)%Z) :
  ((b < MaxInt64)%Z → portRange a b = Ok (Itoa <$> seqZ a (b - a + 1))) ∧
  (b = MaxInt64 → portRange a b = Diverges ∧ ∀ fuel, port_loop fuel a b = None).
Proof.
  split; [intros; apply portRange_Ok; lia|]. intros ->. split; [|intros fuel; by apply port_loop_forever].
  unfold portRange. by rewrite port_loop_forever.
Qed.

Lemma port_loop_termination_witness :
  (∃ pl, parseIngressLocalKey "web:1-9223372036854775807" = Ok pl ∧ local_Ports pl = [1; MaxInt64]%Z) ∧
  portRange 1 MaxInt64 = Diverges.
Proof.
  split; [eexists; split; vm_compute; reflexivity|].
  apply (port_loop_termination 1 MaxInt64); [unfold MinInt64, MaxInt64; lia..|reflexivity].
Defined.

Lemma Itoa_elem p l : (0 ≤ p)%Z → Forall (λ q, 0 ≤ q)%Z l → Itoa p ∈ (Itoa <$> l) ↔ p ∈ l.
Proof.
  intros Hp Hl. rewrite list_elem_of_fmap. split; [|intros Hin; by exists p].
  intros (q & E & Hq). rewrite Forall_forall in Hl. by rewrite (Itoa_inj_nonneg p q Hp (Hl q Hq) E).
Qed.

(** A range whose expansion returned does not end at the largest [int]. *)
Lemma portRange_returned a b l :
  in_int64_nonneg a → in_int64_nonneg b → portRange a b = Ok l → l = Itoa <$> seqZ a (b - a + 1).
Proof.
  unfold in_int64_nonneg. intros Ha Hb Hl. assert (b ≠ MaxInt64) as Hne.
  { intros ->. unfold portRange in Hl. rewrite port_loop_forever in Hl by (unfold MinInt64; lia). done. }
  rewrite portRange_Ok in Hl by (unfold MinInt64; lia). by injection Hl.
Qed.

(** The ports of the operation are those of the key. *)
Lemma operationPorts_allow local to p
    (Hsound : ports_sound (local_Protocol local) (local_Ports local) (local_HasPortRange local)) (Hp : (0 ≤ p)%Z)
    (Hto : operationPorts local = Ok to) :
  (to = [] ∨ ∃ op, op ∈ to ∧ Itoa p ∈ op_Ports op) ↔
  spec_allows (local_Protocol local) (local_Ports local) (local_HasPortRange local) (local_Protocol local) p.
Proof.
  destruct Hsound as (_ & Hports & Hr). unfold spec_allows, operationPorts in *.
  destruct (local_Ports local) as [|a ports] eqn:Eports; [injection Hto as <-; by split; left|].
  cbn [length Nat.ltb] in Hto. change (0 <? S (length ports))%nat with true in Hto. cbv iota in Hto.
  apply bind_Ok in Hto as (l & Hl & Hto). injection Hto as <-.
  assert ((∃ op, op ∈ [{| op_Ports := l |}] ∧ Itoa p ∈ op_Ports op) ↔ Itoa p ∈ l) as Hop.
  { split; [by intros (op & ->%list_elem_of_singleton & ?)|]. intros Hin. eexists. split; [by left|done]. }
  assert (Forall (λ q, 0 ≤ q)%Z (a :: ports)) as Hnn by (apply (Forall_impl _ _ _ Hports); by intros q [? _]).
  assert (∀ A B C D : Prop, ¬ A → ¬ C → (B ↔ D) → (A ∨ B) ↔ (C ∨ D)) as Hor by tauto.
  apply Hor; [done|done|]. rewrite Hop. destruct (local_HasPortRange local).
  - destruct ports as [|b [|]]; [by specialize (Hr eq_refl)| |by specialize (Hr eq_refl)].
    inversion Hports as [|? ? Ha Hports']; inversion Hports' as [|? ? Hb _]; subst.
    apply portRange_returned in Hl as ->; [|done..]. unfold in_int64_nonneg in *.
    rewrite Itoa_elem; [|done|].
    + rewrite elem_of_seqZ. split; [intros; split; [done|lia]|intros [_ ?]; lia].
    + apply Forall_forall. intros q Hq%elem_of_seqZ. lia.
  - assert (l = Itoa <$> a :: ports) as -> by (destruct ports as [|b [|]]; by injection Hl as <-).
    rewrite Itoa_elem by done. split; [by split|by intros [_ ?]].
Qed.

Definition example_local : parsedLocalIngressKey :=
  {| local_Pod := "web"; local_Protocol := "TCP"; local_Ports := [8080; 8082]%Z; local_HasPortRange := true |}.

(** The two policies of an ingress entry agree. For a parsed destination key
    whose ports fit 32 bits, the operation of the AuthorizationPolicy admits a
    port exactly when the ports of the NetworkPolicy do, though one lists a
    range port by port and the other keeps its ends; neither restricts ports
    when the key has none. *)
Theorem authz_ports_agree `{Ext} `{!IntStrLaws} key local to p
    (Hkey : parseIngressLocalKey key = Ok local) (Hfit : Forall (λ q, q < 2147483648)%Z (local_Ports local))
    (Hp : (0 ≤ p)%Z) (Hto : operationPorts local = Ok to) :
  (to = [] ∨ ∃ op, op ∈ to ∧ Itoa p ∈ op_Ports op) ↔
  ports_allow (buildNetpolPorts (local_Protocol local) (local_Ports local) (local_HasPortRange local)) (local_Protocol local) p.
Proof.
  apply parseIngressLocalKey_sound in Hkey. rewrite buildNetpolPorts_allow by done.
  by apply operationPorts_allow.
Qed.

Lemma authz_ports_agree_witness :
  ∃ local, parseIngressLocalKey "web:8080-8082" = Ok local ∧
    operationPorts local = Ok [{| op_Ports := ["8080"; "8081"; "8082"] |}] ∧
    (([{| op_Ports := ["8080"; "8081"; "8082"] |}] = [] ∨
      ∃ op, op ∈ [{| op_Ports := ["8080"; "8081"; "8082"] |}] ∧ Itoa 8081 ∈ op_Ports op) ↔
     ports_allow (buildNetpolPorts (local_Protocol local) (local_Ports local) (local_HasPortRange local)) (local_Protocol local) 8081).
Proof.
  eexists. split; [vm_compute; reflexivity|]. split; [vm_compute; reflexivity|].
  eapply (authz_ports_agree "web:8080-8082").
  - vm_compute. reflexivity.
  - repeat constructor.
  - lia.
  - vm_compute. reflexivity.
Defined.

(** ** The generators: lemmas *)

Definition authz_object (o : Object) : Prop := unplaced o ∧ type_of (o_Body o) = TAuthorizationPolicy.

(** An ALLOW policy for some workloads whose one rule names its source. *)
Definition names_source (s : Source) : Prop :=
  src_Principals s ≠ [] ∨ src_Namespaces s ≠ [] ∨ src_IpBlocks s ≠ [].
Definition restricted (o : Object) : Prop :=
  ∃ sel src to, o_Body o = AuthorizationPolicy (AuthorizationPolicy_fields
    {| ap_Selector := Some sel; ap_Action := ALLOW; ap_Rules := [{| rule_From := [src]; rule_To := to |}] |}) ∧
  contents sel ≠ ∅ ∧ names_source src.

Lemma authzSelector_nonempty local src : contents (authzSelector local src) ≠ ∅.
Proof.
  unfold authzSelector. destruct (0 <? maplen (ss_PodSelector src))%nat eqn:E.
  - intros Hem. apply maplen_pos in Hem. congruence.
  - simpl. apply map_non_empty_singleton.
Qed.

Lemma authzSource_names remote : names_source (authzSource remote).
Proof. unfold names_source, authzSource. destruct (negb _); simpl; auto. Qed.

(** A policy of the shorthand pass. *)
Definition shorthand_authz (o : Object) : Prop := authz_object o ∧ restricted o.

Lemma shorthand_authz_apply o meta : shorthand_authz o → shorthand_authz (applyShorthandMetadata o meta).
Proof.
  intros [[Hu Ht] (sel & src & to & Hb & Hs)]. destruct (apply_frame o meta) as (_ & En & Eb & _).
  split; [split; [by unfold unplaced; rewrite En|by rewrite Eb]|]. exists sel, src, to. by rewrite Eb.
Qed.

Lemma buildAuthzFromCIDR_authz pkg prepend local src ck c o :
  buildAuthzFromCIDR pkg prepend local src ck c = Ok o → shorthand_authz o.
Proof.
  unfold buildAuthzFromCIDR. intros (suffix & _ & Ho)%bind_Ok. apply bind_Ok in Ho as (to & _ & Ho%(inj Ok)). subst o.
  split; [done|]. do 3 eexists. split; [reflexivity|]. split; [apply authzSelector_nonempty|]. by right; right.
Qed.
Lemma buildAuthzFromShorthand_authz pkg prepend local src rk remote o :
  buildAuthzFromShorthand pkg prepend local src rk remote = Ok o → shorthand_authz o.
Proof.
  unfold buildAuthzFromShorthand. intros (suffix & _ & Ho)%bind_Ok. cbv zeta in Ho.
  destruct (authzRemote rk remote) as [n ann]. apply bind_Ok in Ho as (to & _ & Ho%(inj Ok)). subst o.
  split; [done|]. do 3 eexists. split; [reflexivity|]. split; [apply authzSelector_nonempty|apply authzSource_names].
Qed.

Lemma generateAuthzFromIngressShorthand_authz pkg np istio out :
  generateAuthzFromIngressShorthand pkg np istio = Ok out → Forall shorthand_authz out.
Proof.
  unfold generateAuthzFromIngressShorthand. destruct (_ || _); [intros [= <-]; constructor|].
  destruct np as [np|]; [|intros [= <-]; constructor]. destruct (NP_Ingress np) as [ing|]; [|intros [= <-]; constructor].
  intros Hout. eapply for_sorted_Forall; [done|]. clear Hout. intros localKey raw ys _ Hys.
  unfold authzFromLocal in Hys. bind_inv; [|constructor].
  apply Forall_app. split; (eapply entries_policies; [eassumption| |apply shorthand_authz_apply]);
    intros key v zs Hzs; cbv beta in Hzs; bind_inv; first [by left|right; do 3 eexists; split; [reflexivity|]];
    by eauto using buildAuthzFromCIDR_authz, buildAuthzFromShorthand_authz.
Qed.

(** No destination key has a range that ends at the largest [int]. *)
Definition ranges_bounded (np : NetworkPolicies) : Prop :=
  ∀ ing localKey pl, NP_Ingress np = Some ing → is_Some (Ingress_To ing !! localKey) →
    parseIngressLocalKey localKey = Ok pl → Forall (λ p, p < MaxInt64)%Z (local_Ports pl).

Lemma generateAuthzFromIngressShorthand_returns pkg np istio :
  (∀ n, np = Some n → ranges_bounded n) → returns (generateAuthzFromIngressShorthand pkg np istio).
Proof.
  intros Hb. unfold generateAuthzFromIngressShorthand. destruct (_ || _); [done|].
  destruct np as [np|]; [|done]. destruct (NP_Ingress np) as [ing|] eqn:Hing; [|done].
  apply for_sorted_returns. intros localKey raw Hraw. unfold authzFromLocal.
  apply bind_returns; [apply wrap_returns; auto with go|]. intros local _. destruct (ss_From local) as [from|]; [|done].
  apply bind_returns; [apply wrap_returns; auto with go|]. intros pl Hpl%wrap_Ok.
  pose proof (Hb np eq_refl ing localKey pl Hing ltac:(by eexists) Hpl) as Hmax.
  destruct (parseIngressLocalKey_sound _ _ Hpl) as (_ & Hports & Hr).
  destruct (operationPorts_returns pl) as [to Hto].
  { rewrite Forall_forall in Hports, Hmax |- *. intros p Hp. specialize (Hports p Hp). specialize (Hmax p Hp).
    unfold in_int64_nonneg in Hports. lia. }
  destruct (namePortSuffix_returns _ _ Hr) as [suffix Hsuffix].
  apply bind_returns; [apply for_sorted_returns|intros ? _].
  { intros key t _. destruct (negb _); [done|]. apply bind_returns; [apply wrap_returns; auto with go|]. intros remote _.
    unfold buildAuthzFromShorthand. rewrite Hsuffix. simpl. destruct (authzRemote key remote). by rewrite Hto. }
  apply bind_returns; [apply for_sorted_returns|done].
  intros key t _. destruct (negb _); [done|]. apply bind_returns; [apply wrap_returns; auto with go|]. intros c _.
  apply bind_returns; [|done]. unfold buildAuthzFromCIDR.
  apply bind_returns; [by apply protoPortsSuffix_returns|]. intros s _. by rewrite Hto.
Qed.

Lemma generateDefaultAuthzPolicies_objects pkg istio np : Forall authz_object (generateDefaultAuthzPolicies pkg istio np).
Proof.
  unfold generateDefaultAuthzPolicies. destruct (negb (authzEnabled istio)); [constructor|].
  destruct (match np with Some _ => _ | None => _ end); [constructor|]. cbv zeta. apply Forall_app.
  split; case_match; repeat constructor.
Qed.

Section AuthzLemmas.
Context `{Ext}.

Lemma routes_authz_elem pkg routes istio inbound o :
  o ∈ generateAuthzFromRoutes pkg routes istio inbound ↔
  ∃ rs r gw, routes = Some rs ∧ authzEnabled istio = true ∧ r ∈ inbound ∧ gw ∈ ri_gateways r ∧
    o = buildAuthzFromRoute pkg (Routes_PrependReleaseName rs) (ri_route r) gw (routeSuffix (gatewayNamespaces inbound) gw).
Proof.
  unfold generateAuthzFromRoutes. destruct routes as [rs|]; [|rewrite elem_of_nil; naive_solver].
  destruct (authzEnabled istio) eqn:He; simpl; [|rewrite elem_of_nil; naive_solver].
  rewrite list_elem_of_bind. setoid_rewrite list_elem_of_bind. setoid_rewrite list_elem_of_singleton. naive_solver.
Qed.

Lemma generateAuthzFromRoutes_objects pkg routes istio inbound :
  Forall authz_object (generateAuthzFromRoutes pkg routes istio inbound).
Proof. apply Forall_forall. by intros o (rs & r & gw & _ & _ & _ & _ & ->)%routes_authz_elem. Qed.

Lemma buildRawAuthzPolicy_object name labels ann raw o : buildRawAuthzPolicy name labels ann raw = Ok o → authz_object o.
Proof.
  unfold buildRawAuthzPolicy. cbv zeta. destruct (_ =? 0)%nat; [by intros [= <-]|].
  intros (b & _ & Ho)%bind_Ok. apply bind_Ok in Ho as (u & _ & [= <-]). done.
Qed.

Lemma generateCustomAuthzPolicies_objects istio out :
  generateCustomAuthzPolicies istio = Ok out → Forall authz_object out.
Proof.
  unfold generateCustomAuthzPolicies. destruct istio as [i|]; [|intros [= <-]; constructor].
  destruct (negb _); [intros [= <-]; constructor|]. destruct (Istio_AuthorizationPolicies i) as [ap|]; [|intros [= <-]; constructor].
  intros (cs & Hcs & Hout)%bind_Ok. apply bind_Ok in Hout as (as_ & Has & [= <-]). apply Forall_app. split.
  - eapply traverse_from_Forall; [done|]. intros k e o. unfold customAuthz. cbv zeta.
    destruct (String.eqb _ _); [done|]. by intros Ho%wrap_Ok%buildRawAuthzPolicy_object.
  - eapply for_sorted_Forall; [done|]. intros key e ys _. unfold additionalAuthz. cbv zeta.
    destruct (negb _); [intros [= <-]; constructor|].
    intros (o & Ho%wrap_Ok & Hys)%bind_Ok. injection Hys as <-. apply Forall_singleton.
    unfold buildAdditionalAuthzPolicy in Ho. apply bind_Ok in Ho as (b & _ & Ho). apply bind_Ok in Ho as (u & _ & [= <-]). done.
Qed.

Lemma additional_document_returns spec : returns (additional_document spec).
Proof.
  unfold additional_document. apply bind_returns.
  { apply traverse_returns. intros [m|] _; [auto with go|done]. }
  intros rules _. apply bind_returns; [|done]. destruct (_ =? 0)%nat; [done|]. apply bind_returns; [auto with go|done].
Qed.

Lemma generateCustomAuthzPolicies_returns `{!ExtReturns} istio : returns (generateCustomAuthzPolicies istio).
Proof.
  unfold generateCustomAuthzPolicies. destruct istio as [i|]; [|done]. destruct (negb _); [done|].
  destruct (Istio_AuthorizationPolicies i) as [ap|]; [|done]. apply bind_returns.
  - apply traverse_from_returns. intros k e. unfold customAuthz. cbv zeta. destruct (String.eqb _ _); [done|].
    apply wrap_returns. unfold buildRawAuthzPolicy. cbv zeta. destruct (_ =? 0)%nat; [done|].
    apply bind_returns; [auto with go|]. intros b _. apply bind_returns; [apply ret_AuthorizationPolicy|done].
  - intros cs _. apply bind_returns; [|done]. apply for_sorted_returns. intros key e _. unfold additionalAuthz. cbv zeta.
    destruct (negb _); [done|]. apply bind_returns; [|done]. apply wrap_returns. unfold buildAdditionalAuthzPolicy.
    apply bind_returns; [apply additional_document_returns|]. intros b _.
    apply bind_returns; [apply ret_AuthorizationPolicy|done].
Qed.
End AuthzLemmas.

(** ** Names of route policies *)

Lemma gatewayNamespaces_elem_gen (gws : list resolvedGateway) (m : gmap string (gset string)) (n ns : string) :
  ns ∈ default (∅ : gset string)
         (foldl (λ (m : gmap string (gset string)) (gw : resolvedGateway),
                   <[rg_name gw := {[rg_namespace gw]} ∪ default (∅ : gset string) (m !! rg_name gw)]> m) m gws !! n) ↔
  ns ∈ default (∅ : gset string) (m !! n) ∨ ∃ gw, gw ∈ gws ∧ rg_name gw = n ∧ rg_namespace gw = ns.
Proof.
  revert m. induction gws as [|g gws IH]; intros m; simpl; [set_solver|].
  rewrite IH. clear IH. destruct (decide (rg_name g = n)) as [<-|Hn].
  - rewrite lookup_insert_eq. simpl. rewrite elem_of_union, elem_of_singleton. split.
    + intros [[->|?]|(gw & ? & ?)]; [right; exists g; split; [by left|done]|by left|right; exists gw; split; [by right|done]].
    + intros [?|(gw & [->|?]%elem_of_cons & ? & ?)]; [by left; right|by left; left|right; eauto].
  - rewrite lookup_insert_ne by done. split.
    + intros [?|(gw & ? & ?)]; [by left|right; exists gw; split; [by right|done]].
    + intros [?|(gw & [->|?]%elem_of_cons & ? & ?)]; [by left|done|right; eauto].
Qed.

Lemma gatewayNamespaces_elem inbound n ns :
  ns ∈ default ∅ (gatewayNamespaces inbound !! n) ↔
  ∃ r gw, r ∈ inbound ∧ gw ∈ ri_gateways r ∧ rg_name gw = n ∧ rg_namespace gw = ns.
Proof.
  unfold gatewayNamespaces. rewrite gatewayNamespaces_elem_gen, lookup_empty. simpl. split.
  - intros [?%elem_of_empty|(gw & (r & Hgw & Hr)%list_elem_of_bind & ? & ?)]; [done|]. by exists r, gw.
  - intros (r & gw & Hr & Hgw & ? & ?). right. exists gw. split; [|done]. apply list_elem_of_bind. eauto.
Qed.

(** Gateways that share a name are told apart. Among the gateways of the
    inbound routes, two of the same name but different namespaces get different
    suffixes, so their policies get different names; a name used in one
    namespace only keeps its plain suffix. *)
Theorem routeSuffix_distinguishes inbound r1 r2 g1 g2
    (H1 : r1 ∈ inbound ∧ g1 ∈ ri_gateways r1) (H2 : r2 ∈ inbound ∧ g2 ∈ ri_gateways r2)
    (Hname : rg_name g1 = rg_name g2) :
  (routeSuffix (gatewayNamespaces inbound) g1 = routeSuffix (gatewayNamespaces inbound) g2 →
     rg_namespace g1 = rg_namespace g2) ∧
  ((∀ r g, r ∈ inbound → g ∈ ri_gateways r → rg_name g = rg_name g1 → rg_namespace g = rg_namespace g1) →
     routeSuffix (gatewayNamespaces inbound) g1 = rg_name g1).
Proof.
  assert (rg_namespace g1 ∈ default ∅ (gatewayNamespaces inbound !! rg_name g1)) as Hin1.
  { apply gatewayNamespaces_elem. destruct H1. eauto 6. }
  assert (rg_namespace g2 ∈ default ∅ (gatewayNamespaces inbound !! rg_name g1)) as Hin2.
  { apply gatewayNamespaces_elem. destruct H2. eauto 6. }
  unfold routeSuffix. rewrite <-Hname. split.
  - destruct (Nat.ltb_spec 1 (size (default ∅ (gatewayNamespaces inbound !! rg_name g1)))) as [_|Hs].
    + rewrite !str_app_assoc. intros E%str_app_inj_r. by apply str_app_inj_r in E.
    + intros _. assert (size (default ∅ (gatewayNamespaces inbound !! rg_name g1)) = 1) as Hs1.
      { destruct (size _) eqn:Hz; [|lia]. apply size_empty_inv in Hz. set_solver. }
      apply size_1_elem_of in Hs1 as [x Hx]. rewrite Hx in Hin1, Hin2. set_solver.
  - intros Hone. destruct (Nat.ltb_spec 1 (size (default ∅ (gatewayNamespaces inbound !! rg_name g1)))) as [Hs|]; [|done].
    assert (default ∅ (gatewayNamespaces inbound !! rg_name g1) ⊆ {[rg_namespace g1]}) as Hsub.
    { intros ns (r & g & Hr & Hg & Hn & <-)%gatewayNamespaces_elem. apply elem_of_singleton. by eapply Hone. }
    apply subseteq_size in Hsub. rewrite size_singleton in Hsub. lia.
Qed.

Definition example_gateway (ns name : string) : resolvedGateway :=
  {| rg_namespace := ns; rg_name := name;
     rg_definition := {| gd_PodSelector := Some emptySelector; gd_ServiceAccountName := "sa" |} |}.
Definition example_resolved (gws : list resolvedGateway) : resolvedInbound :=
  {| ri_name := "web"; ri_route := example_decoded_route; ri_gateways := gws |}.
Definition example_inbound (gws : list resolvedGateway) : list resolvedInbound := [example_resolved gws].

Lemma routeSuffix_distinguishes_witness :
  let inbound := example_inbound [example_gateway "a" "gw"; example_gateway "b" "gw"] in
  routeSuffix (gatewayNamespaces inbound) (example_gateway "a" "gw") = "a-gw" ∧
  (routeSuffix (gatewayNamespaces inbound) (example_gateway "a" "gw") =
   routeSuffix (gatewayNamespaces inbound) (example_gateway "b" "gw") → "a" = "b").
Proof.
  split; [vm_compute; reflexivity|].
  refine (proj1 (routeSuffix_distinguishes (example_inbound [example_gateway "a" "gw"; example_gateway "b" "gw"])
    (example_resolved [example_gateway "a" "gw"; example_gateway "b" "gw"])
    (example_resolved [example_gateway "a" "gw"; example_gateway "b" "gw"])
    (example_gateway "a" "gw") (example_gateway "b" "gw") _ _ _)).
  - split; left.
  - split; [left|right; left].
  - reflexivity.
Defined.

(** Names of AuthorizationPolicies do not determine them. The shorthand name
    of a rule from every namespace is that of a rule from a namespace called
    "any", with a different rule; the name of a route's policy leaves out the
    port, so two routes to one service through one gateway share a name, with
    different rules; and a gateway name qualified by its namespace can be another
    gateway's plain name. Whichever object is applied last replaces the other. *)
Theorem authz_names_collide :
  let src := {| ss_PodSelector := None; ss_Metadata := None; ss_To := None; ss_From := None |} in
  let pkg := demo_package demo_spec in
  (∃ r1 r2 o1 o2, parseIngressRemoteKey "*" = Ok r1 ∧ parseIngressRemoteKey "any" = Ok r2 ∧
     buildAuthzFromShorthand pkg false example_local src "*" r1 = Ok o1 ∧
     buildAuthzFromShorthand pkg false example_local src "any" r2 = Ok o2 ∧
     o_Name o1 = o_Name o2 ∧ o_Body o1 ≠ o_Body o2) ∧
  (∃ route1 route2 gw, Inbound_Service route1 = Inbound_Service route2 ∧
     let ap r := buildAuthzFromRoute pkg false r gw (rg_name gw) in
     o_Name (ap route1) = o_Name (ap route2) ∧ o_Body (ap route1) ≠ o_Body (ap route2)) ∧
  (let inbound := example_inbound [example_gateway "a" "gw"; example_gateway "b" "gw"; example_gateway "c" "a-gw"] in
   routeSuffix (gatewayNamespaces inbound) (example_gateway "a" "gw") =
   routeSuffix (gatewayNamespaces inbound) (example_gateway "c" "a-gw")).
Proof.
  cbv zeta. split_and!.
  - set (build := λ k r, buildAuthzFromShorthand (demo_package demo_spec) false example_local
      {| ss_PodSelector := None; ss_Metadata := None; ss_To := None; ss_From := None |} k r).
    set (d := newObject (newMeta "" None None) (NetworkPolicy emptyNetworkPolicySpec)).
    set (r0 := {| remote_Namespace := ""; remote_Pod := ""; remote_Identity := ""; remote_Protocol := ""; remote_Ports := []; remote_HasPortRange := false |}).
    set (r1 := ok_value r0 (parseIngressRemoteKey "*")). set (r2 := ok_value r0 (parseIngressRemoteKey "any")).
    exists r1, r2, (ok_value d (build "*" r1)), (ok_value d (build "any" r2)).
    split_and!; [apply ok_by_compute; vm_compute; reflexivity..|vm_compute; reflexivity|].
    intros E. apply (f_equal (λ b, match b with
      | AuthorizationPolicy (AuthorizationPolicy_fields {| ap_Rules := [{| rule_From := [s] |}] |}) => src_Namespaces s
      | _ => []
      end)) in E.
    vm_compute in E. discriminate E.
  - exists example_decoded_route,
      {| Inbound_Enabled := true; Inbound_Gateways := Some ["istio-gateway/public"]; Inbound_Hosts := ["w.example.com"];
         Inbound_Service := "web"; Inbound_Port := Some (FromInt 81); Inbound_ContainerPort := None;
         Inbound_Selector := None; Inbound_Http := []; Inbound_Passthrough := None; Inbound_Resolution := "";
         Inbound_Labels := None; Inbound_Annotations := None |}, (example_gateway "istio-gateway" "public").
    split_and!; [vm_compute; reflexivity..|vm_compute; discriminate].
  - vm_compute. reflexivity.
Qed.

Section AuthzProperties.
Context `{Ext}.

(** The documentation says that ambient mode forces the generation from the
    shorthand on; a setting that switches it off is respected there too, so the
    policies are on and the shorthand makes none. *)
Lemma ambient_not_forced pkg np istio ambient ap :
  Istio_Ambient istio = Some ambient → Ambient_Enabled ambient = true →
  Istio_AuthorizationPolicies istio = Some ap → Authz_GenerateFromNetpol ap = Some false →
  authzEnabled (Some istio) = true ∧ generateAuthzFromIngressShorthand pkg np (Some istio) = Ok [].
Proof.
  intros Ha Hon Hap Hoff. unfold authzEnabled, generateAuthzFromIngressShorthand, generateFromNetpol, istioAuthz.
  cbn [mbind option_bind]. rewrite Ha, Hon, Hap, Hoff. split; [done|]. by rewrite orb_true_r.
Qed.
End AuthzProperties.

(** Ambient mode switches the policies on, with every gate at its default. *)
Definition example_ambient : Istio :=
  {| Istio_Ambient := Some {| Ambient_Enabled := true |}; Istio_AuthorizationPolicies := None; Istio_Enabled := false;
     Istio_Mtls := None; Istio_PrependReleaseName := false; Istio_ServiceEntries := None; Istio_Sidecar := None |}.
(** [to: {"web:8080-8082": {from: {k8s: {"sa@ns": true}}}}] *)
Definition example_ingress_np : NetworkPolicies :=
  {| NP_Additional := []; NP_AdditionalPolicies := []; NP_DefaultsAsHooks := None; NP_Egress := None;
     NP_Enabled := true; NP_HbonePortInjection := None;
     NP_Ingress := Some {| Ingress_Defaults := None; Ingress_Definitions := ∅;
       Ingress_To := {["web:8080-8082" := demo_raw (JObj [("from", JObj [("k8s", JObj [("sa@ns", JBool true)])])])]} |};
     NP_PrependReleaseName := false |}.
Definition example_shorthand_authz : list Object :=
  match generateAuthzFromIngressShorthand (demo_package demo_spec) (Some example_ingress_np) (Some example_ambient) with
  | Ok l => l | _ => [] end.
