(* ===== verification/AuthzFlows.v ===== *)
(** * What the generated authorization policies allow

    A semantics of Istio's AuthorizationPolicies, after the Istio API
    documentation: which workloads a policy selects, which requests its rules
    match, and how the ALLOW policies of a workload decide.  Against it the
    generated policies are a refinement of the spec: they admit exactly the
    requests that the ingress entries, the routes and the defaults ask for. *)

From S2P Require Import Prelude GoStrings Json K8s ApiTypes External Names ShorthandKeys Metadata.
From S2P Require Import ShorthandValues NetCIDR NetpolCommon Definitions NetpolDefaults NetpolShorthand NetpolFlows.
From S2P Require Import RouteDecode IngressConfig Authz.
Local Open Scope string_scope.
Local Open Scope list_scope.

(** ** The semantics of a policy *)

(** The caller's certificate: its trust domain, namespace and service account. *)
Record workload := { w_TrustDomain : string; w_Namespace : string; w_ServiceAccount : string }.
(** A request to a workload; without mutual TLS it has no peer. *)
Record request := { rq_Peer : option workload; rq_IP : list Z; rq_Port : Z }.

Definition principal (w : workload) : string :=
  w_TrustDomain w +:+ "/ns/" +:+ w_Namespace w +:+ "/sa/" +:+ w_ServiceAccount w.

(** Presence, suffix, prefix and exact match; a star elsewhere is a character. *)
Definition value_matches (pat v : string) : bool :=
  if String.eqb pat "*" then negb (String.eqb v "")
  else if HasPrefix pat "*" then HasPrefix (str_rev v) (str_rev (str_drop 1 pat))
  else if HasPrefix (str_rev pat) "*" then HasPrefix v (str_take (len pat - 1) pat)
  else String.eqb v pat.

(** A field that lists nothing does not restrict; all fields have to match. *)
Definition any_of {A} (l : list A) (P : A → Prop) : Prop := l = [] ∨ ∃ x, x ∈ l ∧ P x.
Definition source_matches (s : Source) (rq : request) : Prop :=
  any_of (src_Principals s) (λ pat, ∃ w, rq_Peer rq = Some w ∧ value_matches pat (principal w) = true) ∧
  any_of (src_Namespaces s) (λ pat, ∃ w, rq_Peer rq = Some w ∧ value_matches pat (w_Namespace w) = true) ∧
  any_of (src_IpBlocks s) (λ b, in_cidr b (rq_IP rq)).
Definition operation_matches (op : Operation) (rq : request) : Prop := Itoa (rq_Port rq) ∈ op_Ports op.
Definition rule_matches (r : Rule) (rq : request) : Prop :=
  any_of (rule_From r) (λ s, source_matches s rq) ∧ any_of (rule_To r) (λ op, operation_matches op rq).

(** A policy without a selector applies to all workloads of the namespace. *)
Definition applies (ap : AuthorizationPolicyFields) (pod : gmap string string) : Prop :=
  match ap_Selector ap with None => True | Some sel => contents sel ⊆ pod end.
Definition policy_of (o : Object) (ap : AuthorizationPolicyFields) : Prop :=
  o_Body o = AuthorizationPolicy (AuthorizationPolicy_fields ap).
Definition admits (pod : gmap string string) (rq : request) (o : Object) : Prop :=
  ∃ ap r, policy_of o ap ∧ ap_Action ap = ALLOW ∧ applies ap pod ∧ r ∈ ap_Rules ap ∧ rule_matches r rq.

(** A workload that no ALLOW policy selects admits everything; one that some
    select admits what one of them does. *)
Definition mesh_admits (aps : list Object) (pod : gmap string string) (rq : request) : Prop :=
  (∀ o ap, o ∈ aps → policy_of o ap → ¬ applies ap pod) ∨ ∃ o, o ∈ aps ∧ admits pod rq o.

(** Names as the API server accepts them. *)
Definition plain (s : string) : Prop := s ≠ "" ∧ lacks "/" s ∧ lacks "*" s.
Definition workload_ok (w : workload) : Prop :=
  plain (w_TrustDomain w) ∧ plain (w_Namespace w) ∧ plain (w_ServiceAccount w).
Definition request_ok (rq : request) : Prop := (0 ≤ rq_Port rq)%Z ∧ ∀ w, rq_Peer rq = Some w → workload_ok w.

(** ** What the spec asks for *)

(** The caller an ingress [k8s] key names: a service account of a namespace, or
    everything in a namespace, or in any. *)
Definition peer_wanted (remote : parsedK8sRemote) (rq : request) : Prop :=
  ∃ w, rq_Peer rq = Some w ∧
    if String.eqb (remote_Identity remote) ""
    then remote_Namespace remote = "*" ∨ w_Namespace w = remote_Namespace remote
    else w = {| w_TrustDomain := "cluster.local"; w_Namespace := remote_Namespace remote;
                w_ServiceAccount := remote_Identity remote |}.

(** The ports of a destination key; the protocol is not looked at. *)
Definition port_wanted (pl : parsedLocalIngressKey) (rq : request) : Prop :=
  spec_allows (local_Protocol pl) (local_Ports pl) (local_HasPortRange pl) (local_Protocol pl) (rq_Port rq).

Definition k8s_authz_wanted (pl : parsedLocalIngressKey) (rq : request) (key : string) (target : shorthandTarget) : Prop :=
  ∃ remote, parseIngressRemoteKey key = Ok remote ∧ peer_wanted remote rq ∧ port_wanted pl rq.
Definition cidr_authz_wanted (pl : parsedLocalIngressKey) (rq : request) (key : string) (target : shorthandTarget) : Prop :=
  ∃ cidr, parseIngressCIDRKey key = Ok cidr ∧ in_cidr (cidr_CIDR cidr) (rq_IP rq) ∧ port_wanted pl rq.

(** An enabled [k8s] or [cidr] entry of a destination that names the pod. *)
Definition shorthand_wanted (ingress : NetworkPoliciesIngress) (pod : gmap string string) (rq : request) : Prop :=
  ∃ localKey raw local from pl, Ingress_To ingress !! localKey = Some raw ∧
    Unmarshal shorthandSource_UnmarshalJSON (Raw raw) = Ok local ∧ ss_From local = Some from ∧
    parseIngressLocalKey localKey = Ok pl ∧ dest_wanted pl local pod ∧
    (some_entry (K8s from) st_Enabled (k8s_authz_wanted pl rq) ∨ some_entry (Cidr from) st_Enabled (cidr_authz_wanted pl rq)).

(** A gateway of an inbound route, under its own service account, on the port
    of the workload where the route has a numeric one. *)
Definition route_wanted `{Ext} (inbound : list resolvedInbound) (pod : gmap string string) (rq : request) : Prop :=
  ∃ r gw, r ∈ inbound ∧ gw ∈ ri_gateways r ∧ contents (Inbound_Selector (ri_route r)) ⊆ pod ∧
    rq_Peer rq = Some {| w_TrustDomain := "cluster.local"; w_Namespace := rg_namespace gw;
                         w_ServiceAccount := gd_ServiceAccountName (rg_definition gw) |} ∧
    (portNumber (inboundWorkloadPort (ri_route r)) = 0%Z ∨ rq_Port rq = portNumber (inboundWorkloadPort (ri_route r))).

Definition namespace_wanted (pkg : Package) (rq : request) : Prop :=
  ∃ w, rq_Peer rq = Some w ∧ w_Namespace w = pkg_Namespace pkg.

(** ** Matching names *)

Lemma split_at_first c a b x y :
  lacks c a → lacks c b → a +:+ String c x = b +:+ String c y → a = b ∧ x = y.
Proof.
  revert b. induction a as [|d a IH]; intros [|e b]; rewrite ?str_app_nil, ?str_app_cons; cbn [str_forall].
  - by intros _ _ [= ->].
  - intros _ [He _]%andb_true_iff [= <- _]. by rewrite Ascii.eqb_refl in He.
  - intros [Hd _]%andb_true_iff _ [= -> _]. by rewrite Ascii.eqb_refl in Hd.
  - intros [_ Ha]%andb_true_iff [_ Hb]%andb_true_iff [= <- E]. destruct (IH b Ha Hb E) as [-> ->]. done.
Qed.

Lemma principal_spiffe w ns sa :
  workload_ok w → lacks "/" ns → lacks "/" sa →
  principal w = spiffe ns sa ↔ w = {| w_TrustDomain := "cluster.local"; w_Namespace := ns; w_ServiceAccount := sa |}.
Proof.
  intros ((_ & Htd & _) & (_ & Hns & _) & (_ & Hsa & _)) Hns' Hsa'. destruct w as [td n a]. simpl in *.
  split; [|by intros [= -> -> ->]]. unfold principal, spiffe. cbn [w_TrustDomain w_Namespace w_ServiceAccount]. intros E.
  apply (split_at_first "/" td "cluster.local" _ ("ns/" +:+ ns +:+ "/sa/" +:+ sa)) in E as [-> E]; [|done..].
  injection E as E. apply (split_at_first "/" n ns _ ("sa/" +:+ sa)) in E as [-> E]; [|done..].
  injection E as E. by subst a.
Qed.

Lemma lacks_last s c : s ≠ "" → lacks c s → HasPrefix (str_rev s) (String c "") = false.
Proof.
  intros Hne Hs. destruct (str_rev s) as [|d t] eqn:E; [by apply str_rev_nil_iff in E|].
  assert (str_forall (λ d, negb (Ascii.eqb d c)) (str_rev s) = true) as Hr by by rewrite str_forall_rev.
  rewrite E in Hr. cbn [str_forall] in Hr. apply andb_true_iff in Hr as [Hd _]. cbn [HasPrefix].
  apply negb_true_iff in Hd. by rewrite Hd.
Qed.

(** A pattern with no star at its ends matches itself only. *)
Lemma value_matches_exact pat v :
  HasPrefix pat "*" = false → HasPrefix (str_rev pat) "*" = false → value_matches pat v = true ↔ v = pat.
Proof.
  intros H1 H2. unfold value_matches. destruct (String.eqb_spec pat "*") as [->|_]; [done|].
  rewrite H1, H2. apply String.eqb_eq.
Qed.
Lemma value_matches_plain pat v : plain pat → value_matches pat v = true ↔ v = pat.
Proof.
  intros (Hne & _ & Hs). apply value_matches_exact; [|by apply lacks_last].
  destruct pat as [|c pat]; [done|]. cbn [str_forall] in Hs. apply andb_true_iff in Hs as [Hc%negb_true_iff _].
  cbn [HasPrefix]. by rewrite Hc.
Qed.
Lemma value_matches_spiffe ns sa w :
  workload_ok w → lacks "/" ns → plain sa →
  value_matches (spiffe ns sa) (principal w) = true ↔
  w = {| w_TrustDomain := "cluster.local"; w_Namespace := ns; w_ServiceAccount := sa |}.
Proof.
  intros Hw Hns (Hne & Hsl & Hst). rewrite value_matches_exact; [by apply principal_spiffe|done|].
  unfold spiffe. rewrite !str_rev_append. destruct (str_rev sa) as [|c t] eqn:E; [by apply str_rev_nil_iff in E|].
  pose proof (lacks_last sa "*" Hne Hst) as Hl. rewrite E in Hl. exact Hl.
Qed.

(** ** Policies *)

Lemma any_of_nil {A} (P : A → Prop) : any_of [] P.
Proof. by left. Qed.
Lemma any_of_one {A} (x : A) P : any_of [x] P ↔ P x.
Proof.
  unfold any_of. split; [by intros [?|(y & ->%list_elem_of_singleton & ?)]|].
  intros ?. right. exists x. by split; [left|].
Qed.
#[local] Hint Resolve any_of_nil : core.

Lemma admits_body pod rq o o' : o_Body o = o_Body o' → admits pod rq o ↔ admits pod rq o'.
Proof. intros E. unfold admits, policy_of. by rewrite E. Qed.

(** A policy with one rule. *)
Lemma authzObject_admits pod rq meta sel r :
  admits pod rq (authzObject meta sel [r]) ↔
  match sel with None => True | Some sel => contents sel ⊆ pod end ∧ rule_matches r rq.
Proof.
  unfold admits, policy_of, applies. split.
  - intros (ap & r' & [= <-] & _ & Hs & ->%list_elem_of_singleton & Hr). done.
  - intros [Hs Hr]. do 2 eexists. split; [reflexivity|]. split_and!; [done|done|by left|done].
Qed.

Lemma allow_nothing_admits pod rq meta : ¬ admits pod rq (newObject meta (AuthorizationPolicy zeroAuthorizationPolicy)).
Proof. intros (ap & r & [= <-] & _ & _ & Hr & _). by apply elem_of_nil in Hr. Qed.

Lemma operation_any to rq : any_of to (λ op, operation_matches op rq) ↔ to = [] ∨ ∃ op, op ∈ to ∧ Itoa (rq_Port rq) ∈ op_Ports op.
Proof. done. Qed.

(** The selector of a companion policy is that of the network policy. *)
Lemma authzSelector_wanted pl local pod : contents (authzSelector pl local) ⊆ pod ↔ dest_wanted pl local pod.
Proof.
  unfold authzSelector, dest_wanted, labels_or. destruct (0 <? maplen (ss_PodSelector local))%nat; [done|].
  apply map_singleton_subseteq_l.
Qed.

Section Entries.
Context (rq : request) (Hrq : request_ok rq).

Lemma namespace_source pat :
  plain pat ∨ pat = "*" →
  source_matches {| src_Principals := []; src_Namespaces := [pat]; src_IpBlocks := [] |} rq ↔
  ∃ w, rq_Peer rq = Some w ∧ (pat = "*" ∨ w_Namespace w = pat).
Proof.
  intros Hpat. unfold source_matches. cbn [src_Principals src_Namespaces src_IpBlocks]. rewrite any_of_one.
  transitivity (∃ w, rq_Peer rq = Some w ∧ value_matches pat (w_Namespace w) = true).
  { split; [by intros (_ & ? & _)|]. intros ?; by split_and!. }
  f_equiv. intros w. split; intros [Hw Hm]; (split; [done|]).
  - destruct Hpat as [Hpl| ->]; [right|by left]. by apply value_matches_plain in Hm.
  - apply Hrq in Hw as (_ & (Hne & _) & _). destruct (decide (pat = "*")) as [->|Hn].
    + unfold value_matches. simpl. by destruct (String.eqb_spec (w_Namespace w) "").
    + apply value_matches_plain; [by destruct Hpat|by destruct Hm].
Qed.

Lemma principal_source ns sa :
  lacks "/" ns → plain sa →
  source_matches {| src_Principals := [spiffe ns sa]; src_Namespaces := []; src_IpBlocks := [] |} rq ↔
  rq_Peer rq = Some {| w_TrustDomain := "cluster.local"; w_Namespace := ns; w_ServiceAccount := sa |}.
Proof.
  intros Hns Hsa. unfold source_matches. cbn [src_Principals src_Namespaces src_IpBlocks]. rewrite any_of_one. split.
  - intros ((w & Hw & Hm) & _ & _). rewrite Hw. f_equal. by apply value_matches_spiffe in Hm; [|apply Hrq|..].
  - intros Hw. split_and!; [|done|done]. eexists. split; [exact Hw|]. by apply value_matches_spiffe; [apply Hrq|..].
Qed.

Lemma cidr_source b :
  source_matches {| src_Principals := []; src_Namespaces := []; src_IpBlocks := [b] |} rq ↔ in_cidr b (rq_IP rq).
Proof.
  unfold source_matches. cbn [src_Principals src_Namespaces src_IpBlocks]. rewrite any_of_one.
  split; [by intros (_ & _ & ?)|intros ?; by split_and!].
Qed.

Lemma name_plain s : name_text s → plain s.
Proof. intros [Hne Hs]. split_and!; [done|by apply (class_lacks name_char)..]. Qed.

(** The names a remote key holds. *)
Lemma parseIngressRemoteKey_names key remote :
  parseIngressRemoteKey key = Ok remote →
  (plain (remote_Namespace remote) ∨ remote_Namespace remote = "*") ∧
  (remote_Identity remote = "" ∨ plain (remote_Identity remote)).
Proof.
  rewrite (parser_ok_Ok ingressRemoteKeyRe _ _ _ _ ingressRemoteKeyRe_spec parseIngressRemoteKey_ok).
  intros (k & (Hi & Hns & _) & _ & [= <-]). cbn [remote_Namespace remote_Identity]. split.
  - by destruct Hns as [?%name_plain| ->]; [left|right].
  - destruct (ik_identity k); [right; by apply name_plain|by left].
Qed.

Lemma authzSource_wanted key remote :
  parseIngressRemoteKey key = Ok remote → source_matches (authzSource remote) rq ↔ peer_wanted remote rq.
Proof.
  intros [Hns Hi]%parseIngressRemoteKey_names. unfold authzSource, peer_wanted.
  destruct (String.eqb_spec (remote_Identity remote) "") as [_|Hne]; cbn [negb]; [by apply namespace_source|].
  rewrite principal_source.
  - split; [intros Hw; by eexists|]. by intros (w & Hw & ->).
  - by destruct Hns as [(_ & ? & _)| ->].
  - by destruct Hi.
Qed.

Lemma k8s_authz_flows pkg prepend pl local key remote o pod :
  ports_sound (local_Protocol pl) (local_Ports pl) (local_HasPortRange pl) →
  parseIngressRemoteKey key = Ok remote → buildAuthzFromShorthand pkg prepend pl local key remote = Ok o →
  admits pod rq o ↔ dest_wanted pl local pod ∧ peer_wanted remote rq ∧ port_wanted pl rq.
Proof.
  intros Hs Hr. unfold buildAuthzFromShorthand. intros (suffix & _ & Ho)%bind_Ok. cbv zeta in Ho.
  destruct (authzRemote key remote) as [n ann]. apply bind_Ok in Ho as (to & Hto & Ho%(inj Ok)). subst o.
  rewrite authzObject_admits, authzSelector_wanted. unfold rule_matches. cbn [rule_From rule_To].
  rewrite any_of_one, (authzSource_wanted key) by done. unfold port_wanted.
  by rewrite operation_any, (operationPorts_allow pl to) by (done || apply Hrq).
Qed.

Lemma cidr_authz_flows pkg prepend pl local key cidr o pod :
  ports_sound (local_Protocol pl) (local_Ports pl) (local_HasPortRange pl) →
  buildAuthzFromCIDR pkg prepend pl local key cidr = Ok o →
  admits pod rq o ↔ dest_wanted pl local pod ∧ in_cidr (cidr_CIDR cidr) (rq_IP rq) ∧ port_wanted pl rq.
Proof.
  intros Hs. unfold buildAuthzFromCIDR. intros (suffix & _ & Ho)%bind_Ok. cbv zeta in Ho.
  apply bind_Ok in Ho as (to & Hto & Ho%(inj Ok)). subst o.
  rewrite authzObject_admits, authzSelector_wanted. unfold rule_matches. cbn [rule_From rule_To].
  rewrite any_of_one, cidr_source. unfold port_wanted.
  by rewrite operation_any, (operationPorts_allow pl to) by (done || apply Hrq).
Qed.

(** One destination. *)
Lemma authzFromLocal_flows pkg prepend localKey raw out pod :
  authzFromLocal pkg prepend localKey raw = Ok out →
  (∃ o, o ∈ out ∧ admits pod rq o) ↔
  ∃ local from pl, Unmarshal shorthandSource_UnmarshalJSON (Raw raw) = Ok local ∧ ss_From local = Some from ∧
    parseIngressLocalKey localKey = Ok pl ∧ dest_wanted pl local pod ∧
    (some_entry (K8s from) st_Enabled (k8s_authz_wanted pl rq) ∨ some_entry (Cidr from) st_Enabled (cidr_authz_wanted pl rq)).
Proof.
  unfold authzFromLocal. intros (local & Hl%wrap_Ok & Hout)%bind_Ok. rewrite Hl.
  destruct (ss_From local) as [from|] eqn:Hf.
  2: { injection Hout as <-. split; [by intros (o & ?%elem_of_nil & _)|]. intros (l' & from & pl & [= <-] & Hx & _). congruence. }
  apply bind_Ok in Hout as (pl & Hpl%wrap_Ok & Hout). apply bind_Ok in Hout as (k8s & H1 & Hout).
  apply bind_Ok in Hout as (cidr & H2 & Hout). injection Hout as <-.
  pose proof (parseIngressLocalKey_sound _ _ Hpl) as Hs.
  assert (∀ o meta, admits pod rq (applyShorthandMetadata o meta) ↔ admits pod rq o) as Happly.
  { intros o meta. apply admits_body. by destruct (apply_frame o meta) as (_ & _ & -> & _). }
  assert ((∃ o, o ∈ k8s ∧ admits pod rq o) ↔ dest_wanted pl local pod ∧ some_entry (K8s from) st_Enabled (k8s_authz_wanted pl rq)) as E1.
  { apply (entries_refine _ st_Enabled (λ key t, remote ← wrap ("authz ingress.to." +:+ localKey +:+ ".from.k8s") (parseIngressRemoteKey key);
      buildAuthzFromShorthand pkg prepend pl local key remote) (ss_Metadata local) st_Metadata _ _ _ _ _ H1); [|done|].
    - intros. by rewrite bind_assoc.
    - intros key t o Hk He (remote & Hr%wrap_Ok & Hb)%bind_Ok. unfold k8s_authz_wanted. rewrite Hr.
      etrans; [by eapply k8s_authz_flows|]. naive_solver. }
  assert ((∃ o, o ∈ cidr ∧ admits pod rq o) ↔ dest_wanted pl local pod ∧ some_entry (Cidr from) st_Enabled (cidr_authz_wanted pl rq)) as E2.
  { apply (entries_refine _ st_Enabled (λ key t, c ← wrap ("authz ingress.to." +:+ localKey +:+ ".from.cidr") (parseIngressCIDRKey key);
      buildAuthzFromCIDR pkg prepend pl local key c) (ss_Metadata local) st_Metadata _ _ _ _ _ H2); [|done|].
    - intros. by rewrite bind_assoc.
    - intros key t o Hk He (c & Hc%wrap_Ok & Hb)%bind_Ok. unfold cidr_authz_wanted. rewrite Hc.
      etrans; [by eapply cidr_authz_flows|]. naive_solver. }
  rewrite exists_elem_app, E1, E2. split.
  - intros Hw. exists local, from, pl. tauto.
  - intros (l' & f' & pl' & [= <-] & Hf' & Hpl' & Hw). rewrite Hpl in Hpl'. injection Hpl' as <-. simplify_eq. tauto.
Qed.
End Entries.

(** ** The three passes *)

(** Gateways as [splitGateway] and the configuration's checks leave them. *)
Definition gateways_plain (inbound : list resolvedInbound) : Prop :=
  ∀ r gw, r ∈ inbound → gw ∈ ri_gateways r →
    lacks "/" (rg_namespace gw) ∧ plain (gd_ServiceAccountName (rg_definition gw)).

Lemma default_policies_admit pkg istio np pod rq :
  request_ok rq → plain (pkg_Namespace pkg) → authzEnabled istio = true →
  (∃ o, o ∈ generateDefaultAuthzPolicies pkg istio (Some np) ∧ admits pod rq o) ↔
  ingressSideEnabled np = true ∧ authzAllowAllInNS istio = true ∧ namespace_wanted pkg rq.
Proof.
  intros Hrq Hns He. unfold generateDefaultAuthzPolicies. rewrite He. cbn [negb].
  destruct (ingressSideEnabled np); cbn [negb].
  2: { split; [by intros (o & ?%elem_of_nil & _)|by intros [? _]]. }
  cbv zeta. rewrite exists_elem_app.
  assert (∀ b meta, ¬ ∃ o, o ∈ (if b : bool then [newObject meta (AuthorizationPolicy zeroAuthorizationPolicy)] else []) ∧ admits pod rq o) as Hno.
  { intros [] meta (o & Ho & Ha); [|by apply elem_of_nil in Ho]. apply list_elem_of_singleton in Ho as ->.
    by eapply allow_nothing_admits. }
  destruct (authzAllowAllInNS istio).
  - rewrite one_rule, authzObject_admits. unfold rule_matches. cbn [rule_From rule_To].
    rewrite any_of_one, (namespace_source rq Hrq) by by left. unfold namespace_wanted. split.
    + intros [[]%Hno|(_ & (w & Hw & Hn) & _)]. split_and!; [done..|]. exists w. split; [done|].
      destruct Hn as [E|]; [|done]. destruct Hns as (_ & _ & Hst). by rewrite E in Hst.
    + intros (_ & _ & w & Hw & Hn). right. split_and!; [done| |apply any_of_nil]. exists w. by split; [|right].
  - split; [by intros [[]%Hno|(o & ?%elem_of_nil & _)]|by intros (_ & ? & _)].
Qed.

Lemma shorthand_policies_admit pkg np istio out pod rq :
  request_ok rq → authzEnabled istio = true → generateAuthzFromIngressShorthand pkg (Some np) istio = Ok out →
  (∃ o, o ∈ out ∧ admits pod rq o) ↔
  generateFromNetpol istio = true ∧ ∃ ingress, NP_Ingress np = Some ingress ∧ shorthand_wanted ingress pod rq.
Proof.
  intros Hrq He. unfold generateAuthzFromIngressShorthand, shorthand_wanted. rewrite He. cbn [negb orb].
  destruct (generateFromNetpol istio); cbn [negb].
  2: { intros [= <-]. split; [by intros (o & ?%elem_of_nil & _)|by intros [? _]]. }
  destruct (NP_Ingress np) as [ingress|].
  2: { intros [= <-]. split; [by intros (o & ?%elem_of_nil & _)|by intros (_ & ? & ? & _)]. }
  intros Hout. split.
  - intros (o & (lk & raw & ys & Hraw & Hys & Ho)%(for_sorted_elem _ _ _ _ Hout) & Ha). split; [done|].
    exists ingress. split; [done|]. exists lk, raw.
    destruct (proj1 (authzFromLocal_flows rq Hrq pkg _ lk raw ys pod Hys) (ex_intro _ o (conj Ho Ha)))
      as (local & from & pl & Hw). by exists local, from, pl.
  - intros (_ & ing & [= <-] & lk & raw & local & from & pl & Hraw & Hw).
    destruct (for_sorted_body _ _ _ _ _ Hout Hraw) as [ys Hys].
    destruct (proj2 (authzFromLocal_flows rq Hrq pkg _ lk raw ys pod Hys)) as (o & Ho & Ha); [by exists local, from, pl|].
    exists o. split; [|done]. apply (for_sorted_elem _ _ _ _ Hout). by exists lk, raw, ys.
Qed.

Section Routes.
Context `{Ext}.

Lemma route_policy_admits pkg prepend route gw suffix pod rq :
  request_ok rq → lacks "/" (rg_namespace gw) → plain (gd_ServiceAccountName (rg_definition gw)) →
  admits pod rq (buildAuthzFromRoute pkg prepend route gw suffix) ↔
  contents (Inbound_Selector route) ⊆ pod ∧
  rq_Peer rq = Some {| w_TrustDomain := "cluster.local"; w_Namespace := rg_namespace gw;
                       w_ServiceAccount := gd_ServiceAccountName (rg_definition gw) |} ∧
  (portNumber (inboundWorkloadPort route) = 0%Z ∨ rq_Port rq = portNumber (inboundWorkloadPort route)).
Proof.
  intros Hrq Hns Hsa. unfold buildAuthzFromRoute. cbv zeta. rewrite authzObject_admits. unfold rule_matches.
  cbn [rule_From rule_To]. rewrite any_of_one, (principal_source rq Hrq) by done. do 2 f_equiv.
  destruct (inboundWorkloadPort route) as [p|]; [|split; [by left|intros _; apply any_of_nil]].
  pose proof (portNumber_range (Some p)). destruct (Z.eqb_spec (portNumber (Some p)) 0) as [->|Hne]; cbn [negb].
  - split; [by left|intros _; apply any_of_nil].
  - rewrite any_of_one. unfold operation_matches. cbn [op_Ports]. rewrite list_elem_of_singleton. split.
    + intros E. right. apply Itoa_inj_nonneg in E; [done|apply Hrq|lia].
    + by intros [?| ->].
Qed.

Lemma route_policies_admit pkg rs istio inbound pod rq :
  request_ok rq → gateways_plain inbound → authzEnabled istio = true →
  (∃ o, o ∈ generateAuthzFromRoutes pkg (Some rs) istio inbound ∧ admits pod rq o) ↔ route_wanted inbound pod rq.
Proof.
  intros Hrq Hgw He. split.
  - intros (o & (rs' & r & gw & [= <-] & _ & Hr & Hg & ->)%routes_authz_elem & Ha).
    apply route_policy_admits in Ha; [|done|by eapply Hgw..]. exists r, gw. done.
  - intros (r & gw & Hr & Hg & Hw). eexists. split.
    + apply routes_authz_elem. by exists rs, r, gw.
    + apply route_policy_admits; [done|by eapply Hgw..|done].
Qed.

(** What the spec asks of the mesh: the namespace default, an enabled entry or
    a route names the caller. Entries count while generateFromNetpol is on; that
    ambient mode does not force it on is the code's reading, not istio.md's. *)
Definition mesh_wanted (pkg : Package) (np : NetworkPolicies) (istio : option Istio) (inbound : list resolvedInbound)
    (pod : gmap string string) (rq : request) : Prop :=
  (ingressSideEnabled np = true ∧ authzAllowAllInNS istio = true ∧ namespace_wanted pkg rq) ∨
  (generateFromNetpol istio = true ∧ ∃ ingress, NP_Ingress np = Some ingress ∧ shorthand_wanted ingress pod rq) ∨
  route_wanted inbound pod rq.

Lemma generated_policies_admit pkg np istio routes inbound out pod rq :
  request_ok rq → plain (pkg_Namespace pkg) → gateways_plain inbound → authzEnabled istio = true →
  generateAuthzFromIngressShorthand pkg (Some np) istio = Ok out →
  (∃ o, o ∈ generateDefaultAuthzPolicies pkg istio (Some np) ++ out ++ generateAuthzFromRoutes pkg (Some routes) istio inbound ∧
        admits pod rq o) ↔ mesh_wanted pkg np istio inbound pod rq.
Proof.
  intros. unfold mesh_wanted.
  by rewrite !exists_elem_app, default_policies_admit, shorthand_policies_admit, route_policies_admit.
Qed.

(** The allow-nothing policy selects every workload. *)
Lemma allow_nothing_present pkg np istio :
  authzEnabled istio = true → ingressSideEnabled np = true → authzAllowNothing istio = true →
  ∃ o, o ∈ generateDefaultAuthzPolicies pkg istio (Some np) ∧ o_Body o = AuthorizationPolicy zeroAuthorizationPolicy.
Proof.
  intros He Hside Hnothing. unfold generateDefaultAuthzPolicies. rewrite He, Hside, Hnothing. cbn [negb].
  eexists. split; [apply elem_of_app; left; by left|done].
Qed.

Lemma mesh_admits_denied aps o pod rq :
  o ∈ aps → o_Body o = AuthorizationPolicy zeroAuthorizationPolicy → mesh_admits aps pod rq ↔ ∃ o, o ∈ aps ∧ admits pod rq o.
Proof.
  intros Ho Hb. unfold mesh_admits. split; [intros [Hnone|?]; [exfalso|done]|by right]. exact (Hnone o _ Ho Hb I).
Qed.

(** The authorization policies mean what the spec says. A request from an
    authenticated or anonymous caller is admitted by one of the generated
    policies exactly when the namespace default is on and the caller is of the
    package's namespace, or an enabled [k8s] or [cidr] entry of a destination
    that names the pod names the caller and the port, or the caller is the
    service account of a gateway of an inbound route to the pod, on its port.
    With the allow-nothing default on this is the decision of the mesh: a
    request nothing asks for is denied. *)
Theorem generated_authz_refines pkg np istio routes inbound out pod rq
    (Hrq : request_ok rq) (Hns : plain (pkg_Namespace pkg)) (Hgw : gateways_plain inbound)
    (Henabled : authzEnabled istio = true)
    (Hout : generateAuthzFromIngressShorthand pkg (Some np) istio = Ok out) :
  let aps := generateDefaultAuthzPolicies pkg istio (Some np) ++ out ++ generateAuthzFromRoutes pkg (Some routes) istio inbound in
  ((∃ o, o ∈ aps ∧ admits pod rq o) ↔ mesh_wanted pkg np istio inbound pod rq) ∧
  (ingressSideEnabled np = true → authzAllowNothing istio = true →
     mesh_admits aps pod rq ↔ mesh_wanted pkg np istio inbound pod rq).
Proof.
  cbv zeta. pose proof (generated_policies_admit pkg np istio routes inbound out pod rq Hrq Hns Hgw Henabled Hout) as Hwant.
  split; [done|]. intros Hside Hnothing. rewrite <-Hwant.
  destruct (allow_nothing_present pkg np istio Henabled Hside Hnothing) as (o & Ho & Hb).
  apply (mesh_admits_denied _ o); [apply elem_of_app; by left|done].
Qed.
End Routes.

(** ** Whom one policy admits *)

(** A policy of the shorthand stands for one enabled entry of one destination:
    it admits the callers that the entry's key names, and no others. *)
Definition entry_policy (np : NetworkPolicies) (o : Object) : Prop :=
  ∃ ingress localKey raw local from pl, NP_Ingress np = Some ingress ∧ Ingress_To ingress !! localKey = Some raw ∧
    Unmarshal shorthandSource_UnmarshalJSON (Raw raw) = Ok local ∧ ss_From local = Some from ∧
    parseIngressLocalKey localKey = Ok pl ∧
    ((∃ key target remote, K8s from !! key = Some target ∧ st_Enabled target = true ∧ parseIngressRemoteKey key = Ok remote ∧
        ∀ pod rq, request_ok rq → admits pod rq o ↔ dest_wanted pl local pod ∧ peer_wanted remote rq ∧ port_wanted pl rq) ∨
     (∃ key target, Cidr from !! key = Some target ∧ st_Enabled target = true ∧ is_Ok (parseIngressCIDRKey key) ∧
        ∀ pod rq, request_ok rq → admits pod rq o ↔ dest_wanted pl local pod ∧ in_cidr key (rq_IP rq) ∧ port_wanted pl rq)).

(** A policy of a route stands for one of its gateways. *)
Definition gateway_policy `{Ext} (inbound : list resolvedInbound) (o : Object) : Prop :=
  ∃ r gw, r ∈ inbound ∧ gw ∈ ri_gateways r ∧
    ∀ pod rq, request_ok rq → admits pod rq o ↔
      contents (Inbound_Selector (ri_route r)) ⊆ pod ∧
      rq_Peer rq = Some {| w_TrustDomain := "cluster.local"; w_Namespace := rg_namespace gw;
                           w_ServiceAccount := gd_ServiceAccountName (rg_definition gw) |} ∧
      (portNumber (inboundWorkloadPort (ri_route r)) = 0%Z ∨ rq_Port rq = portNumber (inboundWorkloadPort (ri_route r))).

Lemma applied_admits o meta pod rq : admits pod rq (applyShorthandMetadata o meta) ↔ admits pod rq o.
Proof. apply admits_body. by destruct (apply_frame o meta) as (_ & _ & -> & _). Qed.

Lemma sub_empty (m : gmap string string) : m ⊆ ∅ → m = ∅.
Proof.
  intros Hsub. apply map_empty. intros k. destruct (m !! k) as [v|] eqn:E; [|done].
  by apply (lookup_weaken _ _ _ _ E) in Hsub.
Qed.
Lemma dest_wanted_labelled pl local pod : dest_wanted pl local pod → pod ≠ ∅.
Proof.
  unfold dest_wanted, labels_or. destruct (Nat.ltb_spec 0 (maplen (ss_PodSelector local))) as [Hlen|_].
  - intros Hsub ->. apply sub_empty in Hsub. assert (maplen (ss_PodSelector local) = 0) by by apply maplen_zero. lia.
  - by intros E ->.
Qed.

Section Callers.
Context `{Ext}.

Lemma authzFromLocal_each pkg prepend np ingress localKey raw out o :
  NP_Ingress np = Some ingress → Ingress_To ingress !! localKey = Some raw →
  authzFromLocal pkg prepend localKey raw = Ok out → o ∈ out → entry_policy np o.
Proof.
  intros Hing Hraw. unfold authzFromLocal. intros (local & Hl%wrap_Ok & Hout)%bind_Ok Ho.
  destruct (ss_From local) as [from|] eqn:Hf; [|injection Hout as <-; by apply elem_of_nil in Ho].
  apply bind_Ok in Hout as (pl & Hpl%wrap_Ok & Hout). apply bind_Ok in Hout as (k8s & H1 & Hout).
  apply bind_Ok in Hout as (cidr & H2 & Hout). injection Hout as <-.
  pose proof (parseIngressLocalKey_sound _ _ Hpl) as Hs. exists ingress, localKey, raw, local, from, pl. split_and!; [done..|].
  apply elem_of_app in Ho as [Ho|Ho]; [left|right].
  - destruct (entries_each _ st_Enabled (λ key t, remote ← wrap ("authz ingress.to." +:+ localKey +:+ ".from.k8s") (parseIngressRemoteKey key);
      buildAuthzFromShorthand pkg prepend pl local key remote) (ss_Metadata local) st_Metadata _ _ o H1) as (key & t & x & meta & Hk & He & Hx & ->);
      [by intros; rewrite bind_assoc|done|].
    apply bind_Ok in Hx as (remote & Hr%wrap_Ok & Hb). exists key, t, remote. split_and!; [done..|]. intros pod rq Hrq.
    rewrite applied_admits. by eapply k8s_authz_flows.
  - destruct (entries_each _ st_Enabled (λ key t, c ← wrap ("authz ingress.to." +:+ localKey +:+ ".from.cidr") (parseIngressCIDRKey key);
      buildAuthzFromCIDR pkg prepend pl local key c) (ss_Metadata local) st_Metadata _ _ o H2) as (key & t & x & meta & Hk & He & Hx & ->);
      [by intros; rewrite bind_assoc|done|].
    apply bind_Ok in Hx as (c & Hc%wrap_Ok & Hb). exists key, t. split_and!; [done..|by eexists|]. intros pod rq Hrq.
    rewrite applied_admits. destruct (parseIngressCIDRKey_sound _ _ Hc) as [<- _]. by eapply cidr_authz_flows.
Qed.

Lemma shorthand_each pkg np istio out o :
  generateAuthzFromIngressShorthand pkg (Some np) istio = Ok out → o ∈ out → entry_policy np o.
Proof.
  unfold generateAuthzFromIngressShorthand. destruct (_ || _); [intros [= <-] Ho; by apply elem_of_nil in Ho|].
  destruct (NP_Ingress np) as [ingress|] eqn:Hing; [|intros [= <-] Ho; by apply elem_of_nil in Ho].
  intros Hout (lk & raw & ys & Hraw & Hys & Ho)%(for_sorted_elem _ _ _ _ Hout). by eapply authzFromLocal_each.
Qed.

Lemma routes_each pkg routes istio inbound o :
  gateways_plain inbound → o ∈ generateAuthzFromRoutes pkg routes istio inbound → gateway_policy inbound o.
Proof.
  intros Hgw (rs & r & gw & -> & _ & Hr & Hg & ->)%routes_authz_elem. exists r, gw. split_and!; [done..|].
  intros pod rq Hrq. apply route_policy_admits; [done|by eapply Hgw..].
Qed.

(** C17: Whom a single generated AuthorizationPolicy admits. Every policy of the
    shorthand stands for one enabled entry of the spec, and admits a request
    exactly when it goes to a pod and a port of the entry's destination and comes
    from the caller the entry's key names: the principal of an identity, the
    pods of one namespace (of all of them, where the key says "*"), or the
    addresses of the key's block (of all, for 0.0.0.0/0). Every policy of a route
    admits exactly one gateway's service account to the route's pods and port.
    None applies to a pod without labels. While authorization policies are off
    there are none, and with generateFromNetpol off the shorthand makes none, in
    ambient mode as well, against what istio.md says (a finding). *)
Theorem authz_names_callers pkg np istio routes inbound out
    (Hshort : generateAuthzFromIngressShorthand pkg (Some np) istio = Ok out)
    (Hinbound : Forall resolved_ok inbound) (Hgw : gateways_plain inbound) :
  let routed := generateAuthzFromRoutes pkg routes istio inbound in
  Forall (entry_policy np) out ∧ Forall (gateway_policy inbound) routed ∧
  (∀ o rq, o ∈ out ++ routed → request_ok rq → ¬ admits ∅ rq o) ∧
  (authzEnabled istio = false → out = [] ∧ routed = []) ∧
  (generateFromNetpol istio = false → out = []).
Proof.
  cbv zeta. assert (Forall (entry_policy np) out) as Hout by (apply Forall_forall; intros o; by eapply shorthand_each).
  assert (Forall (gateway_policy inbound) (generateAuthzFromRoutes pkg routes istio inbound)) as Hrouted
    by (apply Forall_forall; intros o; by apply routes_each).
  split_and!; [done..| | |].
  - rewrite Forall_forall in Hout, Hrouted. intros o rq [Ho|Ho]%elem_of_app Hrq.
    + destruct (Hout o Ho) as (? & ? & ? & local & ? & pl & _ & _ & _ & _ & _ & [(k & t & r & _ & _ & _ & Ha)|(k & t & _ & _ & _ & Ha)]);
        by intros [Hd _]%(Ha _ _ Hrq); apply dest_wanted_labelled in Hd.
    + destruct (Hrouted o Ho) as (r & gw & Hr & _ & Ha). intros [Hsub _]%(Ha _ _ Hrq).
      apply (ro_selector r (proj1 (Forall_forall _ _) Hinbound r Hr)). by apply sub_empty in Hsub.
  - intros He. unfold generateAuthzFromIngressShorthand, generateAuthzFromRoutes in *. rewrite He in *.
    injection Hshort as <-. by destruct routes.
  - intros Hg. unfold generateAuthzFromIngressShorthand in Hshort. rewrite Hg, orb_true_r in Hshort. by injection Hshort as <-.
Qed.
End Callers.

(** ** The two policies of one entry *)

Section Companions.
Context `{Ext} `{!IntStrLaws} (pkg : Package) (spec : NetworkPolicies) (lbl : gomap string).
Notation prepend := (NP_PrependReleaseName spec).

(** A connection as the two layers see it: the caller's pod and its certificate
    are of one namespace. *)
Definition same_caller (q : endpoint) (w : workload) : Prop :=
  ep_NamespaceLabels q !! "kubernetes.io/metadata.name" = Some (w_Namespace w).

(** The part of a remote key that only the network policy looks at. *)
Definition pod_of_remote (remote : parsedK8sRemote) (target : shorthandTarget) (q : endpoint) : Prop :=
  labels_or (st_PodSelector target) (ep_Labels q)
    (remote_Pod remote = "" ∨ remote_Pod remote = "*" ∨ ep_Labels q !! "app.kubernetes.io/name" = Some (remote_Pod remote)).

(** C18: The two policies of an ingress [k8s] entry fit together. Where the entry
    does not override the namespace selector, a call from a pod the key names
    that its AuthorizationPolicy admits also passes its NetworkPolicy; without an
    identity in the key the converse holds as well: what the NetworkPolicy lets
    through to the pod is admitted, so the two layers decide alike but for the
    caller's pod, which only the NetworkPolicy sees. *)
Theorem companions_agree localKey pl local key remote target np ap pod q rq w
    (Hlocal : parseIngressLocalKey localKey = Ok pl) (Hfit : ports_fit (local_Ports pl))
    (Hremote : parseIngressRemoteKey key = Ok remote) (Hoverride : maplen (st_NamespaceSelector target) = 0)
    (Hnp : buildShorthandIngressNetpol pkg prepend lbl pl local key remote target = Ok np)
    (Hap : buildAuthzFromShorthand pkg prepend pl local key remote = Ok ap)
    (Hrq : request_ok rq) (Hpeer : rq_Peer rq = Some w) (Hcaller : same_caller q w) :
  let allowed := allows_ingress (pkg_Namespace pkg) np pod q (local_Protocol pl) (rq_Port rq) in
  (admits pod rq ap → pod_of_remote remote target q → allowed) ∧
  (remote_Identity remote = "" → allowed ↔ admits pod rq ap ∧ pod_of_remote remote target q).
Proof.
  cbv zeta. pose proof (parseIngressLocalKey_sound _ _ Hlocal) as Hs.
  assert (remote_wanted remote target q ↔
    (remote_Namespace remote = "*" ∨ w_Namespace w = remote_Namespace remote) ∧ pod_of_remote remote target q) as Ew.
  { assert (Some (w_Namespace w) = Some (remote_Namespace remote) ↔ w_Namespace w = remote_Namespace remote) as E
      by (split; [by intros [= ->]|by intros ->]).
    unfold remote_wanted, pod_of_remote, labels_or. rewrite Hoverride. cbn [Nat.ltb Nat.leb]. rewrite Hcaller. by rewrite E. }
  rewrite (k8s_ingress_flows pkg spec pod q (local_Protocol pl) (rq_Port rq) np lbl pl local key remote target Hs Hfit Hnp).
  rewrite (k8s_authz_flows rq Hrq _ _ _ _ _ _ _ pod Hs Hremote Hap), Ew. unfold peer_wanted, port_wanted.
  rewrite Hpeer. split.
  - intros (Hd & (w' & [= <-] & Hw) & Hp) Hpod. split_and!; [done| |done|done].
    destruct (String.eqb _ _); [done|]. subst w. by right.
  - intros ->. cbn [String.eqb]. split.
    + intros (Hd & [Hw Hpod] & Hp). split_and!; [done| |done|done]. exists w. by split.
    + intros [(Hd & (w' & [= <-] & Hw) & Hp) Hpod]. by split_and!.
Qed.
End Companions.

(** A service account of any namespace: the grammar accepts the key, the network
    policy lets every namespace through, and the authorization policy asks for
    the namespace "*", which is a pattern nowhere but at the ends of a principal
    and is no namespace, so nobody is admitted. *)
Theorem identity_of_any_namespace_admits_nobody :
  let src := {| ss_PodSelector := None; ss_Metadata := None; ss_To := None; ss_From := None |} in
  let target := {| st_Enabled := true; st_PodSelector := None; st_NamespaceSelector := None; st_Metadata := None |} in
  ∃ remote o, parseIngressRemoteKey "sa@*" = Ok remote ∧
    buildAuthzFromShorthand (demo_package demo_spec) false example_local src "sa@*" remote = Ok o ∧
    (∀ q, remote_wanted remote target q) ∧
    ∀ pod rq, request_ok rq → ¬ admits pod rq o.
Proof.
  cbv zeta.
  set (src := {| ss_PodSelector := None; ss_Metadata := None; ss_To := None; ss_From := None |}).
  set (remote := {| remote_Namespace := "*"; remote_Pod := ""; remote_Identity := "sa"; remote_Protocol := "TCP";
                    remote_Ports := []; remote_HasPortRange := false |}).
  assert (parseIngressRemoteKey "sa@*" = Ok remote) as Hr by (vm_compute; reflexivity).
  set (built := buildAuthzFromShorthand (demo_package demo_spec) false example_local src "sa@*" remote).
  set (o := ok_value (newObject (newMeta "" None None) (NetworkPolicy emptyNetworkPolicySpec)) built).
  assert (built = Ok o) as Ho by (apply ok_by_compute; vm_compute; reflexivity).
  exists remote, o. split; [exact Hr|]. split; [exact Ho|]. split; [intros q; split; [by left|by left]|].
  intros pod rq Hrq Ha. eapply k8s_authz_flows in Ha as (_ & (w & Hw & E) & _); [|exact Hrq| |exact Hr|exact Ho].
  - apply Hrq in Hw as (_ & (_ & _ & Hst) & _). simpl in E. subst w. discriminate Hst.
  - apply (parseIngressLocalKey_sound "web:8080-8082"). vm_compute. reflexivity.
Qed.

(** ** Concrete policies *)

Definition example_caller : workload :=
  {| w_TrustDomain := "cluster.local"; w_Namespace := "ns"; w_ServiceAccount := "sa" |}.
Definition example_request : request := {| rq_Peer := Some example_caller; rq_IP := []; rq_Port := 8081 |}.
Lemma example_request_ok : request_ok example_request.
Proof. split; [simpl; lia|]. by intros w [= <-]. Qed.

Definition example_authz : list Object :=
  generateDefaultAuthzPolicies (demo_package demo_spec) (Some example_ambient) (Some example_ingress_np) ++
  example_shorthand_authz ++ generateAuthzFromRoutes (demo_package demo_spec) (Some example_routes) (Some example_ambient) [].

Lemma example_shorthand_run :
  generateAuthzFromIngressShorthand (demo_package demo_spec) (Some example_ingress_np) (Some example_ambient) =
  Ok example_shorthand_authz.
Proof. vm_compute. reflexivity. Qed.

Lemma example_shorthand_wanted ingress :
  NP_Ingress example_ingress_np = Some ingress → shorthand_wanted ingress (app "web") example_request.
Proof.
  intros [= <-]. eexists "web:8080-8082", _. do 3 eexists. split; [vm_compute; reflexivity|].
  split; [vm_compute; reflexivity|]. split; [reflexivity|]. split; [vm_compute; reflexivity|].
  split; [reflexivity|]. left. eexists "sa@ns", _. split; [vm_compute; reflexivity|]. split; [reflexivity|].
  eexists. split; [vm_compute; reflexivity|]. split; [by exists example_caller|].
  right. split; [reflexivity|]. simpl. lia.
Qed.

Definition gateway_plain_b (gw : resolvedGateway) : bool :=
  str_forall (λ d, negb (Ascii.eqb d "/")) (rg_namespace gw) &&
  negb (String.eqb (gd_ServiceAccountName (rg_definition gw)) "") &&
  str_forall (λ d, negb (Ascii.eqb d "/")) (gd_ServiceAccountName (rg_definition gw)) &&
  str_forall (λ d, negb (Ascii.eqb d "*")) (gd_ServiceAccountName (rg_definition gw)).

Lemma gateways_plain_of (inbound : list resolvedInbound) :
  forallb (λ r, forallb gateway_plain_b (ri_gateways r)) inbound = true → gateways_plain inbound.
Proof.
  intros Hall r gw Hr Hgw. rewrite forallb_forall in Hall. specialize (Hall r (proj1 (list_elem_of_In _ _) Hr)). cbv beta in Hall.
  rewrite forallb_forall in Hall. specialize (Hall gw (proj1 (list_elem_of_In _ _) Hgw)). unfold gateway_plain_b in Hall.
  apply andb_prop in Hall as [Hall ?]. apply andb_prop in Hall as [Hall ?]. apply andb_prop in Hall as [? Hsa%negb_true_iff].
  apply String.eqb_neq in Hsa. repeat split; done.
Qed.

Definition example_routed_authz : list Object :=
  generateAuthzFromRoutes (demo_package example_routes_spec) (Some example_routes) (Some example_ambient) example_resolved_routes.

Lemma authz_names_callers_witness :
  o_Name <$> example_shorthand_authz = ["allow-ingress-to-web-tcp-ports-8080-thru-8082-from-ns-ns-with-identity-sa"] ∧
  length example_routed_authz = 1 ∧
  Forall (entry_policy example_ingress_np) example_shorthand_authz ∧
  Forall (gateway_policy example_resolved_routes) example_routed_authz.
Proof.
  split; [vm_compute; reflexivity|]. split; [vm_compute; reflexivity|].
  destruct (authz_names_callers (demo_package example_routes_spec) example_ingress_np (Some example_ambient) (Some example_routes)
    example_resolved_routes example_shorthand_authz) as (H1 & H2 & _).
  - vm_compute. reflexivity.
  - apply (resolveInboundRoutes_ok (example_input example_routes_spec)). vm_compute. reflexivity.
  - apply gateways_plain_of. vm_compute. reflexivity.
  - split; [exact H1|exact H2].
Defined.

Lemma generated_authz_refines_witness :
  o_Name <$> example_authz =
    ["default-authz-allow-nothing"; "default-authz-allow-all-in-ns";
     "allow-ingress-to-web-tcp-ports-8080-thru-8082-from-ns-ns-with-identity-sa"] ∧
  mesh_admits example_authz (app "web") example_request.
Proof.
  split; [vm_compute; reflexivity|].
  refine (proj2 (proj2 (generated_authz_refines (demo_package demo_spec) example_ingress_np (Some example_ambient)
    example_routes [] example_shorthand_authz (app "web") example_request example_request_ok _ _ eq_refl example_shorthand_run)
    eq_refl eq_refl) _).
  - by vm_compute.
  - by intros r gw ?%elem_of_nil.
  - right. left. split; [reflexivity|]. eexists. split; [reflexivity|]. by apply example_shorthand_wanted.
Defined.

Definition example_remote : parsedK8sRemote :=
  {| remote_Namespace := "ns"; remote_Pod := "pod"; remote_Identity := ""; remote_Protocol := "TCP";
     remote_Ports := []; remote_HasPortRange := false |}.
Definition example_entry : shorthandTarget :=
  {| st_Enabled := true; st_PodSelector := None; st_NamespaceSelector := None; st_Metadata := None |}.
Definition example_local_entry : shorthandSource := {| ss_PodSelector := None; ss_Metadata := None; ss_To := None; ss_From := None |}.
Definition no_object : Object := newObject (newMeta "" None None) (NetworkPolicy emptyNetworkPolicySpec).
Definition example_companion_np : Object :=
  ok_value no_object (buildShorthandIngressNetpol (demo_package demo_spec) false None example_local example_local_entry
                        "ns/pod" example_remote example_entry).
Definition example_companion_ap : Object :=
  ok_value no_object (buildAuthzFromShorthand (demo_package demo_spec) false example_local example_local_entry "ns/pod" example_remote).

Lemma companions_agree_witness :
  o_Name example_companion_np = "allow-ingress-to-web-tcp-ports-8080-thru-8082-from-ns-ns-pod-pod" ∧
  o_Name example_companion_ap = "allow-ingress-to-web-tcp-ports-8080-thru-8082-from-ns-ns" ∧
  (allows_ingress "apps" example_companion_np (app "web") example_pod "TCP" 8081 ↔
   admits (app "web") example_request example_companion_ap ∧ pod_of_remote example_remote example_entry example_pod).
Proof.
  split; [vm_compute; reflexivity|]. split; [vm_compute; reflexivity|].
  refine (proj2 (companions_agree (demo_package demo_spec) example_ingress_np None "web:8080-8082" example_local
    example_local_entry "ns/pod" example_remote example_entry example_companion_np example_companion_ap (app "web")
    example_pod example_request example_caller _ _ _ eq_refl _ _ example_request_ok eq_refl eq_refl) eq_refl).
  - vm_compute. reflexivity.
  - repeat constructor.
  - vm_compute. reflexivity.
  - apply ok_by_compute. vm_compute. reflexivity.
  - apply ok_by_compute. vm_compute. reflexivity.
Defined.
