(* ===== verification/Generator.v ===== *)
(** * generator.go: the desired objects of one Package

    The passes in their order, the HBONE pass over their result, and the final
    loop that stamps every object and sets its kind. *)

From S2P Require Import Prelude GoStrings Json K8s ApiTypes External Names ShorthandKeys Metadata.
From S2P Require Import ShorthandValues NetpolCommon Definitions NetpolDefaults NetpolShorthand Netpols.
From S2P Require Import Istio RouteDecode IngressConfig Routes Authz.
Local Open Scope string_scope.
Local Open Scope list_scope.

Definition Warnings (pkg : Package) : list string :=
  match Spec_NetworkPolicies (pkg_Spec pkg) with
  | Some np =>
      match NP_DefaultsAsHooks np with
      | Some h =>
          match Hooks_Enabled h with
          | Some true => ["networkPolicies.defaultsAsHooks is ignored: the operator only reconciles persistent policies and does not manage Helm hooks"]
          | _ => []
          end
      | None => []
      end
  | None => []
  end.

(** What [%T] prints for an object: its package and type name. *)
Definition goType (t : ObjectType) : string :=
  match t with
  | TNetworkPolicy => "*v1.NetworkPolicy"
  | TPeerAuthentication => "*v1.PeerAuthentication"
  | TAuthorizationPolicy => "*v1.AuthorizationPolicy"
  | TVirtualService => "*v1.VirtualService"
  | TServiceEntry => "*v1.ServiceEntry"
  | TSidecar => "*v1.Sidecar"
  end.

Definition Scheme := ObjectType → outcome (list GroupVersionKind).

Definition setGVK (scheme : Scheme) (obj : Object) : outcome Object :=
  gvks ← wrap ("gvk for " +:+ goType (type_of (o_Body obj))) (scheme (type_of (o_Body obj)));
  match gvks with
  | [] => Err (Errorf ("no GVK for " +:+ goType (type_of (o_Body obj))))
  | gvk :: _ => Ok (set_GVK gvk obj)
  end.

Section Generator.
Context `{Ext}.

(** The passes, in the order their objects are appended. *)
Definition generatePasses (pkg : Package) (inp : Input) (inbound : list resolvedInbound) : outcome (list Object) :=
  let spec := pkg_Spec pkg in
  istio ← match Spec_Istio spec with
          | Some i => if Istio_Enabled i then wrap "istio" (generateIstio pkg i) else Ok []
          | None => Ok []
          end;
  netpols ← match Spec_NetworkPolicies spec with
            | Some np =>
                if NP_Enabled np then
                  let env := {| kubeAPIPorts := in_KubeAPIPorts inp; sharedEgress := in_SharedEgressDefinitions inp;
                                sharedIngress := in_SharedIngressDefinitions inp;
                                sharedErr := in_SharedDefinitionsError inp |} in
                  wrap "networkPolicies" (generateNetworkPolicies pkg np (Spec_Istio spec) env)
                else Ok []
            | None => Ok []
            end;
  routes ← match Spec_Routes spec with
           | Some _ => wrap "routes" (generateRoutes pkg (Spec_Routes spec) inbound)
           | None => Ok []
           end;
  let defaults := generateDefaultAuthzPolicies pkg (Spec_Istio spec) (Spec_NetworkPolicies spec) in
  shorthand ← match Spec_NetworkPolicies spec with
              | Some np => wrap "authorizationPolicies"
                             (generateAuthzFromIngressShorthand pkg (Some np) (Spec_Istio spec))
              | None => Ok []
              end;
  let routeAPs := match Spec_Routes spec with
                  | Some _ => generateAuthzFromRoutes pkg (Spec_Routes spec) (Spec_Istio spec) inbound
                  | None => []
                  end in
  customAPs ← wrap "authorizationPolicies" (generateCustomAuthzPolicies (Spec_Istio spec));
  Ok (istio ++ netpols ++ routes ++ defaults ++ shorthand ++ routeAPs ++ customAPs).

Definition hbonePass (pkg : Package) (out : list Object) : list Object :=
  if hboneEnabled (Spec_NetworkPolicies (pkg_Spec pkg)) (Spec_Istio (pkg_Spec pkg)) then injectHBonePorts out else out.

Definition Generate (inp : Input) : outcome (list Object) :=
  match in_Package inp with
  | None => Err (Errorf "generator: Package is nil")
  | Some pkg =>
      match in_Scheme inp with
      | None => Err (Errorf "generator: Scheme is nil")
      | Some scheme =>
          inbound ← resolveInboundRoutes inp;
          out ← generatePasses pkg inp inbound;
          traverse (λ o, setGVK scheme (stampMetadata pkg o)) (hbonePass pkg out)
      end
  end.

(** ** Lemmas *)

Lemma setGVK_Ok scheme o o' :
  setGVK scheme o = Ok o' ↔
  ∃ gvk gvks, scheme (type_of (o_Body o)) = Ok (gvk :: gvks) ∧ o' = set_GVK gvk o.
Proof.
  unfold setGVK. rewrite bind_Ok. setoid_rewrite wrap_Ok. split.
  - intros ([|gvk gvks] & Hs & Ho); [done|]. injection Ho as <-. eauto.
  - intros (gvk & gvks & Hs & ->). by eexists.
Qed.

Lemma setGVK_returns scheme o : (∀ t, returns (scheme t)) → returns (setGVK scheme o).
Proof.
  intros Hs. unfold setGVK. apply bind_returns; [by apply wrap_returns|]. by intros [].
Qed.

Lemma hbonePass_Forall (P : Object → Prop) pkg out :
  (∀ o, P o → P (injectHBone o)) → Forall P out → Forall P (hbonePass pkg out).
Proof.
  intros HP Hout. unfold hbonePass. destruct (hboneEnabled _ _); [|done].
  apply Forall_fmap. eapply Forall_impl; [done|]. apply HP.
Qed.

Lemma injectHBone_unplaced o : unplaced o → unplaced (injectHBone o).
Proof. unfold unplaced. by destruct (injectHBone_frame o) as (_ & -> & _). Qed.

(** Every pass leaves the namespace to the stamp. *)
Lemma generatePasses_unplaced pkg inp inbound out : generatePasses pkg inp inbound = Ok out → Forall unplaced out.
Proof.
  unfold generatePasses. cbv zeta. intros (is_ & His & Hout)%bind_Ok.
  apply bind_Ok in Hout as (nps & Hnps & Hout). apply bind_Ok in Hout as (rts & Hrts & Hout).
  apply bind_Ok in Hout as (sh & Hsh & Hout). apply bind_Ok in Hout as (cs & Hcs%wrap_Ok & [= <-]).
  rewrite !Forall_app. split_and!.
  - destruct (Spec_Istio _) as [i|]; [destruct (Istio_Enabled i)|]; try (injection His as <-; constructor).
    apply wrap_Ok, generateIstio_objects in His. eapply Forall_impl; [done|]. by intros o [? _].
  - destruct (Spec_NetworkPolicies _) as [np|]; [destruct (NP_Enabled np)|]; try (injection Hnps as <-; constructor).
    apply wrap_Ok, generateNetworkPolicies_objects in Hnps. eapply Forall_impl; [done|]. by intros o [? _].
  - destruct (Spec_Routes _) as [rs|] eqn:E; [|injection Hrts as <-; constructor].
    apply wrap_Ok, generateRoutes_objects in Hrts. eapply Forall_impl; [done|]. by intros o [? _].
  - eapply Forall_impl; [apply generateDefaultAuthzPolicies_objects|]. by intros o [? _].
  - destruct (Spec_NetworkPolicies _) as [np|]; [|injection Hsh as <-; constructor].
    apply wrap_Ok, generateAuthzFromIngressShorthand_authz in Hsh. eapply Forall_impl; [done|]. by intros o [[? _] _].
  - destruct (Spec_Routes _); [|constructor].
    eapply Forall_impl; [apply generateAuthzFromRoutes_objects|]. by intros o [? _].
  - apply generateCustomAuthzPolicies_objects in Hcs. eapply Forall_impl; [done|]. by intros o [? _].
Qed.

Lemma generatePasses_returns `{!ExtReturns} pkg inp inbound :
  (∀ np, Spec_NetworkPolicies (pkg_Spec pkg) = Some np → ranges_bounded np) → returns (generatePasses pkg inp inbound).
Proof.
  intros Hb. unfold generatePasses. cbv zeta. apply bind_returns.
  { destruct (Spec_Istio _) as [i|]; [destruct (Istio_Enabled i)|]; try done. apply wrap_returns, generateIstio_returns. }
  intros ? _. apply bind_returns.
  { destruct (Spec_NetworkPolicies _) as [np|]; [destruct (NP_Enabled np)|]; try done.
    apply wrap_returns, generateNetworkPolicies_returns. }
  intros ? _. apply bind_returns.
  { destruct (Spec_Routes _); [|done]. apply wrap_returns, generateRoutes_returns. }
  intros ? _. apply bind_returns.
  { destruct (Spec_NetworkPolicies _) as [np|]; [|done]. apply wrap_returns, generateAuthzFromIngressShorthand_returns.
    intros n [= <-]. by apply Hb. }
  intros ? _. apply bind_returns; [|done]. apply wrap_returns, generateCustomAuthzPolicies_returns.
Qed.

(** A successful run, taken apart. *)
Lemma Generate_Ok inp out :
  Generate inp = Ok out ↔
  ∃ pkg scheme inbound objs,
    in_Package inp = Some pkg ∧ in_Scheme inp = Some scheme ∧ resolveInboundRoutes inp = Ok inbound ∧
    generatePasses pkg inp inbound = Ok objs ∧
    Forall2 (λ o o', setGVK scheme (stampMetadata pkg o) = Ok o') (hbonePass pkg objs) out.
Proof.
  unfold Generate. split.
  - intros Hg. destruct (in_Package inp) as [pkg|]; [|done]. destruct (in_Scheme inp) as [scheme|]; [|done].
    apply bind_Ok in Hg as (inbound & Hin & Hg). apply bind_Ok in Hg as (objs & Hobjs & Hg%traverse_Ok).
    by exists pkg, scheme, inbound, objs.
  - intros (pkg & scheme & inbound & objs & -> & -> & Hin & Hobjs & Hg). rewrite Hin. simpl. rewrite Hobjs. simpl.
    by apply traverse_Ok.
Qed.

(** Each object of the result is the stamped form of one object of the passes,
    in the same place. *)
Definition finished (pkg : Package) (scheme : Scheme) (o o' : Object) : Prop :=
  type_of (o_Body o') = type_of (o_Body o) ∧ o_Name o' = o_Name o ∧
  (unplaced o → emits_for pkg o') ∧
  (∃ gvk gvks, scheme (type_of (o_Body o')) = Ok (gvk :: gvks) ∧ o_GVK o' = gvk) ∧
  (o_Body (injectHBone o) = o_Body o → o_Body o' = o_Body o).

Lemma finish_object pkg scheme (b : bool) o o' :
  setGVK scheme (stampMetadata pkg (if b then injectHBone o else o)) = Ok o' → finished pkg scheme o o'.
Proof.
  intros (gvk & gvks & Hs & ->)%setGVK_Ok. set (i := if b then injectHBone o else o) in *.
  destruct (stampMetadata_frame pkg i) as (Hn & _ & Hb & _).
  assert (type_of (o_Body i) = type_of (o_Body o) ∧ o_Name i = o_Name o ∧ o_Namespace i = o_Namespace o ∧
    (o_Body (injectHBone o) = o_Body o → o_Body i = o_Body o)) as (Ht & Hin & Hns & Hbody).
  { unfold i. destruct b; [|done]. by destruct (injectHBone_frame o) as (? & ? & _ & ? & _). }
  unfold finished. split_and!.
  - simpl. by rewrite Hb.
  - change (o_Name (set_GVK gvk (stampMetadata pkg i))) with (o_Name (stampMetadata pkg i)). congruence.
  - intros Hu. destruct (stampMetadata_emits pkg i) as [[? ? ?] ?]; [unfold unplaced in Hu; congruence|].
    split; [by split|done].
  - exists gvk, gvks. split; [exact Hs|done].
  - intros E. simpl. rewrite Hb. auto.
Qed.

Lemma Generate_finished inp out :
  Generate inp = Ok out →
  ∃ pkg scheme inbound objs,
    in_Package inp = Some pkg ∧ in_Scheme inp = Some scheme ∧ resolveInboundRoutes inp = Ok inbound ∧
    generatePasses pkg inp inbound = Ok objs ∧ Forall2 (finished pkg scheme) objs out.
Proof.
  intros (pkg & scheme & inbound & objs & Hp & Hs & Hin & Hobjs & Hf)%Generate_Ok.
  exists pkg, scheme, inbound, objs. split_and!; [done..|]. unfold hbonePass in Hf.
  destruct (hboneEnabled _ _).
  - unfold injectHBonePorts in Hf. rewrite Forall2_fmap_l in Hf. eapply Forall2_impl; [exact Hf|].
    intros o o' Ho. by apply (finish_object pkg scheme true).
  - eapply Forall2_impl; [exact Hf|]. intros o o' Ho. by apply (finish_object pkg scheme false).
Qed.

Lemma Generate_emits inp pkg out : in_Package inp = Some pkg → Generate inp = Ok out → Forall (emits_for pkg) out.
Proof.
  intros Hpkg (p & s & inbound & objs & Hp & _ & _ & Hobjs & Hf)%Generate_finished. rewrite Hpkg in Hp. injection Hp as <-.
  pose proof (generatePasses_unplaced _ _ _ _ Hobjs) as Hu. rewrite Forall_forall. intros o' [i Ho']%list_elem_of_lookup.
  destruct (Forall2_lookup_r _ _ _ _ _ Hf Ho') as (o & Ho & _ & _ & He & _). rewrite Forall_lookup in Hu. by apply He, (Hu i).
Qed.

Lemma Generate_kinds inp scheme out o :
  in_Scheme inp = Some scheme → Generate inp = Ok out → o ∈ out →
  ∃ gvks, scheme (type_of (o_Body o)) = Ok (o_GVK o :: gvks).
Proof.
  intros Hs (pkg & s & inbound & objs & _ & Hs' & _ & _ & Hf)%Generate_finished [i Hi]%list_elem_of_lookup.
  rewrite Hs in Hs'. simplify_eq.
  destruct (Forall2_lookup_r _ _ _ _ _ Hf Hi) as (o0 & _ & _ & _ & _ & (gvk & gvks & Hg & <-) & _). eauto.
Qed.

(** ** Which pass emits which type *)

Definition sections (pkg : Package) (t : ObjectType) : Prop :=
  let spec := pkg_Spec pkg in
  let istioOn := ∃ i, Spec_Istio spec = Some i ∧ Istio_Enabled i = true in
  match t with
  | TNetworkPolicy => ∃ np, Spec_NetworkPolicies spec = Some np ∧ NP_Enabled np = true
  | TPeerAuthentication | TSidecar => istioOn
  | TAuthorizationPolicy => authzEnabled (Spec_Istio spec) = true ∨ istioOn
  | TVirtualService => is_Some (Spec_Routes spec)
  | TServiceEntry => istioOn ∨ is_Some (Spec_Routes spec)
  end.

Lemma istio_pass_sections pkg i out :
  Spec_Istio (pkg_Spec pkg) = Some i → Istio_Enabled i = true → generateIstio pkg i = Ok out →
  Forall (λ o, sections pkg (type_of (o_Body o))) out.
Proof.
  intros Hs He Ho%generateIstio_objects. eapply Forall_impl; [done|]. intros o [_ Ht].
  rewrite !elem_of_cons, elem_of_nil in Ht. destruct Ht as [->|[->|[->|[]]]]; simpl; eauto.
Qed.

Lemma route_pass_sections pkg rs inbound out :
  Spec_Routes (pkg_Spec pkg) = Some rs → generateRoutes pkg (Some rs) inbound = Ok out →
  Forall (λ o, sections pkg (type_of (o_Body o))) out.
Proof.
  intros Hs. simpl. intros (ins & Hins & Hout)%bind_Ok. apply bind_Ok in Hout as (outs & Houts & Hout).
  injection Hout as <-. apply Forall_app. split.
  - eapply collect_Forall; [done|]. intros r ys _ Hys. unfold inboundResources in Hys.
    apply bind_Ok in Hys as (vs & [_ Ht]%buildVirtualService_object & Hys%(inj Ok)). subst ys.
    apply Forall_cons. split; [by rewrite Ht; simpl; rewrite Hs|]. apply Forall_cons. split; [right; by rewrite Hs|].
    destruct (netpolsEnabled pkg) eqn:En; [|constructor]. apply Forall_fmap, Forall_true. intros gw. simpl.
    unfold netpolsEnabled in En. destruct (Spec_NetworkPolicies _) as [np|]; [|done]. eauto.
  - eapply for_sorted_Forall; [done|]. intros name raw ys _ Hys. unfold outboundResources in Hys.
    apply bind_Ok in Hys as (route & _ & Hys). destruct (negb _); [injection Hys as <-; constructor|].
    destruct (validateOutbound _ _); [done|]. injection Hys as <-. apply Forall_singleton.
    unfold buildOutboundServiceEntry. destruct (Outbound_Metadata route); right; by rewrite Hs.
Qed.

Lemma authz_sections pkg out :
  authzEnabled (Spec_Istio (pkg_Spec pkg)) = true ∨ out = [] → Forall authz_object out →
  Forall (λ o, sections pkg (type_of (o_Body o))) out.
Proof.
  intros [He| ->] Hout; [|constructor]. eapply Forall_impl; [done|]. intros o [_ Ht]. rewrite Ht. by left.
Qed.

Lemma custom_pass_sections pkg out :
  generateCustomAuthzPolicies (Spec_Istio (pkg_Spec pkg)) = Ok out → Forall (λ o, sections pkg (type_of (o_Body o))) out.
Proof.
  intros Hcs. pose proof (generateCustomAuthzPolicies_objects _ _ Hcs) as Hf.
  unfold generateCustomAuthzPolicies in Hcs. destruct (Spec_Istio (pkg_Spec pkg)) as [i|] eqn:Hs;
    [|injection Hcs as <-; constructor].
  destruct (Istio_Enabled i) eqn:He; [|injection Hcs as <-; constructor].
  eapply Forall_impl; [done|]. intros o [_ Ht]. rewrite Ht. right. eauto.
Qed.

Lemma generatePasses_sections pkg inp inbound out :
  generatePasses pkg inp inbound = Ok out → Forall (λ o, sections pkg (type_of (o_Body o))) out.
Proof.
  unfold generatePasses. cbv zeta. intros (is_ & His & Hout)%bind_Ok.
  apply bind_Ok in Hout as (nps & Hnps & Hout). apply bind_Ok in Hout as (rts & Hrts & Hout).
  apply bind_Ok in Hout as (sh & Hsh & Hout). apply bind_Ok in Hout as (cs & Hcs%wrap_Ok & [= <-]).
  rewrite !Forall_app. split_and!.
  - destruct (Spec_Istio _) as [i|] eqn:Hi; [destruct (Istio_Enabled i) eqn:He|]; try (injection His as <-; constructor).
    apply wrap_Ok in His. by eapply istio_pass_sections.
  - destruct (Spec_NetworkPolicies _) as [np|] eqn:Hn; [destruct (NP_Enabled np) eqn:He|]; try (injection Hnps as <-; constructor).
    apply wrap_Ok, generateNetworkPolicies_objects in Hnps. eapply Forall_impl; [done|]. intros o [_ Ht]. rewrite Ht. simpl. eauto.
  - destruct (Spec_Routes _) as [rs|] eqn:Hr; [|injection Hrts as <-; constructor].
    apply wrap_Ok in Hrts. by eapply route_pass_sections.
  - apply authz_sections; [|apply generateDefaultAuthzPolicies_objects]. unfold generateDefaultAuthzPolicies.
    destruct (authzEnabled _); [by left|by right].
  - destruct (Spec_NetworkPolicies _) as [np|]; [|injection Hsh as <-; constructor]. apply wrap_Ok in Hsh.
    apply authz_sections.
    + unfold generateAuthzFromIngressShorthand in Hsh. destruct (authzEnabled _); [by left|right]. by injection Hsh as <-.
    + apply generateAuthzFromIngressShorthand_authz in Hsh. eapply Forall_impl; [done|]. by intros o [? _].
  - destruct (Spec_Routes _) as [rs|]; [|constructor]. apply authz_sections; [|apply generateAuthzFromRoutes_objects].
    unfold generateAuthzFromRoutes. destruct (authzEnabled _); [by left|by right].
  - by apply custom_pass_sections.
Qed.
End Generator.

Section GeneratorProperties.
Context `{Ext}.

Lemma Generate_returns `{!ExtReturns} inp :
  (∀ scheme t, in_Scheme inp = Some scheme → returns (scheme t)) →
  (∀ pkg np, in_Package inp = Some pkg → Spec_NetworkPolicies (pkg_Spec pkg) = Some np → ranges_bounded np) →
  returns (Generate inp).
Proof.
  intros Hscheme Hranges. unfold Generate. destruct (in_Package inp) as [pkg|] eqn:Hp; [|done].
  destruct (in_Scheme inp) as [scheme|] eqn:Hs; [|done].
  apply bind_returns; [apply resolveInboundRoutes_returns; by eexists|]. intros inbound _.
  apply bind_returns; [apply generatePasses_returns; intros np Hnp; by apply (Hranges pkg)|]. intros out _.
  apply traverse_returns. intros o _. apply setGVK_returns. intros t. by apply (Hscheme scheme).
Qed.

(** C15: Every generated object belongs to its Package. It is in the package's
    namespace, carries the package label and the managed-by label and the package
    as controller owner, has the kind the scheme registers first for its Go type,
    and comes from a section of the spec that is switched on: no NetworkPolicy
    with networkPolicies off (not even for a route), no PeerAuthentication or
    Sidecar with istio off, no VirtualService without routes, no
    AuthorizationPolicy with both authorization and istio off. *)
Theorem Generate_well_formed inp pkg scheme out
    (Hpkg : in_Package inp = Some pkg) (Hscheme : in_Scheme inp = Some scheme) (Hout : Generate inp = Ok out) :
  Forall (λ o, emits_for pkg o ∧ sections pkg (type_of (o_Body o)) ∧
               ∃ gvks, scheme (type_of (o_Body o)) = Ok (o_GVK o :: gvks)) out.
Proof.
  pose proof (Generate_emits _ _ _ Hpkg Hout) as Hemits. rewrite Forall_forall in Hemits.
  apply Generate_finished in Hout as (p & s & inbound & objs & Hp & Hs & _ & Hobjs & Hf).
  rewrite Hpkg in Hp. rewrite Hscheme in Hs. simplify_eq. pose proof (generatePasses_sections _ _ _ _ Hobjs) as Hsec.
  apply Forall_forall. intros o' Hin. split; [by apply Hemits|]. apply list_elem_of_lookup in Hin as [i Ho'].
  destruct (Forall2_lookup_r _ _ _ _ _ Hf Ho') as (o & Ho & Ht & _ & _ & (gvk & gvks & Hg & <-) & _).
  rewrite Forall_lookup in Hsec. split; [|by exists gvks]. rewrite Ht. by apply (Hsec i).
Qed.

(** C19: [Generate] returns. On every input whose ingress port ranges end below
    the largest integer, with a scheme and libraries that return, it gives the
    objects or an error: no index is out of range and every loop ends; a missing
    Package or Scheme is an error before anything else is looked at. *)
Theorem Generate_total `{!ExtReturns} inp
    (Hscheme : ∀ scheme t, in_Scheme inp = Some scheme → returns (scheme t))
    (Hranges : ∀ pkg np, in_Package inp = Some pkg → Spec_NetworkPolicies (pkg_Spec pkg) = Some np → ranges_bounded np) :
  returns (Generate inp) ∧
  (in_Package inp = None → Generate inp = Err (Errorf "generator: Package is nil")) ∧
  (is_Some (in_Package inp) → in_Scheme inp = None → Generate inp = Err (Errorf "generator: Scheme is nil")).
Proof.
  split_and!; [by apply Generate_returns|by unfold Generate; intros ->|by unfold Generate; intros [pkg ->] ->].
Qed.

(** The passes' own results, found in the whole. *)
Lemma Generate_passes inp pkg out :
  in_Package inp = Some pkg → Generate inp = Ok out →
  (∀ np, Spec_NetworkPolicies (pkg_Spec pkg) = Some np → NP_Enabled np = true →
     ∀ o, o ∈ defaultEgressPolicies pkg np (Spec_Istio (pkg_Spec pkg)) ++
              defaultIngressPolicies pkg np (Spec_Istio (pkg_Spec pkg)) →
       ∃ o' scheme, o' ∈ out ∧ finished pkg scheme o o') ∧
  (∀ i, Spec_Istio (pkg_Spec pkg) = Some i → Istio_Enabled i = true →
     ∃ o' o ses, generateIstio pkg i = Ok (o :: ses) ∧ o_Body o' = o_Body o ∧ head out = Some o').
Proof.
  intros Hp (p & scheme & inbound & objs & Hp' & _ & _ & Hobjs & Hf)%Generate_finished.
  rewrite Hp in Hp'. simplify_eq. unfold generatePasses in Hobjs. cbv zeta in Hobjs.
  apply bind_Ok in Hobjs as (is_ & His & Hout). apply bind_Ok in Hout as (nps & Hnps & Hout).
  apply bind_Ok in Hout as (rts & _ & Hout). apply bind_Ok in Hout as (sh & _ & Hout).
  apply bind_Ok in Hout as (cs & _ & Hout). apply (inj Ok) in Hout. split.
  - intros np Hnp Hen o Ho. rewrite Hnp, Hen in Hnps. apply wrap_Ok in Hnps.
    unfold generateNetworkPolicies in Hnps. cbv zeta in Hnps.
    apply bind_Ok in Hnps as (eg & _ & Hnps). apply bind_Ok in Hnps as (ing & _ & Hnps).
    apply bind_Ok in Hnps as (ad & _ & Hnps). apply bind_Ok in Hnps as (leg & _ & Hnps). apply (inj Ok) in Hnps.
    assert (o ∈ objs) as [k Hk]%list_elem_of_lookup by (subst; set_solver).
    destruct (Forall2_lookup_l _ _ _ _ _ Hf Hk) as (o' & Ho' & Hfin). exists o', scheme.
    split; [by eapply list_elem_of_lookup_2|done].
  - intros i Hi Hen. rewrite Hi, Hen in His. apply wrap_Ok in His.
    pose proof His as Hgen. unfold generateIstio in His.
    apply bind_Ok in His as (ses & _ & His). apply (inj Ok) in His. subst is_ objs.
    simpl in Hf. apply Forall2_cons_inv_l in Hf as (o' & out' & (_ & _ & _ & _ & Hb) & _ & ->).
    do 3 eexists. split; [exact Hgen|]. split; [by apply Hb|done].
Qed.

(** C22: The baseline reaches the cluster. Whatever else the spec asks for, a
    successful run with networkPolicies on contains, in the package's namespace,
    a policy that denies all egress (ingress) of every pod unless the author
    switched that default off, and HBONE injection leaves it closed; with istio
    on the first object is the PeerAuthentication that sets the namespace's mTLS
    mode. *)
Theorem Generate_baseline inp pkg out
    (Hpkg : in_Package inp = Some pkg) (Hout : Generate inp = Ok out) :
  (∀ np, Spec_NetworkPolicies (pkg_Spec pkg) = Some np → NP_Enabled np = true →
     (egress_off EgressDefaults_DenyAll np ∨
        ∃ o, o ∈ out ∧ denies_all ["Egress"] o ∧ o_Namespace o = pkg_Namespace pkg) ∧
     (ingress_off IngressDefaults_DenyAll np ∨
        ∃ o, o ∈ out ∧ denies_all ["Ingress"] o ∧ o_Namespace o = pkg_Namespace pkg)) ∧
  (∀ i, Spec_Istio (pkg_Spec pkg) = Some i → Istio_Enabled i = true →
     ∃ o, head out = Some o ∧ o_Body o = PeerAuthentication (mTLSMode (Some i))).
Proof.
  destruct (Generate_passes _ _ _ Hpkg Hout) as [Hnps Hist]. split.
  - intros np Hnp Hen. specialize (Hnps np Hnp Hen).
    assert (∀ types o, o ∈ defaultEgressPolicies pkg np (Spec_Istio (pkg_Spec pkg)) ++
              defaultIngressPolicies pkg np (Spec_Istio (pkg_Spec pkg)) → denies_all types o → unplaced o →
              ∃ o', o' ∈ out ∧ denies_all types o' ∧ o_Namespace o' = pkg_Namespace pkg) as Hdeny.
    { intros types o Ho Hd Hu. destruct (Hnps o Ho) as (o' & scheme & Ho' & _ & _ & He & _ & Hb).
      exists o'. split; [done|]. unfold denies_all in *. split; [|by apply He].
      rewrite Hb; [done|]. unfold injectHBone. by rewrite Hd. }
    split.
    + destruct (egressGate EgressDefaults_DenyAll np) eqn:Hg; [right|left; by apply egressGate_off].
      eapply (Hdeny _ (egressNetpol _ _ _ _ [])); [|done..]. unfold defaultEgressPolicies, egressDenyAll.
      rewrite Hg. do 2 (apply elem_of_app; left). by left.
    + destruct (ingressGate IngressDefaults_DenyAll np) eqn:Hg; [right|left; by apply ingressGate_off].
      eapply (Hdeny _ (ingressNetpol _ _ _ _ [])); [|done..]. unfold defaultIngressPolicies, ingressDenyAll.
      rewrite Hg. apply elem_of_app; right. apply elem_of_app; left. by left.
  - intros i Hi Hen. destruct (Hist i Hi Hen) as (o' & o & ses & Hgen & Hb & Hh). exists o'. split; [done|].
    rewrite Hb. unfold generateIstio in Hgen. apply bind_Ok in Hgen as (? & _ & Hgen). by injection Hgen as <- _.
Qed.
End GeneratorProperties.

(** Ambient istio, one ingress rule and one route: every pass emits something. *)
Definition example_full_istio : Istio :=
  {| Istio_Ambient := Some {| Ambient_Enabled := true |}; Istio_AuthorizationPolicies := None; Istio_Enabled := true;
     Istio_Mtls := None; Istio_PrependReleaseName := false; Istio_ServiceEntries := None; Istio_Sidecar := None |}.
Definition example_full_spec : PackageSpec :=
  {| Spec_Istio := Some example_full_istio;
     Spec_NetworkPolicies := Some example_ingress_np; Spec_Routes := Some example_routes |}.
Definition example_full_input : Input := example_input example_full_spec.
Definition example_scheme : Scheme := λ _, Ok [noGVK].
Definition example_full_objects : list Object :=
  ok_value [] (Generate example_full_input).

Lemma example_full_run : Generate example_full_input = Ok example_full_objects.
Proof. apply ok_by_compute. vm_compute. reflexivity. Qed.

Lemma Generate_well_formed_witness :
  length example_full_objects = 15 ∧
  Forall (λ o, emits_for (demo_package example_full_spec) o ∧ sections (demo_package example_full_spec) (type_of (o_Body o)) ∧
               ∃ gvks, example_scheme (type_of (o_Body o)) = Ok (o_GVK o :: gvks)) example_full_objects.
Proof.
  split; [vm_compute; reflexivity|].
  apply (Generate_well_formed example_full_input (demo_package example_full_spec) example_scheme example_full_objects);
    [reflexivity|reflexivity|exact example_full_run].
Defined.

Lemma example_ranges_bounded : ranges_bounded example_ingress_np.
Proof.
  intros ing localKey pl [= <-] [raw Hk] Hpl. cbn [Ingress_To] in Hk. apply lookup_singleton_Some in Hk as [<- _].
  vm_compute in Hpl. injection Hpl as <-. simpl. unfold MaxInt64. repeat constructor.
Qed.

Lemma example_scheme_returns scheme t : in_Scheme example_full_input = Some scheme → returns (scheme t).
Proof. by intros [= <-]. Qed.

Lemma Generate_total_witness : returns (Generate example_full_input).
Proof.
  apply (Generate_total example_full_input example_scheme_returns).
  intros pkg np [= <-] [= <-]. exact example_ranges_bounded.
Defined.

Lemma Generate_baseline_witness :
  ∃ o, head example_full_objects = Some o ∧ o_Body o = PeerAuthentication MutualTLS_STRICT.
Proof.
  apply (proj2 (Generate_baseline example_full_input (demo_package example_full_spec) example_full_objects eq_refl
    example_full_run) example_full_istio); reflexivity.
Defined.
