(* ===== verification/ObjectNames.v ===== *)
(** * The names of the generated objects

    The API server accepts an object only if its name is a DNS-1123 subdomain.
    The generator puts names together from the keys of the notation; this file
    shows that they have that form when the parts that the keys name have it, and
    which keys the grammars accept that lead to a name without it. *)

From S2P Require Import Prelude GoStrings Regex Json K8s ApiTypes External Names ShorthandKeys Metadata.
From S2P Require Import ShorthandValues NetpolCommon Definitions NetpolDefaults NetpolShorthand Netpols Istio.
From S2P Require Import RouteDecode IngressConfig Routes Authz Generator.
Local Open Scope string_scope.
Local Open Scope list_scope.

(** ** DNS-1123 subdomains

    [[a-z0-9]([-a-z0-9]*[a-z0-9])?(\.[a-z0-9]([-a-z0-9]*[a-z0-9])?)*] as an automaton.
    The limit of 253 bytes is not part of it. *)

Inductive name_state := AtStart | AfterAlnum | AfterDash.
Definition name_step (st : name_state) (c : ascii) : option name_state :=
  if is_lower c || is_digit c then Some AfterAlnum
  else if Ascii.eqb c "-" then match st with AtStart => None | _ => Some AfterDash end
  else if Ascii.eqb c "." then match st with AfterAlnum => Some AtStart | _ => None end
  else None.
Fixpoint name_run (st : name_state) (s : string) : option name_state :=
  match s with "" => Some st | String c s => name_step st c ≫= λ st', name_run st' s end.

Definition object_name (s : string) : Prop := name_run AtStart s = Some AfterAlnum.
(** What may follow a name. *)
Definition name_tail (s : string) : Prop := name_run AfterAlnum s = Some AfterAlnum.

Lemma name_run_app st a b : name_run st (a +:+ b) = name_run st a ≫= λ st', name_run st' b.
Proof.
  revert st. induction a as [|c a IH]; intros st; [done|]. rewrite str_app_cons. simpl.
  destruct (name_step st c); simpl; [apply IH|done].
Qed.

(** A name is one wherever it stands. *)
Lemma name_run_any st s : object_name s → name_run st s = Some AfterAlnum.
Proof.
  unfold object_name. destruct s as [|c s]; simpl; [done|]. unfold name_step.
  destruct (is_lower c || is_digit c); [done|]. destruct (Ascii.eqb c "-"); [done|]. by destruct (Ascii.eqb c ".").
Qed.

(** Names are put together from literals, names and tails. *)
Lemma run_lit st l st' rest r : name_run st l = Some st' → name_run st' rest = r → name_run st (l +:+ rest) = r.
Proof. intros Hl <-. by rewrite name_run_app, Hl. Qed.
Lemma run_name st n rest r : object_name n → name_run AfterAlnum rest = r → name_run st (n +:+ rest) = r.
Proof. intros Hn <-. by rewrite name_run_app, name_run_any. Qed.
Lemma run_tail n rest r : name_tail n → name_run AfterAlnum rest = r → name_run AfterAlnum (n +:+ rest) = r.
Proof. intros Hn <-. by rewrite name_run_app, Hn. Qed.

Create HintDb names.
(** Left to right over the parts of a name. *)
Ltac solve_name :=
  unfold object_name, name_tail; rewrite <-?str_app_assoc;
  repeat first
    [ eapply run_lit; [reflexivity|]
    | eapply run_name; [solve [eauto with names]|]
    | eapply run_tail; [solve [eauto with names]|] ];
  first
    [ reflexivity
    | apply name_run_any; solve [eauto with names]
    | match goal with |- name_run AfterAlnum ?s = _ => change (name_tail s) end; solve [eauto with names] ].

(** ** The parts *)

Lemma digits_name s : digits s → object_name s.
Proof.
  intros [Hne Hd]. assert (∀ t st, str_forall is_digit t = true → st = AfterAlnum ∨ t ≠ "" → name_run st t = Some AfterAlnum) as Hrun;
    [|by apply Hrun; [|right]].
  induction t as [|c t IH]; intros st Ht Hst; [by destruct Hst as [->|]|]. simpl in *. apply andb_prop in Ht as [Hc Ht].
  unfold name_step. rewrite Hc, orb_true_r. apply IH; [done|by left].
Qed.
Lemma Itoa_name p : (0 ≤ p)%Z → object_name (Itoa p).
Proof. intros Hp. apply digits_name. split; [apply Itoa_nonempty|by apply Itoa_digits]. Qed.
#[export] Hint Resolve digits_name Itoa_name : names.

Lemma writePorts_tail ports : Forall in_int64_nonneg ports → name_tail (writePorts ports).
Proof.
  induction 1 as [|p ports [Hp _] _ IH]; [done|]. cbn [writePorts]. solve_name.
Qed.
#[export] Hint Resolve writePorts_tail : names.

Lemma namePortSuffix_name ports range suffix :
  Forall in_int64_nonneg ports → namePortSuffix ports range = Ok suffix → object_name suffix.
Proof.
  intros Hp. unfold namePortSuffix. destruct (_ =? 0)%nat; [by intros [= <-]|]. destruct range.
  - intros (p0 & H0 & Hs)%bind_Ok. apply bind_Ok in Hs as (p1 & H1 & Hs). injection Hs as <-.
    apply index_Ok in H0, H1. rewrite Forall_lookup in Hp. destruct (Hp _ _ H0) as [? _], (Hp _ _ H1) as [? _]. solve_name.
  - intros [= <-]. destruct (1 <? length ports)%nat; solve_name.
Qed.

Definition proto_ok (protocol : string) : Prop := protocol = "TCP" ∨ protocol = "UDP".
Lemma proto_name protocol : proto_ok protocol → object_name (ToLower protocol).
Proof. by intros [-> | ->]. Qed.
#[export] Hint Resolve namePortSuffix_name proto_name : names.

Lemma protoIfPorts_tail protocol ports : proto_ok protocol → name_tail (protoIfPorts protocol ports).
Proof. intros Hp. unfold protoIfPorts. destruct (0 <? length ports)%nat; [solve_name|done]. Qed.

Lemma prependName_name prepend release name : object_name release → object_name name → object_name (prependName prepend release name).
Proof. intros Hr Hn. unfold prependName. destruct prepend; simpl; [solve_name|done]. Qed.
#[export] Hint Resolve protoIfPorts_tail prependName_name : names.

(** An address with its mask. *)
Lemma map_digits f s : (∀ c, is_digit c = true → f c = c) → str_forall is_digit s = true → str_map f s = s.
Proof.
  intros Hf. induction s as [|c s IH]; [done|]. simpl. intros [Hc Hs]%andb_prop. by rewrite Hf, IH.
Qed.
Lemma str_map_app f a b : str_map f (a +:+ b) = str_map f a +:+ str_map f b.
Proof. induction a as [|c a IH]; [done|]. rewrite str_app_cons. simpl. by rewrite IH. Qed.
Lemma replace_digits s c : is_digit c = false → digits s → ReplaceAllByte s c "-" = s.
Proof.
  intros Hc [_ Hs]. apply map_digits; [|done]. intros d Hd. destruct (Ascii.eqb_spec d c) as [->|]; [congruence|done].
Qed.
Lemma segment_digits s : digits s → cidrNameSegment s = s.
Proof. intros Hs. unfold cidrNameSegment. cbv zeta. by rewrite (replace_digits s "."), (replace_digits s "/"). Qed.
Lemma segment_app a b : cidrNameSegment (a +:+ b) = cidrNameSegment a +:+ cidrNameSegment b.
Proof. unfold cidrNameSegment, ReplaceAllByte. by rewrite !str_map_app. Qed.
Lemma cidr_name c : cidr_text_ok c → object_name (cidrNameSegment (cidr_render c)).
Proof.
  intros (Ha & Hb & Hc & Hd & Hm). unfold cidr_render, cidr_addr.
  change (String "/" (ct_mask c)) with ("/" +:+ ct_mask c). rewrite !segment_app.
  rewrite (segment_digits _ Ha), (segment_digits _ Hb), (segment_digits _ Hc), (segment_digits _ Hd), (segment_digits _ Hm).
  solve_name.
Qed.
#[export] Hint Resolve cidr_name : names.

Lemma cidrSegment_tail prefix c st :
  cidr_text_ok c → name_run AfterAlnum prefix = Some st → name_tail (cidrSegment prefix (cidr_render c)).
Proof.
  intros Hc Hp. unfold cidrSegment. destruct (String.eqb _ _); (eapply run_lit; [exact Hp|]); [by destruct st|].
  destruct st; solve_name.
Qed.

(** ** The keys *)

Definition name_or_star (s : string) : Prop := s = "*" ∨ object_name s.
(** A remote key whose namespace and pod are names, where it names them. *)
Definition remote_named (r : parsedK8sRemote) : Prop :=
  name_or_star (remote_Namespace r) ∧ (remote_Pod r = "" ∨ name_or_star (remote_Pod r)).

Lemma localNameOf_name key : name_or_star key → object_name (localNameOf key).
Proof. unfold localNameOf. destruct (String.eqb_spec key "*") as [->|Hn]; [done|]. by intros [?|?]. Qed.
#[export] Hint Resolve localNameOf_name : names.

Lemma remoteSegment_tail to_ from r st :
  remote_named r → name_run AfterAlnum to_ = Some st → name_tail from → name_tail (remoteSegment to_ from r).
Proof.
  intros [Hns Hpod] Hto Hfrom. unfold remoteSegment, name_tail.
  assert (name_run AfterAlnum (if String.eqb (remote_Namespace r) "*" then to_ +:+ "any-ns" else to_ +:+ "ns-" +:+ remote_Namespace r) =
    Some AfterAlnum) as Hn.
  { destruct (String.eqb_spec (remote_Namespace r) "*") as [_|Hne]; (eapply run_lit; [exact Hto|]); [by destruct st|].
    destruct Hns as [?|Hns]; [done|]. destruct st; solve_name. }
  rewrite name_run_app, Hn. simpl. destruct (String.eqb_spec (remote_Pod r) "") as [_|He]; simpl; [solve_name|].
  destruct (String.eqb_spec (remote_Pod r) "*") as [_|Hs]; simpl; [solve_name|].
  destruct Hpod as [?|[?|Hp]]; [done..|]. solve_name.
Qed.

(** The protocol and the ports of a key. *)
Lemma protoSuffix_tail local : proto_ok (local_Protocol local) → name_tail (protoSuffix local).
Proof. intros Hp. unfold protoSuffix. destruct (_ && _); [solve_name|done]. Qed.
Lemma protoPortsSuffix_tail local suffix :
  ports_sound (local_Protocol local) (local_Ports local) (local_HasPortRange local) →
  protoPortsSuffix local = Ok suffix → name_tail suffix.
Proof.
  intros (Hp & Hports & _). unfold protoPortsSuffix. destruct (0 <? length _)%nat; [|by intros [= <-]].
  intros (s & Hs & Hsuf)%bind_Ok. injection Hsuf as <-. pose proof (namePortSuffix_name _ _ _ Hports Hs).
  pose proof (proto_name _ Hp). solve_name.
Qed.
#[export] Hint Resolve protoSuffix_tail protoPortsSuffix_tail : names.

(** ** The builders of the shorthand *)

Definition named (o : Object) : Prop := object_name (o_Name o).

Lemma emit_named np local remote : named np → Forall named (emit np local remote).
Proof. intros Hn. unfold emit, named. apply Forall_singleton. by rewrite (proj1 (apply_frame np _)). Qed.

Section Builders.
Context `{Ext} (pkg : Package) (prepend : bool) (npLabels : gomap string) (Hpkg : object_name (pkg_Name pkg)).

Lemma egress_k8s_named localKey local key r target np :
  name_or_star localKey → parseEgressRemoteKey key = Ok r → remote_named r →
  buildShorthandEgressNetpol pkg prepend npLabels localKey local key r target = Ok np → named np.
Proof.
  intros Hl (Hp & Hports & _)%parseEgressRemoteKey_sound Hr (suffix & Hs & Hnp)%bind_Ok. injection Hnp as <-.
  apply prependName_name; [done|]. pose proof (namePortSuffix_name _ _ _ Hports Hs).
  eapply run_lit; [reflexivity|]. eapply run_name; [by apply localNameOf_name|].
  eapply remoteSegment_tail; [done|reflexivity|]. solve_name.
Qed.

Lemma ingress_k8s_named key parsedLocal local remoteKey r target np :
  parseIngressLocalKey key = Ok parsedLocal → object_name (local_Pod parsedLocal) → remote_named r →
  buildShorthandIngressNetpol pkg prepend npLabels parsedLocal local remoteKey r target = Ok np → named np.
Proof.
  intros (Hp & Hports & _)%parseIngressLocalKey_sound Hl Hr (suffix & Hs & Hnp)%bind_Ok. injection Hnp as <-.
  apply prependName_name; [done|]. pose proof (namePortSuffix_name _ _ _ Hports Hs).
  assert (name_tail (remoteSegment "-from-" "" r)) by by eapply remoteSegment_tail. solve_name.
Qed.

Lemma egress_cidr_named spec localKey local key c np :
  name_or_star localKey → parseEgressCIDRKey key = Ok c →
  buildEgressCIDRNetpol pkg spec prepend npLabels localKey local key c = Ok np → named np.
Proof.
  intros Hl Hc. pose proof (parseEgressCIDRKey_sound _ _ Hc) as (Hp & Hports & _).
  apply (parser_ok_Ok egressCIDRKeyRe _ _ _ _ egressCIDRKeyRe_spec parseEgressCIDRKey_ok) in Hc as (k & [Hk _] & _ & Hv).
  assert (cidr_CIDR c = cidr_render (ck_cidr k)) as Ek.
  { unfold egress_cidr_key_value in Hv. by destruct (colon_value _) as [[ports range]|]; simplify_eq/=. }
  intros (suffix & Hs & Hnp)%bind_Ok. injection Hnp as <-. apply prependName_name; [done|]. rewrite Ek.
  pose proof (namePortSuffix_name _ _ _ Hports Hs). pose proof (cidrSegment_tail "-to-" _ _ Hk eq_refl). solve_name.
Qed.

(** The CIDR of an ingress key. *)
Lemma ingress_cidr_tail key c : parseIngressCIDRKey key = Ok c → name_tail (cidrSegment "-from-" (cidr_CIDR c)).
Proof.
  intros Hc. apply (parser_ok_Ok ingressCIDRKeyRe _ _ _ _ cidr_re_spec parseIngressCIDRKey_ok) in Hc as (k & Hk & _ & Hv).
  injection Hv as <-. by eapply cidrSegment_tail.
Qed.

Lemma ingress_cidr_named key parsedLocal local cidrKey c np :
  parseIngressLocalKey key = Ok parsedLocal → object_name (local_Pod parsedLocal) → parseIngressCIDRKey cidrKey = Ok c →
  buildIngressCIDRNetpol pkg prepend npLabels parsedLocal local cidrKey c = Ok np → named np.
Proof.
  intros Hs%parseIngressLocalKey_sound Hl Hc (suffix & Hsuf & Hnp)%bind_Ok. injection Hnp as <-.
  apply prependName_name; [done|]. pose proof (ingress_cidr_tail _ _ Hc). pose proof (protoPortsSuffix_tail _ _ Hs Hsuf).
  pose proof (protoSuffix_tail _ (proj1 Hs)). solve_name.
Qed.

Lemma egress_definition_named localKey local name def :
  name_or_star localKey → object_name (ToLower name) →
  named (buildEgressDefinitionNetpol pkg prepend npLabels localKey local name def).
Proof. intros Hl Hn. apply prependName_name; [done|]. solve_name. Qed.

Lemma ingress_definition_named key parsedLocal local name def np :
  parseIngressLocalKey key = Ok parsedLocal → object_name (local_Pod parsedLocal) → object_name (ToLower name) →
  buildIngressDefinitionNetpol pkg prepend npLabels parsedLocal local name def = Ok np → named np.
Proof.
  intros Hs%parseIngressLocalKey_sound Hl Hn (suffix & Hsuf & Hnp)%bind_Ok. injection Hnp as <-.
  apply prependName_name; [done|]. pose proof (protoPortsSuffix_tail _ _ Hs Hsuf).
  pose proof (protoSuffix_tail _ (proj1 Hs)). solve_name.
Qed.

Lemma egress_literal_named localKey local key lit np :
  name_or_star localKey → object_name (ToLower key) →
  buildEgressLiteralNetpol pkg prepend npLabels localKey local key lit = Ok np → named np.
Proof.
  intros Hl Hn. unfold buildEgressLiteralNetpol. destruct (negb _); [done|].
  intros ([rules yaml] & _ & Hnp)%bind_Ok. injection Hnp as <-. apply prependName_name; [done|]. solve_name.
Qed.

Lemma ingress_literal_named key parsedLocal local ruleKey lit np :
  parseIngressLocalKey key = Ok parsedLocal → object_name (local_Pod parsedLocal) → object_name (ToLower ruleKey) →
  buildIngressLiteralNetpol pkg prepend npLabels parsedLocal local ruleKey lit = Ok np → named np.
Proof.
  intros Hs%parseIngressLocalKey_sound Hl Hn. unfold buildIngressLiteralNetpol. destruct (negb _); [done|].
  intros ([rules yaml] & _ & Hnp)%bind_Ok. injection Hnp as <-. apply prependName_name; [done|].
  pose proof (protoSuffix_tail _ (proj1 Hs)). solve_name.
Qed.

(** The companions in the mesh.  A key with an identity names the namespace in
    the policy's name as it is, so it must not be a star. *)
Definition identity_named (r : parsedK8sRemote) : Prop :=
  remote_Identity r = "" ∨ object_name (remote_Identity r) ∧ object_name (remote_Namespace r).

Lemma authz_k8s_named key parsedLocal local remoteKey r ap :
  parseIngressLocalKey key = Ok parsedLocal → object_name (local_Pod parsedLocal) → remote_named r → identity_named r →
  buildAuthzFromShorthand pkg prepend parsedLocal local remoteKey r = Ok ap → named ap.
Proof.
  intros (Hp & Hports & _)%parseIngressLocalKey_sound Hl [Hns _] Hid. unfold buildAuthzFromShorthand, authzRemote.
  intros (suffix & Hs & Hap)%bind_Ok. cbv zeta in Hap. pose proof (namePortSuffix_name _ _ _ Hports Hs).
  pose proof (protoSuffix_tail _ Hp). unfold identity_named in Hid.
  destruct (String.eqb_spec (remote_Identity r) "") as [He|He]; simpl in Hap.
  - destruct (String.eqb_spec (remote_Namespace r) "*") as [Hst|Hst];
      apply bind_Ok in Hap as (to_ & _ & Hap); injection Hap as <-; (apply prependName_name; [done|]); [solve_name|].
    destruct Hns as [?|Hns]; [done|]. solve_name.
  - destruct Hid as [?|[Hid Hn]]; [done|]. apply bind_Ok in Hap as (to_ & _ & Hap). injection Hap as <-.
    apply prependName_name; [done|]. solve_name.
Qed.

Lemma authz_cidr_named key parsedLocal local cidrKey c ap :
  parseIngressLocalKey key = Ok parsedLocal → object_name (local_Pod parsedLocal) → parseIngressCIDRKey cidrKey = Ok c →
  buildAuthzFromCIDR pkg prepend parsedLocal local cidrKey c = Ok ap → named ap.
Proof.
  intros Hs%parseIngressLocalKey_sound Hl Hc (suffix & Hsuf & Hap)%bind_Ok. cbv zeta in Hap.
  apply bind_Ok in Hap as (to_ & _ & Hap). injection Hap as <-. apply prependName_name; [done|].
  pose proof (ingress_cidr_tail _ _ Hc). pose proof (protoPortsSuffix_tail _ _ Hs Hsuf).
  pose proof (protoSuffix_tail _ (proj1 Hs)). solve_name.
Qed.
End Builders.

(** ** The notation *)

(** The enabled entries of a source or destination: what their keys name, they
    name with names. *)
Record peer_named (remote_ok : string → Prop) (p : shorthandPeer) : Prop := {
  k8s_named key t : K8s p !! key = Some t → st_Enabled t = true → remote_ok key;
  definition_named key t : sp_Definition p !! key = Some t → st_Enabled t = true → object_name (ToLower key);
  literal_named key lit : Literal p !! key = Some lit → lt_Enabled lit = true → object_name (ToLower key)
}.
Definition egress_remote_ok (key : string) : Prop := ∀ r, parseEgressRemoteKey key = Ok r → remote_named r.
Definition ingress_remote_ok (key : string) : Prop :=
  ∀ r, parseIngressRemoteKey key = Ok r → remote_named r ∧ identity_named r.

Record policies_named (np : NetworkPolicies) : Prop := {
  source_named egress key raw local to_ :
    NP_Egress np = Some egress → Egress_From egress !! key = Some raw →
    Unmarshal shorthandSource_UnmarshalJSON (Raw raw) = Ok local → ss_To local = Some to_ →
    name_or_star key ∧ peer_named egress_remote_ok to_;
  destination_named ingress key raw local parsedLocal from :
    NP_Ingress np = Some ingress → Ingress_To ingress !! key = Some raw →
    Unmarshal shorthandSource_UnmarshalJSON (Raw raw) = Ok local → ss_From local = Some from →
    parseIngressLocalKey key = Ok parsedLocal →
    object_name (local_Pod parsedLocal) ∧ peer_named ingress_remote_ok from;
  additional_named raw : raw ∈ NP_AdditionalPolicies np ++ NP_Additional np → object_name (AdditionalPolicy_Name raw)
}.

(** The name of an entry, or its key when it has none. *)
Definition name_or_key (key : string) (name : option string) : string :=
  match name with Some n => if negb (String.eqb n "") then n else key | None => key end.
Record istio_named (i : Istio) : Prop := {
  entry_named ses elem :
    Istio_ServiceEntries i = Some ses → elem ∈ ServiceEntries_Custom ses → object_name (ServiceEntryCustom_Name elem);
  custom_named ap elem :
    Istio_AuthorizationPolicies i = Some ap → elem ∈ Authz_Custom ap → object_name (AuthzCustom_Name elem);
  authz_named ap key elem :
    Istio_AuthorizationPolicies i = Some ap → Authz_AdditionalPolicies ap !! key = Some elem →
    AuthzAdditional_Enabled elem = true → object_name (name_or_key key (AuthzAdditional_Name elem))
}.

Record routes_named (rs : Routes) (inbound : list resolvedInbound) : Prop := {
  inbound_named r : r ∈ inbound → object_name (ri_name r) ∧ object_name (serviceLeaf (Inbound_Service (ri_route r)));
  gateway_named r gw : r ∈ inbound → gw ∈ ri_gateways r → object_name (rg_name gw) ∧ object_name (rg_namespace gw);
  outbound_named name raw : Routes_Outbound rs !! name = Some raw → object_name name
}.

Record spec_named `{Ext} (inp : Input) (pkg : Package) : Prop := {
  package_named : object_name (pkg_Name pkg);
  netpols_named np : Spec_NetworkPolicies (pkg_Spec pkg) = Some np → policies_named np;
  mesh_named i : Spec_Istio (pkg_Spec pkg) = Some i → istio_named i;
  routing_named rs inbound :
    Spec_Routes (pkg_Spec pkg) = Some rs → resolveInboundRoutes inp = Ok inbound → routes_named rs inbound
}.

(** ** The passes *)

Section Passes.
Context `{Ext} (pkg : Package) (Hpkg : object_name (pkg_Name pkg)).

(** An entry that is off makes no object. *)
Ltac entry_on e :=
  cbv beta; destruct e eqn:He; cbn [negb]; [|let Hys := fresh in intros Hys; injection Hys as <-; by constructor].
Ltac fixed := apply prependName_name; [exact Hpkg|reflexivity].

Lemma egress_source_named spec env localKey local to_ out :
  name_or_star localKey → peer_named egress_remote_ok to_ →
  expandEgressSource pkg spec env localKey local to_ = Ok out → Forall named out.
Proof.
  intros Hl [Hk Hd Hlit] (ks & Hks & Hout)%bind_Ok. apply bind_Ok in Hout as (ds & Hds & Hout).
  apply bind_Ok in Hout as (cs & Hcs & Hout). apply bind_Ok in Hout as (ls & Hls & Hout). injection Hout as <-.
  rewrite !Forall_app. split_and!.
  - eapply for_sorted_Forall; [exact Hks|]. intros key t ys Hkey. entry_on (st_Enabled t).
    intros (r & Hr%wrap_Ok & Hys)%bind_Ok. apply bind_Ok in Hys as (np & Hnp & Hys). injection Hys as <-.
    apply emit_named. eapply egress_k8s_named; [done..| |exact Hnp]. by apply (Hk key t).
  - eapply for_sorted_Forall; [exact Hds|]. intros key t ys Hkey. entry_on (st_Enabled t).
    intros (def & _ & Hys)%bind_Ok. injection Hys as <-. apply emit_named, egress_definition_named; [done..|by eapply Hd].
  - eapply for_sorted_Forall; [exact Hcs|]. intros key t ys Hkey. entry_on (st_Enabled t).
    intros (c & Hc%wrap_Ok & Hys)%bind_Ok. apply bind_Ok in Hys as (np & Hnp & Hys). injection Hys as <-.
    apply emit_named. by eapply egress_cidr_named.
  - eapply for_sorted_Forall; [exact Hls|]. intros key lit ys Hkey. entry_on (lt_Enabled lit).
    intros (np & Hnp%wrap_Ok & Hys)%bind_Ok. injection Hys as <-. apply emit_named.
    eapply egress_literal_named; [done..| |exact Hnp]. by eapply Hlit.
Qed.

Lemma ingress_destination_named spec env localKey parsedLocal local from out :
  parseIngressLocalKey localKey = Ok parsedLocal → object_name (local_Pod parsedLocal) →
  peer_named ingress_remote_ok from →
  expandIngressDestination pkg spec env localKey parsedLocal local from = Ok out → Forall named out.
Proof.
  intros Hp Hl [Hk Hd Hlit] (ks & Hks & Hout)%bind_Ok. apply bind_Ok in Hout as (ds & Hds & Hout).
  apply bind_Ok in Hout as (cs & Hcs & Hout). apply bind_Ok in Hout as (ls & Hls & Hout). injection Hout as <-.
  rewrite !Forall_app. split_and!.
  - eapply for_sorted_Forall; [exact Hks|]. intros key t ys Hkey. entry_on (st_Enabled t).
    intros (r & Hr%wrap_Ok & Hys)%bind_Ok. apply bind_Ok in Hys as (np & Hnp & Hys). injection Hys as <-.
    apply emit_named. eapply ingress_k8s_named; [done..| |exact Hnp]. by apply (Hk key t).
  - eapply for_sorted_Forall; [exact Hds|]. intros key t ys Hkey. entry_on (st_Enabled t).
    intros (def & _ & Hys)%bind_Ok. apply bind_Ok in Hys as (np & Hnp & Hys). injection Hys as <-.
    apply emit_named. eapply ingress_definition_named; [done..| |exact Hnp]. by eapply Hd.
  - eapply for_sorted_Forall; [exact Hcs|]. intros key t ys Hkey. entry_on (st_Enabled t).
    intros (c & Hc%wrap_Ok & Hys)%bind_Ok. apply bind_Ok in Hys as (np & Hnp & Hys). injection Hys as <-.
    apply emit_named. by eapply ingress_cidr_named.
  - eapply for_sorted_Forall; [exact Hls|]. intros key lit ys Hkey. entry_on (lt_Enabled lit).
    intros (np & Hnp%wrap_Ok & Hys)%bind_Ok. injection Hys as <-. apply emit_named.
    eapply ingress_literal_named; [done..| |exact Hnp]. by eapply Hlit.
Qed.

Lemma netpol_pass_named np istio env out :
  policies_named np → generateNetworkPolicies pkg np istio env = Ok out → Forall named out.
Proof.
  intros [Hsrc Hdst Hadd] (es & Hes & Hout)%bind_Ok. apply bind_Ok in Hout as (is_ & His & Hout).
  apply bind_Ok in Hout as (as_ & Has%traverse_Ok & Hout). apply bind_Ok in Hout as (ls & Hls%traverse_Ok & Hout).
  injection Hout as <-. rewrite !Forall_app. split_and!.
  - unfold defaultEgressPolicies. rewrite !Forall_app. split_and!; destruct (_ : bool); repeat constructor; fixed.
  - unfold defaultIngressPolicies. rewrite !Forall_app. split_and!; destruct (_ : bool); repeat constructor; fixed.
  - destruct (NP_Egress np) as [egress|] eqn:He; [|by injection Hes as <-]. unfold expandShorthandEgress in Hes. rewrite He in Hes.
    eapply for_sorted_Forall; [exact Hes|]. intros key raw ys Hkey (local & Hlocal%wrap_Ok & Hys)%bind_Ok.
    destruct (ss_To local) as [to_|] eqn:Hto; [|by injection Hys as <-].
    destruct (Hsrc _ _ _ _ _ eq_refl Hkey Hlocal Hto). by eapply egress_source_named.
  - destruct (NP_Ingress np) as [ingress|] eqn:Hi; [|by injection His as <-]. unfold expandShorthandIngress in His. rewrite Hi in His.
    eapply for_sorted_Forall; [exact His|]. intros key raw ys Hkey (local & Hlocal%wrap_Ok & Hys)%bind_Ok.
    destruct (ss_From local) as [from|] eqn:Hfrom; [|by injection Hys as <-].
    apply bind_Ok in Hys as (parsedLocal & Hp%wrap_Ok & Hys).
    destruct (Hdst _ _ _ _ _ _ eq_refl Hkey Hlocal Hfrom Hp). by eapply ingress_destination_named.
  - rewrite Forall_lookup. intros i o Ho. destruct (Forall2_lookup_r _ _ _ _ _ Has Ho) as (raw & Hraw & Hb).
    unfold named, o_Name. rewrite (proj1 (buildAdditionalPolicy_meta _ _ _ _ Hb)). apply prependName_name; [done|].
    apply Hadd, elem_of_app. left. by eapply list_elem_of_lookup_2.
  - rewrite Forall_lookup. intros i o Ho. destruct (Forall2_lookup_r _ _ _ _ _ Hls Ho) as (raw & Hraw & Hb).
    unfold named, o_Name. rewrite (proj1 (buildAdditionalPolicy_meta _ _ _ _ Hb)). apply prependName_name; [done|].
    apply Hadd, elem_of_app. right. by eapply list_elem_of_lookup_2.
Qed.

(** [traverse_from] takes elements of the list. *)
Lemma traverse_from_elem {A B} (P : B → Prop) (f : nat → A → outcome B) i l out :
  traverse_from f i l = Ok out → (∀ i x y, x ∈ l → f i x = Ok y → P y) → Forall P out.
Proof.
  revert i out. induction l as [|x l IH]; intros i out; simpl; [by intros [= <-]|].
  intros (y & Hy & Hout)%bind_Ok HP. apply bind_Ok in Hout as (ys & Hys & [= <-]).
  constructor; [eapply HP; [by left|done]|eapply IH; [done|]]. intros j z w Hz. apply HP. by right.
Qed.

Lemma istio_pass_named i out : istio_named i → generateIstio pkg i = Ok out → Forall named out.
Proof.
  intros [Hses _ _]. unfold generateIstio. cbv zeta. intros (ses & Hs%wrap_Ok & Hout)%bind_Ok. injection Hout as <-.
  apply Forall_cons. split; [fixed|]. apply Forall_app. split.
  - unfold sidecarResource. destruct (Istio_Sidecar i) as [sc|]; [|constructor].
    destruct (negb _); [constructor|]. destruct (Istio_Ambient i) as [a|]; [destruct (Ambient_Enabled a); [constructor|]|];
      apply Forall_singleton; fixed.
  - unfold generateCustomServiceEntries in Hs. destruct (Istio_ServiceEntries i) as [entries|] eqn:He; [|by injection Hs as <-].
    eapply traverse_from_elem; [exact Hs|]. intros k elem o Helem. unfold customServiceEntry. destruct (String.eqb _ ""); [done|].
    destruct (0 <? _)%nat; [|intros [= <-]; by eapply Hses].
    intros (b & _ & Ho)%wrap_Ok%bind_Ok. apply bind_Ok in Ho as (u & _ & Ho). injection Ho as <-. by eapply Hses.
Qed.

Lemma virtual_service_named prepend name r o :
  object_name name → buildVirtualService pkg prepend name r = Ok o → named o.
Proof.
  intros Hn. unfold buildVirtualService. cbv zeta.
  destruct (Inbound_Passthrough r) as [[[] gp]|];
    [intros [= <-]|intros (h & _ & Ho)%bind_Ok; injection Ho as <-..]; by apply prependName_name.
Qed.

Lemma route_pass_named rs inbound out : routes_named rs inbound → generateRoutes pkg (Some rs) inbound = Ok out → Forall named out.
Proof.
  intros [Hin Hgw Hout']. unfold generateRoutes. cbv zeta. intros (ins & Hins & Hout)%bind_Ok.
  apply bind_Ok in Hout as (outs & Houts & Hout). injection Hout as <-. apply Forall_app. split.
  - eapply collect_Forall; [exact Hins|]. intros r ys Hr. destruct (Hin r Hr) as [Hn Hs]. unfold inboundResources. cbv zeta.
    intros (vs & Hvs & Hys)%bind_Ok. injection Hys as <-. constructor; [exact (virtual_service_named _ _ _ _ Hn Hvs)|].
    constructor; [apply prependName_name; [done|solve_name]|]. destruct (netpolsEnabled pkg); [|constructor].
    apply Forall_fmap. rewrite Forall_forall. intros gw Hg. destruct (Hgw r gw Hr Hg) as [Hgn Hgs].
    apply prependName_name; [done|]. cbv zeta. pose proof (proj1 (portNumber_range (inboundWorkloadPort (ri_route r)))). solve_name.
  - eapply for_sorted_Forall; [exact Houts|]. intros name raw ys Hraw. unfold outboundResources.
    intros (route & _ & Hys)%bind_Ok. destruct (negb _); [by injection Hys as <-|]. destruct (validateOutbound _ _); [done|].
    injection Hys as <-. apply Forall_singleton. unfold buildOutboundServiceEntry. pose proof (Hout' _ _ Hraw).
    destruct (Outbound_Metadata route); apply prependName_name; try done; destruct (parseLocation _); solve_name.
Qed.

Lemma default_authz_named istio np : Forall named (generateDefaultAuthzPolicies pkg istio np).
Proof.
  unfold generateDefaultAuthzPolicies. cbv zeta. destruct (negb _); [constructor|].
  destruct (match np with Some np => _ | None => _ end); [constructor|]. apply Forall_app. split.
  - destruct (authzAllowNothing istio); [apply Forall_singleton; fixed|constructor].
  - destruct (authzAllowAllInNS istio); [apply Forall_singleton; fixed|constructor].
Qed.

Lemma shorthand_authz_named np istio out :
  policies_named np → generateAuthzFromIngressShorthand pkg (Some np) istio = Ok out → Forall named out.
Proof.
  intros [_ Hdst _]. unfold generateAuthzFromIngressShorthand. destruct (_ || _); [by intros [= <-]|].
  destruct (NP_Ingress np) as [ingress|] eqn:Hi; [|by intros [= <-]]. intros Hout. eapply for_sorted_Forall; [exact Hout|].
  intros key raw ys Hkey (local & Hlocal%wrap_Ok & Hys)%bind_Ok. destruct (ss_From local) as [from|] eqn:Hf; [|by injection Hys as <-].
  apply bind_Ok in Hys as (parsedLocal & Hp%wrap_Ok & Hys). destruct (Hdst _ _ _ _ _ _ eq_refl Hkey Hlocal Hf Hp) as [Hl [Hk _ _]].
  apply bind_Ok in Hys as (ks & Hks & Hys). apply bind_Ok in Hys as (cs & Hcs & Hys). injection Hys as <-. apply Forall_app. split.
  - eapply for_sorted_Forall; [exact Hks|]. intros k t ys Ht. entry_on (st_Enabled t).
    intros (r & Hr%wrap_Ok & Hys)%bind_Ok. apply bind_Ok in Hys as (ap & Hap & Hys). injection Hys as <-.
    destruct (Hk k t Ht He r Hr). apply emit_named. by eapply authz_k8s_named.
  - eapply for_sorted_Forall; [exact Hcs|]. intros k t ys Ht. entry_on (st_Enabled t).
    intros (c & Hc%wrap_Ok & Hys)%bind_Ok. apply bind_Ok in Hys as (ap & Hap & Hys). injection Hys as <-.
    apply emit_named. by eapply authz_cidr_named.
Qed.

Lemma routeSuffix_name namespaces gw : object_name (rg_name gw) → object_name (rg_namespace gw) → object_name (routeSuffix namespaces gw).
Proof. intros Hn Hs. unfold routeSuffix. destruct (1 <? _)%nat; [solve_name|done]. Qed.

Lemma route_authz_named rs istio inbound : routes_named rs inbound → Forall named (generateAuthzFromRoutes pkg (Some rs) istio inbound).
Proof.
  intros [Hin Hgw _]. rewrite Forall_forall. intros o Ho. unfold generateAuthzFromRoutes in Ho.
  destruct (negb _); [by apply elem_of_nil in Ho|]. apply list_elem_of_bind in Ho as (r & Ho & Hr).
  apply list_elem_of_bind in Ho as (gw & ->%list_elem_of_singleton & Hg). destruct (Hin r Hr) as [_ Hs], (Hgw r gw Hr Hg) as [Hn Hns].
  apply prependName_name; [done|]. pose proof (routeSuffix_name (gatewayNamespaces inbound) gw Hn Hns). solve_name.
Qed.

Lemma custom_authz_named istio out :
  (∀ i, istio = Some i → istio_named i) → generateCustomAuthzPolicies istio = Ok out → Forall named out.
Proof.
  intros Hi. unfold generateCustomAuthzPolicies. destruct istio as [i|]; [|by intros [= <-]]. destruct (negb _); [by intros [= <-]|].
  destruct (Istio_AuthorizationPolicies i) as [ap|] eqn:Hap; [|by intros [= <-]]. destruct (Hi i eq_refl) as [_ Hc Ha].
  intros (cs & Hcs & Hout)%bind_Ok. apply bind_Ok in Hout as (as_ & Has & Hout). injection Hout as <-. apply Forall_app. split.
  - eapply traverse_from_elem; [exact Hcs|]. intros k elem o Helem. unfold customAuthz. cbv zeta. destruct (String.eqb _ ""); [done|].
    unfold buildRawAuthzPolicy. cbv zeta. destruct (_ =? 0)%nat; [intros Ho%wrap_Ok; injection Ho as <-; by eapply Hc|].
    intros (b & _ & Ho)%wrap_Ok%bind_Ok. apply bind_Ok in Ho as (u & _ & Ho). injection Ho as <-. by eapply Hc.
  - eapply for_sorted_Forall; [exact Has|]. intros key elem ys Hkey. unfold additionalAuthz. cbv zeta. entry_on (AuthzAdditional_Enabled elem).
    intros (o & Ho%wrap_Ok & Hys)%bind_Ok. injection Hys as <-. apply Forall_singleton. unfold buildAdditionalAuthzPolicy in Ho.
    apply bind_Ok in Ho as (b & _ & Ho). apply bind_Ok in Ho as (u & _ & Ho). injection Ho as <-. by eapply Ha.
Qed.

Lemma passes_named inp inbound out :
  spec_named inp pkg → resolveInboundRoutes inp = Ok inbound → generatePasses pkg inp inbound = Ok out → Forall named out.
Proof.
  intros [_ Hnp Hist Hrt] Hin. unfold generatePasses. cbv zeta. intros (is_ & His & Hout)%bind_Ok.
  apply bind_Ok in Hout as (nps & Hnps & Hout). apply bind_Ok in Hout as (rts & Hrts & Hout).
  apply bind_Ok in Hout as (sh & Hsh & Hout). apply bind_Ok in Hout as (cs & Hcs%wrap_Ok & Hout). injection Hout as <-.
  rewrite !Forall_app. split_and!; [| | |apply default_authz_named| | |by eapply custom_authz_named].
  - destruct (Spec_Istio _) as [i|]; [destruct (Istio_Enabled i)|]; try by injection His as <-.
    apply wrap_Ok in His. eapply istio_pass_named; [by apply Hist|done].
  - destruct (Spec_NetworkPolicies _) as [np|]; [destruct (NP_Enabled np)|]; try by injection Hnps as <-.
    apply wrap_Ok in Hnps. eapply netpol_pass_named; [by apply Hnp|exact Hnps].
  - destruct (Spec_Routes _) as [rs|]; [|by injection Hrts as <-]. apply wrap_Ok in Hrts.
    eapply route_pass_named; [by eapply Hrt|done].
  - destruct (Spec_NetworkPolicies _) as [np|]; [|by injection Hsh as <-]. apply wrap_Ok in Hsh.
    eapply shorthand_authz_named; [by apply Hnp|done].
  - destruct (Spec_Routes _) as [rs|]; [|constructor]. apply route_authz_named. by eapply Hrt.
Qed.
End Passes.

(** C16: The generated objects have names that the API server takes. If the package
    has a DNS-1123 subdomain for a name, and so have the namespaces, pods,
    identities, definitions, workloads, services and gateways that the enabled
    entries and the routes of its spec name, and the objects the spec gives a name
    itself, then every object of a successful run has one, for all the forms that
    names are put together in; the length is not looked at. *)
Theorem Generate_named `{Ext} inp pkg out
    (Hpkg : in_Package inp = Some pkg) (Hspec : spec_named inp pkg) (Hout : Generate inp = Ok out) :
  Forall (λ o, object_name (o_Name o)) out.
Proof.
  apply Generate_finished in Hout as (p & scheme & inbound & objs & Hp & _ & Hin & Hobjs & Hf). rewrite Hpkg in Hp. injection Hp as <-.
  pose proof (passes_named pkg (package_named _ _ Hspec) _ _ _ Hspec Hin Hobjs) as Hn. rewrite Forall_lookup in *. intros i o Ho.
  destruct (Forall2_lookup_r _ _ _ _ _ Hf Ho) as (o0 & Ho0 & _ & Hname & _). rewrite Hname. exact (Hn i o0 Ho0).
Qed.

(** ** An example, decided by computation *)

#[export] Instance name_state_eq : EqDecision name_state.
Proof. solve_decision. Defined.
#[export] Instance object_name_decision s : Decision (object_name s).
Proof. unfold object_name. apply _. Defined.
#[export] Instance remote_named_decision r : Decision (remote_named r).
Proof. unfold remote_named, name_or_star. apply _. Defined.
#[export] Instance identity_named_decision r : Decision (identity_named r).
Proof. unfold identity_named. apply _. Defined.

(** What a test of the entries of a map shows. *)
Lemma entries_by_test {V} (p : string → V → bool) (m : gmap string V) :
  forallb (λ '(k, v), p k v) (map_to_list m) = true → ∀ k v, m !! k = Some v → p k v = true.
Proof.
  rewrite forallb_forall. intros Hp k v Hk. apply (Hp (k, v)), list_elem_of_In. by apply elem_of_map_to_list.
Qed.
Definition ingress_key_test (key : string) : bool :=
  match parseIngressRemoteKey key with Ok r => bool_decide (remote_named r ∧ identity_named r) | _ => true end.
Lemma ingress_key_tested key : ingress_key_test key = true → ingress_remote_ok key.
Proof. unfold ingress_key_test. intros Hk r Hr. rewrite Hr in Hk. by apply bool_decide_eq_true in Hk. Qed.

Definition route_test (r : resolvedInbound) : bool :=
  bool_decide (object_name (ri_name r) ∧ object_name (serviceLeaf (Inbound_Service (ri_route r)))) &&
  forallb (λ gw, bool_decide (object_name (rg_name gw) ∧ object_name (rg_namespace gw))) (ri_gateways r).
Lemma routes_tested rs inbound :
  Routes_Outbound rs = ∅ → forallb route_test inbound = true → routes_named rs inbound.
Proof.
  rewrite forallb_forall. intros Hempty Hall. split.
  - intros r Hr%list_elem_of_In. apply Hall, andb_prop in Hr as [Hr _]. by apply bool_decide_eq_true in Hr.
  - intros r gw Hr%list_elem_of_In Hg%list_elem_of_In. apply Hall, andb_prop in Hr as [_ Hr].
    rewrite forallb_forall in Hr. apply Hr in Hg. by apply bool_decide_eq_true in Hg.
  - intros name raw. by rewrite Hempty.
Qed.

Definition no_source : shorthandSource :=
  {| ss_PodSelector := None; ss_Metadata := None; ss_To := None; ss_From := None |}.
Definition from_example : shorthandPeer :=
  default {| K8s := ∅; Cidr := ∅; sp_Definition := ∅; Literal := ∅ |}
    (ss_From (ok_value no_source
       (Unmarshal shorthandSource_UnmarshalJSON
          (Raw (demo_raw (JObj [("from", JObj [("k8s", JObj [("sa@ns", JBool true)])])])))))).

Lemma example_policies_named : policies_named example_ingress_np.
Proof.
  split; [done| |by intros raw ?%elem_of_nil].
  intros ingress key raw local parsedLocal from [= <-] Hkey Hlocal Hfrom Hp.
  cbn [Ingress_To] in Hkey. apply lookup_singleton_Some in Hkey as [<- <-].
  assert (from = from_example) as ->.
  { unfold from_example. rewrite Hlocal. simpl. by rewrite Hfrom. }
  vm_compute in Hp. injection Hp as <-. split; [vm_compute; reflexivity|]. split.
  - intros k t Hk _. apply ingress_key_tested. revert k t Hk. apply (entries_by_test (λ k _, ingress_key_test k)).
    vm_compute. reflexivity.
  - intros k t Hk. assert (sp_Definition from_example = ∅) as E by (vm_compute; reflexivity). by rewrite E in Hk.
  - intros k lit Hk. assert (Literal from_example = ∅) as E by (vm_compute; reflexivity). by rewrite E in Hk.
Qed.

Lemma example_spec_named : spec_named example_full_input (demo_package example_full_spec).
Proof.
  split; [vm_compute; reflexivity|by intros np [= <-]; apply example_policies_named|by intros i [= <-]; split|].
  intros rs inbound [= <-] Hin. apply routes_tested; [reflexivity|].
  assert (inbound = ok_value [] (resolveInboundRoutes example_full_input)) as -> by by rewrite Hin.
  vm_compute. reflexivity.
Qed.

Lemma Generate_named_witness :
  length example_full_objects = 15 ∧ Forall (λ o, object_name (o_Name o)) example_full_objects.
Proof.
  split; [vm_compute; reflexivity|].
  exact (Generate_named example_full_input (demo_package example_full_spec) example_full_objects eq_refl example_spec_named
    example_full_run).
Defined.

(** ** Keys that lead to no name *)

Definition no_target : shorthandTarget :=
  {| st_Enabled := true; st_PodSelector := None; st_NamespaceSelector := None; st_Metadata := None |}.
Definition example_ingress_name (localKey remoteKey : string) : outcome string :=
  parsedLocal ← parseIngressLocalKey localKey;
  remote ← parseIngressRemoteKey remoteKey;
  np ← buildShorthandIngressNetpol (demo_package example_full_spec) false None parsedLocal no_source remoteKey remote no_target;
  Ok (o_Name np).
Definition example_companion_name (localKey remoteKey : string) : outcome string :=
  parsedLocal ← parseIngressLocalKey localKey;
  remote ← parseIngressRemoteKey remoteKey;
  ap ← buildAuthzFromShorthand (demo_package example_full_spec) false parsedLocal no_source remoteKey remote;
  Ok (o_Name ap).

(** The local key of the grammar may have underscores and capitals, as label
    values may; the identity of a key may be of any namespace. *)
Lemma accepted_keys_without_names :
  (∃ name, example_ingress_name "my_app:8080" "monitoring" = Ok name ∧ ¬ object_name name) ∧
  (∃ name, example_ingress_name "Frontend:8080" "monitoring" = Ok name ∧ ¬ object_name name) ∧
  (∃ name, example_companion_name "web:8080" "sa@*" = Ok name ∧ ¬ object_name name).
Proof. split_and!; eexists; (split; [vm_compute; reflexivity|]); vm_compute; discriminate. Qed.
