(* ===== verification/Posture.v ===== *)
(** * The network posture of a package

    What the whole of the generated objects lets through: the network policies
    of all passes together, after HBONE injection and stamping, decide for every
    pod of the namespace and every connection.  The decision is compared with
    what the spec asks for: its defaults, its shorthand, its routes and its
    additional policies. *)

From S2P Require Import Prelude GoStrings Json K8s ApiTypes External Names ShorthandKeys Metadata.
From S2P Require Import ShorthandValues NetCIDR NetpolCommon Definitions NetpolDefaults NetpolShorthand NetpolFlows.
From S2P Require Import Netpols Istio RouteDecode IngressConfig Routes Authz AuthzFlows Generator.
Local Open Scope string_scope.
Local Open Scope list_scope.

(** ** The decision of the network *)

(** A pod is isolated in a direction when a policy that governs it selects it. *)
Definition isolated (type : string) (out : list Object) (pod : gmap string string) : Prop :=
  ∃ o sp, o ∈ out ∧ o_Body o = NetworkPolicy sp ∧ selects (nps_PodSelector sp) pod ∧ type ∈ policyTypes_of sp.
(** What an isolated pod may do is what some policy allows; another may do all. *)
Definition egress_permitted (ns : string) (out : list Object) pod q proto p : Prop :=
  isolated PolicyTypeEgress out pod → ∃ o, o ∈ out ∧ allows_egress ns o pod q proto p.
Definition ingress_permitted (ns : string) (out : list Object) pod q proto p : Prop :=
  isolated PolicyTypeIngress out pod → ∃ o, o ∈ out ∧ allows_ingress ns o pod q proto p.

(** ** What the spec asks for *)

(** A pod with a label in a namespace. *)
Definition labelled (ns key value : string) (q : endpoint) : Prop :=
  ep_NamespaceLabels q !! "kubernetes.io/metadata.name" = Some ns ∧ ep_Labels q !! key = Some value.

Section Wanted.
Context `{Ext} (pkg : Package) (np : NetworkPolicies) (istio : option Istio) (env : defsEnv).
Context (pod : gmap string string) (q : endpoint) (proto : string) (p : Z).
Notation ns := (pkg_Namespace pkg).

(** The defaults: the own namespace, the cluster's DNS, istiod. *)
Definition default_egress_wanted : Prop :=
  (egressAllowInNS np = true ∧ ep_Namespace q = ns) ∨
  (egressAllowKubeDNS np = true ∧ labelled "kube-system" "k8s-app" "kube-dns" q ∧ (proto = "UDP" ∨ proto = "TCP") ∧ p = 53%Z) ∨
  ((egressAllowIstiod np = true ∧ istioAmbient istio = false) ∧ labelled "istio-system" "app" "istiod" q ∧
   proto = "TCP" ∧ p = 15012%Z).
(** The own namespace, Prometheus, and the kubelet's probes in ambient mode. *)
Definition default_ingress_wanted : Prop :=
  (ingressAllowInNS np = true ∧ ep_Namespace q = ns) ∨
  ((ingressAllowPromToSidecar np = true ∧ istioAmbient istio = false) ∧
   labelled "monitoring" "app.kubernetes.io/name" "prometheus" q ∧ proto = "TCP" ∧ p = 15020%Z) ∨
  ((istioAmbient istio = true ∧ ingressSideEnabled np = true) ∧ in_cidr "169.254.7.127/32" (ep_IP q)).

(** An additional policy, as decoded, allows it. *)
Definition additional_wanted (allows : Object → Prop) : Prop :=
  ∃ raw o, raw ∈ NP_AdditionalPolicies np ++ NP_Additional np ∧ buildAdditionalPolicy pkg np raw = Ok o ∧ allows o.

Definition egress_asked : Prop :=
  default_egress_wanted ∨
  (∃ egress, NP_Egress np = Some egress ∧ shorthand_egress_wanted pkg np env egress pod q proto p) ∨
  additional_wanted (λ o, allows_egress ns o pod q proto p).

(** A gateway of a route to the pod, on the port of the workload. *)
Definition route_ingress_wanted (inbound : list resolvedInbound) : Prop :=
  ∃ r gw, r ∈ inbound ∧ gw ∈ ri_gateways r ∧ contents (Inbound_Selector (ri_route r)) ⊆ pod ∧
    ep_NamespaceLabels q !! "kubernetes.io/metadata.name" = Some (rg_namespace gw) ∧
    (∀ sel, gd_PodSelector (rg_definition gw) = Some sel → selects sel (ep_Labels q)) ∧
    proto = "TCP" ∧ p = portNumber (inboundWorkloadPort (ri_route r)).

Definition ingress_asked (inbound : list resolvedInbound) : Prop :=
  default_ingress_wanted ∨
  (∃ ingress, NP_Ingress np = Some ingress ∧ shorthand_ingress_wanted pkg np env ingress pod q proto p) ∨
  additional_wanted (λ o, allows_ingress ns o pod q proto p) ∨
  (is_Some (Spec_Routes (pkg_Spec pkg)) ∧ route_ingress_wanted inbound).
End Wanted.

(** ** One policy *)

Section Policies.
Context `{Ext} `{!IntStrLaws} (ns : string) (pod : gmap string string) (q : endpoint) (proto : string) (p : Z).

(** A policy that is emitted on a condition. *)
Lemma optional_policy (b : bool) (o : Object) (F : Object → Prop) :
  (∃ x, x ∈ (if b then [o] else []) ∧ F x) ↔ b = true ∧ F o.
Proof. destruct b; [rewrite one_rule; naive_solver|]. split; [by intros (x & ?%elem_of_nil & _)|by intros [? _]]. Qed.

(** Every pod of the namespace, with no rule or with one. *)
Lemma egress_all name l a rules :
  allows_egress ns (egressNetpol name l a emptySelector rules) pod q proto p ↔
  ∃ r, r ∈ rules ∧ peers_match ns (er_To r) q ∧ ports_allow (er_Ports r) proto p.
Proof. rewrite egressNetpol_allows. split; [by intros [_ ?]|]. split; [apply selects_empty|done]. Qed.
Lemma ingress_all name l a rules :
  allows_ingress ns (ingressNetpol name l a emptySelector rules) pod q proto p ↔
  ∃ r, r ∈ rules ∧ peers_match ns (ir_From r) q ∧ ports_allow (ir_Ports r) proto p.
Proof. rewrite ingressNetpol_allows. split; [by intros [_ ?]|]. split; [apply selects_empty|done]. Qed.

Lemma podPeer_matches : peers_match ns [podPeer] q ↔ ep_Namespace q = ns.
Proof. rewrite single_peer. unfold peer_matches. simpl. split; [by intros [? _]|]. split; [done|apply selects_empty]. Qed.
Lemma labelled_matches n key value :
  peers_match ns [selectorPeer (matchLabels "kubernetes.io/metadata.name" n) (matchLabels key value)] q ↔ labelled n key value q.
Proof. rewrite single_peer. unfold peer_matches. cbn [selectorPeer peer_IPBlock peer_NamespaceSelector peer_PodSelector]. by rewrite !selects_one. Qed.
Lemma ipBlock_matches cidr : peers_match ns [ipBlockPeer cidr] q ↔ in_cidr cidr (ep_IP q).
Proof.
  rewrite single_peer. unfold peer_matches. simpl. split; [by intros [? _]|]. intros ?. split; [done|].
  by intros ex ?%elem_of_nil.
Qed.
Lemma no_ports : ports_allow [] proto p ↔ True.
Proof. split; [done|]. by left. Qed.
Lemma portOf_allows t n : (0 ≤ n < 2147483648)%Z → port_allows (portOf t n) proto p ↔ proto = t ∧ p = n.
Proof.
  intros Hn. unfold port_allows, portOf. cbn [npp_Protocol npp_Port npp_EndPort default from_option].
  rewrite FromInt_value by lia. cbn [ios_Type IntVal]. naive_solver.
Qed.
Lemma portOf_one t n : (0 ≤ n < 2147483648)%Z → ports_allow [portOf t n] proto p ↔ proto = t ∧ p = n.
Proof.
  intros Hn. unfold ports_allow. rewrite one_rule, portOf_allows by done. split; [by intros [?|?]|by right].
Qed.
Lemma portOf_two t u n : (0 ≤ n < 2147483648)%Z → ports_allow [portOf t n; portOf u n] proto p ↔ (proto = t ∨ proto = u) ∧ p = n.
Proof.
  intros Hn. unfold ports_allow. setoid_rewrite elem_of_cons. setoid_rewrite list_elem_of_singleton. split.
  - intros [?|(e & [-> | ->] & He)]; [done|apply portOf_allows in He; tauto..].
  - intros [[Ht|Ht] Hp]; right; [exists (portOf t n)|exists (portOf u n)]; (split; [by auto|]); by apply portOf_allows.
Qed.
End Policies.

Section Defaults.
Context `{Ext} `{!IntStrLaws} (pkg : Package) (np : NetworkPolicies) (istio : option Istio).
Context (pod : gmap string string) (q : endpoint) (proto : string) (p : Z).
Notation ns := (pkg_Namespace pkg).

Lemma no_rules {A} (P : A → Prop) : ¬ ∃ r, r ∈ [] ∧ P r.
Proof. by intros (r & ?%elem_of_nil & _). Qed.

Lemma default_egress_allows :
  (∃ o, o ∈ defaultEgressPolicies pkg np istio ∧ allows_egress ns o pod q proto p) ↔ default_egress_wanted pkg np istio q proto p.
Proof.
  unfold defaultEgressPolicies, default_egress_wanted. cbv zeta. rewrite !exists_elem_app, !optional_policy, !egress_all, !one_rule.
  cbn [er_To er_Ports]. rewrite podPeer_matches, !labelled_matches, no_ports, portOf_two, portOf_one by lia.
  rewrite andb_true_iff, negb_true_iff. pose proof (no_rules (A := NetworkPolicyEgressRule)
    (λ r, peers_match ns (er_To r) q ∧ ports_allow (er_Ports r) proto p)). tauto.
Qed.

Lemma default_ingress_allows :
  (∃ o, o ∈ defaultIngressPolicies pkg np istio ∧ allows_ingress ns o pod q proto p) ↔ default_ingress_wanted pkg np istio q proto p.
Proof.
  unfold defaultIngressPolicies, default_ingress_wanted. cbv zeta. rewrite !exists_elem_app, !optional_policy, !ingress_all, !one_rule.
  cbn [ir_From ir_Ports]. rewrite podPeer_matches, labelled_matches, ipBlock_matches, !no_ports, portOf_one by lia.
  rewrite !andb_true_iff, negb_true_iff. pose proof (no_rules (A := NetworkPolicyIngressRule)
    (λ r, peers_match ns (ir_From r) q ∧ ports_allow (ir_Ports r) proto p)). tauto.
Qed.
End Defaults.

(** ** All policies of the network policy pass *)

Lemma exists_traverse {A B} (f : A → outcome B) l out (F : B → Prop) :
  traverse f l = Ok out → (∃ y, y ∈ out ∧ F y) ↔ ∃ x y, x ∈ l ∧ f x = Ok y ∧ F y.
Proof.
  intros Hall%traverse_Ok. split.
  - intros (y & [i Hi]%list_elem_of_lookup & HF). destruct (Forall2_lookup_r _ _ _ _ _ Hall Hi) as (x & Hx & Hf).
    exists x, y. split; [by eapply list_elem_of_lookup_2|done].
  - intros (x & y & [i Hi]%list_elem_of_lookup & Hf & HF). destruct (Forall2_lookup_l _ _ _ _ _ Hall Hi) as (y' & Hy & Hf').
    exists y'. split; [by eapply list_elem_of_lookup_2|congruence].
Qed.

Section Direction.
Context (ns : string) (pod : gmap string string) (q : endpoint) (proto : string) (p : Z).
Lemma egress_policy_no_ingress o : egress_policy o → ¬ allows_ingress ns o pod q proto p.
Proof. intros (_ & _ & sp & Hb & _ & Hi) (sp' & r & Hb' & _ & _ & Hr & _). rewrite Hb in Hb'. injection Hb' as <-. rewrite Hi in Hr. by apply elem_of_nil in Hr. Qed.
Lemma ingress_policy_no_egress o : ingress_policy o → ¬ allows_egress ns o pod q proto p.
Proof. intros (_ & _ & sp & Hb & _ & Hi) (sp' & r & Hb' & _ & _ & Hr & _). rewrite Hb in Hb'. injection Hb' as <-. rewrite Hi in Hr. by apply elem_of_nil in Hr. Qed.
Lemma none_of (P F : Object → Prop) l : Forall P l → (∀ o, P o → ¬ F o) → (∃ o, o ∈ l ∧ F o) ↔ False.
Proof. intros Hl HP. rewrite Forall_forall in Hl. split; [intros (o & Ho & HF); by eapply HP; [apply Hl|]|done]. Qed.
End Direction.

(** The keys of both sides whose ports fit. *)
Definition shorthand_fits (np : NetworkPolicies) : Prop :=
  (∀ egress, NP_Egress np = Some egress → egress_fits egress) ∧
  (∀ ingress, NP_Ingress np = Some ingress → ingress_fits ingress).

Section Pass.
Context `{Ext} `{!IntStrLaws} (pkg : Package) (np : NetworkPolicies) (istio : option Istio) (env : defsEnv).
Context (pod : gmap string string) (q : endpoint) (proto : string) (p : Z).
Notation ns := (pkg_Namespace pkg).

Lemma additional_allows (F : Object → Prop) ad leg :
  traverse (buildAdditionalPolicy pkg np) (NP_AdditionalPolicies np) = Ok ad →
  traverse (buildAdditionalPolicy pkg np) (NP_Additional np) = Ok leg →
  (∃ o, o ∈ ad ∧ F o) ∨ (∃ o, o ∈ leg ∧ F o) ↔ additional_wanted pkg np F.
Proof.
  intros Had Hleg. rewrite (exists_traverse _ _ _ _ Had), (exists_traverse _ _ _ _ Hleg). unfold additional_wanted.
  setoid_rewrite elem_of_app. naive_solver.
Qed.

Lemma netpol_pass_allows out :
  shorthand_fits np → generateNetworkPolicies pkg np istio env = Ok out →
  ((∃ o, o ∈ out ∧ allows_egress ns o pod q proto p) ↔ egress_asked pkg np istio env pod q proto p) ∧
  ((∃ o, o ∈ out ∧ allows_ingress ns o pod q proto p) ↔
   default_ingress_wanted pkg np istio q proto p ∨
   (∃ ingress, NP_Ingress np = Some ingress ∧ shorthand_ingress_wanted pkg np env ingress pod q proto p) ∨
   additional_wanted pkg np (λ o, allows_ingress ns o pod q proto p)).
Proof.
  intros [Hfe Hfi]. unfold generateNetworkPolicies, egress_asked. cbv zeta.
  intros (eg & Heg & Hout)%bind_Ok. apply bind_Ok in Hout as (ing & Hing & Hout).
  apply bind_Ok in Hout as (ad & Had & Hout). apply bind_Ok in Hout as (leg & Hleg & Hout%(inj Ok)). subst out.
  destruct (default_policies_objects pkg np istio) as [Hed Hid].
  assert (Forall egress_policy eg ∧ ((∃ o, o ∈ eg ∧ allows_egress ns o pod q proto p) ↔
    ∃ egress, NP_Egress np = Some egress ∧ shorthand_egress_wanted pkg np env egress pod q proto p)) as [Hegp Hegw].
  { destruct (NP_Egress np) as [egress|] eqn:E.
    - split; [by eapply expandShorthandEgress_policies|].
      rewrite (expandShorthandEgress_flows pkg np env egress eg pod q proto p E Heg (Hfe egress eq_refl)). naive_solver.
    - injection Heg as <-. split; [constructor|]. split; [by intros (o & ?%elem_of_nil & _)|by intros (? & ? & _)]. }
  assert (Forall ingress_policy ing ∧ ((∃ o, o ∈ ing ∧ allows_ingress ns o pod q proto p) ↔
    ∃ ingress, NP_Ingress np = Some ingress ∧ shorthand_ingress_wanted pkg np env ingress pod q proto p)) as [Hingp Hingw].
  { destruct (NP_Ingress np) as [ingress|] eqn:E.
    - split; [by eapply expandShorthandIngress_policies|].
      rewrite (expandShorthandIngress_flows pkg np env ingress ing pod q proto p E Hing (Hfi ingress eq_refl)). naive_solver.
    - injection Hing as <-. split; [constructor|]. split; [by intros (o & ?%elem_of_nil & _)|by intros (? & ? & _)]. }
  rewrite !exists_elem_app. split.
  - rewrite default_egress_allows, Hegw, (additional_allows _ _ _ Had Hleg).
    rewrite (none_of _ _ _ Hid), (none_of _ _ _ Hingp) by apply ingress_policy_no_egress. tauto.
  - rewrite default_ingress_allows, Hingw, (additional_allows _ _ _ Had Hleg).
    rewrite (none_of _ _ _ Hed), (none_of _ _ _ Hegp) by apply egress_policy_no_ingress. tauto.
Qed.
End Pass.

(** ** All passes *)

Definition env_of (inp : Input) : defsEnv :=
  {| kubeAPIPorts := in_KubeAPIPorts inp; sharedEgress := in_SharedEgressDefinitions inp;
     sharedIngress := in_SharedIngressDefinitions inp; sharedErr := in_SharedDefinitionsError inp |}.
Definition route_ports_fit `{Ext} (inbound : list resolvedInbound) : Prop :=
  ∀ r, r ∈ inbound → (portNumber (inboundWorkloadPort (ri_route r)) < 2147483648)%Z.

Section Passes.
Context `{Ext} `{!IntStrLaws} (pkg : Package) (np : NetworkPolicies) (inp : Input) (inbound : list resolvedInbound).
Context (Hnp : Spec_NetworkPolicies (pkg_Spec pkg) = Some np) (Hen : NP_Enabled np = true).
Context (Hfits : shorthand_fits np) (Hroutes : route_ports_fit inbound).
Context (pod : gmap string string) (q : endpoint) (proto : string) (p : Z).
Notation ns := (pkg_Namespace pkg).
Notation istio := (Spec_Istio (pkg_Spec pkg)).

Definition other_kind (o : Object) : Prop := type_of (o_Body o) ≠ TNetworkPolicy.
Lemma other_allows_nothing o :
  other_kind o → ¬ allows_egress ns o pod q proto p ∧ ¬ allows_ingress ns o pod q proto p.
Proof. unfold other_kind. intros Ht. by split; intros (sp & r & Hb & _); rewrite Hb in Ht. Qed.

Lemma inboundNetpol_allows prepend r gw :
  (portNumber (inboundWorkloadPort r) < 2147483648)%Z →
  allows_ingress ns (inboundNetpol pkg prepend r gw) pod q proto p ↔
  contents (Inbound_Selector r) ⊆ pod ∧ ep_NamespaceLabels q !! "kubernetes.io/metadata.name" = Some (rg_namespace gw) ∧
  (∀ sel, gd_PodSelector (rg_definition gw) = Some sel → selects sel (ep_Labels q)) ∧
  proto = "TCP" ∧ p = portNumber (inboundWorkloadPort r).
Proof.
  intros Hn. pose proof (portNumber_range (inboundWorkloadPort r)) as Hr.
  transitivity (contents (Inbound_Selector r) ⊆ pod ∧
    peers_match ns [{| peer_NamespaceSelector := Some (matchLabels "kubernetes.io/metadata.name" (rg_namespace gw));
                       peer_PodSelector := gd_PodSelector (rg_definition gw); peer_IPBlock := None |}] q ∧
    ports_allow [portOf ProtocolTCP (portNumber (inboundWorkloadPort r))] proto p).
  - rewrite <-selects_labels. split.
    + intros (sp & r' & [= <-] & Hs & _ & ->%list_elem_of_singleton & Hrest). by split.
    + intros (Hs & Hrest). do 2 eexists. split_and!; [reflexivity|exact Hs|by left|by left|apply Hrest..].
  - rewrite single_peer, portOf_one by lia. unfold peer_matches. cbn [peer_IPBlock peer_NamespaceSelector peer_PodSelector].
    rewrite selects_one. destruct (gd_PodSelector (rg_definition gw)) as [sel|]; naive_solver.
Qed.

Lemma route_pass_allows rs out :
  Spec_Routes (pkg_Spec pkg) = Some rs → generateRoutes pkg (Some rs) inbound = Ok out →
  (∃ o, o ∈ out ∧ allows_ingress ns o pod q proto p) ↔ route_ingress_wanted pod q proto p inbound.
Proof.
  intros Hrs Hout. assert (netpolsEnabled pkg = true) as Hne by by unfold netpolsEnabled; rewrite Hnp.
  unfold route_ingress_wanted. split.
  - intros (o & Ho & Ha). assert (type_of (o_Body o) = TNetworkPolicy) as Ht by (destruct Ha as (sp & _ & -> & _); done).
    destruct (proj1 (generateRoutes_netpols _ _ _ _ _ Hout) (conj Ho Ht)) as (_ & r & gw & Hr & Hgw & ->).
    apply inboundNetpol_allows in Ha; [|by apply Hroutes]. by exists r, gw.
  - intros (r & gw & Hr & Hgw & Hw). exists (inboundNetpol pkg (Routes_PrependReleaseName rs) (ri_route r) gw). split.
    + apply (proj2 (generateRoutes_netpols _ _ _ _ _ Hout)). split; [done|]. by exists r, gw.
    + by apply inboundNetpol_allows; [apply Hroutes|].
Qed.

Lemma route_egress_nothing rs out :
  generateRoutes pkg (Some rs) inbound = Ok out → ¬ ∃ o, o ∈ out ∧ allows_egress ns o pod q proto p.
Proof.
  intros Hout (o & Ho & Ha). assert (type_of (o_Body o) = TNetworkPolicy) as Ht by (destruct Ha as (sp & _ & -> & _); done).
  destruct (proj1 (generateRoutes_netpols _ _ _ _ _ Hout) (conj Ho Ht)) as (_ & r & gw & _ & _ & ->).
  destruct Ha as (sp & rule & [= <-] & _ & _ & Hrule & _). by apply elem_of_nil in Hrule.
Qed.

Lemma passes_allow objs :
  generatePasses pkg inp inbound = Ok objs →
  ((∃ o, o ∈ objs ∧ allows_egress ns o pod q proto p) ↔ egress_asked pkg np istio (env_of inp) pod q proto p) ∧
  ((∃ o, o ∈ objs ∧ allows_ingress ns o pod q proto p) ↔ ingress_asked pkg np istio (env_of inp) pod q proto p inbound).
Proof.
  unfold generatePasses. cbv zeta. intros (is_ & His & Hout)%bind_Ok.
  apply bind_Ok in Hout as (nps & Hnps & Hout). apply bind_Ok in Hout as (rts & Hrts & Hout).
  apply bind_Ok in Hout as (sh & Hsh & Hout). apply bind_Ok in Hout as (cs & Hcs%wrap_Ok & Hout%(inj Ok)). subst objs.
  rewrite Hnp, Hen in Hnps. apply wrap_Ok in Hnps.
  destruct (netpol_pass_allows pkg np istio (env_of inp) pod q proto p nps Hfits Hnps) as [Ee Ei].
  assert (Forall other_kind is_) as H1.
  { destruct istio as [i|]; [destruct (Istio_Enabled i)|]; try (injection His as <-; constructor).
    apply wrap_Ok, generateIstio_objects in His. eapply Forall_impl; [done|]. unfold other_kind. intros o [_ Ht] E.
    rewrite E in Ht. set_solver. }
  assert (∀ l, Forall authz_object l → Forall other_kind l) as Hauthz.
  { intros l Hl. eapply Forall_impl; [exact Hl|]. unfold other_kind. intros o [_ ->]. done. }
  pose proof (Hauthz _ (generateDefaultAuthzPolicies_objects pkg istio (Some np))) as H2.
  rewrite Hnp in Hsh |- *. apply wrap_Ok, generateAuthzFromIngressShorthand_authz in Hsh.
  assert (Forall other_kind sh) as H3 by (apply Hauthz; eapply Forall_impl; [exact Hsh|]; by intros o [? _]).
  set (routeAPs := match Spec_Routes (pkg_Spec pkg) with Some _ => _ | None => [] end).
  assert (Forall other_kind routeAPs) as H4.
  { apply Hauthz. unfold routeAPs. destruct (Spec_Routes _); [apply generateAuthzFromRoutes_objects|constructor]. }
  pose proof (Hauthz _ (generateCustomAuthzPolicies_objects _ _ Hcs)) as H5.
  assert (∀ l, Forall other_kind l → ((∃ o, o ∈ l ∧ allows_egress ns o pod q proto p) ↔ False) ∧
    ((∃ o, o ∈ l ∧ allows_ingress ns o pod q proto p) ↔ False)) as Hno.
  { intros l Hl. split; (eapply none_of; [exact Hl|]); intros o Ho; apply (other_allows_nothing o Ho). }
  rewrite !exists_elem_app.
  destruct (Hno _ H1) as [-> ->]. destruct (Hno _ H2) as [-> ->]. destruct (Hno _ H3) as [-> ->].
  destruct (Hno _ H4) as [-> ->]. destruct (Hno _ H5) as [-> ->].
  rewrite Ee, Ei. unfold ingress_asked. destruct (Spec_Routes (pkg_Spec pkg)) as [rs|] eqn:Hrs.
  - apply wrap_Ok in Hrts. rewrite (route_pass_allows rs rts Hrs Hrts).
    pose proof (route_egress_nothing rs rts Hrts). split; [tauto|].
    assert (is_Some (Some rs)) by by eexists. tauto.
  - injection Hrts as <-. assert (¬ is_Some (None : option Routes)) by by intros [? ?].
    destruct (Hno [] (Forall_nil_2 _)) as [-> ->]. split; tauto.
Qed.
End Passes.

(** ** HBONE injection and stamping *)

Section Finish.
Context `{Ext} `{!IntStrLaws} (ns : string) (pod : gmap string string) (q : endpoint) (proto : string) (p : Z).
Definition hbone_connection : Prop := proto = "TCP" ∧ p = hbonePort.

Lemma hbone_ports_allow ports peers :
  (ports_allow ports proto p → ports_allow (hbone_ports ports peers) proto p) ∧
  (ports_allow (hbone_ports ports peers) proto p → ports_allow ports proto p ∨ hbone_connection).
Proof.
  unfold hbone_ports. destruct (_ && _) eqn:E; [|by split; [|left]]. bool_inv.
  rename select (bool_decide _ = false) into Hne. apply bool_decide_eq_false in Hne. unfold ports_allow. split.
  - intros [?|(e & He & Ha)]; [done|]. right. exists e. split; [apply elem_of_app; by left|done].
  - intros [[? _]%app_eq_nil|(e & [He|He]%elem_of_app & Ha)]; [done|left; right; by exists e|].
    apply list_elem_of_singleton in He as ->. right. by apply (portOf_allows proto p) in Ha; [|unfold hbonePort; lia].
Qed.

(** The rules after an injection are the old ones with the ports extended. *)
Lemma injectHBone_body o sp :
  o_Body o = NetworkPolicy sp →
  o_Body (injectHBone o) = NetworkPolicy
    {| nps_PodSelector := nps_PodSelector sp;
       nps_Ingress := (λ r, {| ir_Ports := hbone_ports (ir_Ports r) (ir_From r); ir_From := ir_From r |}) <$> nps_Ingress sp;
       nps_Egress := (λ r, {| er_Ports := hbone_ports (er_Ports r) (er_To r); er_To := er_To r |}) <$> nps_Egress sp;
       nps_PolicyTypes := nps_PolicyTypes sp |}.
Proof.
  intros Hb. unfold injectHBone. rewrite Hb. cbv zeta. rewrite <-!list_fmap_compose.
  assert (∀ o' : Object, ∀ m b, o_Body (if b : bool then set_Meta m o' else o') = o_Body o') as -> by by intros ? ? [].
  cbn [set_Body o_Body]. f_equal. f_equal; apply list_fmap_ext; intros i r _; unfold compose, injectIngress, injectEgress.
  - rewrite <-injectIntoPorts_hbone. by destruct (injectIntoPorts _ _).
  - rewrite <-injectIntoPorts_hbone. by destruct (injectIntoPorts _ _).
Qed.
Lemma injectHBone_not_netpol o sp : o_Body (injectHBone o) = NetworkPolicy sp → ∃ sp', o_Body o = NetworkPolicy sp'.
Proof. unfold injectHBone. destruct (o_Body o) eqn:E; rewrite ?E; intros Hb; try congruence. by eexists. Qed.

(** An injection keeps the directions the policy governs. *)
Lemma injected_policyTypes sp ingress egress (f : NetworkPolicyEgressRule → NetworkPolicyEgressRule) :
  egress = f <$> nps_Egress sp →
  policyTypes_of {| nps_PodSelector := nps_PodSelector sp; nps_Ingress := ingress; nps_Egress := egress;
                    nps_PolicyTypes := nps_PolicyTypes sp |} = policyTypes_of sp.
Proof. intros ->. unfold policyTypes_of. simpl. by destruct (nps_PolicyTypes sp), (nps_Egress sp). Qed.

Lemma injectHBone_egress o :
  (allows_egress ns o pod q proto p → allows_egress ns (injectHBone o) pod q proto p) ∧
  (allows_egress ns (injectHBone o) pod q proto p → allows_egress ns o pod q proto p ∨ hbone_connection).
Proof.
  split.
  - intros (sp & r & Hb & Hs & Ht & Hr & Hp & Ha). do 2 eexists. split_and!; [by apply injectHBone_body|done|by erewrite injected_policyTypes| | |].
    + by apply list_elem_of_fmap_2.
    + done.
    + by apply hbone_ports_allow.
  - intros (sp' & r' & Hb' & Hs & Ht & Hr & Hp & Ha). destruct (injectHBone_not_netpol _ _ Hb') as [sp Hb].
    rewrite (injectHBone_body _ _ Hb) in Hb'. injection Hb' as <-. erewrite injected_policyTypes in Ht by done.
    apply list_elem_of_fmap in Hr as (r & -> & Hr).
    apply hbone_ports_allow in Ha as [Ha|]; [left; by exists sp, r|by right].
Qed.
Lemma injectHBone_ingress o :
  (allows_ingress ns o pod q proto p → allows_ingress ns (injectHBone o) pod q proto p) ∧
  (allows_ingress ns (injectHBone o) pod q proto p → allows_ingress ns o pod q proto p ∨ hbone_connection).
Proof.
  split.
  - intros (sp & r & Hb & Hs & Ht & Hr & Hp & Ha). do 2 eexists. split_and!; [by apply injectHBone_body|done|by erewrite injected_policyTypes| | |].
    + by apply list_elem_of_fmap_2.
    + done.
    + by apply hbone_ports_allow.
  - intros (sp' & r' & Hb' & Hs & Ht & Hr & Hp & Ha). destruct (injectHBone_not_netpol _ _ Hb') as [sp Hb].
    rewrite (injectHBone_body _ _ Hb) in Hb'. injection Hb' as <-. erewrite injected_policyTypes in Ht by done.
    apply list_elem_of_fmap in Hr as (r & -> & Hr).
    apply hbone_ports_allow in Ha as [Ha|]; [left; by exists sp, r|by right].
Qed.

(** A property of bodies that injection only extends by HBONE connections. *)
Lemma finished_allows pkg scheme objs out (F : Object → Prop) :
  (∀ o o', o_Body o = o_Body o' → F o ↔ F o') → (∀ o, (F o → F (injectHBone o)) ∧ (F (injectHBone o) → F o ∨ hbone_connection)) →
  Forall2 (λ o o', setGVK scheme (stampMetadata pkg o) = Ok o') (hbonePass pkg objs) out →
  let hbone := hboneEnabled (Spec_NetworkPolicies (pkg_Spec pkg)) (Spec_Istio (pkg_Spec pkg)) in
  ((∃ o, o ∈ objs ∧ F o) → ∃ o, o ∈ out ∧ F o) ∧
  ((∃ o, o ∈ out ∧ F o) → (∃ o, o ∈ objs ∧ F o) ∨ (hbone = true ∧ hbone_connection)).
Proof.
  intros HF Hinj Hall. cbv zeta.
  assert ((∃ o, o ∈ hbonePass pkg objs ∧ F o) ↔ ∃ o, o ∈ out ∧ F o) as <-.
  { assert (∀ o o', setGVK scheme (stampMetadata pkg o) = Ok o' → F o ↔ F o') as Hstamp.
    { intros o o' (gvk & gvks & _ & ->)%setGVK_Ok. apply HF. by destruct (stampMetadata_frame pkg o) as (_ & _ & <- & _). }
    split; intros (o & [i Hi]%list_elem_of_lookup & Ho).
    - destruct (Forall2_lookup_l _ _ _ _ _ Hall Hi) as (o' & Ho' & Hs). exists o'.
      split; [by eapply list_elem_of_lookup_2|by apply (Hstamp _ _ Hs)].
    - destruct (Forall2_lookup_r _ _ _ _ _ Hall Hi) as (o' & Ho' & Hs). exists o'.
      split; [by eapply list_elem_of_lookup_2|by apply (Hstamp _ _ Hs)]. }
  unfold hbonePass. destruct (hboneEnabled _ _); [|by split; [|left]]. unfold injectHBonePorts. split.
  - intros (o & Ho & Hf). exists (injectHBone o). split; [by apply list_elem_of_fmap_2|by apply Hinj].
  - intros (o' & (o & -> & Ho)%list_elem_of_fmap & Hf). apply Hinj in Hf as [Hf|]; [left; by exists o|by right].
Qed.
End Finish.

(** ** The theorem *)

Section Posture.
Context `{Ext} `{!IntStrLaws}.

(** A deny-all policy isolates every pod. *)
Lemma deny_all_isolates inp pkg np out pod :
  in_Package inp = Some pkg → Spec_NetworkPolicies (pkg_Spec pkg) = Some np → NP_Enabled np = true →
  Generate inp = Ok out →
  (egressDenyAll np = true → isolated PolicyTypeEgress out pod) ∧ (ingressDenyAll np = true → isolated PolicyTypeIngress out pod).
Proof.
  intros Hp Hnp Hen Hout. destruct (Generate_passes _ _ _ Hp Hout) as [Hdef _]. specialize (Hdef np Hnp Hen). split; intros Hd.
  - destruct (Hdef (egressNetpol (prependName (NP_PrependReleaseName np) (pkg_Name pkg) "default-egress-deny-all")
      (defaultNetpolLabels "egress") None emptySelector [])) as (o' & scheme & Ho' & _ & _ & _ & _ & Hb).
    { unfold defaultEgressPolicies. cbv zeta. rewrite Hd. apply elem_of_app. left. apply elem_of_app. left. by left. }
    exists o'. eexists. split; [done|]. split; [by apply Hb|]. split; [apply selects_empty|by left].
  - destruct (Hdef (ingressNetpol (prependName (NP_PrependReleaseName np) (pkg_Name pkg) "default-ingress-deny-all")
      (defaultNetpolLabels "ingress") None emptySelector [])) as (o' & scheme & Ho' & _ & _ & _ & _ & Hb).
    { unfold defaultIngressPolicies. cbv zeta. rewrite Hd. apply elem_of_app. right. apply elem_of_app. left. by left. }
    exists o'. eexists. split; [done|]. split; [by apply Hb|]. split; [apply selects_empty|by left].
Qed.

Definition hbone_of (np : NetworkPolicies) (istio : option Istio) (proto : string) (p : Z) : Prop :=
  hboneEnabled (Some np) istio = true ∧ proto = "TCP" ∧ p = 15008%Z.

Lemma generated_allows inp pkg np inbound out pod q proto p :
  in_Package inp = Some pkg → Spec_NetworkPolicies (pkg_Spec pkg) = Some np → NP_Enabled np = true →
  shorthand_fits np → resolveInboundRoutes inp = Ok inbound → route_ports_fit inbound → Generate inp = Ok out →
  let ns := pkg_Namespace pkg in
  let istio := Spec_Istio (pkg_Spec pkg) in
  let asked_out := egress_asked pkg np istio (env_of inp) pod q proto p in
  let asked_in := ingress_asked pkg np istio (env_of inp) pod q proto p inbound in
  (asked_out → ∃ o, o ∈ out ∧ allows_egress ns o pod q proto p) ∧
  (asked_in → ∃ o, o ∈ out ∧ allows_ingress ns o pod q proto p) ∧
  ((∃ o, o ∈ out ∧ allows_egress ns o pod q proto p) → asked_out ∨ hbone_of np istio proto p) ∧
  ((∃ o, o ∈ out ∧ allows_ingress ns o pod q proto p) → asked_in ∨ hbone_of np istio proto p).
Proof.
  cbv zeta. intros Hpkg Hnp Hen Hfits Hin Hroutes Hout.
  apply Generate_Ok in Hout as (pkg' & scheme & inbound' & objs & Hp' & _ & Hin' & Hobjs & Hf).
  rewrite Hpkg in Hp'. injection Hp' as <-. rewrite Hin in Hin'. injection Hin' as <-.
  destruct (passes_allow pkg np inp inbound Hnp Hen Hfits Hroutes pod q proto p objs Hobjs) as [Ee Ei].
  destruct (finished_allows proto p pkg scheme objs out (λ o, allows_egress (pkg_Namespace pkg) o pod q proto p)) as [He1 He2];
    [by apply allows_egress_body|by apply injectHBone_egress|done|].
  destruct (finished_allows proto p pkg scheme objs out (λ o, allows_ingress (pkg_Namespace pkg) o pod q proto p)) as [Hi1 Hi2];
    [by apply allows_ingress_body|by apply injectHBone_ingress|done|].
  rewrite Hnp in He2, Hi2. split_and!.
  - intros Ha. by apply He1, Ee.
  - intros Ha. by apply Hi1, Ei.
  - intros [?%Ee|?]%He2; [by left|by right].
  - intros [?%Ei|?]%Hi2; [by left|by right].
Qed.

(** C5: The network posture of a package is what its spec asks for. For a
    successful run with networkPolicies on, every pod of the namespace and every
    connection: whatever the defaults, an enabled shorthand entry, a route or an
    additional policy asks for is allowed by a generated policy; and with the
    deny-all defaults on the network permits nothing else, but for HBONE on TCP
    15008 where the injection is on. The keys' ports fit the API's integers. *)
Theorem Generate_posture inp pkg np inbound out pod q proto p
    (Hpkg : in_Package inp = Some pkg) (Hnp : Spec_NetworkPolicies (pkg_Spec pkg) = Some np) (Hen : NP_Enabled np = true)
    (Hfits : shorthand_fits np) (Hin : resolveInboundRoutes inp = Ok inbound) (Hroutes : route_ports_fit inbound)
    (Hout : Generate inp = Ok out) :
  let ns := pkg_Namespace pkg in
  let istio := Spec_Istio (pkg_Spec pkg) in
  let asked_out := egress_asked pkg np istio (env_of inp) pod q proto p in
  let asked_in := ingress_asked pkg np istio (env_of inp) pod q proto p inbound in
  (asked_out → ∃ o, o ∈ out ∧ allows_egress ns o pod q proto p) ∧
  (asked_in → ∃ o, o ∈ out ∧ allows_ingress ns o pod q proto p) ∧
  (egressDenyAll np = true → egress_permitted ns out pod q proto p → asked_out ∨ hbone_of np istio proto p) ∧
  (ingressDenyAll np = true → ingress_permitted ns out pod q proto p → asked_in ∨ hbone_of np istio proto p).
Proof.
  cbv zeta. destruct (deny_all_isolates _ _ _ _ pod Hpkg Hnp Hen Hout) as [Hie Hii].
  destruct (generated_allows _ _ _ _ _ pod q proto p Hpkg Hnp Hen Hfits Hin Hroutes Hout) as (He1 & Hi1 & He2 & Hi2).
  split_and!; auto.
Qed.
End Posture.

(** ** The mesh *)

Section Mesh.
Context `{Ext} (pod : gmap string string) (rq : request).

Lemma other_admits_nothing o : type_of (o_Body o) ≠ TAuthorizationPolicy → ¬ admits pod rq o.
Proof. intros Ht (ap & r & Hb & _). unfold policy_of in Hb. by rewrite Hb in Ht. Qed.

Lemma injectHBone_admits o : admits pod rq (injectHBone o) ↔ admits pod rq o.
Proof.
  destruct (decide (type_of (o_Body o) = TNetworkPolicy)) as [Ht|Ht].
  - split; intros Ha; exfalso; (eapply other_admits_nothing; [|exact Ha]).
    + destruct (injectHBone_frame o) as (_ & _ & _ & -> & _). by rewrite Ht.
    + by rewrite Ht.
  - unfold injectHBone. by destruct (o_Body o).
Qed.

Lemma injectHBone_body_of b : (∀ sp, b ≠ NetworkPolicy sp) → ∀ o, o_Body (injectHBone o) = b ↔ o_Body o = b.
Proof.
  intros Hb o. unfold injectHBone. destruct (o_Body o) eqn:E; rewrite ?E; try done. cbv zeta.
  split; intros Eb; exfalso; [|by eapply Hb].
  destruct (existsb _ _ || existsb _ _); simpl in Eb; by eapply Hb.
Qed.

Lemma passes_admit pkg np inp inbound objs :
  Spec_NetworkPolicies (pkg_Spec pkg) = Some np → authzEnabled (Spec_Istio (pkg_Spec pkg)) = true →
  generateCustomAuthzPolicies (Spec_Istio (pkg_Spec pkg)) = Ok [] → resolveInboundRoutes inp = Ok inbound →
  in_Package inp = Some pkg → request_ok rq → plain (pkg_Namespace pkg) → gateways_plain inbound →
  generatePasses pkg inp inbound = Ok objs →
  ((∃ o, o ∈ objs ∧ admits pod rq o) ↔ mesh_wanted pkg np (Spec_Istio (pkg_Spec pkg)) inbound pod rq) ∧
  ∀ o, o ∈ generateDefaultAuthzPolicies pkg (Spec_Istio (pkg_Spec pkg)) (Some np) → o ∈ objs.
Proof.
  intros Hnp He Hnone Hin Hpkg Hrq Hns Hgw. unfold generatePasses. cbv zeta. intros (is_ & His & Hout)%bind_Ok.
  apply bind_Ok in Hout as (nps & Hnps & Hout). apply bind_Ok in Hout as (rts & Hrts & Hout).
  apply bind_Ok in Hout as (sh & Hsh & Hout). apply bind_Ok in Hout as (cs & Hcs%wrap_Ok & Hout%(inj Ok)).
  rewrite Hnone in Hcs. injection Hcs as <-. rewrite Hnp in Hsh, Hout, Hnps. apply wrap_Ok in Hsh. subst objs.
  split; [|intros o Ho; do 3 (apply elem_of_app; right); apply elem_of_app; by left].
  assert (∀ l, Forall (λ o, type_of (o_Body o) ≠ TAuthorizationPolicy) l → (∃ o, o ∈ l ∧ admits pod rq o) ↔ False) as Hno.
  { intros l Hl. eapply none_of; [exact Hl|]. apply other_admits_nothing. }
  assert (Forall (λ o, type_of (o_Body o) ≠ TAuthorizationPolicy) is_) as H1.
  { destruct (Spec_Istio _) as [i|]; [destruct (Istio_Enabled i)|]; try (injection His as <-; constructor).
    apply wrap_Ok, generateIstio_objects in His. eapply Forall_impl; [done|]. intros o [_ Ht] E. rewrite E in Ht. set_solver. }
  assert (Forall (λ o, type_of (o_Body o) ≠ TAuthorizationPolicy) nps) as H2.
  { destruct (NP_Enabled np); [|injection Hnps as <-; constructor]. apply wrap_Ok, generateNetworkPolicies_objects in Hnps.
    eapply Forall_impl; [done|]. by intros o [_ ->]. }
  assert (Forall (λ o, type_of (o_Body o) ≠ TAuthorizationPolicy) rts) as H3.
  { destruct (Spec_Routes _); [|injection Hrts as <-; constructor]. apply wrap_Ok, generateRoutes_objects in Hrts.
    eapply Forall_impl; [done|]. intros o [_ Ht] E. rewrite E in Ht. set_solver. }
  assert (∃ rs, match Spec_Routes (pkg_Spec pkg) with
                | Some _ => generateAuthzFromRoutes pkg (Spec_Routes (pkg_Spec pkg)) (Spec_Istio (pkg_Spec pkg)) inbound
                | None => [] end = generateAuthzFromRoutes pkg (Some rs) (Spec_Istio (pkg_Spec pkg)) inbound) as [rs ->].
  { unfold resolveInboundRoutes in Hin. rewrite Hpkg in Hin. destruct (Spec_Routes (pkg_Spec pkg)) as [rs|]; [by exists rs|].
    injection Hin as <-. exists {| Routes_Defaults := None; Routes_Inbound := ∅; Routes_Outbound := ∅; Routes_PrependReleaseName := false |}.
    unfold generateAuthzFromRoutes. by destruct (negb _). }
  rewrite <-(generated_policies_admit pkg np _ rs inbound sh pod rq Hrq Hns Hgw He Hsh).
  rewrite !exists_elem_app, (Hno _ H1), (Hno _ H2), (Hno _ H3), (Hno [] (Forall_nil_2 _)). tauto.
Qed.

Lemma generated_admits inp pkg np inbound out :
  in_Package inp = Some pkg → Spec_NetworkPolicies (pkg_Spec pkg) = Some np →
  authzEnabled (Spec_Istio (pkg_Spec pkg)) = true → generateCustomAuthzPolicies (Spec_Istio (pkg_Spec pkg)) = Ok [] →
  resolveInboundRoutes inp = Ok inbound → gateways_plain inbound → plain (pkg_Namespace pkg) → request_ok rq →
  Generate inp = Ok out →
  ((∃ o, o ∈ out ∧ admits pod rq o) ↔ mesh_wanted pkg np (Spec_Istio (pkg_Spec pkg)) inbound pod rq) ∧
  (ingressSideEnabled np = true → authzAllowNothing (Spec_Istio (pkg_Spec pkg)) = true →
     ∃ o, o ∈ out ∧ o_Body o = AuthorizationPolicy zeroAuthorizationPolicy).
Proof.
  intros Hpkg Hnp Henabled Hcustom Hin Hgw Hns Hrq Hout.
  apply Generate_Ok in Hout as (pkg' & scheme & inbound' & objs & Hp' & _ & Hin' & Hobjs & Hf).
  rewrite Hpkg in Hp'. injection Hp' as <-. rewrite Hin in Hin'. injection Hin' as <-.
  destruct (passes_admit pkg np inp inbound objs Hnp Henabled Hcustom Hin Hpkg Hrq Hns Hgw Hobjs) as [Ew Hdef].
  assert (∀ F : Object → Prop, (∀ o o', o_Body o = o_Body o' → F o ↔ F o') → (∀ o, F (injectHBone o) ↔ F o) →
    (∃ o, o ∈ out ∧ F o) ↔ ∃ o, o ∈ objs ∧ F o) as Hkept.
  { intros F HF Hi. destruct (finished_allows "" 0 pkg scheme objs out F HF) as [H1 H2]; [|done|].
    - intros o. rewrite Hi. split; [done|by left].
    - split; [|done]. intros Ho. destruct (H2 Ho) as [?|[_ [? _]]]; done. }
  split.
  - rewrite <-Ew. apply Hkept; [by apply admits_body|apply injectHBone_admits].
  - intros Hside Hnothing. destruct (allow_nothing_present pkg np _ Henabled Hside Hnothing) as (o & Ho & Hb).
    apply (Hkept (λ o, o_Body o = AuthorizationPolicy zeroAuthorizationPolicy)).
    + by intros x y ->.
    + by apply injectHBone_body_of.
    + exists o. split; [by apply Hdef|done].
Qed.

(** C6: The mesh posture of a package is what its spec asks for. For a successful
    run with authorization policies on and no custom ones, the generated objects
    admit a request exactly when the namespace default, an enabled ingress entry
    or a route names its caller, workload and port; with the allow-nothing
    default on that is the decision of the mesh. The caller's names and those of
    the gateways are names the API server accepts. With generateFromNetpol off
    the entries ask for nothing, in ambient mode as well, where istio.md says
    that they are forced on: what is proved is the code's side (a finding,
    [Authz.ambient_not_forced]). *)
Theorem Generate_mesh inp pkg np inbound out
    (Hpkg : in_Package inp = Some pkg) (Hnp : Spec_NetworkPolicies (pkg_Spec pkg) = Some np)
    (Henabled : authzEnabled (Spec_Istio (pkg_Spec pkg)) = true)
    (Hcustom : generateCustomAuthzPolicies (Spec_Istio (pkg_Spec pkg)) = Ok [])
    (Hin : resolveInboundRoutes inp = Ok inbound) (Hgw : gateways_plain inbound) (Hns : plain (pkg_Namespace pkg))
    (Hrq : request_ok rq) (Hout : Generate inp = Ok out) :
  let istio := Spec_Istio (pkg_Spec pkg) in
  ((∃ o, o ∈ out ∧ admits pod rq o) ↔ mesh_wanted pkg np istio inbound pod rq) ∧
  (ingressSideEnabled np = true → authzAllowNothing istio = true →
     mesh_admits out pod rq ↔ mesh_wanted pkg np istio inbound pod rq).
Proof.
  cbv zeta. destruct (generated_admits inp pkg np inbound out) as [Ew Hnone]; [done..|]. split; [done|].
  intros Hside Hnothing. destruct (Hnone Hside Hnothing) as (o & Ho & Hb). rewrite <-Ew. by apply (mesh_admits_denied _ o).
Qed.
End Mesh.

(** ** A concrete posture: ambient mode, one ingress entry and one route *)

Definition example_inbound_routes : list resolvedInbound := ok_value [] (resolveInboundRoutes example_full_input).

Lemma example_full_fits : shorthand_fits example_ingress_np.
Proof.
  split; [done|]. intros ingress [= <-] localKey pl [raw Hk] Hpl. cbn [Ingress_To] in Hk. apply lookup_singleton_Some in Hk as [<- _].
  vm_compute in Hpl. injection Hpl as <-. repeat constructor.
Qed.
Lemma example_inbound_routes_fit : route_ports_fit example_inbound_routes.
Proof.
  intros r Hr. assert (forallb (λ r, portNumber (inboundWorkloadPort (ri_route r)) <? 2147483648)%Z example_inbound_routes = true) as Hall
    by (vm_compute; reflexivity).
  rewrite forallb_forall in Hall. apply Z.ltb_lt, Hall. by apply list_elem_of_In.
Qed.

Lemma example_full_asked :
  ingress_asked (demo_package example_full_spec) example_ingress_np (Some example_full_istio) (env_of example_full_input)
    (app "web") example_pod "TCP" 8081%Z example_inbound_routes.
Proof.
  right. left. eexists. split; [reflexivity|]. eexists "web:8080-8082", _. do 3 eexists. split; [vm_compute; reflexivity|].
  split; [vm_compute; reflexivity|]. split; [reflexivity|]. split; [vm_compute; reflexivity|]. split; [reflexivity|]. left.
  eexists "sa@ns", _. split; [vm_compute; reflexivity|]. split; [reflexivity|].
  eexists. split; [vm_compute; reflexivity|]. split; [split; [right; reflexivity|left; reflexivity]|].
  right. split; [reflexivity|]. simpl. lia.
Qed.

Lemma Generate_posture_witness :
  ingressDenyAll example_ingress_np = true ∧
  ∃ o, o ∈ example_full_objects ∧ allows_ingress "apps" o (app "web") example_pod "TCP" 8081%Z.
Proof.
  split; [reflexivity|].
  refine (proj1 (proj2 (Generate_posture example_full_input (demo_package example_full_spec) example_ingress_np
    example_inbound_routes example_full_objects (app "web") example_pod "TCP" 8081%Z eq_refl eq_refl eq_refl
    example_full_fits _ example_inbound_routes_fit example_full_run)) example_full_asked).
  apply ok_by_compute. vm_compute. reflexivity.
Defined.

Lemma example_gateways_plain : gateways_plain example_inbound_routes.
Proof. apply gateways_plain_of. vm_compute. reflexivity. Qed.

Lemma Generate_mesh_witness :
  ingressSideEnabled example_ingress_np = true ∧ mesh_admits example_full_objects (app "web") example_request.
Proof.
  split; [reflexivity|].
  refine (proj2 (proj2 (Generate_mesh (app "web") example_request example_full_input (demo_package example_full_spec)
    example_ingress_np example_inbound_routes example_full_objects eq_refl eq_refl eq_refl eq_refl _ example_gateways_plain _
    example_request_ok example_full_run) eq_refl eq_refl) _).
  - apply ok_by_compute. vm_compute. reflexivity.
  - by vm_compute.
  - right. left. split; [reflexivity|]. eexists. split; [reflexivity|]. by apply example_shorthand_wanted.
Defined.
