(* ===== verification/Prune.v ===== *)
(** * prune.go: deleting what a package no longer wants *)

From S2P Require Import Prelude GoStrings K8s ApiTypes External Metadata.
From S2P Require Import Interaction Status.
Local Open Scope string_scope.
Local Open Scope list_scope.

(** A List: the kind of its items, and the items the API server answered. *)
Record ObjectList := { ol_Kind : ObjectType; ol_Items : list Object }.

(** One List per kind the generator may emit, by the type of its items. *)
Definition managedListKinds : list ObjectType :=
  [TNetworkPolicy; TPeerAuthentication; TAuthorizationPolicy; TVirtualService; TServiceEntry; TSidecar].

(** The type switch over the six List types; its default is not reachable, for
    these are all the kinds there are. *)
Definition extractItems (l : ObjectList) : outcome (list Object) :=
  match ol_Kind l with
  | TNetworkPolicy => Ok (ol_Items l)
  | TPeerAuthentication => Ok (ol_Items l)
  | TAuthorizationPolicy => Ok (ol_Items l)
  | TVirtualService => Ok (ol_Items l)
  | TServiceEntry => Ok (ol_Items l)
  | TSidecar => Ok (ol_Items l)
  end.

Section Prune.
Context `{ControllerExt}.

Definition objectKey (o : Object) : string :=
  GVKString (o_GVK o) +:+ "|" +:+ o_Namespace o +:+ "|" +:+ o_Name o.

(** The inner loop of [pruneStale]; [None] is a nil error. *)
Fixpoint deleteStale (keep : gset string) (items : list Object) : prog (option error) :=
  match items with
  | [] => Ret None
  | item :: items =>
      if decide (objectKey item ∈ keep) then deleteStale keep items
      else
        err ← ask (Delete item);
        match err with
        | Some e =>
            if IsNotFound e then deleteStale keep items
            else Ret (Some (Wrapf ("delete " +:+ Kind (o_GVK item) +:+ "/" +:+ o_Name item) e))
        | None => deleteStale keep items
        end
  end.

(** The outer loop. *)
Fixpoint pruneKinds (pkg : Package) (keep : gset string) (kinds : list ObjectType) : prog (option error) :=
  match kinds with
  | [] => Ret None
  | kind :: kinds =>
      r ← ask (ListObjects kind (pkg_Namespace pkg) {[LabelPackage := pkg_Name pkg]});
      match r with
      | inr e => Ret (Some (Wrapf "list for prune" e))
      | inl l =>
          items ← lift (extractItems {| ol_Kind := kind; ol_Items := l |});
          match items with
          | inr e => Ret (Some e)
          | inl items =>
              err ← deleteStale keep items;
              match err with
              | Some e => Ret (Some e)
              | None => pruneKinds pkg keep kinds
              end
          end
      end
  end.

Definition pruneStale (pkg : Package) (desired : list Object) : prog (option error) :=
  let keep : gset string := list_to_set (objectKey <$> desired) in
  pruneKinds pkg keep managedListKinds.

(** ** Lemmas *)

Lemma extractItems_Ok l : extractItems l = Ok (ol_Items l).
Proof. unfold extractItems. by destruct (ol_Kind l). Qed.

Lemma managedListKinds_all t : t ∈ managedListKinds.
Proof. unfold managedListKinds. destruct t; set_solver. Qed.

Lemma deleteStale_returns B keep items : returns_under B (deleteStale keep items).
Proof.
  induction items as [|item items IH]; simpl; [done|]. destruct (decide _); [done|]. simpl.
  intros [e|] _; [|done]. by destruct (IsNotFound e).
Qed.

Lemma pruneStale_returns B pkg desired : returns_under B (pruneStale pkg desired).
Proof.
  unfold pruneStale. generalize managedListKinds. intros kinds. induction kinds as [|k kinds IH]; [done|].
  cbn [pruneKinds]. apply returns_under_ask. intros [l|e] _; [|done]. rewrite extractItems_Ok.
  apply returns_under_bind; [done|]. intros [items|e]; [|done].
  apply returns_under_bind; [apply deleteStale_returns|]. by intros [e|].
Qed.
End Prune.
