(* ===== verification/Reconcile.v ===== *)
(** * package_controller.go: the reconciler *)

From S2P Require Import Prelude GoStrings Json JsonText K8s ApiTypes External Names Metadata.
From S2P Require Import RouteDecode IngressConfig Authz Generator.
From S2P Require Import Interaction Status Prune.
Local Open Scope string_scope.
Local Open Scope list_scope.

Definition fieldManager : string := "bigbang-operator".

(** Outcome labels (metrics.go). *)
Definition outcomeSuccess : string := "success".
Definition outcomeGenerationFailed : string := "generation_failed".
Definition outcomeApplyFailed : string := "apply_failed".
Definition outcomePruneFailed : string := "prune_failed".

(** The reconciler's fields; the client is the environment. [r_APIReader] and
    [r_Recorder] say whether the pointer is set. *)
Record PackageReconciler := {
  r_Scheme : option Scheme;
  r_APIReader : bool;
  r_Recorder : bool;
  r_GlobalConfigNamespace : string;
  r_GlobalConfigName : string
}.

(** Data keys of the global ConfigMap (globalconfig.go, ingressconfig.go). *)
Definition GlobalConfigRoutesKey : string := "routes".
Definition GlobalConfigGatewaysKey : string := "gateways".

(** The zero [Input] and the assignments to it. *)
Definition emptyInput : Input :=
  {| in_Package := None; in_Scheme := None; in_KubeAPIPorts := []; in_SharedEgressDefinitions := ∅;
     in_SharedIngressDefinitions := ∅; in_SharedDefinitionsError := None; in_SharedIngressConfig := None;
     in_SharedIngressConfigError := None |}.
Definition set_inputs (pkg : Package) (scheme : option Scheme) (ports : list IntOrString) (inp : Input) : Input :=
  {| in_Package := Some pkg; in_Scheme := scheme; in_KubeAPIPorts := ports;
     in_SharedEgressDefinitions := in_SharedEgressDefinitions inp;
     in_SharedIngressDefinitions := in_SharedIngressDefinitions inp;
     in_SharedDefinitionsError := in_SharedDefinitionsError inp;
     in_SharedIngressConfig := in_SharedIngressConfig inp;
     in_SharedIngressConfigError := in_SharedIngressConfigError inp |}.

(** [time.IsZero] of a timestamp that may be missing; the zero time is 0. *)
Definition IsZero (t : option Z) : bool := match t with None => true | Some t => (t =? 0)%Z end.

(** The bytes ["kubeAPI"], quotes included. *)
Definition kubeAPI_quoted : string := String quote_mark ("kubeAPI" +:+ String quote_mark "").

Section Reconcile.
Context `{Ext} `{ControllerExt}.

(** The value and the error of a call that returned both. *)
Definition value {A} (d : A) (r : A + error) : A := match r with inl a => a | inr _ => d end.
Definition err_of {A} (r : A + error) : option error := match r with inl _ => None | inr e => Some e end.

(** The ConfigMap's data, parsed. A later parse is skipped only where the code
    skips it: the ingress definitions after a failure of the egress ones. *)
Definition parseSharedConfig (data : gmap string string) : prog Input :=
  let at_ key := default "" (data !! key) in
  egress ← lift (ParseSharedEgressDefinitions (at_ GlobalConfigEgressKey));
  ingress ← match egress with
            | inr _ => Ret (inl None)
            | inl _ => lift (ParseSharedIngressDefinitions (at_ GlobalConfigIngressKey))
            end;
  cfg ← lift (ParseIngressConfig (at_ GlobalConfigRoutesKey) (at_ GlobalConfigGatewaysKey));
  Ret {| in_Package := None; in_Scheme := None; in_KubeAPIPorts := [];
         in_SharedEgressDefinitions := contents (value None egress);
         in_SharedIngressDefinitions := contents (value None ingress);
         in_SharedDefinitionsError := match egress with inr e => Some e | inl _ => err_of ingress end;
         in_SharedIngressConfig := match cfg with inl c => Some c | inr _ => None end;
         in_SharedIngressConfigError := err_of cfg |}.

Definition sharedConfig (r : PackageReconciler) : prog Input :=
  let ns := r_GlobalConfigNamespace r in
  let name := r_GlobalConfigName r in
  if String.eqb ns "" || String.eqb name "" then Ret emptyInput
  else
    cm ← ask (GetConfigMap (ns, name));
    match cm with
    | inr err =>
        if IsNotFound err then Ret emptyInput
        else
          let e := Some (Wrapf ("get global config " +:+ ns +:+ "/" +:+ name) err) in
          Ret {| in_Package := None; in_Scheme := None; in_KubeAPIPorts := []; in_SharedEgressDefinitions := ∅;
                 in_SharedIngressDefinitions := ∅; in_SharedDefinitionsError := e; in_SharedIngressConfig := None;
                 in_SharedIngressConfigError := e |}
    | inl data => parseSharedConfig data
    end.

(** A rule's bytes mention the built-in definition. *)
Definition references_kubeAPI (pkg : Package) : bool :=
  match Spec_NetworkPolicies (pkg_Spec pkg) with
  | None => false
  | Some np =>
      if negb (NP_Enabled np) then false
      else match NP_Egress np with
           | None => false
           | Some egress => existsb (λ kv, Contains (Raw kv.2) kubeAPI_quoted) (map_to_list (Egress_From egress))
           end
  end.

Definition kubeAPIPorts (r : PackageReconciler) (pkg : Package) : prog (list IntOrString) :=
  if negb (references_kubeAPI pkg) then Ret []
  else
    svc ← ask (GetService (r_APIReader r) ("default", "kubernetes"));
    Ret (value [] svc).

Definition packagesForGlobalConfig (r : PackageReconciler) (obj : NamespacedName) : prog (list NamespacedName) :=
  if negb (String.eqb obj.1 (r_GlobalConfigNamespace r)) || negb (String.eqb obj.2 (r_GlobalConfigName r)) then Ret []
  else
    pkgs ← ask ListPackages;
    Ret ((λ p, (pkg_Namespace p, pkg_Name p)) <$> value [] pkgs).

(** Each apply updates the object from the server's answer. *)
Definition applyAll (desired : list Object) : prog (list Object + error) :=
  each (λ obj,
    r ← ask (Patch obj true fieldManager);
    Ret (match r with
         | inl obj => inl obj
         | inr err => inr (Wrapf ("apply " +:+ Kind (o_GVK obj) +:+ "/" +:+ o_Name obj) err)
         end)) desired.

Definition inc (pkg : Package) (outcome : string) : prog unit := ask (IncTotal (pkg_Namespace pkg) (pkg_Name pkg) outcome).

(** From [generator.Generate] to the end. *)
Definition applyGenerated (pkg : Package) (generated : list Object + error) : prog (Package * option error) :=
  match generated with
  | inr err => _ ← inc pkg outcomeGenerationFailed; markFailed pkg "GenerationFailed" err
  | inl desired =>
      applied ← applyAll desired;
      match applied with
      | inr err => _ ← inc pkg outcomeApplyFailed; markFailed pkg "ApplyFailed" err
      | inl desired =>
          pruned ← pruneStale pkg desired;
          match pruned with
          | Some err => _ ← inc pkg outcomePruneFailed; markFailed pkg "PruneFailed" err
          | None =>
              _ ← inc pkg outcomeSuccess;
              _ ← ask (SetApplied (pkg_Namespace pkg) (pkg_Name pkg) (Z.of_nat (length desired)));
              markReady pkg desired
          end
      end
  end.

Fixpoint emitWarnings (pkg : Package) (warnings : list string) : prog unit :=
  match warnings with
  | [] => Ret tt
  | w :: ws => _ ← ask (Event pkg "UnsupportedField" w); emitWarnings pkg ws
  end.

(** What runs between the start of the clock and the deferred observation. *)
Definition reconcileGeneration (r : PackageReconciler) (pkg : Package) : prog (Package * option error) :=
  _ ← (if r_Recorder r then emitWarnings pkg (Warnings pkg) else Ret tt);
  shared ← sharedConfig r;
  ports ← kubeAPIPorts r pkg;
  generated ← lift (Generate (set_inputs pkg (r_Scheme r) ports shared));
  applyGenerated pkg generated.

(** The observation is deferred, so it follows every return of the body. *)
Definition observed (r : PackageReconciler) (pkg : Package) : prog (option error) :=
  start ← ask Now;
  '(pkg, err) ← reconcileGeneration r pkg;
  now ← ask Now;
  _ ← ask (ObserveDuration (pkg_Namespace pkg) (pkg_Name pkg) (now - start));
  Ret err.

(** The [ctrl.Result] is always zero; the result is the error. *)
Definition Reconcile (r : PackageReconciler) (req : NamespacedName) : prog (option error) :=
  got ← ask (GetPackage req);
  match got with
  | inr err => if IsNotFound err then Ret None else Ret (Some err)
  | inl pkg =>
      if negb (IsZero (om_DeletionTimestamp (pkg_Meta pkg))) then Ret None
      else if negb (pkg_Generation pkg =? Status_ObservedGeneration (pkg_Status pkg))%Z then
        marked ← markReconciling pkg;
        match marked with
        | inr err => Ret (Some err)
        | inl pkg => observed r pkg
        end
      else observed r pkg
  end.

(** The kinds whose changes trigger a reconcile, and whether ConfigMaps do. *)
Definition SetupWithManager (r : PackageReconciler) : list ObjectType * bool :=
  ([TNetworkPolicy; TPeerAuthentication; TAuthorizationPolicy; TVirtualService; TServiceEntry; TSidecar],
   negb (String.eqb (r_GlobalConfigNamespace r) "") && negb (String.eqb (r_GlobalConfigName r) "")).

(** ** Lemmas: the reconciler returns *)

(** The strict YAML decoders return: with a value or an error. *)
Class YamlReturns : Prop := {
  ret_egressDefinitions s : returns (UnmarshalStrict_egressDefinitions s);
  ret_ingressDefinitions s : returns (UnmarshalStrict_ingressDefinitions s);
  ret_routes s : returns (UnmarshalStrict_routes s);
  ret_gateways s : returns (UnmarshalStrict_gateways s)
}.

Lemma ParseSharedEgressDefinitions_returns `{!YamlReturns} s : returns (ParseSharedEgressDefinitions s).
Proof. unfold ParseSharedEgressDefinitions. destruct (String.eqb _ _); [done|]. apply wrap_returns, ret_egressDefinitions. Qed.
Lemma ParseSharedIngressDefinitions_returns `{!YamlReturns} s : returns (ParseSharedIngressDefinitions s).
Proof. unfold ParseSharedIngressDefinitions. destruct (String.eqb _ _); [done|]. apply wrap_returns, ret_ingressDefinitions. Qed.
Lemma ParseIngressConfig_returns `{!YamlReturns, !ExtReturns} routes gateways : returns (ParseIngressConfig routes gateways).
Proof.
  unfold ParseIngressConfig. apply bind_returns; [apply wrap_returns, ret_routes|]. intros rs _.
  apply bind_returns; [apply wrap_returns, ret_gateways|]. intros gs _. cbv zeta. apply bind_returns; [|done].
  apply for_sorted_returns. intros ref def _. apply bind_returns; [|done]. unfold checkGateway.
  destruct (splitGateway ref); [|done]. destruct (gd_PodSelector def); [|done].
  apply bind_returns; [apply wrap_returns; auto with go|]. intros _ _. by destruct (_ =? 0)%nat.
Qed.

Lemma parseSharedConfig_returns `{!YamlReturns, !ExtReturns} B data : returns_under B (parseSharedConfig data).
Proof.
  unfold parseSharedConfig. cbv zeta.
  apply returns_under_bind; [apply returns_under_lift, ParseSharedEgressDefinitions_returns|]. intros egress.
  apply returns_under_bind; [destruct egress; [apply returns_under_lift, ParseSharedIngressDefinitions_returns|done]|].
  intros ingress. by apply returns_under_bind; [apply returns_under_lift, ParseIngressConfig_returns|].
Qed.

Lemma sharedConfig_returns `{!YamlReturns, !ExtReturns} B r : returns_under B (sharedConfig r).
Proof.
  unfold sharedConfig. cbv zeta. destruct (_ || _); [done|]. apply returns_under_ask.
  intros [data|err] _; [apply parseSharedConfig_returns|]. by destruct (IsNotFound err).
Qed.

Lemma applyAll_returns B desired : returns_under B (applyAll desired).
Proof. apply returns_under_each. intros o. apply returns_under_ask. by intros [] _. Qed.

Lemma markFailed_returns B pkg reason err : returns_under B (markFailed pkg reason err).
Proof. intros n1 _ n2 _. by intros [p|e] _. Qed.
Lemma markReady_returns B pkg desired : returns_under B (markReady pkg desired).
Proof. intros n1 _. by intros [p|e] _. Qed.

Lemma inc_failed_returns B pkg outcome reason err :
  returns_under B (_ ← inc pkg outcome; markFailed pkg reason err).
Proof. intros [] _. apply markFailed_returns. Qed.

Lemma applyGenerated_returns B pkg generated : returns_under B (applyGenerated pkg generated).
Proof.
  destruct generated as [desired|err]; cbn [applyGenerated]; [|apply inc_failed_returns].
  apply returns_under_bind; [apply applyAll_returns|]. intros [os|err]; [|apply inc_failed_returns].
  apply returns_under_bind; [apply pruneStale_returns|]. intros [err|]; [apply inc_failed_returns|].
  intros [] _ [] _. apply markReady_returns.
Qed.

Lemma emitWarnings_returns B pkg ws : returns_under B (emitWarnings pkg ws).
Proof. induction ws as [|w ws IH]; [done|]. by intros [] _. Qed.

(** A package whose ingress port ranges end below the largest integer. *)
Definition bounded (pkg : Package) : Prop :=
  ∀ np, Spec_NetworkPolicies (pkg_Spec pkg) = Some np → ranges_bounded np.
(** The packages an answer may hold. *)
Definition bounded_answer (c : call) : ans c → Prop :=
  match c with
  | GetPackage _ | StatusUpdate _ => λ r, match r with inl p => bounded p | inr _ => True end
  | _ => λ _, True
  end.

Lemma observed_returns `{!YamlReturns, !ExtReturns} r pkg :
  (∀ scheme t, r_Scheme r = Some scheme → returns (scheme t)) → bounded pkg →
  returns_under bounded_answer (observed r pkg).
Proof.
  intros Hscheme Hb. unfold observed. apply returns_under_ask. intros start _.
  apply returns_under_bind; [|intros [p err]; by intros now _ [] _]. unfold reconcileGeneration.
  apply returns_under_bind; [destruct (r_Recorder r); [apply emitWarnings_returns|done]|]. intros u.
  apply returns_under_bind; [apply sharedConfig_returns|]. intros shared.
  apply returns_under_bind; [unfold kubeAPIPorts; by destruct (negb _)|]. intros ports.
  apply returns_under_bind; [|intros g; apply applyGenerated_returns].
  apply returns_under_lift, Generate_returns; [done|]. intros p np [= <-] Hnp. by apply Hb.
Qed.

Lemma Reconcile_returns `{!YamlReturns, !ExtReturns} r req :
  (∀ scheme t, r_Scheme r = Some scheme → returns (scheme t)) →
  returns_under bounded_answer (Reconcile r req).
Proof.
  intros Hscheme. unfold Reconcile. apply returns_under_ask.
  intros [pkg|err] Hpkg; [|by destruct (IsNotFound err)]. cbv beta iota. simpl in Hpkg.
  destruct (negb (IsZero _)); [done|]. destruct (negb _); [|by apply observed_returns].
  intros now _ [p|err] Hp; [|done]. by apply observed_returns.
Qed.

(** C20: A reconcile returns, whatever the API server answers, as long as the
    packages it answers have port ranges that end below the largest integer: no
    panic, no endless loop, a result in every case. *)
Theorem Reconcile_total `{!YamlReturns, !ExtReturns} {W} (h : handler W) r req w
    (Hscheme : ∀ scheme t, r_Scheme r = Some scheme → returns (scheme t))
    (Hbounded : ∀ c w, bounded_answer c (h c w).1) :
  is_Ok (run h (Reconcile r req) w).1.1.
Proof. by eapply returns_under_run; [|apply Reconcile_returns]. Qed.

(** C29: The shared configuration fails closed, and its halves fail apart. An
    absent ConfigMap, or none configured, is an empty configuration; one that
    cannot be read sets both errors; otherwise the definitions have no error
    exactly when both of their keys parse, and are then what was parsed, while
    the ingress configuration has no error exactly when it parses, whatever the
    definitions did. *)
Theorem sharedConfig_fails_closed {W} (h : handler W) r w inp
    (Hrun : (run h (sharedConfig r) w).1.1 = Ok inp) :
  let key := (r_GlobalConfigNamespace r, r_GlobalConfigName r) in
  if String.eqb key.1 "" || String.eqb key.2 "" then inp = emptyInput ∧ (run h (sharedConfig r) w).1.2 = []
  else match (h (GetConfigMap key) w).1 with
  | inr err =>
      if IsNotFound err then inp = emptyInput
      else is_Some (in_SharedDefinitionsError inp) ∧ is_Some (in_SharedIngressConfigError inp)
  | inl data =>
      let at_ key := default "" (data !! key) in
      let egress := ParseSharedEgressDefinitions (at_ GlobalConfigEgressKey) in
      let ingress := ParseSharedIngressDefinitions (at_ GlobalConfigIngressKey) in
      let cfg := ParseIngressConfig (at_ GlobalConfigRoutesKey) (at_ GlobalConfigGatewaysKey) in
      (in_SharedDefinitionsError inp = None ↔ is_Ok egress ∧ is_Ok ingress) ∧
      (∀ e i, egress = Ok e → ingress = Ok i →
         in_SharedEgressDefinitions inp = contents e ∧ in_SharedIngressDefinitions inp = contents i) ∧
      (in_SharedIngressConfigError inp = None ↔ is_Ok cfg) ∧
      (∀ c, in_SharedIngressConfig inp = Some c ↔ cfg = Ok c)
  end.
Proof.
  cbv zeta. simpl fst. simpl snd. unfold sharedConfig in Hrun |- *. cbv zeta in Hrun |- *.
  destruct (String.eqb _ "" || String.eqb _ ""); [by injection Hrun as <-|].
  rewrite run_bind in Hrun. unfold ask in Hrun. simpl in Hrun.
  destruct (h (GetConfigMap _) w) as [[data|err] w1]; simpl in *.
  2: { destruct (IsNotFound err); injection Hrun as <-; [done|]. split; by eexists. }
  unfold parseSharedConfig in Hrun. cbv zeta in Hrun. unfold is_Ok.
  destruct (ParseSharedEgressDefinitions _) as [eg|e1| |]; simpl in Hrun; try done;
    [destruct (ParseSharedIngressDefinitions _) as [ing|e2| |]; simpl in Hrun; try done|];
    destruct (ParseIngressConfig _ _) as [c|e3| |]; simpl in Hrun; try done;
    injection Hrun as <-; simpl; naive_solver.
Qed.
End Reconcile.

(** ** The kubeAPI definition *)

(** The raw documents of the egress sources, where network policies are on. *)
Definition egress_source (pkg : Package) (raw : JSON) : Prop :=
  ∃ np egress localKey, Spec_NetworkPolicies (pkg_Spec pkg) = Some np ∧ NP_Enabled np = true ∧
    NP_Egress np = Some egress ∧ Egress_From egress !! localKey = Some raw.

Lemma kubeAPI_word : is_word "kubeAPI".
Proof. by split. Qed.

Lemma references_kubeAPI_iff pkg :
  references_kubeAPI pkg = true ↔ ∃ raw, egress_source pkg raw ∧ inside (quoted "kubeAPI") (Raw raw).
Proof.
  unfold references_kubeAPI, egress_source. split.
  - destruct (Spec_NetworkPolicies (pkg_Spec pkg)) as [np|]; [|done]. destruct (NP_Enabled np) eqn:He; [|done]. cbn [negb].
    destruct (NP_Egress np) as [egress|] eqn:Heg; [|done]. intros ([k raw] & Hin & Hc)%existsb_exists.
    apply list_elem_of_In, elem_of_map_to_list in Hin. exists raw. split; [by exists np, egress, k|by apply Contains_inside].
  - intros (raw & (np & egress & k & -> & -> & -> & Hraw) & Hin). cbn [negb]. apply existsb_exists. exists (k, raw).
    split; [by apply list_elem_of_In, elem_of_map_to_list|by apply Contains_inside].
Qed.

Section KubeAPI.
Context `{Ext} `{ControllerExt}.

(** One read of the Service, whose ports are passed on; none when it fails. *)
Definition service_looked_up {W} (h : handler W) (r : PackageReconciler) (pkg : Package) (w : W) : Prop :=
  let get := GetService (r_APIReader r) ("default", "kubernetes") in
  (run h (kubeAPIPorts r pkg) w).1 = (Ok (value [] (h get w).1), [Ev get (h get w).1]).

Lemma referenced_looked_up {W} (h : handler W) r pkg w :
  references_kubeAPI pkg = true → service_looked_up h r pkg w.
Proof. unfold service_looked_up, kubeAPIPorts. intros ->. simpl. by destruct (h (GetService _ _) w). Qed.

Lemma spelled_looked_up {W} (h : handler W) r pkg w raw j :
  egress_source pkg raw → Raw raw = json_print j → spells "kubeAPI" j → service_looked_up h r pkg w.
Proof.
  intros Hsrc Hraw Hj. apply referenced_looked_up, references_kubeAPI_iff. exists raw. split; [done|].
  rewrite Hraw. by apply spelled_printed; [apply kubeAPI_word|].
Qed.

(** C35: When the API server's ports are looked up, in both directions, for
    documents printed without blanks as the API server stores them. If network
    policies are on and the document of some egress source spells "kubeAPI" (the
    name of a member or a string value, at any depth, that is this word, or ends
    in a quote and this word), the default/kubernetes Service is read once,
    through the uncached reader when there is one, and its target ports are
    passed on, none when the read fails. If none of the documents spells it, or
    network policies are off, nothing is read and there are no ports. *)
Theorem kubeAPIPorts_looked_up {W} (h : handler W) r pkg w :
  (∀ raw j, egress_source pkg raw → Raw raw = json_print j → spells "kubeAPI" j → service_looked_up h r pkg w) ∧
  ((∀ raw, egress_source pkg raw → ∃ j, Raw raw = json_print j ∧ numerals_plain j ∧ ¬ spells "kubeAPI" j) →
     run h (kubeAPIPorts r pkg) w = (Ok [], [], w)).
Proof.
  split.
  - intros raw j. apply spelled_looked_up.
  - intros Hnone. unfold kubeAPIPorts. destruct (references_kubeAPI pkg) eqn:E; [|done]. exfalso.
    apply references_kubeAPI_iff in E as (raw & Hsrc & Hin). destruct (Hnone raw Hsrc) as (j & Hraw & Hn & Hj).
    rewrite Hraw in Hin. apply Hj. by apply printed_spelled; [apply kubeAPI_word|..].
Qed.

(** The documentation says that the lookup happens only when a package
    references the definition; a label's value is enough. *)
Lemma kubeAPI_label_looked_up {W} (h : handler W) r pkg w raw :
  egress_source pkg raw → Raw raw = json_print (JObj [("podSelector", JObj [("team", JStr "kubeAPI")])]) →
  service_looked_up h r pkg w.
Proof.
  intros Hsrc Hraw. eapply spelled_looked_up; [exact Hsrc|exact Hraw|]. exists "kubeAPI". split; [|by left]. left.
  eapply part_member; [by left|]. eapply part_member; [by left|]. constructor.
Qed.
End KubeAPI.

#[export] Instance demo_YamlReturns : YamlReturns.
Proof. by split. Defined.
