(* ===== verification/Protocol.v ===== *)
(** * What the reconciler asks of the API server, whatever it answers

    The order of the calls of one reconcile, and what is true of the history
    when each is made.  Nothing is assumed of the answers: other clients may
    change the cluster at any time and any call may fail. *)

From S2P Require Import Prelude GoStrings Json K8s ApiTypes External Metadata.
From S2P Require Import IngressConfig Generator.
From S2P Require Import Interaction Status Prune Reconcile.
Local Open Scope string_scope.
Local Open Scope list_scope.

(** ** Reading a history *)

(** The object an event asked to apply, and the object a successful apply answered. *)
Definition patch_sent (e : event) : option Object :=
  match ev_call e with Patch o _ _ => Some o | _ => None end.
Definition patch_answered (e : event) : option Object :=
  let '(Ev c r) := e in
  match c return ans c → option Object with
  | Patch _ _ _ => λ r, match r with inl o => Some o | inr _ => None end
  | _ => λ _, None
  end r.
(** The package an event answered. *)
Definition package_answered (e : event) : option Package :=
  let '(Ev c r) := e in
  match c return ans c → option Package with
  | GetPackage _ | StatusUpdate _ => λ r, match r with inl p => Some p | inr _ => None end
  | _ => λ _, None
  end r.
Definition is_delete (e : event) : bool := match ev_call e with Delete _ => true | _ => false end.
(** A list that answered items, with what was asked. *)
Definition listed (e : event) : option (string * gmap string string * list Object) :=
  let '(Ev c r) := e in
  match c return ans c → option (string * gmap string string * list Object) with
  | ListObjects _ ns labels => λ r, match r with inl l => Some (ns, labels, l) | inr _ => None end
  | _ => λ _, None
  end r.

Definition sent (h : trace) : list Object := omap patch_sent h.
Definition applied (h : trace) : list Object := omap patch_answered h.
Definition seen (h : trace) (pkg : Package) : Prop := pkg ∈ omap package_answered h.
Definition deleted (h : trace) : Prop := Exists (λ e, is_delete e = true) h.

(** Programs that only look. *)
Definition passive (c : call) : bool :=
  match c with
  | Patch _ _ _ | Delete _ | ListObjects _ _ _ | StatusUpdate _ | IncTotal _ _ _ => false
  | _ => true
  end.
Notation looks := (issues (λ c, passive c = true)).

Section Protocol.
Context `{Ext} `{ControllerExt} (r : PackageReconciler).

(** An apply, a list or a delete that failed; deleting what is gone is no failure. *)
Definition write_failed (e : event) : bool :=
  let '(Ev c r) := e in
  match c return ans c → bool with
  | Patch _ _ _ => λ r, match r with inl _ => false | inr _ => true end
  | ListObjects _ _ _ => λ r, match r with inl _ => false | inr _ => true end
  | Delete _ => λ r, match r with Some err => negb (IsNotFound err) | None => false end
  | _ => λ _, false
  end r.
Definition all_succeeded (h : trace) : Prop := Forall (λ e, write_failed e = false) h.

(** The objects were generated for a package that the API server answered. *)
Definition generated_for (h : trace) (objs : list Object) : Prop :=
  ∃ inp pkg, seen h pkg ∧ in_Package inp = Some pkg ∧ in_Scheme inp = r_Scheme r ∧ Generate inp = Ok objs.

(** What has and has not happened when a failure is reported: a failed
    generation has written nothing, a failed apply has deleted nothing, a failed
    prune has applied everything. *)
Definition failure_of (h : trace) (reason : string) : Prop :=
  (reason = "GenerationFailed" ∧ sent h = [] ∧ ¬ deleted h) ∨
  (reason = "ApplyFailed" ∧ ¬ deleted h) ∨
  (reason = "PruneFailed" ∧ generated_for h (sent h)).

(** What the reconciler guarantees at each call. *)
Definition protocol (h : trace) (c : call) : Prop :=
  match c with
  | Patch o force owner =>
      force = true ∧ owner = fieldManager ∧ all_succeeded h ∧ ¬ deleted h ∧
      ∃ objs, generated_for h objs ∧ (sent h ++ [o]) `prefix_of` objs
  | Delete o =>
      all_succeeded h ∧ generated_for h (sent h) ∧
      (∃ pkg items, seen h pkg ∧ (pkg_Namespace pkg, {[LabelPackage := pkg_Name pkg]}, items) ∈ omap listed h ∧ o ∈ items) ∧
      objectKey o ∉ objectKey <$> applied h
  | StatusUpdate p =>
      ∃ pkg, seen h pkg ∧
      ((∃ now, p = setCondition pkg (condition pkg "Reconciling" ConditionTrue "Progressing"
                     ("reconciling generation " +:+ Itoa (pkg_Generation pkg)) now) ∧ sent h = [] ∧ ¬ deleted h) ∨
       (∃ reason err now1 now2, p = failedPackage pkg reason err now1 now2 ∧ failure_of h reason) ∨
       (∃ now, p = readyPackage pkg (applied h) now ∧ all_succeeded h ∧ generated_for h (sent h)))
  | IncTotal _ _ outcome => outcome = outcomeSuccess → all_succeeded h ∧ generated_for h (sent h)
  | _ => True
  end.

(** ** Histories grow *)

Lemma seen_app h e pkg : seen h pkg → seen (h ++ [e]) pkg.
Proof. unfold seen. rewrite omap_app, elem_of_app. by left. Qed.
Lemma generated_app h e objs : generated_for h objs → generated_for (h ++ [e]) objs.
Proof. intros (inp & pkg & Hs & Hrest). exists inp, pkg. split; [by apply seen_app|done]. Qed.
Lemma sent_app h e : sent (h ++ [e]) = sent h ++ omap patch_sent [e].
Proof. apply omap_app. Qed.
Lemma applied_app h e : applied (h ++ [e]) = applied h ++ omap patch_answered [e].
Proof. apply omap_app. Qed.
Lemma all_succeeded_app h e : all_succeeded (h ++ [e]) ↔ all_succeeded h ∧ write_failed e = false.
Proof. unfold all_succeeded. by rewrite Forall_app, Forall_singleton. Qed.
Lemma deleted_app h e : deleted (h ++ [e]) ↔ deleted h ∨ is_delete e = true.
Proof.
  unfold deleted. rewrite Exists_app. split; (intros [?|E]; [by left|right]).
  - by inversion E as [? ? ?|? ? E']; [|inversion E'].
  - by constructor.
Qed.

(** Before anything is applied: only calls that write no object. *)
Definition quiet (h : trace) : Prop := sent h = [] ∧ applied h = [] ∧ all_succeeded h ∧ ¬ deleted h.
Definition reads (c : call) : bool :=
  match c with Patch _ _ _ | Delete _ | ListObjects _ _ _ => false | _ => true end.

Lemma reads_event c a :
  reads c = true →
  patch_sent (Ev c a) = None ∧ patch_answered (Ev c a) = None ∧ write_failed (Ev c a) = false ∧ is_delete (Ev c a) = false.
Proof. by destruct c. Qed.

Lemma quiet_app h c a : reads c = true → quiet h → quiet (h ++ [Ev c a]).
Proof.
  intros (Es & Ea & Ew & Ed)%(reads_event _ a) (Hs & Ha & Hok & Hd). unfold quiet.
  rewrite sent_app, applied_app, all_succeeded_app, deleted_app. cbn [omap list_omap]. rewrite Es, Ea, Hs, Ha, Ew, Ed.
  split_and!; [done..|]. by intros [?|?].
Qed.

(** After a call that writes nothing, a finished history stays what it was. *)
Lemma reads_app h c a :
  reads c = true →
  sent (h ++ [Ev c a]) = sent h ∧ applied (h ++ [Ev c a]) = applied h ∧
  (all_succeeded (h ++ [Ev c a]) ↔ all_succeeded h).
Proof.
  intros (Es & Ea & Ew & Ed)%(reads_event _ a). rewrite sent_app, applied_app, all_succeeded_app.
  cbn [omap list_omap]. rewrite Es, Ea, Ew, !app_nil_r. naive_solver.
Qed.

Lemma failure_app h reason c a : reads c = true → failure_of h reason → failure_of (h ++ [Ev c a]) reason.
Proof.
  intros Hr. destruct (reads_event c a Hr) as (_ & _ & _ & Ed). destruct (reads_app h c a Hr) as (Es & _ & _).
  unfold failure_of. rewrite Es, deleted_app, Ed. intros [(? & ? & ?)|[(? & ?)|(? & ?)]];
    [left|right; left|right; right; split; [done|by apply generated_app]]; naive_solver.
Qed.

(** ** Each part keeps the protocol *)

(** What has been seen stays seen. *)
Definition extends (h h' : trace) : Prop := ∀ pkg, seen h pkg → seen h' pkg.
Lemma extends_refl h : extends h h.
Proof. by intros pkg. Qed.
Lemma extends_app h e : extends h (h ++ [e]).
Proof. intros pkg. apply seen_app. Qed.
Lemma extends_step h h' e : extends (h ++ [e]) h' → extends h h'.
Proof. intros He pkg Hp. by apply He, seen_app. Qed.

Lemma applyAll_ok ds h :
  generated_for h (sent h ++ ds) → all_succeeded h → ¬ deleted h →
  wp protocol (applyAll ds)
    (λ h' res, extends h h' ∧ ¬ deleted h' ∧
       match res with
       | inl os => sent h' = sent h ++ ds ∧ applied h' = applied h ++ os ∧ all_succeeded h' ∧ generated_for h' (sent h')
       | inr _ => True
       end) h.
Proof.
  revert h. induction ds as [|o ds IH]; intros h Hgen Hok Hdel.
  - simpl. split_and!; [apply extends_refl|done|by rewrite app_nil_r|by rewrite app_nil_r|done|by rewrite app_nil_r in Hgen].
  - unfold applyAll. cbn [each]. fold (applyAll ds). apply wp_bind, wp_bind, wp_ask.
    { split_and!; [done..|]. exists (sent h ++ o :: ds). split; [done|]. exists ds. by rewrite <-app_assoc. }
    intros [o'|err]; [|split_and!; [apply extends_app| |done]; rewrite deleted_app; by intros [?|?]].
    simpl. apply wp_bind. set (e := Ev (Patch o true fieldManager) (inl o')).
    assert (sent (h ++ [e]) = sent h ++ [o]) as Es by apply sent_app.
    assert (applied (h ++ [e]) = applied h ++ [o']) as Ea by apply applied_app.
    eapply wp_mono; [|apply (IH (h ++ [e]))].
    + intros h' res (Hext & Hd & Hres). simpl. split_and!; [by eapply extends_step|done|].
      destruct res as [os|]; [|done]. destruct Hres as (Hs & Ha & ? & ?). rewrite Es in Hs. rewrite Ea in Ha.
      rewrite <-app_assoc in Hs, Ha. done.
    + rewrite Es, <-app_assoc. by apply generated_app.
    + by apply all_succeeded_app.
    + rewrite deleted_app. by intros [?|?].
Qed.

(** After the applies: what is known at every later call. *)
Definition applied_all (h : trace) (os : list Object) : Prop :=
  all_succeeded h ∧ generated_for h (sent h) ∧ applied h = os.

Lemma applied_all_step h os c a :
  applied_all h os → patch_sent (Ev c a) = None → patch_answered (Ev c a) = None → write_failed (Ev c a) = false →
  applied_all (h ++ [Ev c a]) os.
Proof.
  intros (Hok & Hgen & Ha) Es Ea Ew. unfold applied_all. rewrite sent_app, applied_app, all_succeeded_app.
  cbn [omap list_omap]. rewrite Es, Ea, Ew, !app_nil_r. split_and!; [done..|by apply generated_app|done].
Qed.

Lemma deleteStale_ok pkg keep os items l h :
  keep = list_to_set (objectKey <$> os) → seen h pkg → applied_all h os →
  (pkg_Namespace pkg, {[LabelPackage := pkg_Name pkg]}, l) ∈ omap listed h → (∀ o, o ∈ items → o ∈ l) →
  wp protocol (deleteStale keep items)
    (λ h' res, extends h h' ∧ match res with None => applied_all h' os | Some _ => generated_for h' (sent h') end) h.
Proof.
  intros Hkeep. revert h. induction items as [|o items IH]; intros h Hseen Hall Hl Hsub; simpl.
  { split; [apply extends_refl|done]. }
  destruct (decide (objectKey o ∈ keep)) as [|Hnk]; [apply IH; [done..|set_solver]|].
  simpl. split.
  { destruct Hall as (Hok & Hgen & Ha). split_and!; [done..| |].
    - exists pkg, l. split_and!; [done..|]. apply Hsub. by left.
    - rewrite Ha. intros Hin. apply Hnk. rewrite Hkeep. by apply elem_of_list_to_set. }
  assert (∀ err, write_failed (Ev (Delete o) err) = false →
    wp protocol (deleteStale keep items)
      (λ h' res, extends h h' ∧ match res with None => applied_all h' os | Some _ => generated_for h' (sent h') end) (h ++ [Ev (Delete o) err])) as Hgo.
  { intros err Hw. eapply wp_mono; [|apply IH].
    - intros h' res [He Hres]. split; [by eapply extends_step|done].
    - by apply seen_app.
    - by apply applied_all_step.
    - rewrite omap_app. apply elem_of_app. by left.
    - set_solver. }
  intros [err|]; [|by apply Hgo]. destruct (IsNotFound err) eqn:Hnf; [apply Hgo; simpl; by rewrite Hnf|].
  simpl. split; [apply extends_app|]. rewrite sent_app. cbn [omap list_omap patch_sent ev_call]. rewrite app_nil_r.
  apply generated_app, Hall.
Qed.

Lemma pruneStale_ok pkg os h :
  seen h pkg → applied_all h os →
  wp protocol (pruneStale pkg os)
    (λ h' res, extends h h' ∧ match res with None => applied_all h' os | Some _ => generated_for h' (sent h') end) h.
Proof.
  unfold pruneStale. generalize managedListKinds. intros kinds. revert h.
  induction kinds as [|k kinds IH]; intros h Hseen Hall; [split; [apply extends_refl|done]|].
  cbn [pruneKinds]. apply wp_bind, wp_ask; [done|]. intros [l|err]; [|split; [apply extends_app|]].
  2: { rewrite sent_app. cbn [omap list_omap patch_sent ev_call]. rewrite app_nil_r. apply generated_app, Hall. }
  rewrite extractItems_Ok. apply wp_bind. cbn [lift wp ol_Items]. apply wp_bind.
  set (e := Ev (ListObjects k _ _) (inl l)).
  eapply wp_mono; [|apply (deleteStale_ok pkg _ os l l (h ++ [e]))]; [|done|by apply seen_app|by apply applied_all_step| |done].
  - intros h1 [err|] [He Hres]; [split; [by eapply extends_step|done]|].
    eapply wp_mono; [|apply IH; [by eapply extends_step, Hseen|done]].
    intros h2 res [He2 Hres2]. split; [|done]. intros p Hp. by apply He2, He, seen_app.
  - rewrite omap_app. apply elem_of_app. right. left.
Qed.

(** *** Programs that only look *)

Lemma passive_ok h c : passive c = true → reads c = true ∧ protocol h c.
Proof. by destruct c. Qed.

Lemma looks_ok {A} (p : prog A) h :
  looks p → quiet h → wp protocol p (λ h' _, extends h h' ∧ quiet h') h.
Proof.
  revert h. induction p as [a|c k IH| |]; intros h; simpl; [by split; [apply extends_refl|]| |done|done].
  intros [Hc Hk] Hq. destruct (passive_ok h c Hc) as [Hr Hp]. split; [done|]. intros a.
  eapply wp_mono; [|apply (IH a); [done|by apply quiet_app]].
  intros h' b [He Hq']. split; [by eapply extends_step|done].
Qed.

Lemma parseSharedConfig_looks data : looks (parseSharedConfig data).
Proof.
  unfold parseSharedConfig. cbv zeta. apply issues_bind; [apply issues_lift|]. intros egress.
  apply issues_bind; [destruct egress; [apply issues_lift|done]|]. intros ingress.
  apply issues_bind; [apply issues_lift|done].
Qed.
Lemma sharedConfig_looks : looks (sharedConfig r).
Proof.
  unfold sharedConfig. cbv zeta. destruct (_ || _); [done|]. apply issues_bind; [done|].
  intros [data|err]; [apply parseSharedConfig_looks|]. by destruct (IsNotFound err).
Qed.
Lemma kubeAPIPorts_looks pkg : looks (kubeAPIPorts r pkg).
Proof. unfold kubeAPIPorts. destruct (negb _); [done|]. by apply issues_bind. Qed.
Lemma emitWarnings_looks pkg ws : looks (emitWarnings pkg ws).
Proof. induction ws as [|w ws IH]; simpl; [done|]. by split. Qed.

(** *** The end of a reconcile *)

(** The ready status was written, after everything succeeded. *)
Definition reported_ready (h : trace) : Prop :=
  ∃ pkg now p, seen h pkg ∧ Ev (StatusUpdate (readyPackage pkg (applied h) now)) (inl p) ∈ h ∧
    all_succeeded h ∧ generated_for h (sent h).
(** A failed status was sent, or a status could not be written. *)
Definition reported_failure (h : trace) : Prop :=
  (∃ pkg reason err now1 now2 a, seen h pkg ∧ Ev (StatusUpdate (failedPackage pkg reason err now1 now2)) a ∈ h) ∨
  (∃ p err, Ev (StatusUpdate p) (inr err) ∈ h).
Definition reported (h : trace) (res : option error) : Prop :=
  match res with None => reported_ready h | Some _ => reported_failure h end.

Lemma elem_of_snoc {A} (x : A) l : x ∈ l ++ [x].
Proof. apply elem_of_app. right. by left. Qed.

Lemma reported_app h res c a : reads c = true → reported h res → reported (h ++ [Ev c a]) res.
Proof.
  intros Hr. destruct (reads_app h c a Hr) as (Es & Ea & Eok). destruct res as [err|]; simpl.
  - intros [(pkg & reason & err' & n1 & n2 & b & Hs & Hin)|(p & err' & Hin)]; [left|right].
    + exists pkg, reason, err', n1, n2, b. split; [by apply seen_app|]. apply elem_of_app. by left.
    + exists p, err'. apply elem_of_app. by left.
  - intros (pkg & now & p & Hs & Hin & Hok & Hgen). exists pkg, now, p. rewrite Es, Ea, Eok.
    split_and!; [by apply seen_app|apply elem_of_app; by left|done|by apply generated_app].
Qed.

Lemma markFailed_ok pkg reason err h :
  seen h pkg → failure_of h reason → wp protocol (markFailed pkg reason err) (λ h' res, is_Some res.2 ∧ reported h' res.2) h.
Proof.
  intros Hseen Hfail. unfold markFailed. apply wp_bind, wp_ask; [done|]. intros n1.
  apply wp_bind, wp_ask; [done|]. intros n2. cbv zeta. apply wp_bind, wp_ask.
  { exists pkg. split; [by do 2 apply seen_app|]. right. left. do 4 eexists. split; [done|]. by do 2 (apply failure_app; [done|]). }
  set (p := failedPackage pkg reason err n1 n2).
  assert (∀ a, reported_failure (((h ++ [Ev Now n1]) ++ [Ev Now n2]) ++ [Ev (StatusUpdate p) a])) as Hrep.
  { intros a. left. exists pkg, reason, err, n1, n2, a. split; [by do 3 apply seen_app|]. apply elem_of_snoc. }
  intros [p'|e]; (split; [by eexists|apply Hrep]).
Qed.

Lemma markReady_ok pkg os h :
  seen h pkg → applied_all h os → wp protocol (markReady pkg os) (λ h' res, reported h' res.2) h.
Proof.
  intros Hseen Hall. unfold markReady. apply wp_bind, wp_ask; [done|]. intros n1. cbv zeta.
  assert (applied_all (h ++ [Ev Now n1]) os) as Hall1 by by apply applied_all_step.
  apply wp_bind, wp_ask.
  { exists pkg. split; [by apply seen_app|]. right. right. exists n1. destruct Hall1 as (? & ? & ->). done. }
  intros [p|e]; simpl.
  - set (e := Ev (StatusUpdate (readyPackage pkg os n1)) (inl p)).
    assert (applied_all ((h ++ [Ev Now n1]) ++ [e]) os) as (Hok & Hgen & Ha) by by apply applied_all_step.
    exists pkg, n1, p. rewrite Ha. split_and!; [by do 2 apply seen_app|apply elem_of_snoc|done..].
  - right. do 2 eexists. apply elem_of_snoc.
Qed.

Lemma inc_failed_ok pkg outcome reason err h :
  outcome ≠ outcomeSuccess → seen h pkg → failure_of h reason →
  wp protocol (_ ← inc pkg outcome; markFailed pkg reason err) (λ h' res, reported h' res.2) h.
Proof.
  intros Hne Hseen Hfail. unfold inc. apply wp_bind, wp_ask; [done|]. intros [].
  eapply wp_mono; [|by apply markFailed_ok; [apply seen_app|apply failure_app]]. by intros h' res [_ Hrep].
Qed.

Lemma applyGenerated_ok inp pkg h :
  seen h pkg → quiet h → in_Package inp = Some pkg → in_Scheme inp = r_Scheme r →
  wp protocol (generated ← lift (Generate inp); applyGenerated pkg generated) (λ h' res, reported h' res.2) h.
Proof.
  intros Hseen (Hs & Ha & Hok & Hd) Hp Hscheme. apply wp_bind, wp_lift; [|by intros err _; apply inc_failed_ok; [..|left]].
  intros objs Hgen. cbn [applyGenerated]. apply wp_bind. eapply wp_mono; [|apply (applyAll_ok objs h)]; [|rewrite Hs|done..].
  2: { exists inp, pkg. done. }
  intros h1 [os|err] (He1 & Hd1 & Hres); cbv beta iota; [|by apply inc_failed_ok; [|apply He1|right; left]].
  destruct Hres as (_ & Ha1 & Hok1 & Hgen1). rewrite Ha in Ha1. simpl in Ha1.
  apply wp_bind. eapply wp_mono; [|apply (pruneStale_ok pkg os h1); [by apply He1|done]].
  intros h2 [err|] [He2 Hall2]; cbv beta iota; [by apply inc_failed_ok; [|apply He2, He1|right; right]|].
  unfold inc. apply wp_bind, wp_ask.
  { intros _. by destruct Hall2 as (? & ? & _). }
  intros []. apply wp_bind, wp_ask; [done|]. intros [].
  apply markReady_ok; [by do 2 apply seen_app; apply He2, He1|].
  apply applied_all_step; [by apply applied_all_step|done..].
Qed.

Lemma reconcileGeneration_ok pkg h :
  seen h pkg → quiet h → wp protocol (reconcileGeneration r pkg) (λ h' res, reported h' res.2) h.
Proof.
  intros Hseen Hq. unfold reconcileGeneration. apply wp_bind.
  eapply wp_mono; [|apply (looks_ok _ h); [destruct (r_Recorder r); [apply emitWarnings_looks|done]|done]].
  intros h1 _ [He1 Hq1]. cbv beta. apply wp_bind. eapply wp_mono; [|apply (looks_ok _ h1); [apply sharedConfig_looks|done]].
  intros h2 shared [He2 Hq2]. cbv beta. apply wp_bind. eapply wp_mono; [|apply (looks_ok _ h2); [apply kubeAPIPorts_looks|done]].
  intros h3 ports [He3 Hq3]. cbv beta. apply applyGenerated_ok; [by apply He3, He2, He1|done..].
Qed.

Lemma observed_ok pkg h :
  seen h pkg → quiet h → wp protocol (observed r pkg) (λ h' res, reported h' res) h.
Proof.
  intros Hseen Hq. unfold observed. apply wp_bind, wp_ask; [done|]. intros start. apply wp_bind.
  eapply wp_mono; [|apply reconcileGeneration_ok; [by apply seen_app|by apply quiet_app]].
  intros h1 [pkg' err] Hrep. simpl in Hrep. cbv beta iota.
  apply wp_bind, wp_ask; [done|]. intros now. apply wp_bind, wp_ask; [done|]. intros []. simpl.
  do 2 (apply reported_app; [done|]). done.
Qed.

(** How a reconcile can end. *)
Definition ended (req : NamespacedName) (h : trace) (res : option error) : Prop :=
  (∃ err, h = [Ev (GetPackage req) (inr err)] ∧ res = if IsNotFound err then None else Some err) ∨
  (∃ pkg, h = [Ev (GetPackage req) (inl pkg)] ∧ IsZero (om_DeletionTimestamp (pkg_Meta pkg)) = false ∧ res = None) ∨
  reported h res.

Lemma Reconcile_ok req : wp protocol (Reconcile r req) (ended req) [].
Proof.
  unfold Reconcile. apply wp_bind, wp_ask; [done|]. intros [pkg|err]; cbv beta iota.
  2: { destruct (IsNotFound err) eqn:E; left; exists err; by rewrite E. }
  set (e := Ev (GetPackage req) (inl pkg)).
  assert (seen [e] pkg) as Hseen by left.
  assert (quiet [e]) as Hq by (apply (quiet_app [] (GetPackage req) (inl pkg)); [done|];
    split_and!; [done..|constructor|by inversion 1]).
  destruct (IsZero _) eqn:Hz; cbn [negb]; [|right; left; eauto].
  assert (∀ h p, seen h p → quiet h → wp protocol (observed r p) (ended req) h) as Hobs.
  { intros h p Hs Hqh. eapply wp_mono; [|by apply observed_ok]. intros h' res Hrep. by right; right. }
  destruct (negb _); [|by apply Hobs]. apply wp_bind. unfold markReconciling. apply wp_bind, wp_ask; [done|].
  intros now. cbv zeta. assert (quiet ([e] ++ [Ev Now now])) as Hq1 by by apply quiet_app.
  apply wp_ask.
  { exists pkg. split; [by apply seen_app|]. left. exists now. destruct Hq1 as (? & _ & _ & ?). done. }
  intros [p|err]; cbv beta iota.
  - apply Hobs; [|by apply quiet_app]. unfold seen. rewrite omap_app. apply elem_of_snoc.
  - right. right. right. do 2 eexists. apply elem_of_snoc.
Qed.

(** C4: The reconciler's protocol with the API server, for every behaviour of the
    server and of other clients. It applies only objects generated for a package
    the server answered, in the generated order, with forced ownership under its
    field manager, and stops applying at the first failure or delete. It deletes
    only after every generated object was applied, and only objects that a list
    of the package's own namespace and label returned and that are not among
    those applied. It writes a ready status and counts a success only when every
    apply, list and delete succeeded, and the ready status lists what was
    applied. It fails static: when a generation is reported as failed nothing was
    applied or deleted, and when an apply is, nothing was deleted, so a broken
    spec never takes down the policies of the last good one. *)
Theorem Reconcile_protocol {W} (h : handler W) req w tr1 e tr2
    (Htr : (run h (Reconcile r req) w).1.2 = tr1 ++ e :: tr2) :
  protocol tr1 (ev_call e).
Proof.
  pose proof (wp_adequate h protocol (Reconcile r req) (ended req) [] w (Reconcile_ok req)) as Had.
  destruct (run h (Reconcile r req) w) as [[o tr] w']. simpl in Htr. by apply (proj1 Had tr1 e tr2).
Qed.

(** C21: Reconciles do not swallow failures. One that returns no error either
    found the package gone or being deleted and made no other call, or wrote the
    ready status after everything succeeded; one that returns an error could not
    read the package, or sent a failed status, or failed to write a status. *)
Theorem Reconcile_reports {W} (h : handler W) req w res
    (Hres : (run h (Reconcile r req) w).1.1 = Ok res) :
  ended req (run h (Reconcile r req) w).1.2 res.
Proof.
  pose proof (wp_adequate h protocol (Reconcile r req) (ended req) [] w (Reconcile_ok req)) as Had.
  destruct (run h (Reconcile r req) w) as [[o tr] w']. simpl in Hres. subst o. by apply (proj2 Had res).
Qed.
End Protocol.
#[export] Hint Resolve seen_app generated_app quiet_app : go.
