(* ===== verification/Cluster.v ===== *)
(** * Reconciling against a cluster

    The contract of an API server that nobody else writes to, as laws over an
    abstract world, and what a reconcile does to the objects of such a world.
    A concrete cluster satisfies the laws and runs the examples. *)

From S2P Require Import Prelude GoStrings Json K8s ApiTypes External Metadata.
From S2P Require Import IngressConfig Authz Generator.
From S2P Require Import Interaction Status Prune Reconcile Protocol.
Local Open Scope string_scope.
Local Open Scope list_scope.

(** Where an object is stored: its type, namespace and name. *)
Definition type_code (t : ObjectType) : nat :=
  match t with
  | TNetworkPolicy => 0 | TPeerAuthentication => 1 | TAuthorizationPolicy => 2
  | TVirtualService => 3 | TServiceEntry => 4 | TSidecar => 5
  end.
Definition type_decode (n : nat) : option ObjectType :=
  match n with
  | 0 => Some TNetworkPolicy | 1 => Some TPeerAuthentication | 2 => Some TAuthorizationPolicy
  | 3 => Some TVirtualService | 4 => Some TServiceEntry | 5 => Some TSidecar | _ => None
  end.
#[export] Instance ObjectType_countable : Countable ObjectType.
Proof. apply (inj_countable type_code type_decode). by intros []. Defined.

Definition store_key : Type := ObjectType * string * string.
Definition key_of (o : Object) : store_key := (type_of (o_Body o), o_Namespace o, o_Name o).
Abbreviation store := (gmap store_key Object).

(** Two objects are the same to the controller. *)
Definition same_object (o o' : Object) : Prop := key_of o' = key_of o ∧ o_GVK o' = o_GVK o.

Definition belongs (pkg : Package) (o : Object) : Prop :=
  o_Namespace o = pkg_Namespace pkg ∧ contents (o_Labels o) !! LabelPackage = Some (pkg_Name pkg).

(** ** The contract *)

Class ApiServer `{ControllerExt} {W} (h : handler W) (objs : W → store) : Prop := {
  (** Server-side apply stores the object, with at least the labels it was given. *)
  api_patch o force owner w :
    match h (Patch o force owner) w with
    | (inl o', w') => objs w' = <[key_of o := o']> (objs w) ∧ same_object o o' ∧
                      contents (o_Labels o) ⊆ contents (o_Labels o')
    | (inr _, w') => objs w' = objs w
    end;
  (** A list answers the stored objects of one type and namespace with the labels. *)
  api_list kind ns labels w :
    objs (h (ListObjects kind ns labels) w).2 = objs w ∧
    ∀ l, (h (ListObjects kind ns labels) w).1 = inl l →
      ∀ o, o ∈ l ↔ objs w !! key_of o = Some o ∧ type_of (o_Body o) = kind ∧ o_Namespace o = ns ∧
                   labels ⊆ contents (o_Labels o);
  api_delete o w :
    match h (Delete o) w with
    | (None, w') => objs w' = delete (key_of o) (objs w)
    | (Some e, w') => objs w' = objs w ∧ (IsNotFound e = true → objs w !! key_of o = None)
    end;
  (** A status update leaves the metadata and the spec of the package alone. *)
  api_status p w p' :
    (h (StatusUpdate p) w).1 = inl p' → pkg_Meta p' = pkg_Meta p ∧ pkg_Spec p' = pkg_Spec p;
  api_other c w : reads c = true → objs (h c w).2 = objs w
}.

(** Every object is stored under its own key. *)
Definition well_stored (m : store) : Prop := ∀ k o, m !! k = Some o → key_of o = k.

(** ** Triples over runs *)

Section Triples.
Context {W} (h : handler W).

Definition triple {A} (P : W → Prop) (p : prog A) (Q : A → W → Prop) : Prop :=
  ∀ w a, P w → (run h p w).1.1 = Ok a → Q a (run h p w).2.

Lemma triple_ret {A} (P : W → Prop) (a : A) (Q : A → W → Prop) : (∀ w, P w → Q a w) → triple P (Ret a) Q.
Proof. intros HQ w b HP [= <-]. by apply HQ. Qed.

Lemma triple_bind {A B} P (p : prog A) (f : A → prog B) (R : A → W → Prop) Q :
  triple P p R → (∀ a, triple (R a) (f a) Q) → triple P (p ≫= f) Q.
Proof.
  intros Hp Hf w b HP. rewrite run_bind. specialize (Hp w). destruct (run h p w) as [[o tr] w1].
  destruct o as [a| | |]; simpl; [|done..]. specialize (Hp a HP eq_refl). specialize (Hf a w1 b Hp).
  by destruct (run h (f a) w1) as [[o' tr'] w'].
Qed.

Lemma triple_ask P c (Q : ans c → W → Prop) :
  (∀ w, P w → Q (h c w).1 (h c w).2) → triple P (ask c) Q.
Proof. intros HQ w a HP. unfold ask. simpl. specialize (HQ w HP). destruct (h c w) as [r w']. by intros [= <-]. Qed.

Lemma triple_lift {A} P (m : outcome A) (Q : A + error → W → Prop) :
  (∀ w a, P w → m = Ok a → Q (inl a) w) → (∀ w e, P w → m = Err e → Q (inr e) w) → triple P (lift m) Q.
Proof. intros HOk HErr w r HP. destruct m; simpl; try discriminate; intros [= <-]; eauto. Qed.

Lemma triple_conseq {A} (P P' : W → Prop) (p : prog A) (Q Q' : A → W → Prop) :
  triple P' p Q' → (∀ w, P w → P' w) → (∀ a w, Q' a w → Q a w) → triple P p Q.
Proof. intros Hp HP HQ w a Hw Ha. apply HQ, Hp; auto. Qed.

Lemma triple_pure {A} (P : W → Prop) (φ : Prop) (p : prog A) (Q : A → W → Prop) :
  (φ → triple P p Q) → triple (λ w, P w ∧ φ) p Q.
Proof. intros Hp w a [HP Hφ]. by apply Hp. Qed.
End Triples.

(** ** Stores with many objects written *)

Definition put_all (os : list Object) (m : store) : store := foldl (λ m o, <[key_of o := o]> m) m os.

Lemma put_all_lookup os m k :
  match put_all os m !! k with
  | Some o => (o ∈ os ∧ key_of o = k) ∨ (k ∉ key_of <$> os ∧ m !! k = Some o)
  | None => k ∉ key_of <$> os ∧ m !! k = None
  end.
Proof.
  unfold put_all. revert m. induction os as [|o os IH]; intros m; simpl.
  { destruct (m !! k); [right|]; (split; [apply not_elem_of_nil|done]). }
  specialize (IH (<[key_of o := o]> m)).
  destruct (foldl _ _ os !! k) as [x|]; rewrite ?elem_of_cons in *.
  - destruct IH as [[Hx Hk]|[Hnot Hm]]; [left; set_solver|].
    destruct (decide (key_of o = k)) as [<-|Hne].
    + rewrite lookup_insert_eq in Hm. injection Hm as <-. left. split; [by left|done].
    + rewrite lookup_insert_ne in Hm by done. right. split; [set_solver|done].
  - destruct IH as [Hnot Hm]. destruct (decide (key_of o = k)) as [<-|Hne]; [pose proof (lookup_insert_eq m (key_of o) o); congruence|].
    rewrite lookup_insert_ne in Hm by done. split; [set_solver|done].
Qed.

Lemma put_all_stored os m : well_stored m → well_stored (put_all os m).
Proof.
  intros Hm k o Hk. pose proof (put_all_lookup os m k) as Hl. rewrite Hk in Hl.
  destruct Hl as [[_ ?]|[_ ?]]; [done|by apply Hm].
Qed.

Section Cluster.
Context `{Ext} `{ControllerExt} {W} (h : handler W) (objs : W → store) `{!ApiServer h objs}.

Definition holds (m : store) (w : W) : Prop := objs w = m.

(** Programs that write no object. *)
Fixpoint harmless {A} (p : prog A) : Prop :=
  match p with
  | Call c k => reads c = true ∧ ∀ a, harmless (k a)
  | _ => True
  end.

Lemma harmless_holds {A} (p : prog A) m : harmless p → triple h (holds m) p (λ _, holds m).
Proof.
  intros Hp w a Hw _. revert w Hw. induction p as [b|c k IH| |]; intros w Hw; simpl in *; [done| |done|done].
  destruct Hp as [Hr Hk]. pose proof (api_other c w Hr) as Ho. destruct (h c w) as [r w1]. simpl in Ho.
  specialize (IH r (Hk r) w1). destruct (run h (k r) w1) as [[? ?] ?]. simpl in *. apply IH. unfold holds in *. congruence.
Qed.

Lemma looks_harmless {A} (p : prog A) : looks p → harmless p.
Proof.
  induction p as [a|c k IH| |]; simpl; [done| |done|done]. intros [Hc Hk]. split; [by destruct c|]. intros a. by apply IH.
Qed.

Lemma markFailed_harmless pkg reason err : harmless (markFailed pkg reason err).
Proof. simpl. split; [done|]. intros n1. split; [done|]. intros n2. split; [done|]. by intros [p|e]. Qed.
Lemma markReady_harmless pkg os : harmless (markReady pkg os).
Proof. simpl. split; [done|]. intros n1. split; [done|]. by intros [p|e]. Qed.

(** ** Applying *)

Lemma applyAll_holds ds m :
  triple h (holds m) (applyAll ds)
    (λ res w, match res with inl os => Forall2 same_object ds os ∧ holds (put_all os m) w | inr _ => True end).
Proof.
  revert m. induction ds as [|o ds IH]; intros m.
  { apply triple_ret. intros w Hw. by split. }
  unfold applyAll. cbn [each]. fold (applyAll ds).
  apply triple_bind with (λ res w, match res with inl o' => same_object o o' ∧ holds (<[key_of o' := o']> m) w | inr _ => True end).
  - apply triple_bind with (λ res w, match res with inl o' => same_object o o' ∧ holds (<[key_of o' := o']> m) w | inr _ => True end).
    + apply (triple_ask h _ (Patch o true fieldManager)). intros w Hw. pose proof (api_patch o true fieldManager w) as Hp.
      destruct (h (Patch o true fieldManager) w) as [[o'|err] w']; [|done]. simpl.
      destruct Hp as (Ho & Hsame & _). split; [done|]. unfold holds in *. destruct Hsame as [-> _]. congruence.
    + intros [o'|err]; by apply triple_ret.
  - intros [o'|err]; [|by apply triple_ret].
    apply triple_bind with (λ res w, same_object o o' ∧
      match res with inl os => Forall2 same_object ds os ∧ holds (put_all os (<[key_of o' := o']> m)) w | inr _ => True end).
    + intros w res [Hsame Hw] Hres. split; [done|]. by apply (IH _ w res).
    + intros [os|err]; apply triple_ret; [|done]. intros w (Hsame & Hall & Hw). split; [by constructor|done].
Qed.

(** ** Pruning *)

Definition remove_all (os : list Object) (m : store) : store := foldl (λ m o, delete (key_of o) m) m os.
Definition stale (keep : gset string) (o : Object) : Prop := objectKey o ∉ keep.
#[local] Instance stale_dec keep o : Decision (stale keep o).
Proof. unfold stale. apply _. Defined.

Lemma deleteStale_holds keep items m :
  triple h (holds m) (deleteStale keep items)
    (λ res w, match res with None => holds (remove_all (filter (stale keep) items) m) w | Some _ => True end).
Proof.
  revert m. induction items as [|o items IH]; intros m; cbn [deleteStale].
  { by apply triple_ret. }
  destruct (decide (objectKey o ∈ keep)) as [Hk|Hk].
  { rewrite filter_cons_False by (unfold stale; naive_solver). apply IH. }
  rewrite filter_cons_True by done. cbn [remove_all foldl].
  apply triple_bind with (λ res w, match res with
    | Some e => IsNotFound e = true → holds (delete (key_of o) m) w
    | None => holds (delete (key_of o) m) w end).
  - apply (triple_ask h _ (Delete o)). intros w Hw. pose proof (api_delete o w) as Hd. destruct (h (Delete o) w) as [[e|] w']; simpl.
    + destruct Hd as [Ho Hnf]. intros E. unfold holds in *. rewrite Ho, Hw, delete_id; [done|]. rewrite <-Hw. auto.
    + unfold holds in *. congruence.
  - intros [e|]; [|apply IH]. destruct (IsNotFound e) eqn:E; [|by apply triple_ret].
    eapply triple_conseq; [apply IH| |exact (λ _ _ Hq, Hq)]. intros w Hw. by apply Hw.
Qed.

Lemma remove_all_lookup os m k : remove_all os m !! k = if decide (k ∈ key_of <$> os) then None else m !! k.
Proof.
  unfold remove_all. revert m. induction os as [|o os IH]; intros m; [done|].
  cbn [foldl]. rewrite IH, fmap_cons. destruct (decide (k ∈ key_of <$> os)) as [Hin|Hin].
  - rewrite decide_True by (by right). done.
  - destruct (decide (k = key_of o)) as [->|Hne].
    + rewrite decide_True by (by left). apply lookup_delete_eq.
    + rewrite decide_False by (rewrite elem_of_cons; naive_solver). by apply lookup_delete_ne.
Qed.

(** What is left after pruning some kinds. *)
Definition pruned (pkg : Package) (keep : gset string) (kinds : list ObjectType) (m m' : store) : Prop :=
  ∀ k o, m' !! k = Some o ↔
    m !! k = Some o ∧ ¬ (type_of (o_Body o) ∈ kinds ∧ belongs pkg o ∧ stale keep o).

Lemma pruned_stored pkg keep kinds m m' : well_stored m → pruned pkg keep kinds m m' → well_stored m'.
Proof. intros Hm Hp k o [Hk _]%Hp. by apply Hm. Qed.

Lemma pruned_one pkg keep kind m l :
  well_stored m →
  (∀ o, o ∈ l ↔ m !! key_of o = Some o ∧ type_of (o_Body o) = kind ∧ o_Namespace o = pkg_Namespace pkg ∧
                {[LabelPackage := pkg_Name pkg]} ⊆ contents (o_Labels o)) →
  pruned pkg keep [kind] m (remove_all (filter (stale keep) l) m).
Proof.
  intros Hm Hl k o. rewrite remove_all_lookup.
  assert (k ∈ key_of <$> filter (stale keep) l ↔ ∃ x, m !! k = Some x ∧ type_of (o_Body x) = kind ∧ belongs pkg x ∧ stale keep x) as Hk.
  { rewrite list_elem_of_fmap. setoid_rewrite list_elem_of_filter. setoid_rewrite Hl. unfold belongs.
    setoid_rewrite map_singleton_subseteq_l. split.
    - intros (x & -> & Hst & Hx & Ht & Hns & Hlab). exists x. done.
    - intros (x & Hx & Ht & [Hns Hlab] & Hst). exists x. pose proof (Hm _ _ Hx) as E. rewrite E. done. }
  destruct (decide (k ∈ key_of <$> filter (stale keep) l)) as [Hin|Hnot].
  - apply Hk in Hin as (x & Hx & Ht & Hb & Hst). split; [done|]. intros [Ho Hn]. destruct Hn.
    assert (x = o) as -> by congruence. split; [by rewrite Ht; left|done].
  - split; [|by intros [? _]]. intros Ho. split; [done|]. intros (Ht%list_elem_of_singleton & Hb & Hst).
    apply Hnot, Hk. exists o. done.
Qed.

Lemma pruned_trans pkg keep kind kinds m m1 m2 :
  pruned pkg keep [kind] m m1 → pruned pkg keep kinds m1 m2 → pruned pkg keep (kind :: kinds) m m2.
Proof.
  intros H1 H2 k o. rewrite (H2 k o), (H1 k o), !elem_of_cons, elem_of_nil. naive_solver.
Qed.

Lemma pruneKinds_holds pkg keep kinds m :
  well_stored m →
  triple h (holds m) (pruneKinds pkg keep kinds)
    (λ res w, match res with None => pruned pkg keep kinds m (objs w) | Some _ => True end).
Proof.
  revert m. induction kinds as [|kind kinds IH]; intros m Hm; cbn [pruneKinds].
  { apply triple_ret. intros w Hw k o. rewrite Hw. split; [|by intros [? _]]. intros Ho. split; [done|].
    by intros (?%elem_of_nil & _). }
  set (labels := {[LabelPackage := pkg_Name pkg]}).
  apply triple_bind with (λ res w, holds m w ∧ match res with inl l => ∀ o, o ∈ l ↔ m !! key_of o = Some o ∧
    type_of (o_Body o) = kind ∧ o_Namespace o = pkg_Namespace pkg ∧ labels ⊆ contents (o_Labels o) | inr _ => True end).
  { apply (triple_ask h _ (ListObjects kind (pkg_Namespace pkg) labels)). intros w Hw.
    destruct (api_list kind (pkg_Namespace pkg) labels w) as [Ho Hl]. split; [unfold holds in *; congruence|].
    destruct (h (ListObjects kind (pkg_Namespace pkg) labels) w).1 as [l|]; [|done].
    intros o. unfold holds in Hw. rewrite <-Hw. by apply Hl. }
  intros [l|e]; [|by apply triple_ret].
  rewrite extractItems_Ok. cbn [lift ol_Items]. apply triple_pure. intros Hl.
  apply triple_bind with (λ res w, holds m w ∧ res = inl l); [by apply triple_ret|]. intros res.
  apply triple_pure. intros ->.
  apply triple_bind with (λ res w, match res with None => holds (remove_all (filter (stale keep) l) m) w | Some _ => True end);
    [apply deleteStale_holds|].
  intros [e|]; [by apply triple_ret|].
  pose proof (pruned_one pkg keep kind m l Hm Hl) as Hone.
  eapply triple_conseq; [apply IH; by eapply pruned_stored|done|].
  intros [e|] w Hrest; [done|]. by eapply pruned_trans.
Qed.

Lemma pruneStale_holds pkg os m :
  well_stored m →
  triple h (holds m) (pruneStale pkg os)
    (λ res w, match res with
       | None => ∀ k o, objs w !! k = Some o ↔ m !! k = Some o ∧ (belongs pkg o → objectKey o ∈ objectKey <$> os)
       | Some _ => True
       end).
Proof.
  intros Hm. eapply triple_conseq; [by apply pruneKinds_holds|done|]. intros [e|] w Hp; [done|].
  intros k o. rewrite (Hp k o). unfold stale. rewrite elem_of_list_to_set.
  pose proof (managedListKinds_all (type_of (o_Body o))) as Hall.
  destruct (decide (objectKey o ∈ objectKey <$> os)); naive_solver.
Qed.

(** ** A whole reconcile *)

(** After a reconcile: every generated object is stored, under an object with its
    kind and name; nothing else of the package is; nothing else changed. *)
Definition converged (pkg : Package) (gen : list Object) (m m' : store) : Prop :=
  (∀ o, o ∈ gen → ∃ o', m' !! key_of o = Some o' ∧ objectKey o' = objectKey o) ∧
  (∀ k o, m' !! k = Some o → belongs pkg o → objectKey o ∈ objectKey <$> gen) ∧
  (∀ k o, m !! k = Some o → ¬ belongs pkg o → k ∉ key_of <$> gen → m' !! k = Some o).

Lemma same_objectKey o o' : same_object o o' → objectKey o' = objectKey o.
Proof. unfold same_object, key_of, objectKey. intros [E ->]. by injection E as _ -> ->. Qed.

Lemma same_keys gen os : Forall2 same_object gen os →
  objectKey <$> os = objectKey <$> gen ∧ key_of <$> os = key_of <$> gen.
Proof.
  induction 1 as [|o o' gen os Hs _ [IH1 IH2]]; [done|]. rewrite !fmap_cons, IH1, IH2, (same_objectKey _ _ Hs).
  by destruct Hs as [-> _].
Qed.

(** Objects of one type have one kind, so a key determines the object key. *)
Definition kinds_agree (gen : list Object) : Prop :=
  ∀ o1 o2, o1 ∈ gen → o2 ∈ gen → key_of o1 = key_of o2 → objectKey o1 = objectKey o2.

Lemma converged_store pkg gen os m m' :
  kinds_agree gen → Forall2 same_object gen os →
  (∀ k o, m' !! k = Some o ↔ put_all os m !! k = Some o ∧ (belongs pkg o → objectKey o ∈ objectKey <$> os)) →
  converged pkg gen m m'.
Proof.
  intros Hkinds Hsame Hm'. destruct (same_keys _ _ Hsame) as [Ek Es]. split_and!.
  - intros o Ho. pose proof (put_all_lookup os m (key_of o)) as Hl.
    assert (key_of o ∈ key_of <$> os) as Hin by (rewrite Es; by apply list_elem_of_fmap_2).
    destruct (put_all os m !! key_of o) as [x|] eqn:Hx; [|by destruct Hl].
    destruct Hl as [[Hxo Hxk]|[? _]]; [|done]. exists x. split.
    + apply Hm'. split; [done|]. intros _. by apply list_elem_of_fmap_2.
    + apply list_elem_of_lookup in Hxo as [i Hi]. destruct (Forall2_lookup_r _ _ _ _ _ Hsame Hi) as (y & Hy & Hys).
      rewrite (same_objectKey _ _ Hys). apply Hkinds; [by eapply list_elem_of_lookup_2|done|].
      destruct Hys as [Hkey _]. congruence.
  - intros k o [_ Hb]%Hm' Hbel. rewrite <-Ek. by apply Hb.
  - intros k o Hk Hnb Hnot. apply Hm'. split; [|done]. pose proof (put_all_lookup os m k) as Hl. rewrite Es in Hl.
    destruct (put_all os m !! k) as [x|] eqn:Hx.
    + destruct Hl as [[Hxo Hxk]|[_ ?]]; [|congruence]. destruct Hnot. rewrite <-Es, <-Hxk. by apply list_elem_of_fmap_2.
    + destruct Hl as [_ ?]. congruence.
Qed.

Lemma Generate_kinds_agree inp gen : Generate inp = Ok gen → kinds_agree gen.
Proof.
  intros Hgen o1 o2 H1 H2 E. destruct (in_Scheme inp) as [scheme|] eqn:Hs.
  - destruct (Generate_kinds _ _ _ _ Hs Hgen H1) as [g1 E1]. destruct (Generate_kinds _ _ _ _ Hs Hgen H2) as [g2 E2].
    unfold key_of in E. injection E as Et En Em. rewrite Et in E1. unfold objectKey. congruence.
  - unfold Generate in Hgen. rewrite Hs in Hgen. by destruct (in_Package inp).
Qed.

Lemma inc_failed_triple P pkg outcome reason err (Q : Package * option error → W → Prop) :
  (∀ p e w, Q (p, Some e) w) → triple h P (_ ← inc pkg outcome; markFailed pkg reason err) Q.
Proof.
  intros HQ w [p res] _ Hres. destruct res as [e|]; [apply HQ|]. exfalso. revert Hres. simpl.
  destruct (h (IncTotal _ _ _) w) as [[] w1]. simpl. destruct (h Now w1) as [n1 w2]. simpl.
  destruct (h Now w2) as [n2 w3]. simpl. destruct (h (StatusUpdate _) w3) as [[p'|e'] w4]; simpl; congruence.
Qed.

Lemma applyGenerated_holds pkg gen m :
  well_stored m → kinds_agree gen →
  triple h (holds m) (applyGenerated pkg (inl gen)) (λ res w, res.2 = None → converged pkg gen m (objs w)).
Proof.
  intros Hm Hkinds. cbn [applyGenerated]. eapply triple_bind; [apply applyAll_holds|].
  intros [os|err]; cbv beta iota; [|by apply inc_failed_triple].
  eapply triple_conseq with (P' := λ w, holds (put_all os m) w ∧ Forall2 same_object gen os) (Q' := λ res w, res.2 = None → converged pkg gen m (objs w));
    [|naive_solver|done]. apply triple_pure. intros Hsame.
  eapply triple_bind; [apply pruneStale_holds; by apply put_all_stored|].
  intros [err|]; cbv beta iota; [by apply inc_failed_triple|].
  intros w res Hw Hres. pose proof (harmless_holds (_ ← inc pkg outcomeSuccess;
    _ ← ask (SetApplied (pkg_Namespace pkg) (pkg_Name pkg) (Z.of_nat (length os))); markReady pkg os) (objs w)) as Hh.
  assert (harmless (_ ← inc pkg outcomeSuccess;
    _ ← ask (SetApplied (pkg_Namespace pkg) (pkg_Name pkg) (Z.of_nat (length os))); markReady pkg os)) as Hharm.
  { split; [done|]. intros []. split; [done|]. intros []. apply markReady_harmless. }
  specialize (Hh Hharm w res eq_refl Hres). unfold holds in Hh. intros _. rewrite Hh. by eapply converged_store.
Qed.

(** The package was generated and the cluster now holds what was generated. *)
Definition converged_for (r : PackageReconciler) (pkg : Package) (m m' : store) : Prop :=
  ∃ inp gen, in_Package inp = Some pkg ∧ in_Scheme inp = r_Scheme r ∧ Generate inp = Ok gen ∧ converged pkg gen m m'.

Lemma reconcileGeneration_holds r pkg m :
  well_stored m →
  triple h (holds m) (reconcileGeneration r pkg) (λ res w, res.2 = None → converged_for r pkg m (objs w)).
Proof.
  intros Hm. unfold reconcileGeneration.
  eapply triple_bind; [apply harmless_holds, looks_harmless; destruct (r_Recorder r); [apply emitWarnings_looks|done]|].
  intros u. eapply triple_bind; [apply harmless_holds, looks_harmless, sharedConfig_looks|]. intros shared.
  eapply triple_bind; [apply harmless_holds, looks_harmless, kubeAPIPorts_looks|]. intros ports.
  set (inp := set_inputs pkg (r_Scheme r) ports shared).
  apply triple_bind with (λ g w, holds m w ∧ match g with inl gen => Generate inp = Ok gen | inr _ => True end).
  { apply triple_lift; by split. }
  intros [gen|err]; [|by apply inc_failed_triple]. apply triple_pure. intros Hgen.
  eapply triple_conseq; [apply applyGenerated_holds; [done|by eapply Generate_kinds_agree]|done|].
  intros res w Hc Hres. exists inp, gen. split_and!; [done..|by apply Hc].
Qed.

Lemma observed_holds r pkg m :
  well_stored m →
  triple h (holds m) (observed r pkg) (λ res w, res = None → converged_for r pkg m (objs w)).
Proof.
  intros Hm. unfold observed. eapply triple_bind; [by apply harmless_holds|]. intros start.
  eapply triple_bind; [by apply reconcileGeneration_holds|]. intros [pkg' [err|]]; cbv beta iota.
  - intros w res _. simpl. destruct (h Now w) as [n w1]. simpl. destruct (h (ObserveDuration _ _ _) w1) as [[] w2]. simpl.
    by intros [= <-].
  - intros w res Hw Hres. simpl in Hw.
    pose proof (harmless_holds (now ← ask Now; _ ← ask (ObserveDuration (pkg_Namespace pkg') (pkg_Name pkg') (now - start));
      Ret (None : option error)) (objs w)) as Hh.
    specialize (Hh ltac:(by split) w res eq_refl Hres). intros _. unfold holds in Hh. rewrite Hh. by apply Hw.
Qed.

(** What [markReconciling] leaves: the metadata and the spec of the package. *)
Lemma markReconciling_holds pkg m :
  triple h (holds m) (markReconciling pkg)
    (λ marked w, holds m w ∧
       match marked with inl p => pkg_Meta p = pkg_Meta pkg ∧ pkg_Spec p = pkg_Spec pkg | inr _ => True end).
Proof.
  unfold markReconciling. eapply triple_bind; [apply (harmless_holds (ask Now)); by split|]. intros now. cbv zeta.
  set (p := setCondition _ _). apply (triple_ask h _ (StatusUpdate p)). intros w Hw.
  pose proof (api_other (StatusUpdate p) w eq_refl) as Ho. pose proof (api_status p w) as Hst.
  destruct (h (StatusUpdate p) w) as [[p'|err] w']; simpl in *; (split; [unfold holds in *; congruence|]); [|done].
  by apply Hst.
Qed.

Lemma Reconcile_holds r req w0 pkg m :
  well_stored m → holds m w0 → (h (GetPackage req) w0).1 = inl pkg → IsZero (om_DeletionTimestamp (pkg_Meta pkg)) = true →
  triple h (λ w, w = w0) (Reconcile r req)
    (λ res w, res = None → ∃ pkg', pkg_Meta pkg' = pkg_Meta pkg ∧ pkg_Spec pkg' = pkg_Spec pkg ∧
       converged_for r pkg' m (objs w)).
Proof.
  intros Hm Hw0 Hget Hlive. unfold Reconcile.
  apply triple_bind with (λ got w, holds m w ∧ got = inl pkg).
  { apply (triple_ask h _ (GetPackage req)). intros w ->. split; [|done].
    unfold holds in *. rewrite <-Hw0. by apply api_other. }
  intros got. apply triple_pure. intros ->. cbv beta iota. rewrite Hlive. cbn [negb].
  assert (∀ p, pkg_Meta p = pkg_Meta pkg ∧ pkg_Spec p = pkg_Spec pkg →
    triple h (holds m) (observed r p)
    (λ res w, res = None → ∃ pkg', pkg_Meta pkg' = pkg_Meta pkg ∧ pkg_Spec pkg' = pkg_Spec pkg ∧
       converged_for r pkg' m (objs w))) as Hobs.
  { intros p [Em Es]. eapply triple_conseq; [by apply observed_holds|done|]. intros res w Hc Hres. exists p. auto. }
  destruct (negb _); [|by apply Hobs].
  eapply triple_bind; [apply markReconciling_holds|]. intros [p|err]; [|by apply triple_ret].
  apply triple_pure. apply Hobs.
Qed.

(** C1: A reconcile that reports success has made the cluster what the package
    asks for, on an API server that keeps its contract and that nobody else
    writes to: every generated object is stored with its kind, namespace and
    name; of the other objects in the package's namespace that carry its label
    none is left, whatever earlier generations put there; and every object that
    is not the package's and was not generated is exactly as before. The
    objects were generated from the spec and metadata that were read. *)
Theorem Reconcile_converges r req w pkg
    (Hstore : well_stored (objs w)) (Hget : (h (GetPackage req) w).1 = inl pkg)
    (Hlive : IsZero (om_DeletionTimestamp (pkg_Meta pkg)) = true)
    (Hres : (run h (Reconcile r req) w).1.1 = Ok None) :
  ∃ pkg', pkg_Meta pkg' = pkg_Meta pkg ∧ pkg_Spec pkg' = pkg_Spec pkg ∧
    converged_for r pkg' (objs w) (objs (run h (Reconcile r req) w).2).
Proof. exact (Reconcile_holds r req w pkg (objs w) Hstore eq_refl Hget Hlive w None eq_refl Hres eq_refl). Qed.
End Cluster.

(** ** A concrete cluster *)

Definition notFound : error := LibError "not found".
#[export] Instance demo_controller_ext : ControllerExt := {
  JsonErrorText := "invalid JSON";
  IsNotFound e := bool_decide (e = notFound);
  GroupVersionString g v := if String.eqb g "" then v else g +:+ "/" +:+ v;
  GVKString g := Group g +:+ "/" +:+ Version g +:+ ", Kind=" +:+ Kind g
}.

Record cluster := {
  cl_packages : gmap NamespacedName Package;
  cl_configmaps : gmap NamespacedName (gmap string string);
  cl_objects : store;
  cl_clock : Z
}.
Definition with_objects (m : store) (w : cluster) : cluster :=
  {| cl_packages := cl_packages w; cl_configmaps := cl_configmaps w; cl_objects := m; cl_clock := cl_clock w |}.
Definition with_package (p : Package) (w : cluster) : cluster :=
  {| cl_packages := <[(pkg_Namespace p, pkg_Name p) := p]> (cl_packages w); cl_configmaps := cl_configmaps w;
     cl_objects := cl_objects w; cl_clock := cl_clock w |}.
Definition tick (w : cluster) : cluster :=
  {| cl_packages := cl_packages w; cl_configmaps := cl_configmaps w; cl_objects := cl_objects w; cl_clock := cl_clock w + 1 |}.
Definition found {A} (o : option A) : A + error := match o with Some a => inl a | None => inr notFound end.

Definition matches_list (kind : ObjectType) (ns : string) (labels : gmap string string) (k : store_key) (o : Object) : Prop :=
  key_of o = k ∧ type_of (o_Body o) = kind ∧ o_Namespace o = ns ∧ labels ⊆ contents (o_Labels o).
#[export] Instance matches_list_dec kind ns labels k o : Decision (matches_list kind ns labels k o).
Proof. unfold matches_list. apply _. Defined.

Definition demo_handler : handler cluster := λ c w,
  match c return ans c * cluster with
  | GetPackage key => (found (cl_packages w !! key), w)
  | GetConfigMap key => (found (cl_configmaps w !! key), w)
  | GetService _ _ => (inr notFound, w)
  | ListObjects kind ns labels =>
      (inl (snd <$> filter (λ '(k, o), matches_list kind ns labels k o) (map_to_list (cl_objects w))), w)
  | ListPackages => (inl (snd <$> map_to_list (cl_packages w)), w)
  | Patch o _ _ => (inl o, with_objects (<[key_of o := o]> (cl_objects w)) w)
  | Delete o =>
      match cl_objects w !! key_of o with
      | Some _ => (None, with_objects (delete (key_of o) (cl_objects w)) w)
      | None => (Some notFound, w)
      end
  | StatusUpdate p => (inl p, with_package p w)
  | Now => (cl_clock w, tick w)
  | Event _ _ _ | IncTotal _ _ _ | SetApplied _ _ _ | ObserveDuration _ _ _ => (tt, w)
  end.

#[export] Instance demo_ApiServer : ApiServer demo_handler cl_objects.
Proof.
  split.
  - intros o force owner w. done.
  - intros kind ns labels w. split; [done|]. intros l [= <-] o. rewrite list_elem_of_fmap. split.
    + intros ([k x] & -> & [(Ek & Hrest) Hin]%list_elem_of_filter). apply elem_of_map_to_list in Hin. simpl in *.
      by rewrite Ek.
    + intros (Ho & Hrest). exists (key_of o, o). split; [done|]. apply list_elem_of_filter. split; [done|].
      by apply elem_of_map_to_list.
  - intros o w. simpl. destruct (cl_objects w !! key_of o) eqn:E; [done|]. split; [done|]. intros _. done.
  - intros p w p' [= <-]. done.
  - intros c w Hc. by destruct c.
Defined.

(** The example package, with an object an earlier generation left behind and a
    NetworkPolicy of somebody else. *)
Definition example_stale : Object :=
  stampMetadata (demo_package example_full_spec)
    (newObject (newMeta "old" None None) (NetworkPolicy emptyNetworkPolicySpec)).
Definition example_foreign : Object :=
  newObject (set_Namespace "apps" (newMeta "theirs" None None)) (NetworkPolicy emptyNetworkPolicySpec).
Definition example_request : NamespacedName := ("apps", "app").
Definition example_cluster : cluster :=
  {| cl_packages := {[example_request := demo_package example_full_spec]}; cl_configmaps := ∅;
     cl_objects := <[key_of example_stale := example_stale]> {[key_of example_foreign := example_foreign]};
     cl_clock := 100 |}.
Definition example_reconciler : PackageReconciler :=
  {| r_Scheme := Some example_scheme; r_APIReader := true; r_Recorder := true;
     r_GlobalConfigNamespace := "operator"; r_GlobalConfigName := "config" |}.
Definition example_reconcile : outcome (option error) * trace * cluster :=
  run demo_handler (Reconcile example_reconciler example_request) example_cluster.

Lemma Reconcile_converges_witness :
  (o_Name <$> (map_to_list (cl_objects example_cluster)).*2, size (cl_objects example_reconcile.2)) = (["old"; "theirs"], 16) ∧
  ∃ pkg', pkg_Meta pkg' = pkg_Meta (demo_package example_full_spec) ∧ pkg_Spec pkg' = example_full_spec ∧
    converged_for example_reconciler pkg' (cl_objects example_cluster) (cl_objects example_reconcile.2).
Proof.
  split; [vm_compute; reflexivity|].
  apply (Reconcile_converges demo_handler cl_objects example_reconciler example_request example_cluster
    (demo_package example_full_spec)).
  - intros k o Hk. unfold example_cluster in Hk. cbn [cl_objects] in Hk.
    apply lookup_insert_Some in Hk as [[<- <-]|[_ Hk]]; [reflexivity|].
    apply lookup_singleton_Some in Hk as [<- <-]. reflexivity.
  - vm_compute. reflexivity.
  - vm_compute. reflexivity.
  - vm_compute. reflexivity.
Defined.

(** ** The other theorems of the controller, on concrete inputs *)

Definition example_package : Package := demo_package example_full_spec.
Definition example_failed : Package := failedPackage example_package "ApplyFailed" (Errorf "conflict") 7 8.

Lemma example_failed_unique : unique_conditions example_failed.
Proof. unfold unique_conditions. vm_compute. repeat constructor; set_solver. Qed.

Lemma setCondition_correct_witness :
  c_LastTransitionTime <$>
    Status_Conditions (pkg_Status (setCondition example_failed (condition example_failed "Ready" ConditionFalse "PruneFailed" "" 9))) = [7; 8]%Z ∧
  unique_conditions (setCondition example_failed (condition example_failed "Ready" ConditionTrue "ResourcesApplied" "" 9)).
Proof.
  split; [vm_compute; reflexivity|].
  refine (proj1 (setCondition_correct example_failed _ "Stalled" _)). apply example_failed_unique.
Defined.

Lemma transitions_kstatus_witness :
  condition_types example_failed = ["Ready"; "Stalled"] ∧
  lacks_condition (readyPackage example_failed [] 9) "Stalled" ∧
  has_condition (readyPackage example_failed [] 9) "Ready" ConditionTrue.
Proof.
  split; [vm_compute; reflexivity|].
  pose proof (transitions_kstatus example_failed "ApplyFailed" (Errorf "conflict") [] 9 9 example_failed_unique)
    as (_ & _ & _ & _ & _ & _ & _ & Hready & Hlacks & _).
  split; [exact Hlacks|exact Hready].
Defined.

(** Every call succeeds, and the package never changes. *)
Definition calm_handler : handler unit := λ c w,
  (match c return ans c with
   | GetPackage _ | StatusUpdate _ => inl example_package
   | GetConfigMap _ => inl ∅
   | GetService _ _ => inl []
   | ListObjects _ _ _ => inl []
   | ListPackages => inl []
   | Patch o _ _ => inl o
   | Delete _ => None
   | Now => 0%Z
   | Event _ _ _ | IncTotal _ _ _ | SetApplied _ _ _ | ObserveDuration _ _ _ => tt
   end, w).

Lemma Reconcile_total_witness :
  length (omap patch_sent (run calm_handler (Reconcile example_reconciler example_request) tt).1.2) = 15 ∧
  is_Ok (run calm_handler (Reconcile example_reconciler example_request) tt).1.1.
Proof.
  split; [vm_compute; reflexivity|]. apply Reconcile_total.
  - intros scheme t [= <-]. done.
  - intros c []. destruct c; try done; intros np [= <-]; apply example_ranges_bounded; reflexivity.
Defined.

(** The same, but the ConfigMap cannot be read. *)
Definition down_handler : handler unit := λ c w,
  (match c return ans c with GetConfigMap _ => inr (LibError "timeout") | c => (calm_handler c w).1 end, w).

Lemma sharedConfig_fails_closed_witness :
  ∃ inp, (run down_handler (sharedConfig example_reconciler) tt).1.1 = Ok inp ∧
    is_Some (in_SharedDefinitionsError inp) ∧ is_Some (in_SharedIngressConfigError inp).
Proof.
  destruct (run down_handler (sharedConfig example_reconciler) tt).1.1 as [inp| | |] eqn:Hrun; [|by vm_compute in Hrun..].
  exists inp. split; [reflexivity|].
  pose proof (sharedConfig_fails_closed down_handler example_reconciler tt inp Hrun) as Hclosed.
  exact Hclosed.
Defined.

(** The call that deletes the stale object of the example. *)
Definition delete_position : nat :=
  default 0 (fst <$> list_find (λ e, is_delete e = true) example_reconcile.1.2).

Lemma Reconcile_protocol_witness :
  ∃ tr1 e tr2, example_reconcile.1.2 = tr1 ++ e :: tr2 ∧ ev_call e = Delete example_stale ∧
    length (applied tr1) = 15 ∧ protocol example_reconciler tr1 (ev_call e).
Proof.
  exists (take delete_position example_reconcile.1.2), (Ev (Delete example_stale) None),
    (drop (S delete_position) example_reconcile.1.2).
  assert (example_reconcile.1.2 = take delete_position example_reconcile.1.2 ++
    Ev (Delete example_stale) None :: drop (S delete_position) example_reconcile.1.2) as Htr
    by (symmetry; apply take_drop_middle; vm_compute; reflexivity).
  split; [exact Htr|]. split; [reflexivity|]. split; [vm_compute; reflexivity|].
  eapply (Reconcile_protocol example_reconciler demo_handler example_request example_cluster). exact Htr.
Defined.

Lemma Reconcile_reports_witness :
  example_reconcile.1.1 = Ok None ∧ ended example_reconciler example_request example_reconcile.1.2 None.
Proof.
  assert (example_reconcile.1.1 = Ok None) as Hres by (vm_compute; reflexivity).
  split; [exact Hres|]. exact (Reconcile_reports example_reconciler demo_handler example_request example_cluster None Hres).
Defined.
