(* ===== verification/Convergence.v ===== *)
(** * One reconcile is enough, and a second one changes nothing

    On an API server that answers every request and that nobody else writes to,
    a reconcile of a package that can be generated succeeds whatever state the
    cluster was left in, and the state it reaches is a fixpoint: reconciling
    again changes neither an object nor the package's status. *)

From S2P Require Import Prelude GoStrings Json K8s ApiTypes External Metadata.
From S2P Require Import IngressConfig Authz Generator.
From S2P Require Import Interaction Status Prune Reconcile Protocol Cluster.
Local Open Scope string_scope.
Local Open Scope list_scope.

(** ** Runs that return *)

Section Runs.
Context {W} (h : handler W).

Definition runs {A} (p : prog A) (w : W) (a : A) (w' : W) : Prop :=
  (run h p w).1.1 = Ok a ∧ (run h p w).2 = w'.

Lemma runs_ret {A} (a : A) w : runs (Ret a) w a w.
Proof. done. Qed.
Lemma runs_ask c w : runs (ask c) w (h c w).1 (h c w).2.
Proof. unfold runs, ask. simpl. by destruct (h c w). Qed.
Lemma runs_bind {A B} (p : prog A) (f : A → prog B) w a w1 b w2 :
  runs p w a w1 → runs (f a) w1 b w2 → runs (p ≫= f) w b w2.
Proof.
  unfold runs. rewrite run_bind. destruct (run h p w) as [[o tr] w1']. simpl. intros [-> ->].
  by destruct (run h (f a) w1) as [[o' tr'] w'].
Qed.
Lemma runs_lift {A} (m : outcome A) a w : m = Ok a → runs (lift m) w (inl a) w.
Proof. by intros ->. Qed.

(** What a triple says of a run that returns. *)
Lemma runs_triple {A} (P : W → Prop) (p : prog A) (Q : A → W → Prop) w a w' :
  triple h P p Q → P w → runs p w a w' → Q a w'.
Proof. intros Ht HP [Ha <-]. by apply Ht. Qed.

(** A call that is made and answered as known. *)
Lemma runs_call {B} c (k : ans c → prog B) w r b w2 :
  (h c w).1 = r → runs (k r) (h c w).2 b w2 → runs (Call c k) w b w2.
Proof.
  unfold runs. simpl. intros <-. destruct (h c w) as [r w1]. simpl. by destruct (run h (k r) w1) as [[o tr] w'].
Qed.
End Runs.

(** ** An obliging API server *)

(** What the server holds besides the objects. *)
Record rest := {
  rest_packages : gmap NamespacedName Package;
  rest_config : NamespacedName → gmap string string + error;
  rest_service : bool → NamespacedName → list IntOrString + error
}.

Class ObligingServer `{ControllerExt} {W} (h : handler W) (objs : W → store) (others : W → rest)
    (merge : option Object → Object → Object) : Prop := {
  obl_server :: ApiServer h objs;
  (** Server-side apply with force always succeeds; applying the same object to its
      own result changes nothing. *)
  obl_patch o w : (h (Patch o true fieldManager) w).1 = inl (merge (objs w !! key_of o) o);
  obl_merge_again s o : merge (Some (merge s o)) o = merge s o;
  obl_list kind ns labels w : ∃ l, (h (ListObjects kind ns labels) w).1 = inl l;
  obl_delete o w : match (h (Delete o) w).1 with Some e => IsNotFound e = true | None => True end;
  (** Reads answer what is held. *)
  obl_get key w : ∀ p, rest_packages (others w) !! key = Some p → (h (GetPackage key) w).1 = inl p;
  obl_config key w : (h (GetConfigMap key) w).1 = rest_config (others w) key;
  obl_service uncached key w : (h (GetService uncached key) w).1 = rest_service (others w) uncached key;
  (** A status update of a held package succeeds and holds what was sent. *)
  obl_status p w : (h (StatusUpdate p) w).1 = inl p;
  obl_status_held p w :
    rest_packages (others (h (StatusUpdate p) w).2) = <[(pkg_Namespace p, pkg_Name p) := p]> (rest_packages (others w)) ∧
    rest_config (others (h (StatusUpdate p) w).2) = rest_config (others w) ∧
    rest_service (others (h (StatusUpdate p) w).2) = rest_service (others w);
  obl_others c w : (∀ p, c ≠ StatusUpdate p) → others (h c w).2 = others w
}.

Section Convergence.
Context `{Ext} `{ControllerExt} {W} (h : handler W) (objs : W → store) (others : W → rest)
  (merge : option Object → Object → Object) `{!ObligingServer h objs others merge}.

Notation runs := (runs h).
Notation packages w := (rest_packages (others w)).

(** ** Applying *)

(** The answers and the store after the applies. *)
Fixpoint apply_to (ds : list Object) (m : store) : list Object * store :=
  match ds with
  | [] => ([], m)
  | o :: ds =>
      let o' := merge (m !! key_of o) o in
      let '(os, m') := apply_to ds (<[key_of o := o']> m) in (o' :: os, m')
  end.

Lemma patch_step o w :
  let o' := merge (objs w !! key_of o) o in
  let w' := (h (Patch o true fieldManager) w).2 in
  (h (Patch o true fieldManager) w).1 = inl o' ∧ objs w' = <[key_of o := o']> (objs w) ∧ others w' = others w.
Proof.
  cbv zeta. pose proof (obl_patch o w) as Hp. pose proof (api_patch o true fieldManager w) as Ha.
  pose proof (obl_others (Patch o true fieldManager) w ltac:(done)) as Ho.
  destruct (h (Patch o true fieldManager) w) as [r w']. simpl in *. subst r. by destruct Ha as [-> _].
Qed.

Lemma applyAll_runs ds w :
  ∃ w', runs (applyAll ds) w (inl (apply_to ds (objs w)).1) w' ∧
    objs w' = (apply_to ds (objs w)).2 ∧ others w' = others w.
Proof.
  revert w. induction ds as [|o ds IH]; intros w; [by exists w|].
  destruct (patch_step o w) as (Hr & Ho & He). set (w1 := (h (Patch o true fieldManager) w).2) in *.
  destruct (IH w1) as (w2 & Hrun & Hobjs & Hothers). rewrite Ho in Hrun, Hobjs.
  exists w2. unfold applyAll. cbn [each apply_to]. fold (applyAll ds).
  destruct (apply_to ds _) as [os m']. simpl in *. split; [|by rewrite Hothers].
  eapply runs_call; [exact Hr|]. cbv beta iota. by eapply runs_bind.
Qed.

Lemma apply_to_same ds m : Forall2 same_object ds (apply_to ds m).1 → key_of <$> (apply_to ds m).1 = key_of <$> ds.
Proof. intros Hs. by destruct (same_keys _ _ Hs). Qed.

(** A key that is not applied keeps its object. *)
Lemma apply_to_other ds m k : k ∉ key_of <$> ds → (apply_to ds m).2 !! k = m !! k.
Proof.
  revert m. induction ds as [|o ds IH]; intros m Hk; [done|]. rewrite fmap_cons, not_elem_of_cons in Hk.
  destruct Hk as [Hne Hk]. cbn [apply_to]. specialize (IH (<[key_of o := merge (m !! key_of o) o]> m) Hk).
  destruct (apply_to ds _) as [os m']. simpl in *. by rewrite IH, lookup_insert_ne.
Qed.

(** Objects of different keys are stored as answered. *)
Lemma apply_to_stored ds m o :
  NoDup (key_of <$> ds) → o ∈ ds → (apply_to ds m).2 !! key_of o = Some (merge (m !! key_of o) o).
Proof.
  revert m. induction ds as [|x ds IH]; intros m Hnd Ho; [by apply elem_of_nil in Ho|].
  rewrite fmap_cons in Hnd. apply NoDup_cons in Hnd as [Hx Hnd].
  transitivity ((apply_to ds (<[key_of x := merge (m !! key_of x) x]> m)).2 !! key_of o);
    [cbn [apply_to]; by destruct (apply_to ds _)|].
  apply elem_of_cons in Ho as [->|Ho]; [rewrite apply_to_other by done; apply lookup_insert_eq|].
  rewrite IH by done. rewrite lookup_insert_ne; [done|]. intros E. apply Hx. rewrite E. by apply list_elem_of_fmap_2.
Qed.

(** Applying again to a store that agrees on the keys: the same answers, no change. *)
Lemma apply_to_again ds m m2 :
  NoDup (key_of <$> ds) → (∀ o, o ∈ ds → m2 !! key_of o = (apply_to ds m).2 !! key_of o) →
  apply_to ds m2 = ((apply_to ds m).1, m2).
Proof.
  revert m m2. induction ds as [|o ds IH]; intros m m2 Hnd Hag; [done|].
  rewrite fmap_cons in Hnd. apply NoDup_cons in Hnd as [Hnot Hnd].
  assert ((apply_to (o :: ds) m).2 = (apply_to ds (<[key_of o := merge (m !! key_of o) o]> m)).2) as Em.
  { cbn [apply_to]. by destruct (apply_to ds _). }
  assert (m2 !! key_of o = Some (merge (m !! key_of o) o)) as Ho.
  { rewrite (Hag o) by left. rewrite Em, apply_to_other by done. apply lookup_insert_eq. }
  cbn [apply_to]. rewrite Ho, obl_merge_again, insert_id by done.
  specialize (IH (<[key_of o := merge (m !! key_of o) o]> m) m2 Hnd).
  rewrite Em in Hag. rewrite IH by (intros x Hx; apply Hag; by right).
  by destruct (apply_to ds _).
Qed.

(** ** Pruning *)

Lemma deleteStale_runs keep items w : ∃ w', runs (deleteStale keep items) w None w' ∧ others w' = others w.
Proof.
  revert w. induction items as [|o items IH]; intros w; cbn [deleteStale]; [by exists w|].
  destruct (decide _); [apply IH|]. pose proof (obl_delete o w) as Hd.
  pose proof (obl_others (Delete o) w ltac:(done)) as He. destruct (IH (h (Delete o) w).2) as (w' & Hrun & Ho).
  exists w'. split; [|congruence]. eapply runs_call; [done|]. destruct (h (Delete o) w).1 as [e|]; [by rewrite Hd|done].
Qed.

Lemma pruneKinds_runs pkg keep kinds w : ∃ w', runs (pruneKinds pkg keep kinds) w None w' ∧ others w' = others w.
Proof.
  revert w. induction kinds as [|kind kinds IH]; intros w; cbn [pruneKinds]; [by exists w|].
  set (labels := {[LabelPackage := pkg_Name pkg]}).
  destruct (obl_list kind (pkg_Namespace pkg) labels w) as [l Hl].
  pose proof (obl_others (ListObjects kind (pkg_Namespace pkg) labels) w ltac:(done)) as He1.
  set (w1 := (h (ListObjects kind (pkg_Namespace pkg) labels) w).2) in *.
  destruct (deleteStale_runs keep l w1) as (w2 & Hd & He2). destruct (IH w2) as (w3 & Hrest & He3).
  exists w3. split; [|congruence]. eapply runs_call; [exact Hl|]. cbv beta iota. rewrite extractItems_Ok.
  eapply runs_bind; [by apply runs_lift|]. cbv beta iota. by eapply runs_bind.
Qed.

(** ** Programs that only look *)

Lemma looks_keeps {A} (p : prog A) w a w' : looks p → runs p w a w' → objs w' = objs w ∧ others w' = others w.
Proof.
  revert w. induction p as [b|c k IH| |]; intros w Hl [Ha Hw]; simpl in *; [by subst|..|done|done].
  destruct Hl as [Hc Hk]. pose proof (api_other c w ltac:(by destruct c)) as Ho.
  pose proof (obl_others c w ltac:(intros p ->; done)) as He. destruct (h c w) as [r w1]. simpl in *.
  destruct (IH r w1 (Hk r)) as [IH1 IH2]; [|split; congruence].
  unfold runs. by destruct (run h (k r) w1) as [[? ?] ?].
Qed.

(** A program without calls does not depend on the world. *)
Fixpoint callless {A} (p : prog A) : Prop := match p with Call _ _ => False | _ => True end.
Lemma callless_run {A} (p : prog A) w1 w2 : callless p → (run h p w1).1.1 = (run h p w2).1.1.
Proof. by destruct p. Qed.
Lemma callless_bind {A B} (p : prog A) (f : A → prog B) : callless p → (∀ a, callless (f a)) → callless (p ≫= f).
Proof. destruct p; simpl; auto. Qed.
Lemma callless_lift {A} (m : outcome A) : callless (lift m).
Proof. by destruct m. Qed.

Lemma parseSharedConfig_callless data : callless (parseSharedConfig data).
Proof.
  unfold parseSharedConfig. cbv zeta. apply callless_bind; [apply callless_lift|]. intros egress.
  apply callless_bind; [destruct egress; [apply callless_lift|done]|]. intros ingress.
  apply callless_bind; [apply callless_lift|done].
Qed.

(** The inputs a reconcile reads are functions of what the server holds. *)
Lemma sharedConfig_again r w1 w2 :
  rest_config (others w1) = rest_config (others w2) →
  (run h (sharedConfig r) w1).1.1 = (run h (sharedConfig r) w2).1.1.
Proof.
  intros E. unfold sharedConfig. cbv zeta. destruct (_ || _); [done|]. rewrite !run_bind. unfold ask. simpl.
  set (key := (r_GlobalConfigNamespace r, r_GlobalConfigName r)).
  pose proof (obl_config key w1) as H1. pose proof (obl_config key w2) as H2. rewrite E in H1.
  destruct (h (GetConfigMap key) w1) as [r1 w1'], (h (GetConfigMap key) w2) as [r2 w2']. simpl in *.
  rewrite H1, H2. destruct (rest_config (others w2) key) as [data|err]; [|by destruct (IsNotFound err)].
  pose proof (callless_run (parseSharedConfig data) w1' w2' (parseSharedConfig_callless data)) as Hp.
  by destruct (run h (parseSharedConfig data) w1') as [[? ?] ?], (run h (parseSharedConfig data) w2') as [[? ?] ?].
Qed.

Lemma kubeAPIPorts_again r pkg pkg2 w1 w2 :
  pkg_Spec pkg = pkg_Spec pkg2 → rest_service (others w1) = rest_service (others w2) →
  (run h (kubeAPIPorts r pkg) w1).1.1 = (run h (kubeAPIPorts r pkg2) w2).1.1.
Proof.
  intros Es E. unfold kubeAPIPorts, references_kubeAPI. rewrite Es. destruct (negb _); [done|].
  rewrite !run_bind. unfold ask. simpl. set (key := ("default", "kubernetes")).
  pose proof (obl_service (r_APIReader r) key w1) as H1. pose proof (obl_service (r_APIReader r) key w2) as H2.
  destruct (h (GetService _ _) w1) as [r1 ?], (h (GetService _ _) w2) as [r2 ?]. simpl in *. congruence.
Qed.

(** ** What a reconcile wants *)

(** The inputs of the generator as read from the server, and the objects
    generated from them. *)
Definition inputs_read (r : PackageReconciler) (pkg : Package) (w : W) (inp : Input) : Prop :=
  ∃ shared ports, (run h (sharedConfig r) w).1.1 = Ok shared ∧ (run h (kubeAPIPorts r pkg) w).1.1 = Ok ports ∧
    inp = set_inputs pkg (r_Scheme r) ports shared.
Definition desired (r : PackageReconciler) (pkg : Package) (w : W) (gen : list Object) : Prop :=
  ∃ shared ports, (run h (sharedConfig r) w).1.1 = Ok shared ∧ (run h (kubeAPIPorts r pkg) w).1.1 = Ok ports ∧
    Generate (set_inputs pkg (r_Scheme r) ports shared) = Ok gen.
Lemma inputs_desired r pkg w inp gen : inputs_read r pkg w inp → Generate inp = Ok gen → desired r pkg w gen.
Proof. intros (shared & ports & Hs & Hp & ->) Hg. by exists shared, ports. Qed.

(** Generation does not look at the status. *)
Lemma Generate_status pkg pkg2 scheme ports shared :
  pkg_Meta pkg = pkg_Meta pkg2 → pkg_Spec pkg = pkg_Spec pkg2 →
  Generate (set_inputs pkg scheme ports shared) = Generate (set_inputs pkg2 scheme ports shared).
Proof. destruct pkg as [m s st], pkg2 as [m2 s2 st2]. simpl. intros -> ->. reflexivity. Qed.

(** The held configuration and Services, without the packages. *)
Definition same_reads (w1 w2 : W) : Prop :=
  rest_config (others w1) = rest_config (others w2) ∧ rest_service (others w1) = rest_service (others w2).

Lemma desired_again r pkg pkg2 w1 w2 gen :
  pkg_Meta pkg = pkg_Meta pkg2 → pkg_Spec pkg = pkg_Spec pkg2 → same_reads w1 w2 →
  desired r pkg w1 gen → desired r pkg2 w2 gen.
Proof.
  intros Em Es [Ec Ev] (shared & ports & Hs & Hp & Hg). exists shared, ports.
  rewrite <-(sharedConfig_again r w1 w2 Ec), <-(kubeAPIPorts_again r pkg pkg2 w1 w2 Es Ev).
  by rewrite <-(Generate_status pkg pkg2 _ _ _ Em Es).
Qed.

(** What a successful reconcile of [pkg] does to the world. *)
Definition settled (pkg : Package) (gen : list Object) (w w' : W) : Prop :=
  let os := (apply_to gen (objs w)).1 in
  (∀ k o, objs w' !! k = Some o ↔
     (apply_to gen (objs w)).2 !! k = Some o ∧ (belongs pkg o → objectKey o ∈ objectKey <$> os)) ∧
  (∃ now, packages w' = <[(pkg_Namespace pkg, pkg_Name pkg) := readyPackage pkg os now]> (packages w)) ∧
  same_reads w w'.

Lemma runs_looks {A} (p : prog A) w a : looks p → (run h p w).1.1 = Ok a → ∃ w', runs p w a w' ∧ objs w' = objs w ∧ others w' = others w.
Proof.
  intros Hl Ha. exists (run h p w).2. assert (runs p w a (run h p w).2) as Hr by done.
  split; [done|]. by eapply looks_keeps.
Qed.

Lemma looks_returns_runs {A} (p : prog A) w :
  looks p → returns_under (λ _ _, True) p → ∃ a w', runs p w a w' ∧ objs w' = objs w ∧ others w' = others w.
Proof.
  intros Hl Hr. destruct (returns_under_run (λ _ _, True) h p w ltac:(done) Hr) as [a Ha].
  exists a. by apply runs_looks.
Qed.

(** A call that neither writes an object nor updates a status. *)
Lemma passive_step c w : passive c = true ∨ (∃ a b d, c = IncTotal a b d) → objs (h c w).2 = objs w ∧ others (h c w).2 = others w.
Proof.
  intros Hc. pose proof (api_other (objs:=objs) c w) as Ho. pose proof (obl_others c w) as He.
  destruct Hc as [Hc|(a & b & d & ->)]; [|by split; [apply Ho|apply He]].
  split; [apply Ho; by destruct c|apply He]. by intros p ->.
Qed.

Lemma markReady_runs pkg os w :
  ∃ now w', runs (markReady pkg os) w (readyPackage pkg os now, None) w' ∧ objs w' = objs w ∧
    packages w' = <[(pkg_Namespace pkg, pkg_Name pkg) := readyPackage pkg os now]> (packages w) ∧ same_reads w w'.
Proof.
  set (now := (h Now w).1). set (w1 := (h Now w).2). set (p := readyPackage pkg os now).
  destruct (passive_step Now w ltac:(by left)) as [Ho He]. fold w1 in Ho, He.
  destruct (obl_status_held p w1) as (Hp & Hc & Hs). pose proof (api_other (StatusUpdate p) w1 eq_refl) as Ho2.
  exists now, (h (StatusUpdate p) w1).2. split.
  - eapply runs_call; [done|]. fold now w1. eapply runs_call; [exact (obl_status p w1)|]. done.
  - split; [congruence|]. split; [by rewrite Hp, He|]. split; congruence.
Qed.

Lemma applyGenerated_runs pkg gen w :
  well_stored (objs w) →
  ∃ p' w', runs (applyGenerated pkg (inl gen)) w (p', None) w' ∧ settled pkg gen w w' ∧ pkg_Meta p' = pkg_Meta pkg.
Proof.
  intros Hm. destruct (applyAll_runs gen w) as (w1 & Happ & Ho1 & He1).
  pose proof (runs_triple h _ _ _ _ _ _ (applyAll_holds h objs gen (objs w)) eq_refl Happ) as [Hsame Hput].
  set (os := (apply_to gen (objs w)).1) in *.
  destruct (pruneKinds_runs pkg (list_to_set (objectKey <$> os)) managedListKinds w1) as (w2 & Hprune & He2).
  assert (well_stored (objs w1)) as Hm1 by (rewrite Hput; by apply put_all_stored).
  pose proof (runs_triple h _ _ _ _ _ _ (pruneStale_holds h objs pkg os (objs w1) Hm1) eq_refl Hprune) as Hpruned.
  cbv beta iota in Hpruned.
  set (c1 := IncTotal (pkg_Namespace pkg) (pkg_Name pkg) outcomeSuccess).
  set (c2 := SetApplied (pkg_Namespace pkg) (pkg_Name pkg) (Z.of_nat (length os))).
  destruct (passive_step c1 w2 ltac:(right; by do 3 eexists)) as [Ho3 He3]. set (w3 := (h c1 w2).2) in *.
  destruct (passive_step c2 w3 ltac:(by left)) as [Ho4 He4]. set (w4 := (h c2 w3).2) in *.
  destruct (markReady_runs pkg os w4) as (now & w5 & Hready & Ho5 & Hp5 & Hr5).
  exists (readyPackage pkg os now), w5. unfold settled. fold os. cbv zeta. split_and!.
  - cbn [applyGenerated]. eapply runs_bind; [exact Happ|]. cbv beta iota.
    eapply runs_bind; [exact Hprune|]. cbv beta iota. eapply runs_call; [done|]. by eapply runs_call.
  - intros k o. by rewrite Ho5, Ho4, Ho3, (Hpruned k o), Ho1.
  - exists now. rewrite Hp5. by rewrite He4, He3, He2, He1.
  - destruct Hr5 as [Hc Hs]. split; congruence.
  - done.
Qed.

Lemma observed_runs r pkg gen w :
  well_stored (objs w) → desired r pkg w gen → ∃ w', runs (observed r pkg) w None w' ∧ settled pkg gen w w'.
Proof.
  intros Hm Hd.
  destruct (passive_step Now w ltac:(by left)) as [Ho1 He1]. set (w1 := (h Now w).2) in *.
  destruct (looks_returns_runs (if r_Recorder r then emitWarnings pkg (Warnings pkg) else Ret tt) w1) as (u & w2 & Hwarn & Ho2 & He2).
  { destruct (r_Recorder r); [apply emitWarnings_looks|done]. }
  { destruct (r_Recorder r); [apply emitWarnings_returns|done]. }
  destruct Hd as (shared & ports & Hs & Hp & Hg).
  rewrite (sharedConfig_again r w w2) in Hs by congruence.
  destruct (runs_looks _ _ _ (sharedConfig_looks r) Hs) as (w3 & Hshared & Ho3 & He3).
  rewrite (kubeAPIPorts_again r pkg pkg w w3) in Hp by (done || congruence).
  destruct (runs_looks _ _ _ (kubeAPIPorts_looks r pkg) Hp) as (w4 & Hports & Ho4 & He4).
  assert (objs w4 = objs w) as Ho by congruence. assert (others w4 = others w) as He by congruence.
  destruct (applyGenerated_runs pkg gen w4) as (p' & w5 & Happ & (Hset & Hpk & Hreads) & Hmeta); [by rewrite Ho|].
  destruct (passive_step Now w5 ltac:(by left)) as [Ho6 He6]. set (now := (h Now w5).1). set (w6 := (h Now w5).2) in *.
  set (c := ObserveDuration (pkg_Namespace p') (pkg_Name p') (now - (h Now w).1)).
  destruct (passive_step c w6 ltac:(by left)) as [Ho7 He7].
  exists (h c w6).2. split.
  - unfold observed. eapply runs_call; [done|]. fold w1. eapply runs_bind.
    + unfold reconcileGeneration. eapply runs_bind; [exact Hwarn|]. eapply runs_bind; [exact Hshared|].
      eapply runs_bind; [exact Hports|]. eapply runs_bind; [by apply runs_lift|]. exact Happ.
    + cbv beta iota. eapply runs_call; [done|]. fold now w6. by eapply runs_call.
  - unfold settled, same_reads in *. rewrite Ho7, Ho6, He7, He6, Ho, He in *. done.
Qed.

(** ** The theorems *)

(** The package whose status a reconcile ends up writing: the one that was read,
    or the one with the Reconciling condition. *)
Lemma Reconcile_settles r req w pkg gen :
  well_stored (objs w) → packages w !! req = Some pkg → (pkg_Namespace pkg, pkg_Name pkg) = req →
  IsZero (om_DeletionTimestamp (pkg_Meta pkg)) = true → unique_conditions pkg → desired r pkg w gen →
  ∃ pkg1 w', runs (Reconcile r req) w None w' ∧ pkg_Meta pkg1 = pkg_Meta pkg ∧ pkg_Spec pkg1 = pkg_Spec pkg ∧
    unique_conditions pkg1 ∧ settled pkg1 gen w w' ∧
    (Status_ObservedGeneration (pkg_Status pkg) = pkg_Generation pkg → pkg1 = pkg).
Proof.
  intros Hm Hheld Hkey Hlive Hu Hd. pose proof (obl_get req w pkg Hheld) as Hget.
  destruct (passive_step (GetPackage req) w ltac:(by left)) as [Ho1 He1]. set (w1 := (h (GetPackage req) w).2) in *.
  unfold Reconcile. destruct (decide (pkg_Generation pkg = Status_ObservedGeneration (pkg_Status pkg))) as [Eg|Eg].
  - destruct (observed_runs r pkg gen w1) as (w2 & Hrun & Hset).
    { by rewrite Ho1. }
    { by eapply desired_again; [..|exact Hd]; unfold same_reads; rewrite ?He1. }
    exists pkg, w2. split_and!; [|done..|unfold settled, same_reads in *; by rewrite Ho1, He1 in Hset|done].
    eapply runs_call; [exact Hget|]. cbv beta iota. rewrite Hlive, Eg, Z.eqb_refl. exact Hrun.
  - destruct (passive_step Now w1 ltac:(by left)) as [Ho2 He2]. set (now := (h Now w1).1). set (w2 := (h Now w1).2) in *.
    set (p := setCondition pkg (condition pkg "Reconciling" ConditionTrue "Progressing"
      ("reconciling generation " +:+ Itoa (pkg_Generation pkg)) now)).
    destruct (obl_status_held p w2) as (Hp & Hc & Hs). pose proof (api_other (StatusUpdate p) w2 eq_refl) as Ho3.
    set (w3 := (h (StatusUpdate p) w2).2) in *.
    destruct (observed_runs r p gen w3) as (w4 & Hrun & Hst & (t & Hpk) & Hreads).
    { by rewrite Ho3, Ho2, Ho1. }
    { eapply desired_again; [done|done| |exact Hd]. split; congruence. }
    exists p, w4. split_and!; [|done|done|by apply setCondition_unique| |congruence].
    + eapply runs_call; [exact Hget|]. cbv beta iota. rewrite Hlive. cbn [negb].
      destruct (Z.eqb_spec (pkg_Generation pkg) (Status_ObservedGeneration (pkg_Status pkg))); [done|]. cbn [negb].
      eapply (runs_bind h (markReconciling pkg) _ _ (inl p) w3); [|exact Hrun].
      unfold markReconciling. eapply runs_call; [done|]. fold now w2 p. by eapply runs_call; [exact (obl_status p w2)|].
    + assert (objs w3 = objs w) as Ho by congruence. rewrite Ho in Hst, Hpk. unfold settled. split; [exact Hst|]. split.
      * exists t. rewrite Hpk, Hp, He2, He1. apply insert_insert_eq.
      * destruct Hreads as [Hrc Hrs]. split; congruence.
Qed.

Lemma apply_to_spec gen w :
  Forall2 same_object gen (apply_to gen (objs w)).1 ∧
  (apply_to gen (objs w)).2 = put_all (apply_to gen (objs w)).1 (objs w).
Proof.
  destruct (applyAll_runs gen w) as (w1 & Happ & Ho1 & _).
  pose proof (runs_triple h _ _ _ _ _ _ (applyAll_holds h objs gen (objs w)) eq_refl Happ) as [Hsame Hput].
  split; [done|]. by rewrite <-Ho1.
Qed.

Lemma desired_kinds_agree r pkg w gen : desired r pkg w gen → kinds_agree gen.
Proof. intros (shared & ports & _ & _ & Hg). by eapply Generate_kinds_agree. Qed.

Lemma settled_converged r pkg pkg1 gen w w' :
  desired r pkg w gen → settled pkg1 gen w w' → converged pkg1 gen (objs w) (objs w').
Proof.
  intros Hd [Hst _]. destruct (apply_to_spec gen w) as [Hsame Hput]. rewrite Hput in Hst.
  eapply converged_store; [by eapply desired_kinds_agree|exact Hsame|exact Hst].
Qed.

(** The generated objects are in the settled store as they were answered. *)
Lemma settled_kept pkg1 gen w w' o :
  settled pkg1 gen w w' → o ∈ gen → objs w' !! key_of o = (apply_to gen (objs w)).2 !! key_of o.
Proof.
  intros [Hst _] Ho. destruct (apply_to_spec gen w) as [Hsame Hput]. destruct (same_keys _ _ Hsame) as [_ Ek].
  pose proof (put_all_lookup (apply_to gen (objs w)).1 (objs w) (key_of o)) as Hl. rewrite <-Hput in Hl.
  assert (key_of o ∈ key_of <$> (apply_to gen (objs w)).1) as Hin by (rewrite Ek; by apply list_elem_of_fmap_2).
  destruct ((apply_to gen (objs w)).2 !! key_of o) as [x|] eqn:Hx; [|by destruct Hl].
  apply Hst. split; [done|]. intros _. destruct Hl as [[Hxin _]|[? _]]; [|done]. by apply list_elem_of_fmap_2.
Qed.

(** C9: Level-triggered success. On an obliging server, a reconcile of a live
    package whose objects can be generated succeeds from any well-formed state
    of the cluster, however earlier or failed reconciles and other clients left
    it: it returns without an error, the cluster has converged to the generated
    objects, each of which, when their keys differ, is stored as the server-side
    apply of what was generated, and the stored package is Ready, not Stalled
    and not Reconciling, for its current generation. *)
Theorem Reconcile_succeeds r req w pkg gen
    (Hstore : well_stored (objs w)) (Hheld : packages w !! req = Some pkg)
    (Hkey : (pkg_Namespace pkg, pkg_Name pkg) = req) (Hlive : IsZero (om_DeletionTimestamp (pkg_Meta pkg)) = true)
    (Hu : unique_conditions pkg) (Hgen : desired r pkg w gen) :
  ∃ w' pkg', runs (Reconcile r req) w None w' ∧ converged pkg gen (objs w) (objs w') ∧
    (NoDup (key_of <$> gen) → ∀ o, o ∈ gen → objs w' !! key_of o = Some (merge (objs w !! key_of o) o)) ∧
    packages w' !! req = Some pkg' ∧ pkg_Meta pkg' = pkg_Meta pkg ∧ pkg_Spec pkg' = pkg_Spec pkg ∧
    has_condition pkg' "Ready" ConditionTrue ∧ lacks_condition pkg' "Stalled" ∧ lacks_condition pkg' "Reconciling" ∧
    Status_ObservedGeneration (pkg_Status pkg') = pkg_Generation pkg.
Proof.
  destruct (Reconcile_settles r req w pkg gen Hstore Hheld Hkey Hlive Hu Hgen)
    as (pkg1 & w' & Hrun & Em & Es & Hu1 & Hset & _).
  pose proof Hset as (_ & (now & Hpk) & _). set (os := (apply_to gen (objs w)).1) in *.
  exists w', (readyPackage pkg1 os now). split_and!; [done| | | |done|done| | | |].
  - pose proof (settled_converged r pkg pkg1 gen w w' Hgen Hset) as Hc. unfold converged, belongs, pkg_Namespace, pkg_Name in *.
    by rewrite Em in Hc.
  - intros Hnd o Ho. rewrite (settled_kept pkg1 gen w w' o Hset Ho).
    by apply apply_to_stored.
  - rewrite Hpk, <-Hkey. unfold pkg_Namespace, pkg_Name. rewrite Em. apply lookup_insert_eq.
  - by apply has_readyPackage.
  - apply readyPackage_lacks; auto.
  - apply readyPackage_lacks; auto.
  - change (pkg_Generation pkg1 = pkg_Generation pkg). unfold pkg_Generation. by rewrite Em.
Qed.

(** C10: The state a successful reconcile reaches is a fixpoint. When the keys of
    the generated objects differ, reconciling again, in any world that still
    holds the same objects, packages and configuration, succeeds and changes
    neither an object nor the package: no object is rewritten to anything new or
    deleted, the status keeps its conditions with their transition times, so the
    controller does not trigger itself. *)
Theorem Reconcile_fixpoint r req w pkg gen w' w2
    (Hstore : well_stored (objs w)) (Hheld : packages w !! req = Some pkg)
    (Hkey : (pkg_Namespace pkg, pkg_Name pkg) = req) (Hlive : IsZero (om_DeletionTimestamp (pkg_Meta pkg)) = true)
    (Hu : unique_conditions pkg) (Hgen : desired r pkg w gen) (Hnd : NoDup (key_of <$> gen))
    (Hrun : (run h (Reconcile r req) w).2 = w') (Hsame : objs w2 = objs w' ∧ others w2 = others w') :
  ∃ w3, runs (Reconcile r req) w2 None w3 ∧ objs w3 = objs w' ∧ packages w3 = packages w'.
Proof.
  destruct (Reconcile_settles r req w pkg gen Hstore Hheld Hkey Hlive Hu Hgen)
    as (pkg1 & w1 & [_ Hrun1] & Em & Es & Hu1 & Hset & _).
  rewrite Hrun in Hrun1. subst w1. pose proof Hset as (Hst & (now & Hpk) & Hreads).
  set (os := (apply_to gen (objs w)).1) in *. set (ready := readyPackage pkg1 os now) in *.
  destruct Hsame as [Eo Ee]. assert ((pkg_Namespace pkg1, pkg_Name pkg1) = req) as Hkey1
    by (unfold pkg_Namespace, pkg_Name in *; by rewrite Em).
  rewrite Hkey1 in Hpk. destruct (apply_to_spec gen w) as [Hsame1 Hput].
  assert (apply_to gen (objs w2) = (os, objs w2)) as Hagain.
  { apply apply_to_again; [done|]. intros o Ho. rewrite Eo. by apply (settled_kept pkg1). }
  destruct (Reconcile_settles r req w2 ready gen) as (p & w3 & Hrun3 & _ & _ & _ & (Hst3 & (now3 & Hpk3) & _) & Hp).
  - rewrite Eo. intros k o [Hk _]%Hst. rewrite Hput in Hk. revert Hk. apply put_all_stored. exact Hstore.
  - by rewrite Ee, Hpk, lookup_insert_eq.
  - exact Hkey1.
  - change (IsZero (om_DeletionTimestamp (pkg_Meta pkg1)) = true). by rewrite Em.
  - by apply readyPackage_unique.
  - eapply desired_again; [| | |exact Hgen]; [by rewrite <-Em|by rewrite <-Es|].
    unfold same_reads. rewrite Ee. exact Hreads.
  - specialize (Hp eq_refl). subst p. exists w3. rewrite Hagain in Hst3, Hpk3. simpl in Hst3, Hpk3. split; [done|]. split.
    + apply map_eq. intros k. apply option_eq. intros o. rewrite Hst3, Eo. split; [by intros [? _]|].
      intros Hk. split; [done|]. intros Hb. by apply Hst in Hk as [_ ?]; auto.
    + rewrite Hpk3, Ee, Hpk. assert (readyPackage ready os now3 = ready) as -> by by apply readyPackage_again.
      change (pkg_Namespace ready, pkg_Name ready) with (pkg_Namespace pkg1, pkg_Name pkg1). rewrite Hkey1.
      apply insert_insert_eq.
Qed.
End Convergence.

(** ** The concrete cluster is obliging *)

Definition cluster_rest (w : cluster) : rest :=
  {| rest_packages := cl_packages w; rest_config key := found (cl_configmaps w !! key);
     rest_service _ _ := inr notFound |}.
Definition plain_merge (_ : option Object) (o : Object) : Object := o.

#[export] Instance demo_ObligingServer : ObligingServer demo_handler cl_objects cluster_rest plain_merge.
Proof.
  split; try done.
  - apply demo_ApiServer.
  - intros kind ns labels w. by eexists.
  - intros o w. simpl. by destruct (cl_objects w !! key_of o).
  - intros key w p Hp. simpl in *. by rewrite Hp.
  - intros c w Hc. destruct c as [| | | | | |o|p| | | | |]; try done; [|by destruct (Hc p)].
    simpl. by destruct (cl_objects w !! key_of o).
Defined.

Lemma example_cluster_stored : well_stored (cl_objects example_cluster).
Proof.
  intros k o Hk. unfold example_cluster in Hk. cbn [cl_objects] in Hk.
  apply lookup_insert_Some in Hk as [[<- <-]|[_ Hk]]; [reflexivity|].
  by apply lookup_singleton_Some in Hk as [<- <-].
Qed.

(** The objects generated for the example package. *)
Definition example_generated : list Object :=
  ok_value [] (Generate (set_inputs example_package (Some example_scheme) [] emptyInput)).

Lemma example_desired : desired demo_handler example_reconciler example_package example_cluster example_generated.
Proof.
  exists emptyInput, []. split; [vm_compute; reflexivity|]. split; [vm_compute; reflexivity|].
  apply ok_by_compute. vm_compute. reflexivity.
Qed.

Lemma example_keys_differ : NoDup (key_of <$> example_generated).
Proof. refine (bool_decide_eq_true_1 _ _). vm_compute. reflexivity. Qed.

Lemma Reconcile_succeeds_witness :
  length example_generated = 15 ∧
  ∃ w' pkg', runs demo_handler (Reconcile example_reconciler example_request) example_cluster None w' ∧
    cl_packages w' !! example_request = Some pkg' ∧ has_condition pkg' "Ready" ConditionTrue.
Proof.
  split; [vm_compute; reflexivity|].
  destruct (Reconcile_succeeds demo_handler cl_objects cluster_rest plain_merge example_reconciler example_request
    example_cluster example_package example_generated example_cluster_stored eq_refl eq_refl eq_refl
    (NoDup_nil_2) example_desired) as (w' & pkg' & Hrun & _ & _ & Hp & _ & _ & Hready & _).
  exists w', pkg'. split; [exact Hrun|]. split; [exact Hp|exact Hready].
Defined.

Lemma tick_keeps w : cl_objects (tick w) = cl_objects w ∧ cluster_rest (tick w) = cluster_rest w.
Proof. done. Qed.

Lemma Reconcile_fixpoint_witness :
  ∃ w3, runs demo_handler (Reconcile example_reconciler example_request) (tick example_reconcile.2) None w3 ∧
    cl_objects w3 = cl_objects example_reconcile.2 ∧ cl_packages w3 = cl_packages example_reconcile.2.
Proof.
  exact (Reconcile_fixpoint demo_handler cl_objects cluster_rest plain_merge example_reconciler example_request
    example_cluster example_package example_generated example_reconcile.2 (tick example_reconcile.2)
    example_cluster_stored eq_refl eq_refl eq_refl (NoDup_nil_2) example_desired example_keys_differ eq_refl
    (tick_keeps _)).
Defined.
