(* ===== verification/Enforced.v ===== *)
(** * The posture a reconcile enforces in the cluster

    What the generator asks for is what the cluster does: after one reconcile
    the policies that are stored in the package's namespace decide about every
    connection and every request as the spec says, whatever earlier generations
    left behind.  What the API server stores of an applied policy is stated as
    server-side apply documents it: absent fields are filled in, and fields that
    another manager owns stay, so the objects about to be applied must be the
    operator's alone. *)

From S2P Require Import Prelude GoStrings Json K8s ApiTypes External Metadata.
From S2P Require Import NetpolDefaults NetpolFlows Netpols IngressConfig Authz AuthzFlows Generator Posture.
From S2P Require Import Interaction Status Prune Reconcile Protocol Cluster Convergence.
Local Open Scope string_scope.
Local Open Scope list_scope.

(** The objects of a namespace: what the network plugin and istiod look at. *)
Definition in_namespace (ns : string) (m : store) : list Object :=
  filter (λ o, o_Namespace o = ns) (map_to_list m).*2.

Lemma elem_of_in_namespace ns m o : o ∈ in_namespace ns m ↔ o_Namespace o = ns ∧ ∃ k, m !! k = Some o.
Proof.
  unfold in_namespace. rewrite list_elem_of_filter, list_elem_of_fmap. f_equiv. split.
  - intros ([k x] & -> & Hk). exists k. by apply elem_of_map_to_list.
  - intros [k Hk]. exists (k, o). split; [done|]. by apply elem_of_map_to_list.
Qed.

(** ** Server-side apply

    What is stored of an applied spec, where no other manager owns a field of
    it: a NetworkPolicy with its absent protocols and policy types filled in, an
    AuthorizationPolicy as it was sent (its schema has no defaults); of the
    other kinds only that the kind stays. *)
Definition stored_as (b b' : Body) : Prop :=
  match b with
  | NetworkPolicy sp => b' = NetworkPolicy (defaultNetworkPolicy sp)
  | AuthorizationPolicy _ => b' = b
  | _ => type_of b' = type_of b
  end.

(** An apply with force takes over the fields it sends and removes those that
    the operator alone owned and no longer sends; the fields of other managers
    stay.  So the outcome is known where nothing is stored yet, and where no
    other manager owns a field of the stored spec. *)
Class ServerSideApply (merge : option Object → Object → Object) (managed_alone : Object → Prop) : Prop :=
  ssa_merge s o : from_option managed_alone True s → stored_as (o_Body o) (o_Body (merge s o)).

Lemma stored_as_type b b' : stored_as b b' → type_of b' = type_of b.
Proof. destruct b; simpl; try done; by intros ->. Qed.

(** What is about to be overwritten is the operator's alone. *)
Definition unshared (managed_alone : Object → Prop) (gen : list Object) (m : store) : Prop :=
  ∀ g s, g ∈ gen → m !! key_of g = Some s → managed_alone s.

(** A meaning of policies that does not see what the server fills in. *)
Definition defaulting_blind (F : Object → Prop) : Prop :=
  ∀ o o', stored_as (o_Body o) (o_Body o') → F o' ↔ F o.

Lemma allows_egress_blind ns pod q proto p : defaulting_blind (λ o, allows_egress ns o pod q proto p).
Proof.
  intros o o' Hs. destruct (o_Body o) as [sp| | | | |] eqn:E; [by eapply default_allows_egress|..];
    apply stored_as_type in Hs; split; intros (sp & r & Hb & _); rewrite Hb in *; done.
Qed.
Lemma allows_ingress_blind ns pod q proto p : defaulting_blind (λ o, allows_ingress ns o pod q proto p).
Proof.
  intros o o' Hs. destruct (o_Body o) as [sp| | | | |] eqn:E; [by eapply default_allows_ingress|..];
    apply stored_as_type in Hs; split; intros (sp & r & Hb & _); rewrite Hb in *; done.
Qed.
Lemma isolates_blind type pod :
  defaulting_blind (λ o, ∃ sp, o_Body o = NetworkPolicy sp ∧ selects (nps_PodSelector sp) pod ∧ type ∈ policyTypes_of sp).
Proof.
  intros o o' Hs. destruct (o_Body o) as [sp| | | | |] eqn:E;
    [|apply stored_as_type in Hs; split; intros (sp' & Hb & _); rewrite Hb in *; done..].
  simpl in Hs. rewrite Hs. split; intros (sp' & [= <-] & Hsel & Ht); eexists; (split; [reflexivity|]); split; try done.
  - by rewrite policyTypes_of_default in Ht.
  - by rewrite policyTypes_of_default.
Qed.
(** A meaning of AuthorizationPolicies sees their bodies only. *)
Lemma authz_blind (F : Object → Prop) :
  (∀ o o', o_Body o = o_Body o' → F o ↔ F o') → (∀ o, F o → type_of (o_Body o) = TAuthorizationPolicy) → defaulting_blind F.
Proof.
  intros HF Ht o o' Hs. pose proof (stored_as_type _ _ Hs) as Et.
  destruct (decide (type_of (o_Body o) = TAuthorizationPolicy)) as [Ha|Ha].
  - apply HF. by destruct (o_Body o).
  - split; intros ?%Ht; congruence.
Qed.

(** The policies of a type in the package's namespace are those about to be
    applied and leftovers of earlier generations; nobody else has any there. *)
Definition others_are_leftovers `{ControllerExt} (t : ObjectType) (pkg : Package) (gen : list Object) (m : store) : Prop :=
  ∀ k o, m !! k = Some o → type_of (o_Body o) = t → o_Namespace o = pkg_Namespace pkg → k ∉ key_of <$> gen →
    belongs pkg o ∧ objectKey o ∉ objectKey <$> gen.

Section Enforced.
Context `{Ext} `{!IntStrLaws} `{ControllerExt} {W} (h : handler W) (objs : W → store) (others : W → rest)
  (merge : option Object → Object → Object) `{!ObligingServer h objs others merge}.
Context (managed_alone : Object → Prop) `{!ServerSideApply merge managed_alone}.

Notation runs := (runs h).
Notation packages w := (rest_packages (others w)).

(** A generated object is stored as server-side apply says. *)
Lemma merged_as gen m g : unshared managed_alone gen m → g ∈ gen → stored_as (o_Body g) (o_Body (merge (m !! key_of g) g)).
Proof. intros Hun Hg. apply ssa_merge. destruct (m !! key_of g) as [s|] eqn:E; [by eapply Hun|done]. Qed.

Lemma settled_stored pkg gen w w' k o :
  NoDup (key_of <$> gen) → settled objs others merge pkg gen w w' → objs w' !! k = Some o →
  (∃ g, g ∈ gen ∧ k = key_of g ∧ o = merge (objs w !! k) g) ∨
  (k ∉ key_of <$> gen ∧ objs w !! k = Some o ∧ (belongs pkg o → objectKey o ∈ objectKey <$> gen)).
Proof.
  intros Hnd [Hst _] [Hk Hb]%Hst. destruct (decide (k ∈ key_of <$> gen)) as [Hin|Hnot].
  - left. apply list_elem_of_fmap in Hin as (g & -> & Hg). exists g. split; [done|]. split; [done|].
    rewrite (apply_to_stored merge gen _ g Hnd Hg) in Hk. by injection Hk as <-.
  - right. split; [done|]. rewrite (apply_to_other merge) in Hk by done. split; [done|].
    destruct (apply_to_spec h objs others merge gen w) as [Hsame _]. destruct (same_keys _ _ Hsame) as [Ek _].
    by rewrite <-Ek.
Qed.

(** What the policies of one type decide is decided by the namespace of the
    cluster as by the generated objects. *)
Lemma settled_decides t (F : Object → Prop) pkg gen w w' :
  defaulting_blind F → (∀ o, F o → type_of (o_Body o) = t) →
  Forall (λ o, o_Namespace o = pkg_Namespace pkg) gen → NoDup (key_of <$> gen) → unshared managed_alone gen (objs w) →
  others_are_leftovers t pkg gen (objs w) → settled objs others merge pkg gen w w' →
  (∃ o, o ∈ in_namespace (pkg_Namespace pkg) (objs w') ∧ F o) ↔ ∃ o, o ∈ gen ∧ F o.
Proof.
  intros HF Ht Hem Hnd Hun Hleft Hset. split.
  - intros (o & [Hns [k Hk]]%elem_of_in_namespace & Ho).
    destruct (settled_stored _ _ _ _ _ _ Hnd Hset Hk) as [(g & Hg & -> & ->)|(Hnot & Hw & Hb)].
    + exists g. split; [done|]. by apply (HF g _ (merged_as gen _ g Hun Hg)).
    + destruct (Hleft k o Hw (Ht o Ho) Hns Hnot) as [Hbel Hkey]. by apply Hb in Hbel.
  - intros (g & Hg & Ho). destruct (apply_to_spec h objs others merge gen w) as [Hsame _].
    pose proof (settled_kept h objs others merge pkg gen w w' g Hset Hg) as Hk.
    rewrite (apply_to_stored merge gen _ g Hnd Hg) in Hk. exists (merge (objs w !! key_of g) g). split.
    + apply elem_of_in_namespace. split; [|by eexists].
      pose proof (api_patch g true fieldManager w) as Hp. pose proof (obl_patch g w) as Hr.
      destruct (h (Patch g true fieldManager) w) as [r w1]. simpl in Hr. subst r. destruct Hp as (_ & [Ek _] & _).
      unfold key_of in Ek. injection Ek as _ Ens _. rewrite Forall_forall in Hem. rewrite <-(Hem g Hg). exact Ens.
    + by apply (HF g _ (merged_as gen _ g Hun Hg)).
Qed.

(** Two sets of objects with the same decisions are alike to the network. *)
Lemma alike_network ns (out out' : list Object) pod q proto p :
  (∀ F : Object → Prop, defaulting_blind F → (∀ o, F o → type_of (o_Body o) = TNetworkPolicy) →
     (∃ o, o ∈ out' ∧ F o) ↔ ∃ o, o ∈ out ∧ F o) →
  ((∃ o, o ∈ out' ∧ allows_egress ns o pod q proto p) ↔ ∃ o, o ∈ out ∧ allows_egress ns o pod q proto p) ∧
  ((∃ o, o ∈ out' ∧ allows_ingress ns o pod q proto p) ↔ ∃ o, o ∈ out ∧ allows_ingress ns o pod q proto p) ∧
  ∀ type, isolated type out' pod ↔ isolated type out pod.
Proof.
  intros Halike. split; [|split].
  - apply Halike; [apply allows_egress_blind|]. by intros o (sp & r & -> & _).
  - apply Halike; [apply allows_ingress_blind|]. by intros o (sp & r & -> & _).
  - intros type. specialize (Halike (λ o, ∃ sp, o_Body o = NetworkPolicy sp ∧ selects (nps_PodSelector sp) pod ∧ type ∈ policyTypes_of sp)).
    destruct Halike as [Hto Hfrom]; [apply isolates_blind|by intros o (sp & -> & _)|].
    split; intros (o & sp & Ho & Hb); [destruct Hto as (x & Hx & sp' & ?)|destruct Hfrom as (x & Hx & sp' & ?)]; eauto; by exists x, sp'.
Qed.

(** What a reconcile settles, for the metadata and spec that were read. *)
Lemma Reconcile_decides r req w pkg inp gen :
  well_stored (objs w) → packages w !! req = Some pkg → (pkg_Namespace pkg, pkg_Name pkg) = req →
  IsZero (om_DeletionTimestamp (pkg_Meta pkg)) = true → unique_conditions pkg →
  inputs_read h r pkg w inp → Generate inp = Ok gen → NoDup (key_of <$> gen) → unshared managed_alone gen (objs w) →
  ∃ w', runs (Reconcile r req) w None w' ∧
    ∀ t (F : Object → Prop), others_are_leftovers t pkg gen (objs w) →
      defaulting_blind F → (∀ o, F o → type_of (o_Body o) = t) →
      (∃ o, o ∈ in_namespace (pkg_Namespace pkg) (objs w') ∧ F o) ↔ ∃ o, o ∈ gen ∧ F o.
Proof.
  intros Hm Hheld Hkey Hlive Hu Hinp Hgen Hnd Hun.
  destruct (Reconcile_settles h objs others merge r req w pkg gen Hm Hheld Hkey Hlive Hu (inputs_desired h r pkg w inp gen Hinp Hgen))
    as (pkg1 & w' & Hrun & Em & _ & _ & Hset & _).
  exists w'. split; [done|]. intros t F Hleft HF Ht.
  assert (pkg_Namespace pkg1 = pkg_Namespace pkg) as En by (unfold pkg_Namespace; by rewrite Em).
  assert (∀ o, belongs pkg o → belongs pkg1 o) as Hb by (unfold belongs, pkg_Namespace, pkg_Name; by rewrite Em).
  destruct Hinp as (shared & ports & _ & _ & ->). pose proof (Generate_emits (set_inputs pkg (r_Scheme r) ports shared) pkg gen eq_refl Hgen) as Hem.
  rewrite <-En. apply (settled_decides t F pkg1 gen w w'); [done|done| |done|done| |done].
  - eapply Forall_impl; [exact Hem|]. intros o [_ Hn]. congruence.
  - intros k o Hk Hto Hn Hnot. rewrite En in Hn. destruct (Hleft k o Hk Hto Hn Hnot). auto.
Qed.

(** C2: The network posture of the cluster. One reconcile of a live package with
    networkPolicies on, on an obliging server and whatever earlier generations
    left behind, succeeds and leaves the package's namespace with policies that,
    for every pod and connection, allow what the defaults, the shorthand, the
    routes and the additional policies ask for, and with the deny-all defaults on
    permit nothing else but HBONE where it is injected.
    Of the server: it applies as [ServerSideApply] says, so fields that others
    manage stay and absent ones get their defaults. Of the cluster: no two
    generated objects have one kind and name (where the generator gives two
    policies one name, as it can, one of them is lost: a finding); nobody else
    manages the specs of the stored objects that are generated again
    ([unshared]); and the other NetworkPolicies of the namespace are leftovers of
    this package. *)
Theorem Reconcile_enforces_network r req w pkg np inp inbound gen
    (Hstore : well_stored (objs w)) (Hheld : packages w !! req = Some pkg)
    (Hkey : (pkg_Namespace pkg, pkg_Name pkg) = req) (Hlive : IsZero (om_DeletionTimestamp (pkg_Meta pkg)) = true)
    (Hu : unique_conditions pkg) (Hinp : inputs_read h r pkg w inp) (Hgen : Generate inp = Ok gen)
    (Hnd : NoDup (key_of <$> gen)) (Hun : unshared managed_alone gen (objs w))
    (Hleft : others_are_leftovers TNetworkPolicy pkg gen (objs w))
    (Hnp : Spec_NetworkPolicies (pkg_Spec pkg) = Some np) (Hen : NP_Enabled np = true)
    (Hfits : shorthand_fits np) (Hin : resolveInboundRoutes inp = Ok inbound) (Hroutes : route_ports_fit inbound) :
  ∃ w', runs (Reconcile r req) w None w' ∧
    ∀ pod q proto p,
      let ns := pkg_Namespace pkg in
      let istio := Spec_Istio (pkg_Spec pkg) in
      let stored := in_namespace ns (objs w') in
      let asked_out := egress_asked pkg np istio (env_of inp) pod q proto p in
      let asked_in := ingress_asked pkg np istio (env_of inp) pod q proto p inbound in
      (asked_out → ∃ o, o ∈ stored ∧ allows_egress ns o pod q proto p) ∧
      (asked_in → ∃ o, o ∈ stored ∧ allows_ingress ns o pod q proto p) ∧
      (egressDenyAll np = true → egress_permitted ns stored pod q proto p → asked_out ∨ hbone_of np istio proto p) ∧
      (ingressDenyAll np = true → ingress_permitted ns stored pod q proto p → asked_in ∨ hbone_of np istio proto p).
Proof.
  destruct (Reconcile_decides r req w pkg inp gen Hstore Hheld Hkey Hlive Hu Hinp Hgen Hnd Hun) as (w' & Hrun & Hdec).
  exists w'. split; [done|]. intros pod q proto p. cbv zeta.
  assert (in_Package inp = Some pkg) as Hpkg by (by destruct Hinp as (? & ? & _ & _ & ->)).
  destruct (deny_all_isolates _ _ _ _ pod Hpkg Hnp Hen Hgen) as [Hie Hii].
  destruct (generated_allows _ _ _ _ _ pod q proto p Hpkg Hnp Hen Hfits Hin Hroutes Hgen) as (He1 & Hi1 & He2 & Hi2).
  destruct (alike_network (pkg_Namespace pkg) gen (in_namespace (pkg_Namespace pkg) (objs w')) pod q proto p) as (Ee & Ei & Es).
  { intros F. by apply Hdec. }
  rewrite Ee, Ei. unfold egress_permitted, ingress_permitted. rewrite Ee, Ei, !Es. split_and!; auto.
Qed.

(** C3: The mesh posture of the cluster. When authorization policies are on and
    none is custom, one reconcile on an obliging server succeeds and leaves the
    namespace with policies that admit a request exactly when the namespace
    default, an enabled ingress entry or a route names its caller, workload and
    port; with the allow-nothing default that is the decision of the mesh.
    Server and cluster are as in the theorem before, so an allow-nothing policy
    to which somebody else added rules is excluded by [unshared]. With
    generateFromNetpol off the ingress entries ask for nothing, in ambient mode
    as well: the code's side of a disagreement with istio.md (a finding). *)
Theorem Reconcile_enforces_mesh r req w pkg np inp inbound gen
    (Hstore : well_stored (objs w)) (Hheld : packages w !! req = Some pkg)
    (Hkey : (pkg_Namespace pkg, pkg_Name pkg) = req) (Hlive : IsZero (om_DeletionTimestamp (pkg_Meta pkg)) = true)
    (Hu : unique_conditions pkg) (Hinp : inputs_read h r pkg w inp) (Hgen : Generate inp = Ok gen)
    (Hnd : NoDup (key_of <$> gen)) (Hun : unshared managed_alone gen (objs w))
    (Hleft : others_are_leftovers TAuthorizationPolicy pkg gen (objs w))
    (Hnp : Spec_NetworkPolicies (pkg_Spec pkg) = Some np) (Henabled : authzEnabled (Spec_Istio (pkg_Spec pkg)) = true)
    (Hcustom : generateCustomAuthzPolicies (Spec_Istio (pkg_Spec pkg)) = Ok [])
    (Hin : resolveInboundRoutes inp = Ok inbound) (Hgw : gateways_plain inbound) (Hns : plain (pkg_Namespace pkg)) :
  ∃ w', runs (Reconcile r req) w None w' ∧
    ∀ pod rq, request_ok rq →
      let istio := Spec_Istio (pkg_Spec pkg) in
      let stored := in_namespace (pkg_Namespace pkg) (objs w') in
      ((∃ o, o ∈ stored ∧ admits pod rq o) ↔ mesh_wanted pkg np istio inbound pod rq) ∧
      (ingressSideEnabled np = true → authzAllowNothing istio = true →
         mesh_admits stored pod rq ↔ mesh_wanted pkg np istio inbound pod rq).
Proof.
  destruct (Reconcile_decides r req w pkg inp gen Hstore Hheld Hkey Hlive Hu Hinp Hgen Hnd Hun) as (w' & Hrun & Hdec).
  exists w'. split; [done|]. intros pod rq Hrq. cbv zeta.
  assert (in_Package inp = Some pkg) as Hpkg by (by destruct Hinp as (? & ? & _ & _ & ->)).
  destruct (generated_admits pod rq inp pkg np inbound gen) as [Ew Hnone]; [done..|].
  rewrite <-Ew, <-(Hdec TAuthorizationPolicy (admits pod rq) Hleft) by
    first [apply authz_blind; [by apply admits_body|]; by intros o (ap & r' & Hb & _); unfold policy_of in Hb; rewrite Hb
          |by intros o (ap & r' & Hb & _); unfold policy_of in Hb; rewrite Hb].
  split; [done|]. intros Hside Hnothing.
  destruct (Hdec TAuthorizationPolicy (λ o, o_Body o = AuthorizationPolicy zeroAuthorizationPolicy) Hleft) as [_ Hkept].
  { apply authz_blind; [by intros x y ->|by intros x ->]. }
  { by intros x ->. }
  destruct (Hkept (Hnone Hside Hnothing)) as (o & Ho & Hb).
  by apply (mesh_admits_denied _ o).
Qed.
End Enforced.

(** ** A concrete server

    It fills in defaults, keeps the labels it was not sent, and keeps the stored
    rules of an object that somebody else marked as theirs when it is sent none. *)

Definition stored_body (b : Body) : Body :=
  match b with NetworkPolicy sp => NetworkPolicy (defaultNetworkPolicy sp) | b => b end.
Definition sends_no_rules (b : Body) : bool :=
  match b with
  | NetworkPolicy sp => bool_decide (length (nps_Ingress sp) + length (nps_Egress sp) = 0)
  | AuthorizationPolicy (AuthorizationPolicy_fields f) => bool_decide (length (ap_Rules f) = 0)
  | _ => false
  end.
Definition by_hand (o : Object) : bool := bool_decide (is_Some (contents (o_Labels o) !! "example.com/by-hand")).
Definition kept_body (s : option Object) (o : Object) : Body :=
  match s with
  | Some x => if by_hand x && bool_decide (type_of (o_Body x) = type_of (o_Body o)) && sends_no_rules (o_Body o)
              then o_Body x else stored_body (o_Body o)
  | None => stored_body (o_Body o)
  end.
Definition ssa_merge_fields (s : option Object) (o : Object) : Object :=
  {| o_GVK := o_GVK o;
     o_Meta := set_Labels (Some (contents (o_Labels o) ∪ from_option (λ x, contents (o_Labels x)) ∅ s)) (o_Meta o);
     o_Body := kept_body s o |}.

Lemma kept_body_type s o : type_of (kept_body s o) = type_of (o_Body o).
Proof.
  assert (type_of (stored_body (o_Body o)) = type_of (o_Body o)) as Hs by by destruct (o_Body o).
  destruct s as [x|]; [|done]. unfold kept_body. destruct (_ && _) eqn:E; [|done]. by bool_inv; case_bool_decide.
Qed.
Lemma ssa_merge_key s o : key_of (ssa_merge_fields s o) = key_of o.
Proof. unfold key_of, ssa_merge_fields. cbn [o_Body]. by rewrite kept_body_type. Qed.
Lemma by_hand_merged x o : by_hand x = true → by_hand (ssa_merge_fields (Some x) o) = true.
Proof.
  unfold by_hand. intros [v Hv]%bool_decide_eq_true. apply bool_decide_eq_true. cbn. apply lookup_union_is_Some. right. by exists v.
Qed.
Lemma ssa_merge_again s o : ssa_merge_fields (Some (ssa_merge_fields s o)) o = ssa_merge_fields s o.
Proof.
  assert (kept_body (Some (ssa_merge_fields s o)) o = kept_body s o) as Hb.
  { unfold kept_body at 1. cbn [o_Body ssa_merge_fields]. rewrite kept_body_type, bool_decide_true, andb_true_r by done.
    destruct s as [x|]; [|by destruct (_ && _)]. unfold kept_body.
    destruct (by_hand x) eqn:Hx; [rewrite by_hand_merged by done|]; cbn [andb]; [|by destruct (_ && _)].
    destruct (bool_decide _); cbn [andb]; [by destruct (sends_no_rules _)|by destruct (sends_no_rules _)]. }
  unfold ssa_merge_fields at 1 3. rewrite Hb. do 3 f_equal. cbn. by rewrite map_union_assoc, (map_union_idemp (contents (o_Labels o))).
Qed.
#[export] Instance demo_ServerSideApply : ServerSideApply ssa_merge_fields (λ s, by_hand s = false).
Proof.
  assert (∀ b, stored_as b (stored_body b)) as Hb by by intros [].
  intros [x|] o Hx; simpl in *; [|apply Hb]. rewrite Hx. apply Hb.
Defined.

(** The cluster of the examples behind such a server. *)
Definition ssa_handler : handler cluster := λ c w,
  match c return ans c * cluster with
  | Patch o _ _ =>
      let o' := ssa_merge_fields (cl_objects w !! key_of o) o in (inl o', with_objects (<[key_of o := o']> (cl_objects w)) w)
  | c => demo_handler c w
  end.
#[export] Instance ssa_ApiServer : ApiServer ssa_handler cl_objects.
Proof.
  split.
  - intros o force owner w. cbn. rewrite <-(ssa_merge_key (cl_objects w !! key_of o) o) at 1. split; [|split].
    + by rewrite !ssa_merge_key.
    + split; [apply ssa_merge_key|done].
    + apply map_union_subseteq_l.
  - exact (api_list (h := demo_handler)).
  - exact (api_delete (h := demo_handler)).
  - exact (api_status (h := demo_handler)).
  - intros c w Hc. by destruct c.
Defined.
#[export] Instance ssa_ObligingServer : ObligingServer ssa_handler cl_objects cluster_rest ssa_merge_fields.
Proof.
  split; try done.
  - apply ssa_ApiServer.
  - apply ssa_merge_again.
  - intros kind ns labels w. by eexists.
  - exact (obl_delete (h := demo_handler)).
  - exact (obl_get (h := demo_handler)).
  - intros c w Hc. destruct c as [| | | | | |o|p| | | | |]; try done; [|by destruct (Hc p)].
    simpl. by destruct (cl_objects w !! key_of o).
Defined.

(** ** A concrete cluster with a leftover and an earlier version *)

(** An allow-nothing policy as an earlier generation could have stored it, with
    a label that somebody else added. *)
Definition example_earlier : Object :=
  match list_find (λ o, sends_no_rules (o_Body o) = true ∧ type_of (o_Body o) = TAuthorizationPolicy) example_generated with
  | Some (_, o) =>
      {| o_GVK := o_GVK o;
         o_Meta := set_Labels (Some (<["team" := "web"]> (contents (o_Labels o)))) (o_Meta o);
         o_Body := AuthorizationPolicy (AuthorizationPolicy_fields
           {| ap_Selector := None; ap_Action := ALLOW; ap_Rules := [{| rule_From := []; rule_To := [] |}] |}) |}
  | None => example_stale
  end.
Definition example_leftover_cluster : cluster :=
  with_objects (<[key_of example_stale := example_stale]> {[key_of example_earlier := example_earlier]}) example_cluster.
Definition example_inputs : Input := set_inputs example_package (Some example_scheme) [] emptyInput.

Lemma example_leftover_only k o : cl_objects example_leftover_cluster !! k = Some o →
  (k = key_of example_stale ∧ o = example_stale) ∨ (k = key_of example_earlier ∧ o = example_earlier).
Proof.
  change (cl_objects example_leftover_cluster) with
    (<[key_of example_stale := example_stale]> {[key_of example_earlier := example_earlier]} : store).
  intros [[<- <-]|[_ [<- <-]%lookup_singleton_Some]]%lookup_insert_Some; [by left|by right].
Qed.
Lemma example_leftover_stored : well_stored (cl_objects example_leftover_cluster).
Proof. by intros k o [[-> ->]|[-> ->]]%example_leftover_only. Qed.
Lemma example_leftover_unshared :
  unshared (λ s, by_hand s = false) example_generated (cl_objects example_leftover_cluster).
Proof. intros g s _ [[_ ->]|[_ ->]]%example_leftover_only; vm_compute; reflexivity. Qed.
Lemma example_inputs_read : inputs_read ssa_handler example_reconciler example_package example_leftover_cluster example_inputs.
Proof. exists emptyInput, []. split; [vm_compute; reflexivity|]. split; [vm_compute; reflexivity|reflexivity]. Qed.
Lemma example_inputs_generate : Generate example_inputs = Ok example_generated.
Proof. apply ok_by_compute. vm_compute. reflexivity. Qed.
Lemma example_inputs_routes : resolveInboundRoutes example_inputs = Ok example_inbound_routes.
Proof. apply ok_by_compute. vm_compute. reflexivity. Qed.
Lemma example_leftovers t : others_are_leftovers t example_package example_generated (cl_objects example_leftover_cluster).
Proof.
  intros k o [[_ ->]|[-> _]]%example_leftover_only _ _ Hnot.
  - split; [by vm_compute|]. refine (bool_decide_eq_true_1 _ _). vm_compute. reflexivity.
  - destruct Hnot. refine (bool_decide_eq_true_1 _ _). vm_compute. reflexivity.
Qed.

Lemma example_namespace_plain : plain (pkg_Namespace example_package).
Proof. by vm_compute. Qed.

Lemma Reconcile_enforces_network_witness :
  ingressDenyAll example_ingress_np = true ∧
  ∃ w', runs ssa_handler (Reconcile example_reconciler example_request) example_leftover_cluster None w' ∧
    ∃ o, o ∈ in_namespace "apps" (cl_objects w') ∧ allows_ingress "apps" o (app "web") example_pod "TCP" 8081%Z.
Proof.
  split; [reflexivity|].
  destruct (Reconcile_enforces_network ssa_handler cl_objects cluster_rest ssa_merge_fields (λ s, by_hand s = false) example_reconciler
    example_request example_leftover_cluster example_package example_ingress_np example_inputs example_inbound_routes
    example_generated example_leftover_stored eq_refl eq_refl eq_refl (NoDup_nil_2) example_inputs_read example_inputs_generate
    example_keys_differ example_leftover_unshared (example_leftovers _) eq_refl eq_refl example_full_fits example_inputs_routes example_inbound_routes_fit)
    as (w' & Hrun & Hnet).
  exists w'. split; [exact Hrun|]. apply (proj1 (proj2 (Hnet (app "web") example_pod "TCP" 8081%Z))). exact example_full_asked.
Defined.

Lemma Reconcile_enforces_mesh_witness :
  ingressSideEnabled example_ingress_np = true ∧
  ∃ w', runs ssa_handler (Reconcile example_reconciler example_request) example_leftover_cluster None w' ∧
    mesh_admits (in_namespace "apps" (cl_objects w')) (app "web") AuthzFlows.example_request.
Proof.
  split; [reflexivity|].
  destruct (Reconcile_enforces_mesh ssa_handler cl_objects cluster_rest ssa_merge_fields (λ s, by_hand s = false) example_reconciler
    example_request example_leftover_cluster example_package example_ingress_np example_inputs example_inbound_routes
    example_generated example_leftover_stored eq_refl eq_refl eq_refl (NoDup_nil_2) example_inputs_read example_inputs_generate
    example_keys_differ example_leftover_unshared (example_leftovers _) eq_refl eq_refl eq_refl example_inputs_routes example_gateways_plain
    example_namespace_plain) as (w' & Hrun & Hmesh).
  exists w'. split; [exact Hrun|].
  apply (proj2 (Hmesh (app "web") AuthzFlows.example_request example_request_ok) eq_refl eq_refl).
  right. left. split; [reflexivity|]. eexists. split; [reflexivity|]. by apply example_shorthand_wanted.
Defined.
