(* ===== verification/Access.v ===== *)
(** * What the operator may do: its RBAC rules and its calls

    The markers above [Reconcile] generate the operator's ClusterRole.  Every
    call of the reconciler needs some of that access: the calls it can issue at
    all are described first, whatever is answered, and then shown to be within
    the role. *)

From S2P Require Import Prelude GoStrings K8s ApiTypes External Metadata IngressConfig Generator.
From S2P Require Import Interaction Status Prune Reconcile Cluster.
Local Open Scope string_scope.
Local Open Scope list_scope.

(** ** The role *)

Record PolicyRule := { groups : list string; resources : list string; verbs : list string }.

(** The [+kubebuilder:rbac] markers, in order. *)
Definition rbac : list PolicyRule :=
  let crud := ["get"; "list"; "watch"; "create"; "update"; "patch"; "delete"] in
  [{| groups := ["bigbang.dev"]; resources := ["packages"]; verbs := crud |};
   {| groups := ["bigbang.dev"]; resources := ["packages/status"]; verbs := ["get"; "update"; "patch"] |};
   {| groups := ["bigbang.dev"]; resources := ["packages/finalizers"]; verbs := ["update"] |};
   {| groups := ["networking.k8s.io"]; resources := ["networkpolicies"]; verbs := crud |};
   {| groups := ["security.istio.io"]; resources := ["peerauthentications"; "authorizationpolicies"]; verbs := crud |};
   {| groups := ["networking.istio.io"]; resources := ["sidecars"; "serviceentries"; "virtualservices"]; verbs := crud |};
   {| groups := [""]; resources := ["services"]; verbs := ["get"] |};
   {| groups := [""]; resources := ["events"]; verbs := ["create"; "patch"] |};
   {| groups := [""]; resources := ["configmaps"]; verbs := ["get"; "list"; "watch"] |}].

Record access := { a_group : string; a_resource : string; a_verb : string }.

Definition in_list (x : string) (l : list string) : bool := existsb (String.eqb x) l.
(** A request is allowed when some rule lists its group, resource and verb. *)
Definition permits (rules : list PolicyRule) (a : access) : bool :=
  existsb (λ r, in_list (a_group a) (groups r) && in_list (a_resource a) (resources r) && in_list (a_verb a) (verbs r)) rules.

(** ** What a call needs *)

Definition resource_of (t : ObjectType) : string * string :=
  match t with
  | TNetworkPolicy => ("networking.k8s.io", "networkpolicies")
  | TPeerAuthentication => ("security.istio.io", "peerauthentications")
  | TAuthorizationPolicy => ("security.istio.io", "authorizationpolicies")
  | TVirtualService => ("networking.istio.io", "virtualservices")
  | TServiceEntry => ("networking.istio.io", "serviceentries")
  | TSidecar => ("networking.istio.io", "sidecars")
  end.

Definition on (gr : string * string) (vs : list string) : list access :=
  (λ v, {| a_group := gr.1; a_resource := gr.2; a_verb := v |}) <$> vs.
(** A read through the manager's client is served by an informer, which lists
    and watches; an uncached read is a get. Applying creates what is missing. *)
Definition cached (gr : string * string) : list access := on gr ["list"; "watch"].

Definition needs (c : call) : list access :=
  match c with
  | GetPackage _ | ListPackages => cached ("bigbang.dev", "packages")
  | GetConfigMap _ => cached ("", "configmaps")
  | GetService uncached _ => if uncached then on ("", "services") ["get"] else cached ("", "services")
  | ListObjects kind _ _ => cached (resource_of kind)
  | Patch o _ _ => on (resource_of (type_of (o_Body o))) ["create"; "patch"]
  | Delete o => on (resource_of (type_of (o_Body o))) ["delete"]
  | StatusUpdate _ => on ("bigbang.dev", "packages/status") ["update"]
  | Event _ _ _ => on ("", "events") ["create"; "patch"]
  | Now | IncTotal _ _ _ | SetApplied _ _ _ | ObserveDuration _ _ _ => []
  end.
Definition within_role (c : call) : Prop := Forall (λ a, permits rbac a = true) (needs c).

(** ** The calls of a reconcile *)

Section Calls.
Context `{Ext} `{ControllerExt}.

(** Reads are of one package, one ConfigMap and one Service; lists are of a
    managed kind with the label of a package; no list of packages. *)
Definition reconcile_call (r : PackageReconciler) (req : NamespacedName) (c : call) : Prop :=
  match c with
  | GetPackage key => key = req
  | GetConfigMap key =>
      key = (r_GlobalConfigNamespace r, r_GlobalConfigName r) ∧ key.1 ≠ "" ∧ key.2 ≠ ""
  | GetService uncached key => uncached = r_APIReader r ∧ key = ("default", "kubernetes")
  | ListObjects kind ns labels => kind ∈ managedListKinds ∧ ∃ name, labels = {[LabelPackage := name]}
  | ListPackages => False
  | Patch _ force owner => force = true ∧ owner = fieldManager
  | _ => True
  end.

Section Issued.
Context (r : PackageReconciler) (req : NamespacedName).
Notation ok := (issues (reconcile_call r req)).

Lemma sharedConfig_issues : ok (sharedConfig r).
Proof.
  unfold sharedConfig. cbv zeta. destruct (String.eqb_spec (r_GlobalConfigNamespace r) ""); [done|].
  destruct (String.eqb_spec (r_GlobalConfigName r) ""); [done|]. cbn [orb].
  apply issues_ask; [by split_and!|]. intros [data|err]; [|by destruct (IsNotFound err)].
  unfold parseSharedConfig. cbv zeta. apply issues_bind; [apply issues_lift|]. intros egress.
  apply issues_bind; [destruct egress; [apply issues_lift|done]|]. intros ingress.
  by apply issues_bind; [apply issues_lift|].
Qed.

Lemma emitWarnings_issues pkg ws : ok (emitWarnings pkg ws).
Proof. induction ws as [|w ws IH]; [done|]. by split. Qed.

Lemma deleteStale_issues keep items : ok (deleteStale keep items).
Proof.
  induction items as [|item items IH]; simpl; [done|]. destruct (decide _); [done|]. split; [done|].
  intros [e|]; [|done]. by destruct (IsNotFound e).
Qed.

Lemma pruneStale_issues pkg os : ok (pruneStale pkg os).
Proof.
  unfold pruneStale. assert (∀ k, k ∈ managedListKinds → k ∈ managedListKinds) as Hin by done.
  revert Hin. generalize managedListKinds at 1 3 as kinds. intros kinds Hin.
  induction kinds as [|k kinds IH]; [done|]. cbn [pruneKinds]. apply issues_ask.
  { split; [apply Hin; by left|by eexists]. }
  intros [l|e]; [|done]. rewrite extractItems_Ok. apply issues_bind; [done|]. intros [items|e]; [|done].
  apply issues_bind; [apply deleteStale_issues|]. intros [e|]; [done|]. apply IH. intros k' Hk. apply Hin. by right.
Qed.

Lemma markFailed_issues pkg reason err : ok (markFailed pkg reason err).
Proof. split; [done|]. intros n1. split; [done|]. intros n2. split; [done|]. by intros [p|e]. Qed.
Lemma markReady_issues pkg os : ok (markReady pkg os).
Proof. split; [done|]. intros n1. split; [done|]. by intros [p|e]. Qed.

Lemma applyGenerated_issues pkg g : ok (applyGenerated pkg g).
Proof.
  assert (∀ outcome reason err, ok (_ ← inc pkg outcome; markFailed pkg reason err)) as Hfail.
  { intros. apply issues_ask; [done|]. intros _. apply markFailed_issues. }
  destruct g as [desired|err]; cbn [applyGenerated]; [|apply Hfail]. apply issues_bind.
  { apply issues_each. intros o. apply issues_ask; [done|]. by intros []. }
  intros [os|err]; [|apply Hfail]. apply issues_bind; [apply pruneStale_issues|]. intros [err|]; [apply Hfail|].
  apply issues_ask; [done|]. intros _. apply issues_ask; [done|]. intros _. apply markReady_issues.
Qed.

Lemma observed_issues pkg : ok (observed r pkg).
Proof.
  unfold observed. apply issues_ask; [done|]. intros start.
  apply issues_bind; [|intros [p err]; by repeat (split; [done|intros ?])].
  unfold reconcileGeneration. apply issues_bind; [destruct (r_Recorder r); [apply emitWarnings_issues|done]|]. intros _.
  apply issues_bind; [apply sharedConfig_issues|]. intros shared. apply issues_bind.
  { unfold kubeAPIPorts. destruct (negb _); [done|]. by apply issues_ask. }
  intros ports. apply issues_bind; [apply issues_lift|]. intros g. apply applyGenerated_issues.
Qed.

Lemma Reconcile_issues : ok (Reconcile r req).
Proof.
  unfold Reconcile. apply issues_ask; [done|]. intros [pkg|err]; [|by destruct (IsNotFound err)].
  destruct (negb (IsZero _)); [done|]. destruct (negb _); [|apply observed_issues].
  split; [done|]. intros now. split; [done|]. intros [p|e]; [apply observed_issues|done].
Qed.
End Issued.

(** Everything but a cached read of Services is within the role. *)
Lemma call_within_role c : (∀ key, c ≠ GetService false key) → within_role c.
Proof.
  intros Hc. unfold within_role. destruct c as [| |[] key|kind ns labels| |o f ow|o| | | | | |]; cbn [needs];
    try (by repeat constructor).
  - by destruct (Hc key).
  - destruct kind; by repeat constructor.
  - destruct (type_of (o_Body o)); by repeat constructor.
  - destruct (type_of (o_Body o)); by repeat constructor.
Qed.

(** C11: The operator's ClusterRole covers what it does. Whatever the API server
    answers, every call of a reconcile and of the ConfigMap trigger needs only
    access that the RBAC markers grant, given the uncached reader; and the role
    lets it list and watch every kind it owns and the ConfigMaps it watches. The
    reads are as narrow as they look: the requested package, the configured
    ConfigMap (none when either name is empty), the default/kubernetes Service,
    and managed kinds with a package's label. *)
Theorem rbac_sufficient {W} (h : handler W) r req obj w (Hreader : r_APIReader r = true) :
  Forall (λ e, reconcile_call r req (ev_call e) ∧ within_role (ev_call e)) (run h (Reconcile r req) w).1.2 ∧
  Forall (λ e, within_role (ev_call e)) (run h (packagesForGlobalConfig r obj) w).1.2 ∧
  Forall (λ kind, Forall (λ a, permits rbac a = true) (cached (resource_of kind))) (SetupWithManager r).1 ∧
  Forall (λ a, permits rbac a = true) (cached ("", "configmaps")).
Proof.
  split_and!.
  - eapply Forall_impl; [apply issues_run, (Reconcile_issues r req)|]. intros [c a]. cbn [ev_call]. intros Hc.
    split; [done|]. apply call_within_role. intros key ->. destruct Hc as [E _]. congruence.
  - apply issues_run. unfold packagesForGlobalConfig. destruct (_ || _); [done|]. apply issues_ask; [|done].
    by apply call_within_role.
  - by repeat constructor.
  - by repeat constructor.
Qed.
End Calls.

Lemma rbac_sufficient_witness :
  length example_reconcile.1.2 = 31 ∧
  Forall (λ e, reconcile_call example_reconciler example_request (ev_call e) ∧ within_role (ev_call e)) example_reconcile.1.2.
Proof.
  split; [vm_compute; reflexivity|].
  exact (proj1 (rbac_sufficient demo_handler example_reconciler example_request ("operator", "config") example_cluster eq_refl)).
Defined.
