(* ===== verification/Manager.v ===== *)
(** * cmd/main.go: the manager

    The scheme that [init] fills, the flags with Go's rules for the command
    line, the options that [main] builds from them, and the start-up, which ends
    the process at the first step that fails. *)

From S2P Require Import Prelude GoStrings K8s ApiTypes External Metadata IngressConfig Generator.
From S2P Require Import Interaction Status Reconcile Cluster Access.
Local Open Scope string_scope.
Local Open Scope list_scope.

(** ** The variables that flags set *)

Inductive strVar :=
  | metricsAddr | probeAddr | webhookCertPath | webhookCertName | webhookCertKey
  | metricsCertPath | metricsCertName | metricsCertKey | globalConfigName | globalConfigNamespace.
Inductive boolVar := enableLeaderElection | secureMetrics | enableHTTP2.
#[export] Instance strVar_eq_dec : EqDecision strVar.
Proof. solve_decision. Defined.
#[export] Instance boolVar_eq_dec : EqDecision boolVar.
Proof. solve_decision. Defined.

Record Vars := { str_of : strVar → string; bool_of : boolVar → bool }.
Definition set_str (v : strVar) (x : string) (o : Vars) : Vars :=
  {| str_of := λ u, if decide (u = v) then x else str_of o u; bool_of := bool_of o |}.
Definition set_bool (v : boolVar) (x : bool) (o : Vars) : Vars :=
  {| str_of := str_of o; bool_of := λ u, if decide (u = v) then x else bool_of o u |}.

(** [flag.StringVar] and [flag.BoolVar]: names and defaults. *)
Definition stringFlag (v : strVar) : string :=
  match v with
  | metricsAddr => "metrics-bind-address"
  | probeAddr => "health-probe-bind-address"
  | webhookCertPath => "webhook-cert-path"
  | webhookCertName => "webhook-cert-name"
  | webhookCertKey => "webhook-cert-key"
  | metricsCertPath => "metrics-cert-path"
  | metricsCertName => "metrics-cert-name"
  | metricsCertKey => "metrics-cert-key"
  | globalConfigName => "global-config-name"
  | globalConfigNamespace => "global-config-namespace"
  end.
Definition boolFlag (v : boolVar) : string :=
  match v with
  | enableLeaderElection => "leader-elect"
  | secureMetrics => "metrics-secure"
  | enableHTTP2 => "enable-http2"
  end.

(** [podNamespace] is the environment's [POD_NAMESPACE]. *)
Definition defaults (podNamespace : string) : Vars :=
  {| str_of v := match v with
                 | metricsAddr => "0"
                 | probeAddr => ":8081"
                 | webhookCertPath => ""
                 | webhookCertName => "tls.crt"
                 | webhookCertKey => "tls.key"
                 | metricsCertPath => ""
                 | metricsCertName => "tls.crt"
                 | metricsCertKey => "tls.key"
                 | globalConfigName => "bigbang-operator-global"
                 | globalConfigNamespace => podNamespace
                 end;
     bool_of v := match v with enableLeaderElection => false | secureMetrics => true | enableHTTP2 => false end |}.

(** ** The command line *)

Inductive flagKind :=
  | StringFlag (v : strVar)
  | BoolFlag (v : boolVar)
  | LibraryFlag (isBool : bool).       (* bound by zap or registered by controller-runtime *)

Definition strVars : list strVar :=
  [metricsAddr; probeAddr; webhookCertPath; webhookCertName; webhookCertKey;
   metricsCertPath; metricsCertName; metricsCertKey; globalConfigName; globalConfigNamespace].
Definition boolVars : list boolVar := [enableLeaderElection; secureMetrics; enableHTTP2].

Definition isBoolFlag (k : flagKind) : bool :=
  match k with StringFlag _ => false | BoolFlag _ => true | LibraryFlag b => b end.

(** [strconv.ParseBool] *)
Definition ParseBool (s : string) : option bool :=
  if existsb (String.eqb s) ["1"; "t"; "T"; "TRUE"; "true"; "True"] then Some true
  else if existsb (String.eqb s) ["0"; "f"; "F"; "FALSE"; "false"; "False"] then Some false
  else None.

Inductive argument :=
  | Operand                                            (* parsing stops before it *)
  | Terminator                                         (* "--": parsing stops after it *)
  | BadSyntax
  | Flag (name : string) (value : option string).      (* [-name], [--name=value] *)

(** The first part of [FlagSet.parseOne]. *)
Definition classify (s : string) : argument :=
  match s with
  | String c0 (String c1 rest) =>
      if negb (Ascii.eqb c0 "-") then Operand
      else
        let double := Ascii.eqb c1 "-" in
        let name := if double then rest else String c1 rest in
        if double && String.eqb rest "" then Terminator
        else match name with
             | "" => BadSyntax
             | String c _ =>
                 if Ascii.eqb c "-" || Ascii.eqb c "=" then BadSyntax
                 else
                   let i := Index name "=" in
                   if (0 <=? i)%Z then Flag (str_take (Z.to_nat i) name) (Some (str_drop (Z.to_nat i + 1) name))
                   else Flag name None
             end
  | _ => Operand
  end.

Inductive parse_error := ErrHelp | Failf (e : error).

Section CommandLine.
(** The library flags: whether one is boolean, and whether it takes a value.
    They configure the logger and the client, which the model leaves out. *)
Context (library : string → option bool) (library_Set : string → string → option error).

Definition lookupFlag (name : string) : option flagKind :=
  match list_find (λ v, stringFlag v = name) strVars with
  | Some (_, v) => Some (StringFlag v)
  | None => match list_find (λ v, boolFlag v = name) boolVars with
            | Some (_, v) => Some (BoolFlag v)
            | None => LibraryFlag <$> library name
            end
  end.

(** [Value.Set] *)
Definition Set_value (k : flagKind) (name value : string) (o : Vars) : Vars + error :=
  match k with
  | StringFlag v => inl (set_str v value o)
  | BoolFlag v => match ParseBool value with
                  | Some b => inl (set_bool v b o)
                  | None => inr (Errorf "parse error")
                  end
  | LibraryFlag _ => match library_Set name value with None => inl o | Some e => inr e end
  end.

(** What a failure of [Set] is wrapped in. *)
Definition invalid (k : flagKind) (name : string) (value : option string) : string :=
  match isBoolFlag k, value with
  | true, Some v => "invalid boolean value " +:+ Quote v +:+ " for -" +:+ name
  | true, None => "invalid boolean flag " +:+ name
  | false, v => "invalid value " +:+ Quote (default "" v) +:+ " for flag -" +:+ name
  end.

(** [flag.Parse]: flags are set from left to right; a flag that is not boolean
    takes the next argument when it has no value of its own. *)
Fixpoint Parse (args : list string) (o : Vars) : Vars + parse_error :=
  match args with
  | [] => inl o
  | s :: args =>
      match classify s with
      | Operand | Terminator => inl o
      | BadSyntax => inr (Failf (Errorf ("bad flag syntax: " +:+ s)))
      | Flag name value =>
          match lookupFlag name with
          | None =>
              if String.eqb name "help" || String.eqb name "h" then inr ErrHelp
              else inr (Failf (Errorf ("flag provided but not defined: -" +:+ name)))
          | Some k =>
              if isBoolFlag k then
                match Set_value k name (default "true" value) o with
                | inl o => Parse args o
                | inr e => inr (Failf (Wrapf (invalid k name value) e))
                end
              else
                match value, args with
                | Some v, _ =>
                    match Set_value k name v o with
                    | inl o => Parse args o
                    | inr e => inr (Failf (Wrapf (invalid k name (Some v)) e))
                    end
                | None, v :: args =>
                    match Set_value k name v o with
                    | inl o => Parse args o
                    | inr e => inr (Failf (Wrapf (invalid k name (Some v)) e))
                    end
                | None, [] => inr (Failf (Errorf ("flag needs an argument: -" +:+ name)))
                end
          end
      end
  end.
End CommandLine.

(** ** The scheme *)

Inductive schemeGroup := clientgoscheme | networkingv1 | istiosecv1 | istionetv1.

(** [schema.GroupVersion] of the API and the types its [init] registers. *)
Definition bigbang_GroupVersion : string * string := ("bigbang.dev", "v1alpha1").
Definition registered_types : list string := ["Package"; "PackageList"].

(** ** Options *)

Record tlsConfig := { NextProtos : list string }.
Definition disableHTTP2 (c : tlsConfig) : tlsConfig := {| NextProtos := ["http/1.1"] |}.
Definition tlsOpts (o : Vars) : list (tlsConfig → tlsConfig) :=
  if negb (bool_of o enableHTTP2) then [disableHTTP2] else [].

Record WebhookOptions := {
  wh_TLSOpts : list (tlsConfig → tlsConfig);
  wh_CertDir : string; wh_CertName : string; wh_KeyName : string
}.
Definition webhookServerOptions (o : Vars) : WebhookOptions :=
  if (0 <? len (str_of o webhookCertPath))%nat
  then {| wh_TLSOpts := tlsOpts o; wh_CertDir := str_of o webhookCertPath;
          wh_CertName := str_of o webhookCertName; wh_KeyName := str_of o webhookCertKey |}
  else {| wh_TLSOpts := tlsOpts o; wh_CertDir := ""; wh_CertName := ""; wh_KeyName := "" |}.

Inductive filterProvider := WithAuthenticationAndAuthorization.
Record MetricsOptions := {
  ms_BindAddress : string; ms_SecureServing : bool; ms_TLSOpts : list (tlsConfig → tlsConfig);
  ms_FilterProvider : option filterProvider;
  ms_CertDir : string; ms_CertName : string; ms_KeyName : string
}.
Definition metricsServerOptions (o : Vars) : MetricsOptions :=
  let certs := (0 <? len (str_of o metricsCertPath))%nat in
  {| ms_BindAddress := str_of o metricsAddr; ms_SecureServing := bool_of o secureMetrics; ms_TLSOpts := tlsOpts o;
     ms_FilterProvider := if bool_of o secureMetrics then Some WithAuthenticationAndAuthorization else None;
     ms_CertDir := if certs then str_of o metricsCertPath else "";
     ms_CertName := if certs then str_of o metricsCertName else "";
     ms_KeyName := if certs then str_of o metricsCertKey else "" |}.

(** [fields.OneTermEqualSelector]; [ByObject] has at most the entry for
    ConfigMaps, by namespace. *)
Record fieldSelector := OneTermEqualSelector { fs_Field : string; fs_Value : string }.
Record CacheOptions := { ByObject_ConfigMap : option (gmap string fieldSelector) }.
Definition cacheOpts (o : Vars) : CacheOptions :=
  {| ByObject_ConfigMap :=
       if negb (String.eqb (str_of o globalConfigNamespace) "")
       then Some {[str_of o globalConfigNamespace := OneTermEqualSelector "metadata.name" (str_of o globalConfigName)]}
       else None |}.

Record ManagerOptions := {
  mo_Scheme : Scheme; mo_Cache : CacheOptions; mo_Metrics : MetricsOptions; mo_WebhookServer : WebhookOptions;
  mo_HealthProbeBindAddress : string; mo_LeaderElection : bool; mo_LeaderElectionID : string
}.
Definition managerOptions (scheme : Scheme) (o : Vars) : ManagerOptions :=
  {| mo_Scheme := scheme; mo_Cache := cacheOpts o; mo_Metrics := metricsServerOptions o;
     mo_WebhookServer := webhookServerOptions o; mo_HealthProbeBindAddress := str_of o probeAddr;
     mo_LeaderElection := bool_of o enableLeaderElection; mo_LeaderElectionID := "d512971f.bigbang.dev" |}.

(** The libraries: the schemes' registrations, what a manager hands out (nil or
    not), and the flags they add. *)
Class ManagerExt := {
  SchemeState : Type;
  NewScheme : SchemeState;
  AddToScheme : schemeGroup → SchemeState → outcome SchemeState;
  Builder_AddToScheme : string * string → list string → SchemeState → outcome SchemeState;
  ObjectKinds : SchemeState → Scheme;
  GetScheme : ManagerOptions → option Scheme;
  GetAPIReader : ManagerOptions → bool;
  GetEventRecorderFor : ManagerOptions → string → bool;
  library_flag : string → option bool;
  library_Set : string → string → option error
}.
(** A manager hands out the scheme it was given, a reader and a recorder. *)
Class ManagerLaws `{ManagerExt} : Prop := {
  GetScheme_given o : GetScheme o = Some (mo_Scheme o);
  GetAPIReader_given o : GetAPIReader o = true;
  GetEventRecorderFor_given o name : GetEventRecorderFor o name = true
}.

(** ** Start-up *)

(** The calls that may fail, in the order of [main]. *)
Inductive step :=
  | GetConfigOrDie
  | NewManager (o : ManagerOptions)
  | SetupController (r : PackageReconciler) (watches : list ObjectType * bool)
  | AddHealthzCheck (name : string)
  | AddReadyzCheck (name : string)
  | Start.

(** The steps taken, and a value or the exit code of [os.Exit]. *)
Definition boot (A : Type) : Type := list step * (A + Z).
#[export] Instance boot_ret : MRet boot := λ A a, ([], inl a).
#[export] Instance boot_bind : MBind boot := λ A B f m,
  match m with
  | (tr, inl a) => let '(tr', r) := f a in (tr ++ tr', r)
  | (tr, inr code) => (tr, inr code)
  end.

Section Main.
Context `{ManagerExt}.

Definition Must {A} (m : outcome A) : outcome A := match m with Err _ => Panics | _ => m end.

Definition init : outcome SchemeState :=
  s ← Must (AddToScheme clientgoscheme NewScheme);
  s ← Must (Builder_AddToScheme bigbang_GroupVersion registered_types s);
  s ← Must (AddToScheme networkingv1 s);
  s ← Must (AddToScheme istiosecv1 s);
  Must (AddToScheme istionetv1 s).

Definition reconciler (scheme : Scheme) (o : Vars) : PackageReconciler :=
  let mgr := managerOptions scheme o in
  {| r_Scheme := GetScheme mgr; r_APIReader := GetAPIReader mgr;
     r_Recorder := GetEventRecorderFor mgr "bigbang-operator";
     r_GlobalConfigNamespace := str_of o globalConfigNamespace; r_GlobalConfigName := str_of o globalConfigName |}.

(** [answer] says which steps fail; [if err != nil { os.Exit(1) }]. *)
Context (answer : step → option error).
Definition attempt (s : step) : boot unit :=
  ([s], match answer s with None => inl tt | Some _ => inr 1%Z end).

(** [flag.Parse] of [flag.CommandLine], whose error handling is [ExitOnError]. *)
Definition parseFlags (args : list string) (podNamespace : string) : boot Vars :=
  match Parse library_flag library_Set args (defaults podNamespace) with
  | inl o => ([], inl o)
  | inr ErrHelp => ([], inr 0%Z)
  | inr (Failf _) => ([], inr 2%Z)
  end.

Definition main (scheme : SchemeState) (args : list string) (podNamespace : string) : boot unit :=
  o ← parseFlags args podNamespace;
  let r := reconciler (ObjectKinds scheme) o in
  _ ← attempt GetConfigOrDie;
  _ ← attempt (NewManager (managerOptions (ObjectKinds scheme) o));
  _ ← attempt (SetupController r (SetupWithManager r));
  _ ← attempt (AddHealthzCheck "healthz");
  _ ← attempt (AddReadyzCheck "readyz");
  attempt Start.

(** The process: an uncaught panic of [init] ends it with code 2. *)
Definition process (args : list string) (podNamespace : string) : list step * Z :=
  match init with
  | Ok scheme => let '(tr, r) := main scheme args podNamespace in (tr, match r with inl _ => 0%Z | inr code => code end)
  | _ => ([], 2%Z)
  end.
End Main.

(** ** The command line: lemmas *)

(** A flag's name: not empty, no leading dash, no '='. *)
Definition flag_name (name : string) : bool :=
  match name with String c _ => negb (Ascii.eqb c "-") | "" => false end &&
  str_forall (λ c, negb (Ascii.eqb c "=")) name.
Definition dashes (double : bool) : string := if double then "--" else "-".

Lemma classify_flag double name tail :
  flag_name name = true → (tail = "" ∨ ∃ v, tail = String "=" v) →
  classify (dashes double +:+ (name +:+ tail)) =
  Flag name (match tail with "" => None | String _ v => Some v end).
Proof.
  unfold flag_name. destruct name as [|c name]; [done|]. intros [Hc He]%andb_true_iff Htail.
  apply negb_true_iff in Hc. pose proof He as He'. cbn [str_forall] in He'. apply andb_true_iff in He' as [Heq%negb_true_iff _].
  assert (classify (dashes double +:+ (String c name +:+ tail)) =
    let n := String c name +:+ tail in let i := Index n "=" in
    if (0 <=? i)%Z then Flag (str_take (Z.to_nat i) n) (Some (str_drop (Z.to_nat i + 1) n)) else Flag n None) as ->.
  { destruct double; cbn [dashes]; rewrite !str_app_cons, str_app_nil; unfold classify.
    - change (Ascii.eqb "-" "-") with true. cbn [negb andb String.eqb]. by rewrite Hc, Heq.
    - change (Ascii.eqb "-" "-") with true. cbn [negb]. rewrite Hc. cbn [andb]. by rewrite Hc, Heq. }
  cbv zeta. destruct Htail as [->|[v ->]].
  - rewrite str_app_nil_r, (Index_absent (String c name) "=") by done. done.
  - change (String "=" v) with ("=" +:+ v). rewrite (Index_found (String c name) "=" v "=" "") by done.
    destruct (Z.leb_spec 0 (Z.of_nat (len (String c name)))); [|lia].
    rewrite Nat2Z.id, str_take_app. change 1 with (len "="). by rewrite str_drop_app_plus.
Qed.

Lemma string_flag_name v : flag_name (stringFlag v) = true.
Proof. by destruct v. Qed.
Lemma bool_flag_name v : flag_name (boolFlag v) = true.
Proof. by destruct v. Qed.
Lemma lookup_stringFlag library v : lookupFlag library (stringFlag v) = Some (StringFlag v).
Proof. by destruct v. Qed.
Lemma lookup_boolFlag library v : lookupFlag library (boolFlag v) = Some (BoolFlag v).
Proof. by destruct v. Qed.

(** A setting and the ways to write it. *)
Inductive setting :=
  | Joined (double : bool) (v : strVar) (x : string)        (* --name=x *)
  | Separate (double : bool) (v : strVar) (x : string)      (* --name x *)
  | BoolJoined (double : bool) (v : boolVar) (x : bool)     (* --name=true *)
  | BoolBare (double : bool) (v : boolVar).                 (* --name *)
Definition written (s : setting) : list string :=
  match s with
  | Joined d v x => [dashes d +:+ (stringFlag v +:+ String "=" x)]
  | Separate d v x => [dashes d +:+ (stringFlag v +:+ ""); x]
  | BoolJoined d v x => [dashes d +:+ (boolFlag v +:+ String "=" (if x then "true" else "false"))]
  | BoolBare d v => [dashes d +:+ (boolFlag v +:+ "")]
  end.
Definition setting_applied (o : Vars) (s : setting) : Vars :=
  match s with
  | Joined _ v x | Separate _ v x => set_str v x o
  | BoolJoined _ v x => set_bool v x o
  | BoolBare _ v => set_bool v true o
  end.

Section Properties.
Context (library : string → option bool) (library_Set : string → string → option error).

Lemma Parse_setting s rest o :
  Parse library library_Set (written s ++ rest) o = Parse library library_Set rest (setting_applied o s).
Proof.
  destruct s as [d v x|d v x|d v x|d v]; cbn [written app Parse].
  - rewrite classify_flag by (apply string_flag_name || eauto). by rewrite lookup_stringFlag.
  - rewrite classify_flag by (apply string_flag_name || eauto). by rewrite lookup_stringFlag.
  - rewrite classify_flag by (apply bool_flag_name || eauto). rewrite lookup_boolFlag. by destruct x.
  - rewrite classify_flag by (apply bool_flag_name || eauto). by rewrite lookup_boolFlag.
Qed.

(** The command line round-trips. Settings written as flags, with one dash or
    two, joined by '=' or as a separate argument, booleans bare or with a value,
    are parsed back from left to right, so the last of several wins, whatever
    the values contain; operands and everything after them are left alone, and
    an unknown flag or one without its argument is an error. *)
Theorem Parse_roundtrip settings o :
  (∀ rest, Parse library library_Set (concat (written <$> settings) ++ rest) o =
           Parse library library_Set rest (foldl setting_applied o settings)) ∧
  (∀ s rest, classify s = Operand ∨ classify s = Terminator →
     Parse library library_Set (concat (written <$> settings) ++ s :: rest) o = inl (foldl setting_applied o settings)) ∧
  (∀ s name value rest, classify s = Flag name value → lookupFlag library name = None → name ∉ ["help"; "h"] →
     ∃ e, Parse library library_Set (concat (written <$> settings) ++ s :: rest) o = inr (Failf e)) ∧
  (∀ d v, ∃ e, Parse library library_Set (concat (written <$> settings) ++ [dashes d +:+ (stringFlag v +:+ "")]) o = inr (Failf e)).
Proof.
  assert (∀ rest, Parse library library_Set (concat (written <$> settings) ++ rest) o =
           Parse library library_Set rest (foldl setting_applied o settings)) as Hrt.
  { revert o. induction settings as [|s l IH]; intros o rest; [done|]. cbn [fmap list_fmap concat foldl].
    by rewrite <-app_assoc, Parse_setting, IH. }
  split_and!; [done|..].
  - intros s rest Hs. rewrite Hrt. cbn [Parse]. by destruct Hs as [-> | ->].
  - intros s name value rest Hs Hl Hn. rewrite Hrt. cbn [Parse]. rewrite Hs, Hl.
    destruct (String.eqb_spec name "help") as [->|]; [set_solver|].
    destruct (String.eqb_spec name "h") as [->|]; [set_solver|]. by eexists.
  - intros d v. rewrite Hrt. cbn [Parse]. rewrite classify_flag by (apply string_flag_name || eauto).
    rewrite lookup_stringFlag. by eexists.
Qed.
End Properties.

(** ** Start-up: theorems *)

Section Startup.
Context `{ManagerExt} (answer : step → option error).

(** All the steps, when none fails. *)
Definition startup (scheme : SchemeState) (o : Vars) : list step :=
  let r := reconciler (ObjectKinds scheme) o in
  [GetConfigOrDie; NewManager (managerOptions (ObjectKinds scheme) o); SetupController r (SetupWithManager r);
   AddHealthzCheck "healthz"; AddReadyzCheck "readyz"; Start].

(** A run of steps stops at the first that fails. *)
Definition stops_at_first (steps tr : list step) (code : Z) : Prop :=
  (code = 0%Z ∧ tr = steps ∧ Forall (λ s, answer s = None) tr) ∨
  (code = 1%Z ∧ tr `prefix_of` steps ∧ ∃ pre s, tr = pre ++ [s] ∧ Forall (λ s, answer s = None) pre ∧ is_Some (answer s)).

Lemma stops_cons s steps (rest : boot unit) :
  stops_at_first steps rest.1 (match rest.2 with inl _ => 0%Z | inr code => code end) →
  let m := attempt answer s ≫= λ _, rest in
  stops_at_first (s :: steps) m.1 (match m.2 with inl _ => 0%Z | inr code => code end).
Proof.
  unfold attempt. destruct (answer s) as [e|] eqn:E; destruct rest as [tr res]; simpl.
  - intros _. right. split; [done|]. split; [apply prefix_cons, prefix_nil|]. exists [], s. by rewrite E.
  - intros [(Hc & -> & Hok)|(Hc & Hp & pre & s' & -> & Hok & He)]; [left|right].
    + split_and!; [done|done|]. by constructor.
    + split_and!; [done|by apply prefix_cons|]. exists (s :: pre), s'. split_and!; [done| |done]. by constructor.
Qed.

Lemma attempt_last s : let m := attempt answer s in stops_at_first [s] m.1 (match m.2 with inl _ => 0%Z | inr code => code end).
Proof.
  unfold attempt. destruct (answer s) as [e|] eqn:E; simpl; [right|left].
  - split_and!; [done|done|]. exists [], s. by rewrite E.
  - split_and!; [done|done|]. by repeat constructor.
Qed.

(** C26: How the process ends. A scheme that cannot be filled is a panic, a bad
    command line exit code 2 and a call for help 0, all before anything is asked
    of the cluster. Otherwise the steps are taken in their order with the options
    the flags give: the client configuration, the manager, the controller, the
    two checks, the start; the first that fails ends the process with code 1 and
    no later one is taken, and only if none fails is the code 0. *)
Theorem process_ends args podNamespace :
  let '(tr, code) := process answer args podNamespace in
  match init with
  | Ok scheme =>
      match Parse library_flag library_Set args (defaults podNamespace) with
      | inr ErrHelp => tr = [] ∧ code = 0%Z
      | inr (Failf _) => tr = [] ∧ code = 2%Z
      | inl o => stops_at_first (startup scheme o) tr code
      end
  | _ => tr = [] ∧ code = 2%Z
  end.
Proof.
  unfold process, main, parseFlags. destruct init as [scheme| | |]; try done.
  destruct (Parse _ _ args _) as [o|[|e]]; try done. cbn [mbind boot_bind app].
  unfold startup. cbv zeta.
  assert (∀ (m : boot unit) steps, stops_at_first steps m.1 (match m.2 with inl _ => 0%Z | inr code => code end) →
    let '(tr, code) := let '(tr, r) := (let '(tr', r) := m in (tr', r)) in (tr, match r with inl _ => 0%Z | inr code => code end) in
    stops_at_first steps tr code) as Hshape by by intros [tr []].
  apply Hshape. do 5 apply stops_cons. apply attempt_last.
Qed.

(** What a server's options make of a TLS configuration. *)
Definition served (opts : list (tlsConfig → tlsConfig)) (c : tlsConfig) : tlsConfig := foldl (λ c f, f c) c opts.

(** The servers are closed unless flags open them. Whatever the flags, the
    metrics endpoint asks for authentication and authorization exactly when it is
    served over TLS, and neither server offers HTTP/2 unless it is enabled, while
    an enabled one is left as the libraries set it up. By default metrics are off
    and would be secure, HTTP/2 and leader election are off, and no certificate
    is read. *)
Theorem servers_closed_by_default scheme o podNamespace c :
  let opts := managerOptions scheme o in
  (ms_SecureServing (mo_Metrics opts) = true ↔ ms_FilterProvider (mo_Metrics opts) = Some WithAuthenticationAndAuthorization) ∧
  (bool_of o enableHTTP2 = false →
     NextProtos (served (ms_TLSOpts (mo_Metrics opts)) c) = ["http/1.1"] ∧
     NextProtos (served (wh_TLSOpts (mo_WebhookServer opts)) c) = ["http/1.1"]) ∧
  (bool_of o enableHTTP2 = true →
     served (ms_TLSOpts (mo_Metrics opts)) c = c ∧ served (wh_TLSOpts (mo_WebhookServer opts)) c = c) ∧
  (let d := managerOptions scheme (defaults podNamespace) in
   ms_BindAddress (mo_Metrics d) = "0" ∧ ms_SecureServing (mo_Metrics d) = true ∧ mo_LeaderElection d = false ∧
   bool_of (defaults podNamespace) enableHTTP2 = false ∧ ms_CertDir (mo_Metrics d) = "" ∧ wh_CertDir (mo_WebhookServer d) = "").
Proof.
  cbv zeta. unfold managerOptions, metricsServerOptions, webhookServerOptions, tlsOpts. simpl.
  split; [by destruct (bool_of o secureMetrics)|]. split; [intros ->; by destruct (0 <? _)%nat|].
  split; [intros ->; by destruct (0 <? _)%nat|]. by repeat split.
Qed.

(** The ConfigMaps the cache serves. *)
Definition in_cache (opts : CacheOptions) (key : NamespacedName) : Prop :=
  match ByObject_ConfigMap opts with
  | None => True
  | Some namespaces => ∃ sel, namespaces !! key.1 = Some sel ∧ fs_Field sel = "metadata.name" ∧ fs_Value sel = key.2
  end.

(** C25: The manager fits the reconciler. The reconciler that [main] builds reads
    no ConfigMap that the manager's cache does not hold, whatever is answered;
    where a global configuration is named the cache holds that ConfigMap and no
    other, and where the namespace is empty no ConfigMap is read or watched. All
    its calls are within the operator's role. *)
Theorem manager_serves_reconciler `{!ManagerLaws} `{Ext} `{ControllerExt} {W} (h : handler W) scheme o req w :
  let r := reconciler scheme o in
  let key := (str_of o globalConfigNamespace, str_of o globalConfigName) in
  r_Scheme r = Some scheme ∧
  Forall (λ e, within_role (ev_call e) ∧
               ∀ k, ev_call e = GetConfigMap k → k = key ∧ in_cache (cacheOpts o) k) (run h (Reconcile r req) w).1.2 ∧
  (key.1 ≠ "" → ∀ k, in_cache (cacheOpts o) k ↔ k = key) ∧
  (key.1 = "" → (SetupWithManager r).2 = false ∧
                Forall (λ e, ∀ k, ev_call e ≠ GetConfigMap k) (run h (Reconcile r req) w).1.2).
Proof.
  cbv zeta. set (r := reconciler scheme o). set (key := (str_of o globalConfigNamespace, str_of o globalConfigName)).
  assert (key.1 ≠ "" → ∀ k, in_cache (cacheOpts o) k ↔ k = key) as Hcache.
  { unfold in_cache, cacheOpts. cbn [ByObject_ConfigMap]. intros Hne k. subst key. cbn [fst] in Hne.
    destruct (String.eqb_spec (str_of o globalConfigNamespace) ""); [done|]. cbn [negb]. destruct k as [ns name]. cbn [fst snd]. split.
    - by intros (sel & [<- <-]%lookup_singleton_Some & _ & <-).
    - intros [= -> ->]. eexists. split; [apply lookup_singleton_eq|done]. }
  pose proof (issues_run _ h _ w (Reconcile_issues r req)) as Hcalls.
  split_and!; [apply GetScheme_given| |done|].
  - eapply Forall_impl; [exact Hcalls|]. intros [c a]. cbn [ev_call]. intros Hc. split.
    + apply call_within_role. intros k ->. destruct Hc as [E _]. unfold r, reconciler in E. simpl in E.
      by rewrite GetAPIReader_given in E.
    + intros k ->. destruct Hc as (-> & Hne & _). split; [done|]. by apply Hcache.
  - intros Hns. split.
    + unfold SetupWithManager, r. simpl. subst key. simpl in Hns. by rewrite Hns.
    + eapply Forall_impl; [exact Hcalls|]. intros [c a]. cbn [ev_call]. intros Hc k ->.
      destruct Hc as (-> & Hne & _). by apply Hne.
Qed.
End Startup.

(** ** A concrete start *)

#[local] Instance demo_manager : ManagerExt := {|
  SchemeState := list schemeGroup;
  NewScheme := [];
  AddToScheme g s := Ok (g :: s);
  Builder_AddToScheme _ _ s := Ok s;
  ObjectKinds _ := example_scheme;
  GetScheme o := Some (mo_Scheme o);
  GetAPIReader _ := true;
  GetEventRecorderFor _ _ := true;
  library_flag name := if String.eqb name "zap-devel" then Some true else if String.eqb name "kubeconfig" then Some false else None;
  library_Set _ _ := None
|}.
#[local] Instance demo_ManagerLaws : ManagerLaws.
Proof. by split. Defined.

(** The arguments of the chart's deployment. *)
Definition chart_args : list string :=
  ["--health-probe-bind-address=:8081"; "--metrics-bind-address=:8443"; "--metrics-secure=true"; "--leader-elect=true";
   "--global-config-name=config"; "--global-config-namespace=operator"].
Definition chart_vars : Vars :=
  match Parse library_flag library_Set chart_args (defaults "") with inl o => o | inr _ => defaults "" end.

Example chart_starts :
  (length (process (λ _, None) chart_args "").1, (process (λ _, None) chart_args "").2) = (6, 0%Z) ∧
  (process (λ s, match s with AddHealthzCheck _ => Some JsonError | _ => None end) chart_args "").2 = 1%Z ∧
  (process (λ _, None) ["-zap-devel"; "-no-such-flag"] "").2 = 2%Z.
Proof. vm_compute. done. Qed.

Lemma manager_serves_reconciler_witness :
  length (run demo_handler (Reconcile (reconciler example_scheme chart_vars) example_request) example_cluster).1.2 = 31 ∧
  r_Scheme (reconciler example_scheme chart_vars) = Some example_scheme ∧
  Forall (λ e, within_role (ev_call e) ∧
               ∀ k, ev_call e = GetConfigMap k → k = ("operator", "config") ∧ in_cache (cacheOpts chart_vars) k)
    (run demo_handler (Reconcile (reconciler example_scheme chart_vars) example_request) example_cluster).1.2.
Proof.
  split; [vm_compute; reflexivity|].
  pose proof (manager_serves_reconciler demo_handler example_scheme chart_vars example_request example_cluster)
    as (Hscheme & Hcalls & _).
  split; [exact Hscheme|exact Hcalls].
Defined.
